(** * The underdog martingale bot (bot.js), embedded in Rocq

    The development follows [src/bot.js]: the stream data handler that cuts
    the TLS byte stream into CRLF-terminated frames, the connection life
    cycle, the subscription batches, the market/order message router and the
    martingale staking engine.

    Modelling choices, all read off the source:
    - JavaScript numbers are IEEE-754 binary64 values; we use the executable
      specification [SpecFloat] of the Standard Library at precision 53 and
      maximal exponent 1024, so rounding, NaN and the infinities are the
      ones of the program.
    - The top-level [let] variables of the script are the fields of [State];
      the two objects used as dictionaries ([gameHistoricalData],
      [orderIds]) are association lists in insertion order, which is the
      order [Object.values] enumerates them in (market identifiers such as
      1.234 are no array indices).
    - [appendToNdjson] and [ws.write] are recorded as lists of emitted
      records; console output is not modelled.
    - [placeBet] is an [async] function.  In simulation it contains no
      [await] and runs to completion inside the caller; in live mode it
      suspends on the gateway, which is modelled by a list of pending
      continuations resumed by explicit gateway-reply events.
    - The three mode switches ([enableSimulation], [useImpossibleOdds],
      [testBetEnabled]) are constants of the script; they are kept as a
      [Config] record so that the other modes of the same code can be
      stated.  [bot_config] is the configuration of the source.
    - [JSON.parse] is a parameter of the data handler.  The process moves
      by socket events, timer events and gateway replies ([step]); a frame
      received whole and parsed is a message handed to
      [handleStreamMessage].
    - The start of [runBot] is modelled over what it obtains from outside:
      the answers of the gateway to the catalogue requests, the time value
      [new Date(text)] gives a date text, and the successive readings of
      the clock.  A catalogue entry carries the fields [runBot] reads.
      [gameHistoricalData[k]] is truthy for the property names every
      object inherits, so such an identifier is never tracked.
    - The status report of the first interval timer is the record of the
      numbers and lists it prints. *)

From Stdlib Require Import ZArith NArith List Bool String Ascii Lia Arith.
From Stdlib Require Import DecimalString.
From Stdlib Require Import Floats.SpecFloat.
Import ListNotations.

Set Implicit Arguments.

(** ** JavaScript numbers *)

Module Js.

Definition number : Type := spec_float.

Definition prec : Z := 53.
Definition emax : Z := 1024.

(** An integer literal. *)
Definition of_Z (z : Z) : number := binary_normalize prec emax z 0 false.

Definition add : number -> number -> number := SFadd prec emax.
Definition sub : number -> number -> number := SFsub prec emax.
Definition mul : number -> number -> number := SFmul prec emax.
Definition div : number -> number -> number := SFdiv prec emax.
Definition neg : number -> number := SFopp.
Definition abs : number -> number := SFabs.

(** The decimal literal [a/b] for integers [a], [b] that are exact in
    binary64: correctly rounded division yields the double nearest to the
    quotient, which is what the parser of the literal yields. *)
Definition dec (a b : Z) : number := div (of_Z a) (of_Z b).

(** [x < y], [x <= y], [x > y], [x >= y]; all false when NaN is involved. *)
Definition lt (x y : number) : bool := SFltb x y.
Definition le (x y : number) : bool := SFleb x y.
Definition gt (x y : number) : bool := SFltb y x.
Definition ge (x y : number) : bool := SFleb y x.

Definition isNaN (x : number) : bool :=
  match x with S754_nan => true | _ => false end.

(** [x === 0], true of both zeros. *)
Definition is_zero (x : number) : bool :=
  match x with S754_zero _ => true | _ => false end.

Definition isFinite (x : number) : bool :=
  match x with S754_zero _ | S754_finite _ _ _ => true | _ => false end.

(** Truthiness of a number: everything but the zeros and NaN. *)
Definition truthy (x : number) : bool := negb (is_zero x || isNaN x).

(** Structural equality of representations. *)
Definition eqb (x y : number) : bool :=
  match x, y with
  | S754_zero a, S754_zero b => Bool.eqb a b
  | S754_infinity a, S754_infinity b => Bool.eqb a b
  | S754_nan, S754_nan => true
  | S754_finite a m e, S754_finite b n f =>
      Bool.eqb a b && Pos.eqb m n && Z.eqb e f
  | _, _ => false
  end.

(** Values of the kind [typeof] distinguishes; only what the router looks
    at is kept apart. *)
Inductive value : Type :=
| Undefined
| Null
| Boolean (b : bool)
| Number (x : number)
| Str (s : string)
| Object.

(** A string is its sequence of UTF-16 code units. *)
Definition str : Type := list N.

Definition CR : N := 13.
Definition LF : N := 10.

(** [s.indexOf("\r\n")], [None] standing for -1. *)
Fixpoint indexOf_crlf (s : str) : option nat :=
  match s with
  | [] => None
  | c :: rest =>
      match rest with
      | d :: _ =>
          if (N.eqb c CR && N.eqb d LF)%bool then Some O
          else option_map S (indexOf_crlf rest)
      | [] => None
      end
  end.

(** [s.slice(0, n)] and [s.slice(n)] for [0 <= n]. *)
Definition slice_to (n : nat) (s : str) : str := firstn n s.
Definition slice_from (n : nat) (s : str) : str := skipn n s.

(** *** [Buffer.prototype.toString()]: UTF-8 decoding

    Ill-formed and truncated sequences are replaced by U+FFFD, one per
    maximal ill-formed subpart. *)

Inductive decoder : Type :=
| Idle
| Cont (cp : N) (needed : nat) (lo hi : N).

Definition REPLACEMENT : N := 65533.

Definition within (lo hi b : N) : bool := (N.leb lo b && N.leb b hi)%bool.

Definition lead (b : N) : list N * decoder :=
  if N.leb b 127 then ([b], Idle)
  else if within 194 223 b then ([], Cont (N.land b 31) 1 128 191)
  else if within 224 239 b then
    ([], Cont (N.land b 15) 2
           (if N.eqb b 224 then 160 else 128)
           (if N.eqb b 237 then 159 else 191))
  else if within 240 244 b then
    ([], Cont (N.land b 7) 3
           (if N.eqb b 240 then 144 else 128)
           (if N.eqb b 244 then 143 else 191))
  else ([REPLACEMENT], Idle).

Definition feed (d : decoder) (b : N) : list N * decoder :=
  match d with
  | Idle => lead b
  | Cont cp needed lo hi =>
      if within lo hi b then
        let cp' := N.lor (N.shiftl cp 6) (N.land b 63) in
        match needed with
        | S (S n) => ([], Cont cp' (S n) 128 191)
        | _ => ([cp'], Idle)
        end
      else
        let '(out, d') := lead b in (REPLACEMENT :: out, d')
  end.

Fixpoint decode (d : decoder) (bytes : list N) : list N :=
  match bytes with
  | [] => match d with Idle => [] | Cont _ _ _ _ => [REPLACEMENT] end
  | b :: rest => let '(out, d') := feed d b in out ++ decode d' rest
  end.

(** A code point as one or two UTF-16 code units. *)
Definition utf16 (cp : N) : list N :=
  if N.ltb cp 65536 then [cp]
  else [N.add 55296 (N.shiftr (N.sub cp 65536) 10);
        N.add 56320 (N.land (N.sub cp 65536) 1023)].

Definition toString (data : list Byte.byte) : str :=
  flat_map utf16 (decode Idle (map Byte.to_N data)).

End Js.

(** ** Configuration constants (bot.js, lines 46-64) *)

Record Config : Type := {
  enableSimulation : bool;
  useImpossibleOdds : bool;
  testBetEnabled : bool
}.

(** The switches as the script sets them. *)
Definition bot_config : Config :=
  {| enableSimulation := true; useImpossibleOdds := true; testBetEnabled := true |}.

Definition fixedBalance : Js.number := Js.of_Z 100.
Definition simulationBalance : Js.number := Js.of_Z 100.
Definition betPercentage : Js.number := Js.of_Z 10.
Definition maxMarketsPerSubscription : nat := 10.
Definition testBetOdds : Js.number := Js.dec 15 10.
Definition testBetOddsTolerance : Js.number := Js.of_Z 1.
Definition commissionFactor : Js.number := Js.dec 95 100.
Definition reconnectDelay : N := 20000.

(** ** Data model *)

Record Odds : Type := {
  pA : option Js.number;
  pB : option Js.number
}.

Record SetScore : Type := {
  homeScore : option Js.number;
  awayScore : option Js.number;
  completed : bool
}.

Record Bet : Type := {
  bet_selectionId : Z;
  bet_size : Js.number;
  bet_price : Js.number
}.

(** One entry of [gameHistoricalData] (built in [runBot], lines 707-720). *)
Record Game : Type := {
  isOpen : bool;
  marketId : string;
  playerA : string;
  playerB : string;
  selectionIdA : Z;
  selectionIdB : Z;
  currentOdds : Odds;
  sets : list SetScore;
  hasFirstSetEnded : bool;
  eventId : string;
  status : string;
  bet : option Bet
}.

Definition set_isOpen (v : bool) (g : Game) : Game :=
  {| isOpen := v; marketId := marketId g; playerA := playerA g;
     playerB := playerB g; selectionIdA := selectionIdA g;
     selectionIdB := selectionIdB g; currentOdds := currentOdds g;
     sets := sets g; hasFirstSetEnded := hasFirstSetEnded g;
     eventId := eventId g; status := status g; bet := bet g |}.

Definition set_currentOdds (v : Odds) (g : Game) : Game :=
  {| isOpen := isOpen g; marketId := marketId g; playerA := playerA g;
     playerB := playerB g; selectionIdA := selectionIdA g;
     selectionIdB := selectionIdB g; currentOdds := v;
     sets := sets g; hasFirstSetEnded := hasFirstSetEnded g;
     eventId := eventId g; status := status g; bet := bet g |}.

Definition set_pA (x : Js.number) (g : Game) : Game :=
  set_currentOdds {| pA := Some x; pB := pB (currentOdds g) |} g.

Definition set_pB (x : Js.number) (g : Game) : Game :=
  set_currentOdds {| pA := pA (currentOdds g); pB := Some x |} g.

Definition set_sets (v : list SetScore) (g : Game) : Game :=
  {| isOpen := isOpen g; marketId := marketId g; playerA := playerA g;
     playerB := playerB g; selectionIdA := selectionIdA g;
     selectionIdB := selectionIdB g; currentOdds := currentOdds g;
     sets := v; hasFirstSetEnded := hasFirstSetEnded g;
     eventId := eventId g; status := status g; bet := bet g |}.

Definition set_hasFirstSetEnded (v : bool) (g : Game) : Game :=
  {| isOpen := isOpen g; marketId := marketId g; playerA := playerA g;
     playerB := playerB g; selectionIdA := selectionIdA g;
     selectionIdB := selectionIdB g; currentOdds := currentOdds g;
     sets := sets g; hasFirstSetEnded := v;
     eventId := eventId g; status := status g; bet := bet g |}.

Definition set_status (v : string) (g : Game) : Game :=
  {| isOpen := isOpen g; marketId := marketId g; playerA := playerA g;
     playerB := playerB g; selectionIdA := selectionIdA g;
     selectionIdB := selectionIdB g; currentOdds := currentOdds g;
     sets := sets g; hasFirstSetEnded := hasFirstSetEnded g;
     eventId := eventId g; status := v; bet := bet g |}.

Definition set_bet (v : option Bet) (g : Game) : Game :=
  {| isOpen := isOpen g; marketId := marketId g; playerA := playerA g;
     playerB := playerB g; selectionIdA := selectionIdA g;
     selectionIdB := selectionIdB g; currentOdds := currentOdds g;
     sets := sets g; hasFirstSetEnded := hasFirstSetEnded g;
     eventId := eventId g; status := status g; bet := v |}.

(** *** Objects used as dictionaries

    Keys are unique; [dict_set] overwrites in place or appends, [dict_alter]
    mutates the object stored under a key, [dict_delete] is [delete o[k]].
    The list is in insertion order, which is the order in which JavaScript
    enumerates keys that are not canonical array indices; the keys of the
    script are market identifiers of the form [1.N], which are not. *)

Module Dict.

Definition t (V : Type) : Type := list (string * V).

Definition get {V} (k : string) (d : t V) : option V :=
  option_map snd (find (fun kv => String.eqb (fst kv) k) d).

Definition alter {V} (k : string) (f : V -> V) (d : t V) : t V :=
  map (fun kv => if String.eqb (fst kv) k then (fst kv, f (snd kv)) else kv) d.

Definition delete {V} (k : string) (d : t V) : t V :=
  filter (fun kv => negb (String.eqb (fst kv) k)) d.

Definition set {V} (k : string) (v : V) (d : t V) : t V :=
  match get k d with
  | Some _ => alter k (fun _ => v) d
  | None => d ++ [(k, v)]
  end.

Definition values {V} (d : t V) : list V := map snd d.

End Dict.

(** *** Inbound stream messages (the shapes the router reads)

    The records are the messages of the stream protocol: an object with a
    string [op], arrays of objects under [mc] and [oc], a number under
    [profit] when the field is present.  A frame that parses to some other
    JSON value (a [null] frame or element, [profit: null]) makes the router
    throw inside the [try] of the data handler at the first such read; the
    store is then as a message of these shapes, cut before that element,
    leaves it. *)

Record Score : Type := {
  score_sets : option (list SetScore)
}.

Record RunnerDefinition : Type := {
  runner_id : Z;
  runner_status : string
}.

Record MarketDefinition : Type := {
  inPlay : bool;
  md_status : string;
  score : option Score;
  runners : option (list RunnerDefinition)
}.

Record RunnerChange : Type := {
  rc_id : Z;
  batb : option (list (list Js.value))
}.

Record MarketChange : Type := {
  mc_id : string;
  marketDefinition : option MarketDefinition;
  rc : option (list RunnerChange)
}.

Record OrderReport : Type := {
  or_status : string;
  or_profit : option Js.number;
  or_betId : option string
}.

Record OrderChange : Type := {
  oc_marketId : string;
  oc_or : option (list OrderReport)
}.

Record Message : Type := {
  op : string;
  statusCode : string;
  mc : option (list MarketChange);
  oc : option (list OrderChange)
}.

(** *** Outbound protocol messages and log records *)

Inductive Outbound : Type :=
| Authentication
| MarketSubscription (id : nat) (marketIds : list string)
| OrderSubscription (id : nat).

Inductive Outcome : Type := no_bet | win | lose.

(** The records handed to [appendToNdjson], without their timestamp. *)
Inductive Entry : Type :=
| bet_placed (simulated : bool) (market : string) (selectionId : Z)
    (size price : Js.number) (betId : option string) (isTestBet : bool)
| bet_edited (betId : option string) (newSize newPrice : Js.number)
| odds_update (pA_odds pB_odds : option Js.number)
| market_excluded (market : string)
| bet_outcome (simulated : bool) (market : string) (selectionId : Z)
    (outcome : Outcome) (pnl : Js.number)
| market_closed (outcome : Outcome) (pnl : Js.number).

(** A [placeBet] or [editBet] activation suspended on the gateway. *)
Inductive Task : Type :=
| AwaitPlaceOrders (eventId market : string) (selectionId : Z)
    (price betSize : Js.number) (isTestBet : bool)
| AwaitReplaceOrders (market : string) (betId : option string)
    (newSize price : Js.number) (isTestBet : bool).

(** One activation of [placeBet]: its arguments. *)
Record Call : Type := {
  call_market : string;
  call_selectionId : Z;
  call_price : Js.number;
  call_isTestBet : bool
}.

(** ** Global state (bot.js, lines 66-82) *)

Record State : Type := {
  gameHistoricalData : Dict.t Game;
  orderIds : Dict.t string;
  hasOpenBet : bool;
  testBetPlaced : bool;
  hasPlacedBet : bool;
  simBalance : Js.number;
  multiplier : Js.number;
  ws : option nat;
  isSubscribed : bool;
  isAuthenticated : bool;
  buffer : Js.str;
  totalSetsCompleted : nat;
  totalConditionsMet : nat;
  totalBetsPlaced : nat;
  (* the environment, as far as the script acts on it *)
  sockets : nat;                      (* sockets opened so far by tls.connect *)
  timers : list N;                    (* delays of the pending setTimeout(connectStreamAPI, _) *)
  written : list (nat * Outbound);    (* ws.write, with the socket written to *)
  ndjson : list (string * Entry);   (* appendToNdjson(eventId, entry) *)
  pending : list Task;                (* activations awaiting the gateway *)
  placeBetCalls : list Call           (* activations of placeBet, in call order *)
}.

(** Assignment to one global variable. *)

Definition set_gameHistoricalData (v : Dict.t Game) (s : State) : State :=
  {| gameHistoricalData := v; orderIds := orderIds s;
     hasOpenBet := hasOpenBet s; testBetPlaced := testBetPlaced s;
     hasPlacedBet := hasPlacedBet s; simBalance := simBalance s;
     multiplier := multiplier s; ws := ws s; isSubscribed := isSubscribed s;
     isAuthenticated := isAuthenticated s; buffer := buffer s;
     totalSetsCompleted := totalSetsCompleted s;
     totalConditionsMet := totalConditionsMet s;
     totalBetsPlaced := totalBetsPlaced s; sockets := sockets s;
     timers := timers s; written := written s; ndjson := ndjson s;
     pending := pending s; placeBetCalls := placeBetCalls s |}.

Definition set_orderIds (v : Dict.t string) (s : State) : State :=
  {| gameHistoricalData := gameHistoricalData s; orderIds := v;
     hasOpenBet := hasOpenBet s; testBetPlaced := testBetPlaced s;
     hasPlacedBet := hasPlacedBet s; simBalance := simBalance s;
     multiplier := multiplier s; ws := ws s; isSubscribed := isSubscribed s;
     isAuthenticated := isAuthenticated s; buffer := buffer s;
     totalSetsCompleted := totalSetsCompleted s;
     totalConditionsMet := totalConditionsMet s;
     totalBetsPlaced := totalBetsPlaced s; sockets := sockets s;
     timers := timers s; written := written s; ndjson := ndjson s;
     pending := pending s; placeBetCalls := placeBetCalls s |}.

Definition set_hasOpenBet (v : bool) (s : State) : State :=
  {| gameHistoricalData := gameHistoricalData s; orderIds := orderIds s;
     hasOpenBet := v; testBetPlaced := testBetPlaced s;
     hasPlacedBet := hasPlacedBet s; simBalance := simBalance s;
     multiplier := multiplier s; ws := ws s; isSubscribed := isSubscribed s;
     isAuthenticated := isAuthenticated s; buffer := buffer s;
     totalSetsCompleted := totalSetsCompleted s;
     totalConditionsMet := totalConditionsMet s;
     totalBetsPlaced := totalBetsPlaced s; sockets := sockets s;
     timers := timers s; written := written s; ndjson := ndjson s;
     pending := pending s; placeBetCalls := placeBetCalls s |}.

Definition set_testBetPlaced (v : bool) (s : State) : State :=
  {| gameHistoricalData := gameHistoricalData s; orderIds := orderIds s;
     hasOpenBet := hasOpenBet s; testBetPlaced := v;
     hasPlacedBet := hasPlacedBet s; simBalance := simBalance s;
     multiplier := multiplier s; ws := ws s; isSubscribed := isSubscribed s;
     isAuthenticated := isAuthenticated s; buffer := buffer s;
     totalSetsCompleted := totalSetsCompleted s;
     totalConditionsMet := totalConditionsMet s;
     totalBetsPlaced := totalBetsPlaced s; sockets := sockets s;
     timers := timers s; written := written s; ndjson := ndjson s;
     pending := pending s; placeBetCalls := placeBetCalls s |}.

Definition set_hasPlacedBet (v : bool) (s : State) : State :=
  {| gameHistoricalData := gameHistoricalData s; orderIds := orderIds s;
     hasOpenBet := hasOpenBet s; testBetPlaced := testBetPlaced s;
     hasPlacedBet := v; simBalance := simBalance s;
     multiplier := multiplier s; ws := ws s; isSubscribed := isSubscribed s;
     isAuthenticated := isAuthenticated s; buffer := buffer s;
     totalSetsCompleted := totalSetsCompleted s;
     totalConditionsMet := totalConditionsMet s;
     totalBetsPlaced := totalBetsPlaced s; sockets := sockets s;
     timers := timers s; written := written s; ndjson := ndjson s;
     pending := pending s; placeBetCalls := placeBetCalls s |}.

Definition set_simBalance (v : Js.number) (s : State) : State :=
  {| gameHistoricalData := gameHistoricalData s; orderIds := orderIds s;
     hasOpenBet := hasOpenBet s; testBetPlaced := testBetPlaced s;
     hasPlacedBet := hasPlacedBet s; simBalance := v;
     multiplier := multiplier s; ws := ws s; isSubscribed := isSubscribed s;
     isAuthenticated := isAuthenticated s; buffer := buffer s;
     totalSetsCompleted := totalSetsCompleted s;
     totalConditionsMet := totalConditionsMet s;
     totalBetsPlaced := totalBetsPlaced s; sockets := sockets s;
     timers := timers s; written := written s; ndjson := ndjson s;
     pending := pending s; placeBetCalls := placeBetCalls s |}.

Definition set_multiplier (v : Js.number) (s : State) : State :=
  {| gameHistoricalData := gameHistoricalData s; orderIds := orderIds s;
     hasOpenBet := hasOpenBet s; testBetPlaced := testBetPlaced s;
     hasPlacedBet := hasPlacedBet s; simBalance := simBalance s;
     multiplier := v; ws := ws s; isSubscribed := isSubscribed s;
     isAuthenticated := isAuthenticated s; buffer := buffer s;
     totalSetsCompleted := totalSetsCompleted s;
     totalConditionsMet := totalConditionsMet s;
     totalBetsPlaced := totalBetsPlaced s; sockets := sockets s;
     timers := timers s; written := written s; ndjson := ndjson s;
     pending := pending s; placeBetCalls := placeBetCalls s |}.

Definition set_ws (v : option nat) (s : State) : State :=
  {| gameHistoricalData := gameHistoricalData s; orderIds := orderIds s;
     hasOpenBet := hasOpenBet s; testBetPlaced := testBetPlaced s;
     hasPlacedBet := hasPlacedBet s; simBalance := simBalance s;
     multiplier := multiplier s; ws := v; isSubscribed := isSubscribed s;
     isAuthenticated := isAuthenticated s; buffer := buffer s;
     totalSetsCompleted := totalSetsCompleted s;
     totalConditionsMet := totalConditionsMet s;
     totalBetsPlaced := totalBetsPlaced s; sockets := sockets s;
     timers := timers s; written := written s; ndjson := ndjson s;
     pending := pending s; placeBetCalls := placeBetCalls s |}.

Definition set_isSubscribed (v : bool) (s : State) : State :=
  {| gameHistoricalData := gameHistoricalData s; orderIds := orderIds s;
     hasOpenBet := hasOpenBet s; testBetPlaced := testBetPlaced s;
     hasPlacedBet := hasPlacedBet s; simBalance := simBalance s;
     multiplier := multiplier s; ws := ws s; isSubscribed := v;
     isAuthenticated := isAuthenticated s; buffer := buffer s;
     totalSetsCompleted := totalSetsCompleted s;
     totalConditionsMet := totalConditionsMet s;
     totalBetsPlaced := totalBetsPlaced s; sockets := sockets s;
     timers := timers s; written := written s; ndjson := ndjson s;
     pending := pending s; placeBetCalls := placeBetCalls s |}.

Definition set_isAuthenticated (v : bool) (s : State) : State :=
  {| gameHistoricalData := gameHistoricalData s; orderIds := orderIds s;
     hasOpenBet := hasOpenBet s; testBetPlaced := testBetPlaced s;
     hasPlacedBet := hasPlacedBet s; simBalance := simBalance s;
     multiplier := multiplier s; ws := ws s; isSubscribed := isSubscribed s;
     isAuthenticated := v; buffer := buffer s;
     totalSetsCompleted := totalSetsCompleted s;
     totalConditionsMet := totalConditionsMet s;
     totalBetsPlaced := totalBetsPlaced s; sockets := sockets s;
     timers := timers s; written := written s; ndjson := ndjson s;
     pending := pending s; placeBetCalls := placeBetCalls s |}.

Definition set_buffer (v : Js.str) (s : State) : State :=
  {| gameHistoricalData := gameHistoricalData s; orderIds := orderIds s;
     hasOpenBet := hasOpenBet s; testBetPlaced := testBetPlaced s;
     hasPlacedBet := hasPlacedBet s; simBalance := simBalance s;
     multiplier := multiplier s; ws := ws s; isSubscribed := isSubscribed s;
     isAuthenticated := isAuthenticated s; buffer := v;
     totalSetsCompleted := totalSetsCompleted s;
     totalConditionsMet := totalConditionsMet s;
     totalBetsPlaced := totalBetsPlaced s; sockets := sockets s;
     timers := timers s; written := written s; ndjson := ndjson s;
     pending := pending s; placeBetCalls := placeBetCalls s |}.

Definition set_totalSetsCompleted (v : nat) (s : State) : State :=
  {| gameHistoricalData := gameHistoricalData s; orderIds := orderIds s;
     hasOpenBet := hasOpenBet s; testBetPlaced := testBetPlaced s;
     hasPlacedBet := hasPlacedBet s; simBalance := simBalance s;
     multiplier := multiplier s; ws := ws s; isSubscribed := isSubscribed s;
     isAuthenticated := isAuthenticated s; buffer := buffer s;
     totalSetsCompleted := v; totalConditionsMet := totalConditionsMet s;
     totalBetsPlaced := totalBetsPlaced s; sockets := sockets s;
     timers := timers s; written := written s; ndjson := ndjson s;
     pending := pending s; placeBetCalls := placeBetCalls s |}.

Definition set_totalConditionsMet (v : nat) (s : State) : State :=
  {| gameHistoricalData := gameHistoricalData s; orderIds := orderIds s;
     hasOpenBet := hasOpenBet s; testBetPlaced := testBetPlaced s;
     hasPlacedBet := hasPlacedBet s; simBalance := simBalance s;
     multiplier := multiplier s; ws := ws s; isSubscribed := isSubscribed s;
     isAuthenticated := isAuthenticated s; buffer := buffer s;
     totalSetsCompleted := totalSetsCompleted s; totalConditionsMet := v;
     totalBetsPlaced := totalBetsPlaced s; sockets := sockets s;
     timers := timers s; written := written s; ndjson := ndjson s;
     pending := pending s; placeBetCalls := placeBetCalls s |}.

Definition set_totalBetsPlaced (v : nat) (s : State) : State :=
  {| gameHistoricalData := gameHistoricalData s; orderIds := orderIds s;
     hasOpenBet := hasOpenBet s; testBetPlaced := testBetPlaced s;
     hasPlacedBet := hasPlacedBet s; simBalance := simBalance s;
     multiplier := multiplier s; ws := ws s; isSubscribed := isSubscribed s;
     isAuthenticated := isAuthenticated s; buffer := buffer s;
     totalSetsCompleted := totalSetsCompleted s;
     totalConditionsMet := totalConditionsMet s; totalBetsPlaced := v;
     sockets := sockets s; timers := timers s; written := written s;
     ndjson := ndjson s; pending := pending s;
     placeBetCalls := placeBetCalls s |}.

Definition set_sockets (v : nat) (s : State) : State :=
  {| gameHistoricalData := gameHistoricalData s; orderIds := orderIds s;
     hasOpenBet := hasOpenBet s; testBetPlaced := testBetPlaced s;
     hasPlacedBet := hasPlacedBet s; simBalance := simBalance s;
     multiplier := multiplier s; ws := ws s; isSubscribed := isSubscribed s;
     isAuthenticated := isAuthenticated s; buffer := buffer s;
     totalSetsCompleted := totalSetsCompleted s;
     totalConditionsMet := totalConditionsMet s;
     totalBetsPlaced := totalBetsPlaced s; sockets := v; timers := timers s;
     written := written s; ndjson := ndjson s; pending := pending s;
     placeBetCalls := placeBetCalls s |}.

Definition set_timers (v : list N) (s : State) : State :=
  {| gameHistoricalData := gameHistoricalData s; orderIds := orderIds s;
     hasOpenBet := hasOpenBet s; testBetPlaced := testBetPlaced s;
     hasPlacedBet := hasPlacedBet s; simBalance := simBalance s;
     multiplier := multiplier s; ws := ws s; isSubscribed := isSubscribed s;
     isAuthenticated := isAuthenticated s; buffer := buffer s;
     totalSetsCompleted := totalSetsCompleted s;
     totalConditionsMet := totalConditionsMet s;
     totalBetsPlaced := totalBetsPlaced s; sockets := sockets s; timers := v;
     written := written s; ndjson := ndjson s; pending := pending s;
     placeBetCalls := placeBetCalls s |}.

Definition set_written (v : list (nat * Outbound)) (s : State) : State :=
  {| gameHistoricalData := gameHistoricalData s; orderIds := orderIds s;
     hasOpenBet := hasOpenBet s; testBetPlaced := testBetPlaced s;
     hasPlacedBet := hasPlacedBet s; simBalance := simBalance s;
     multiplier := multiplier s; ws := ws s; isSubscribed := isSubscribed s;
     isAuthenticated := isAuthenticated s; buffer := buffer s;
     totalSetsCompleted := totalSetsCompleted s;
     totalConditionsMet := totalConditionsMet s;
     totalBetsPlaced := totalBetsPlaced s; sockets := sockets s;
     timers := timers s; written := v; ndjson := ndjson s;
     pending := pending s; placeBetCalls := placeBetCalls s |}.

Definition set_ndjson (v : list (string * Entry)) (s : State) : State :=
  {| gameHistoricalData := gameHistoricalData s; orderIds := orderIds s;
     hasOpenBet := hasOpenBet s; testBetPlaced := testBetPlaced s;
     hasPlacedBet := hasPlacedBet s; simBalance := simBalance s;
     multiplier := multiplier s; ws := ws s; isSubscribed := isSubscribed s;
     isAuthenticated := isAuthenticated s; buffer := buffer s;
     totalSetsCompleted := totalSetsCompleted s;
     totalConditionsMet := totalConditionsMet s;
     totalBetsPlaced := totalBetsPlaced s; sockets := sockets s;
     timers := timers s; written := written s; ndjson := v;
     pending := pending s; placeBetCalls := placeBetCalls s |}.

Definition set_pending (v : list Task) (s : State) : State :=
  {| gameHistoricalData := gameHistoricalData s; orderIds := orderIds s;
     hasOpenBet := hasOpenBet s; testBetPlaced := testBetPlaced s;
     hasPlacedBet := hasPlacedBet s; simBalance := simBalance s;
     multiplier := multiplier s; ws := ws s; isSubscribed := isSubscribed s;
     isAuthenticated := isAuthenticated s; buffer := buffer s;
     totalSetsCompleted := totalSetsCompleted s;
     totalConditionsMet := totalConditionsMet s;
     totalBetsPlaced := totalBetsPlaced s; sockets := sockets s;
     timers := timers s; written := written s; ndjson := ndjson s;
     pending := v; placeBetCalls := placeBetCalls s |}.

Definition set_placeBetCalls (v : list Call) (s : State) : State :=
  {| gameHistoricalData := gameHistoricalData s; orderIds := orderIds s;
     hasOpenBet := hasOpenBet s; testBetPlaced := testBetPlaced s;
     hasPlacedBet := hasPlacedBet s; simBalance := simBalance s;
     multiplier := multiplier s; ws := ws s; isSubscribed := isSubscribed s;
     isAuthenticated := isAuthenticated s; buffer := buffer s;
     totalSetsCompleted := totalSetsCompleted s;
     totalConditionsMet := totalConditionsMet s;
     totalBetsPlaced := totalBetsPlaced s; sockets := sockets s;
     timers := timers s; written := written s; ndjson := ndjson s;
     pending := pending s; placeBetCalls := v |}.

(** [counter++] *)
Definition incr_totalSetsCompleted (s : State) : State :=
  set_totalSetsCompleted (S (totalSetsCompleted s)) s.

Definition incr_totalConditionsMet (s : State) : State :=
  set_totalConditionsMet (S (totalConditionsMet s)) s.

Definition incr_totalBetsPlaced (s : State) : State :=
  set_totalBetsPlaced (S (totalBetsPlaced s)) s.

(** The outcome of running a handler: it returned, or it threw after the
    assignments made so far. *)
Inductive Result : Type :=
| Normal (s : State)
| Thrown (s : State).

Definition state_of (r : Result) : State :=
  match r with Normal s | Thrown s => s end.

(** What the gateway answers to a suspended request: the request failed
    (network error or a response that is not ok), or it succeeded; for
    [placeOrders] the answer carries [instructionReports[0].betId]. *)
Inductive Reply : Type :=
| Failed
| Succeeded (betId : option string).

(** What can happen to the process once [runBot] has set it up. *)
Inductive Event : Type :=
| SocketConnect
| SocketData (data : list Byte.byte)
| SocketError
| SocketClose
| ReconnectTimer
| Gateway (task : nat) (reply : Reply).

(** ** The program *)

Section Bot.

Variable cfg : Config.

(** [JSON.parse], [None] when it throws. *)
Variable JSON_parse : Js.str -> option Message.

Definition appendToNdjson (eventId : string) (entry : Entry) (s : State) : State :=
  set_ndjson (ndjson s ++ [(eventId, entry)]) s.

(** [ws.write(JSON.stringify(m) + "\r\n")] on the current socket. *)
Definition ws_write (m : Outbound) (s : State) : State :=
  match ws s with
  | Some socket => set_written (written s ++ [(socket, m)]) s
  | None => s
  end.

(** [game.eventId || marketId] *)
Definition eventId_or (game : Game) (marketId : string) : string :=
  if String.eqb (eventId game) ""%string then marketId else eventId game.

(** Mutation of the object stored under [marketId]. *)
Definition modify_game (marketId : string) (f : Game -> Game) (s : State) : State :=
  set_gameHistoricalData (Dict.alter marketId f (gameHistoricalData s)) s.

(** [orderIds[marketId] = betId]; a property holding [undefined] reads like
    an absent one. *)
Definition assign_orderId (marketId : string) (betId : option string)
  (d : Dict.t string) : Dict.t string :=
  match betId with
  | Some b => Dict.set marketId b d
  | None => Dict.delete marketId d
  end.

(** *** subscribeToOpenMarkets (lines 181-218) *)

(** The [for] loop over [i = 0, 10, 20, ...]; [fuel] bounds its iterations. *)
Fixpoint subscription_loop (fuel i : nat) (openMarketIds : list string)
  (s : State) : State :=
  match fuel with
  | O => s
  | S fuel' =>
      if i <? List.length openMarketIds then
        let batch := firstn maxMarketsPerSubscription (skipn i openMarketIds) in
        let subscriptionMessage :=
          MarketSubscription (1 + i / maxMarketsPerSubscription) batch in
        subscription_loop fuel' (i + maxMarketsPerSubscription) openMarketIds
          (ws_write subscriptionMessage s)
      else s
  end.

Definition openMarketIds_of (s : State) : list string :=
  map marketId (filter isOpen (Dict.values (gameHistoricalData s))).

Definition subscribeToOpenMarkets (s : State) : State :=
  if isSubscribed s then s
  else
    let openMarketIds := openMarketIds_of s in
    match ws s, openMarketIds with
    | None, _ | _, [] => s
    | Some _, _ :: _ =>
        let s := subscription_loop (List.length openMarketIds) 0 openMarketIds s in
        let s := ws_write (OrderSubscription 999) s in
        set_isSubscribed true s
    end.

(** *** placeBet and editBet (lines 221-373) *)

Definition betSize_of (s : State) : Js.number :=
  if enableSimulation cfg then
    Js.mul (Js.mul (Js.div betPercentage (Js.of_Z 100)) (simBalance s)) (multiplier s)
  else if useImpossibleOdds cfg then Js.of_Z 2
  else Js.mul (Js.mul (Js.div betPercentage (Js.of_Z 100)) fixedBalance) (multiplier s).

(** The part of [placeBet] that runs inside its caller: all of it in
    simulation, everything up to the first [await] otherwise. *)
Definition placeBet (marketId : string) (selectionId : Z) (price : Js.number)
  (isTestBet : bool) (s : State) : State :=
  let s := set_placeBetCalls
             (placeBetCalls s ++
                [{| call_market := marketId; call_selectionId := selectionId;
                    call_price := price; call_isTestBet := isTestBet |}]) s in
  let betSize := betSize_of s in
  match Dict.get marketId (gameHistoricalData s) with
  | None => s
  | Some game =>
      let eventId := eventId_or game marketId in
      if enableSimulation cfg then
        let s := set_orderIds (Dict.set marketId ("sim_" ++ marketId)%string (orderIds s)) s in
        let s := set_simBalance (Js.sub (simBalance s) betSize) s in
        let s := modify_game marketId
                   (set_bet (Some {| bet_selectionId := selectionId;
                                     bet_size := betSize; bet_price := price |})) s in
        let s := appendToNdjson eventId
                   (bet_placed true marketId selectionId betSize price None isTestBet) s in
        let s := set_hasPlacedBet true s in
        let s := set_hasOpenBet true s in
        if isTestBet then set_testBetPlaced true s else s
      else
        set_pending
          (pending s ++
             [AwaitPlaceOrders eventId marketId selectionId price betSize isTestBet]) s
  end.

(** The end of [placeBet] after [editBet] has settled (lines 322-323). *)
Definition placeBet_end (isTestBet : bool) (s : State) : State :=
  let s := set_hasPlacedBet true s in
  if isTestBet then set_testBetPlaced true s else s.

(** [editBet] up to its [await]. *)
Definition editBet (marketId : string) (betId : option string)
  (newSize price : Js.number) (isTestBet : bool) (s : State) : State :=
  if negb (enableSimulation cfg) then
    set_pending
      (pending s ++ [AwaitReplaceOrders marketId betId newSize price isTestBet]) s
  else placeBet_end isTestBet s.

(** [placeBet] from the answer to [placeOrders] on (lines 293-326). *)
Definition placeBet_resume (eventId marketId : string) (selectionId : Z)
  (price betSize : Js.number) (isTestBet : bool) (reply : Reply) (s : State) : State :=
  match reply with
  | Failed => s
  | Succeeded betId =>
      let betPrice := if useImpossibleOdds cfg then Js.of_Z 1000 else price in
      let s := set_orderIds (assign_orderId marketId betId (orderIds s)) s in
      match Dict.get marketId (gameHistoricalData s) with
      | None => s
      | Some _ =>
          let s := modify_game marketId
                     (set_bet (Some {| bet_selectionId := selectionId;
                                       bet_size := betSize; bet_price := betPrice |})) s in
          let s := appendToNdjson eventId
                     (bet_placed false marketId selectionId betSize betPrice betId isTestBet) s in
          if useImpossibleOdds cfg then
            editBet marketId betId (Js.dec 5 100) price isTestBet s
          else
            let s := set_hasOpenBet true s in
            placeBet_end isTestBet s
      end
  end.

(** [editBet] from the answer to [replaceOrders] on (lines 352-371), then
    the end of the [placeBet] that awaited it. *)
Definition editBet_resume (marketId : string) (betId : option string)
  (newSize price : Js.number) (isTestBet : bool) (reply : Reply) (s : State) : State :=
  let s :=
    match reply with
    | Failed => s
    | Succeeded _ =>
        match Dict.get marketId (gameHistoricalData s) with
        | None => s
        | Some game =>
            match bet game with
            | None => s
            | Some b =>
                let s := modify_game marketId
                           (set_bet (Some {| bet_selectionId := bet_selectionId b;
                                             bet_size := newSize; bet_price := price |})) s in
                let s := appendToNdjson (eventId_or game marketId)
                           (bet_edited betId newSize price) s in
                set_hasOpenBet true s
            end
        end
    end in
  placeBet_end isTestBet s.

(** *** handleStreamMessage: market changes (lines 439-636) *)

(** [mc.marketDefinition?.inPlay || false] *)
Definition isInPlay_of (mc : MarketChange) : bool :=
  match marketDefinition mc with
  | Some md => inPlay md
  | None => false
  end.

(** [mc.marketDefinition?.score] *)
Definition score_of (mc : MarketChange) : option Score :=
  match marketDefinition mc with
  | Some md => score md
  | None => None
  end.

(** [mc.marketDefinition?.status === "CLOSED"] *)
Definition is_closed (mc : MarketChange) : bool :=
  match marketDefinition mc with
  | Some md => String.eqb (md_status md) "CLOSED"
  | None => false
  end.

(** [runner.batb?.[0]?.[0]] *)
Definition best_back (runner : RunnerChange) : Js.value :=
  match batb runner with
  | Some ((odds :: _) :: _) => odds
  | _ => Js.Undefined
  end.

(** The body of [mc.rc.forEach] (lines 473-505). *)
Definition update_runner (marketId : string) (runner : RunnerChange) (s : State) : State :=
  match Dict.get marketId (gameHistoricalData s) with
  | None => s
  | Some game =>
      match best_back runner with
      | Js.Number odds =>
          if Js.isNaN odds || Js.is_zero odds then s
          else if Js.le odds (Js.of_Z 1) then s
          else if Z.eqb (rc_id runner) (selectionIdA game) then
            modify_game marketId (set_pA odds) s
          else if Z.eqb (rc_id runner) (selectionIdB game) then
            modify_game marketId (set_pB odds) s
          else s
      | _ => s
      end
  end.

(** [odds && Math.abs(odds - testBetOdds) <= testBetOddsTolerance] *)
Definition near_testBetOdds (odds : Js.number) : bool :=
  Js.truthy odds && Js.le (Js.abs (Js.sub odds testBetOdds)) testBetOddsTolerance.

(** The test-bet trigger (lines 508-529). *)
Definition test_bet (marketId : string) (isInPlay : bool) (s : State) : State :=
  if testBetEnabled cfg && isInPlay && negb (testBetPlaced s) && negb (hasOpenBet s) then
    match Dict.get marketId (gameHistoricalData s) with
    | None => s
    | Some game =>
        let sideB :=
          match pB (currentOdds game) with
          | Some oddsB =>
              if near_testBetOdds oddsB then
                placeBet marketId (selectionIdB game) oddsB true s
              else s
          | None => s
          end in
        match pA (currentOdds game) with
        | Some oddsA =>
            if near_testBetOdds oddsA then
              placeBet marketId (selectionIdA game) oddsA true s
            else sideB
        | None => sideB
        end
    end
  else s.

(** The value logged for one side in an [odds_update] record. *)
Definition logged_odds (odds : option Js.number) : option Js.number :=
  match odds with
  | Some x => if negb (Js.isNaN x) && Js.gt x (Js.of_Z 1) then Some x else None
  | None => None
  end.

(** The block guarded by [mc.rc && isInPlay] (lines 465-547). *)
Definition odds_phase (marketId : string) (runnerChanges : list RunnerChange)
  (isInPlay : bool) (s : State) : State :=
  let s := fold_left (fun s runner => update_runner marketId runner s) runnerChanges s in
  let s := test_bet marketId isInPlay s in
  match Dict.get marketId (gameHistoricalData s) with
  | None => s
  | Some game =>
      appendToNdjson (eventId_or game marketId)
        (odds_update (logged_odds (pA (currentOdds game)))
                     (logged_odds (pB (currentOdds game)))) s
  end.

(** [x || 0] for a game count. *)
Definition or_zero (x : option Js.number) : Js.number :=
  match x with
  | Some v => if Js.truthy v then v else Js.of_Z 0
  | None => Js.of_Z 0
  end.

(** The first-set trigger (lines 549-581). *)
Definition score_phase (marketId : string) (mc : MarketChange) (s : State) : State :=
  match score_of mc with
  | None => s
  | Some sc =>
      if testBetEnabled cfg then s
      else
        let s := modify_game marketId
                   (set_sets (match score_sets sc with Some l => l | None => [] end)) s in
        match Dict.get marketId (gameHistoricalData s) with
        | None => s
        | Some game =>
            match sets game with
            | [] => s
            | set1 :: _ =>
                if negb (hasFirstSetEnded game) && completed set1 then
                  let s := modify_game marketId (set_hasFirstSetEnded true) s in
                  let s := incr_totalSetsCompleted s in
                  let homeScore := or_zero (homeScore set1) in
                  let awayScore := or_zero (awayScore set1) in
                  let difference := Js.abs (Js.sub homeScore awayScore) in
                  let underdogOdds :=
                    if Js.gt homeScore awayScore then pB (currentOdds game)
                    else pA (currentOdds game) in
                  match underdogOdds with
                  | Some odds =>
                      (* [underdogOdds >= 2] is false of [null] *)
                      if Js.le difference (Js.of_Z 2) && Js.ge odds (Js.of_Z 2) then
                        let s := incr_totalConditionsMet s in
                        if negb (hasOpenBet s) then
                          let s := placeBet marketId
                                     (if Js.gt homeScore awayScore
                                      then selectionIdB game else selectionIdA game)
                                     odds false s in
                          incr_totalBetsPlaced s
                        else s
                      else s
                  | None => s
                  end
                else s
            end
        end
  end.

(** Settlement of the bet held by a closing market (lines 586-619): the
    outcome, the profit and the state after the accounting. *)
Definition settle (marketId : string) (game : Game) (mc : MarketChange) (s : State)
  : Outcome * Js.number * State :=
  match bet game, match marketDefinition mc with Some md => runners md | None => None end with
  | Some b, Some rs =>
      match find (fun r => String.eqb (runner_status r) "WINNER") rs with
      | Some winningRunner =>
          let isWin := Z.eqb (runner_id winningRunner) (bet_selectionId b) in
          let '(outcome, pnl, s) :=
            if isWin then
              let pnl := Js.mul (Js.mul (Js.sub (bet_price b) (Js.of_Z 1)) (bet_size b))
                           commissionFactor in
              let s := if enableSimulation cfg
                       then set_simBalance (Js.add (simBalance s) (Js.add pnl (bet_size b))) s
                       else s in
              (win, pnl, set_multiplier (Js.of_Z 1) s)
            else
              let pnl := Js.neg (bet_size b) in
              let s := if enableSimulation cfg
                       then set_simBalance (Js.sub (simBalance s) (bet_size b)) s
                       else s in
              (lose, pnl, set_multiplier (Js.mul (multiplier s) (Js.of_Z 2)) s) in
          (outcome, pnl,
           appendToNdjson (eventId_or game marketId)
             (bet_outcome (enableSimulation cfg) marketId (bet_selectionId b) outcome pnl) s)
      | None => (no_bet, Js.of_Z 0, s)
      end
  | _, _ => (no_bet, Js.of_Z 0, s)
  end.

(** The status block (lines 583-635). *)
Definition status_phase (marketId : string) (mc : MarketChange) (s : State) : State :=
  if is_closed mc then
    let s := modify_game marketId (fun g => set_status "ENDED" (set_isOpen false g)) s in
    match Dict.get marketId (gameHistoricalData s) with
    | None => s
    | Some game =>
        let '(outcome, pnl, s) := settle marketId game mc s in
        let s := appendToNdjson (eventId_or game marketId) (market_closed outcome pnl) s in
        let s := set_orderIds (Dict.delete marketId (orderIds s)) s in
        let s := set_gameHistoricalData (Dict.delete marketId (gameHistoricalData s)) s in
        let s := set_hasOpenBet false s in
        set_testBetPlaced false s
    end
  else if isInPlay_of mc then modify_game marketId (set_status "IN_PLAY") s
  else modify_game marketId (set_status "UPCOMING") s.

(** The exclusion of an in-play market without score (lines 447-462). *)
Definition excluded (mc : MarketChange) : bool :=
  negb (testBetEnabled cfg) && isInPlay_of mc
  && match score_of mc with Some _ => false | None => true end.

(** [if (mc.rc && isInPlay) { ... }] *)
Definition price_phase (mc : MarketChange) (s : State) : State :=
  match rc mc with
  | Some runnerChanges =>
      if isInPlay_of mc
      then odds_phase (mc_id mc) runnerChanges (isInPlay_of mc) s
      else s
  | None => s
  end.

(** The body of [message.mc.forEach]. *)
Definition market_change (mc : MarketChange) (s : State) : State :=
  let marketId := mc_id mc in
  match Dict.get marketId (gameHistoricalData s) with
  | None => s
  | Some game =>
      if negb (isOpen game) then s
      else if excluded mc then
        let s := modify_game marketId (set_isOpen false) s in
        appendToNdjson (eventId_or game marketId) (market_excluded marketId) s
      else
        let s := price_phase mc s in
        let s := score_phase marketId mc s in
        status_phase marketId mc s
  end.

(** *** handleStreamMessage: order changes (lines 637-672) *)

Definition same_betId (a b : option string) : bool :=
  match a, b with
  | Some x, Some y => String.eqb x y
  | None, None => true
  | _, _ => false
  end.

(** [oc.or.forEach] over the reports of one market; [game] is the object
    read before the loop.  Reading [game.bet.selectionId] of a game without
    bet throws. *)
Fixpoint order_reports (marketId : string) (game : Game) (orders : list OrderReport)
  (s : State) : Result :=
  match orders with
  | [] => Normal s
  | order :: rest =>
      match or_profit order with
      | Some profit =>
          if String.eqb (or_status order) "EXECUTION_COMPLETE"
             && same_betId (or_betId order) (Dict.get marketId (orderIds s))
          then
            let outcome := if Js.gt profit (Js.of_Z 0) then win else lose in
            match bet game with
            | None => Thrown s
            | Some b =>
                let s := appendToNdjson (eventId_or game marketId)
                           (bet_outcome false marketId (bet_selectionId b) outcome profit) s in
                let s := set_multiplier
                           (match outcome with
                            | win => Js.of_Z 1
                            | _ => Js.mul (multiplier s) (Js.of_Z 2)
                            end) s in
                let s := set_hasOpenBet false s in
                let s := set_testBetPlaced false s in
                let s := set_orderIds (Dict.delete marketId (orderIds s)) s in
                order_reports marketId game rest s
            end
          else order_reports marketId game rest s
      | None => order_reports marketId game rest s
      end
  end.

(** [orderIds[marketId]] is truthy: present and not the empty string. *)
Definition has_orderId (marketId : string) (s : State) : bool :=
  match Dict.get marketId (orderIds s) with
  | Some b => negb (String.eqb b "")
  | None => false
  end.

Definition order_change (oc : OrderChange) (s : State) : Result :=
  let marketId := oc_marketId oc in
  match Dict.get marketId (gameHistoricalData s) with
  | Some game =>
      if has_orderId marketId s && negb (enableSimulation cfg) then
        match oc_or oc with
        | Some orders => order_reports marketId game orders s
        | None => Normal s
        end
      else Normal s
  | None => Normal s
  end.

Fixpoint order_changes (ocs : list OrderChange) (s : State) : Result :=
  match ocs with
  | [] => Normal s
  | oc :: rest =>
      match order_change oc s with
      | Normal s' => order_changes rest s'
      | Thrown s' => Thrown s'
      end
  end.

(** *** handleStreamMessage (lines 431-673) *)

Definition handleStreamMessage (message : Message) (s : State) : Result :=
  if String.eqb (op message) "status" && String.eqb (statusCode message) "SUCCESS" then
    let s := if negb (isAuthenticated s) then set_isAuthenticated true s else s in
    Normal (subscribeToOpenMarkets s)
  else if String.eqb (op message) "mcm" then
    match mc message with
    | Some mcs => Normal (fold_left (fun s mc => market_change mc s) mcs s)
    | None => Normal s
    end
  else if String.eqb (op message) "ocm" then
    match oc message with
    | Some ocs => order_changes ocs s
    | None => Normal s
    end
  else Normal s.

(** The effect of a sequence of parsed frames handed to the router one
    after the other, each inside the [try] of the data handler. *)
Definition deliver (messages : list Message) (s : State) : State :=
  fold_left (fun s m => state_of (handleStreamMessage m s)) messages s.

(** *** connectStreamAPI and the socket handlers (lines 376-428)

    [ws.destroy()] of a socket that is still open makes Node emit [close]
    for it later; that event is not part of this function but a
    [SocketClose] of the environment, like the [close] that follows an
    [error]. *)

Definition connectStreamAPI (s : State) : State :=
  let s := match ws s with
           | Some _ => set_ws None s
           | None => s
           end in
  let s := set_isSubscribed false s in
  let s := set_isAuthenticated false s in
  let s := set_ws (Some (sockets s)) s in
  set_sockets (S (sockets s)) s.

Definition on_connect (s : State) : State := ws_write Authentication s.

(** [try { handleStreamMessage(JSON.parse(message)) } catch { log }] *)
Definition dispatch (message : Js.str) (s : State) : State :=
  match JSON_parse message with
  | Some m => state_of (handleStreamMessage m s)
  | None => s
  end.

(** The [while (true)] loop of the data handler; it returns the frames it
    cut off, in order, next to the state. [fuel] bounds its iterations. *)
Fixpoint drain (fuel : nat) (s : State) : list Js.str * State :=
  match fuel with
  | O => ([], s)
  | S fuel' =>
      match Js.indexOf_crlf (buffer s) with
      | None => ([], s)
      | Some index =>
          let message := Js.slice_to index (buffer s) in
          let s := set_buffer (Js.slice_from (index + 2) (buffer s)) s in
          let s := dispatch message s in
          let '(frames, s) := drain fuel' s in
          (message :: frames, s)
      end
  end.

Definition on_data (data : list Byte.byte) (s : State) : list Js.str * State :=
  let s := set_buffer (buffer s ++ Js.toString data) s in
  drain (S (List.length (buffer s))) s.

(** [setTimeout(connectStreamAPI, 20000)] *)
Definition schedule_reconnect (s : State) : State :=
  set_timers (timers s ++ [reconnectDelay]) s.

Definition on_error (s : State) : State :=
  let s := set_isSubscribed false s in
  schedule_reconnect s.

Definition on_close (s : State) : State :=
  let s := set_isSubscribed false s in
  schedule_reconnect s.

(** *** The event loop *)

(** The task at position [n] of the pending list, and the list without it. *)
Fixpoint take_task (n : nat) (tasks : list Task) : option (Task * list Task) :=
  match tasks, n with
  | [], _ => None
  | t :: rest, O => Some (t, rest)
  | t :: rest, S n' =>
      match take_task n' rest with
      | Some (t', rest') => Some (t', t :: rest')
      | None => None
      end
  end.

Definition resume (t : Task) (reply : Reply) (s : State) : State :=
  match t with
  | AwaitPlaceOrders eventId marketId selectionId price betSize isTestBet =>
      placeBet_resume eventId marketId selectionId price betSize isTestBet reply s
  | AwaitReplaceOrders marketId betId newSize price isTestBet =>
      editBet_resume marketId betId newSize price isTestBet reply s
  end.

(** The gateway answers the suspended request at position [n]. *)
Definition gateway_reply (n : nat) (reply : Reply) (s : State) : State :=
  match take_task n (pending s) with
  | Some (t, rest) => resume t reply (set_pending rest s)
  | None => s
  end.

Definition step (e : Event) (s : State) : State :=
  match e with
  | SocketConnect => on_connect s
  | SocketData data => snd (on_data data s)
  | SocketError => on_error s
  | SocketClose => on_close s
  | ReconnectTimer =>
      match timers s with
      | [] => s
      | _ :: rest => connectStreamAPI (set_timers rest s)
      end
  | Gateway n reply => gateway_reply n reply s
  end.

Definition run (events : list Event) (s : State) : State :=
  fold_left (fun s e => step e s) events s.

End Bot.

(** *** runBot (lines 696-729): the store and the first connection *)

Definition new_game (marketId eventId playerA playerB : string)
  (selectionIdA selectionIdB : Z) (status : string) : Game :=
  {| isOpen := true; marketId := marketId; playerA := playerA; playerB := playerB;
     selectionIdA := selectionIdA; selectionIdB := selectionIdB;
     currentOdds := {| pA := None; pB := None |};
     sets := []; hasFirstSetEnded := false; eventId := eventId;
     status := status; bet := None |}.

(** The globals as declared, with the store [runBot] has filled. *)
Definition globals (store : Dict.t Game) : State :=
  {| gameHistoricalData := store; orderIds := [];
     hasOpenBet := false; testBetPlaced := false; hasPlacedBet := false;
     simBalance := simulationBalance; multiplier := Js.of_Z 1;
     ws := None; isSubscribed := false; isAuthenticated := false;
     buffer := []; totalSetsCompleted := 0; totalConditionsMet := 0;
     totalBetsPlaced := 0; sockets := 0; timers := []; written := [];
     ndjson := []; pending := []; placeBetCalls := [] |}.

(** The state in which [runBot] leaves the process to its events. *)
Definition started (store : Dict.t Game) : State :=
  connectStreamAPI (globals store).

(** ** Specification vocabulary *)

(** The number [x] is greater than 1 (hence not NaN). *)
Definition above_one (x : Js.number) : Prop := Js.gt x (Js.of_Z 1) = true.

(** A stored price is unset or greater than 1. *)
Definition valid_odds (o : option Js.number) : Prop :=
  match o with
  | None => True
  | Some x => above_one x
  end.

Definition game_odds_valid (g : Game) : Prop :=
  valid_odds (pA (currentOdds g)) /\ valid_odds (pB (currentOdds g)).

Definition store_odds_valid (d : Dict.t Game) : Prop :=
  forall k g, In (k, g) d -> game_odds_valid g.

(** A stored price is unset or a finite number greater than 1. *)
Definition finite_valid_odds (o : option Js.number) : Prop :=
  match o with
  | None => True
  | Some x => Js.isFinite x = true /\ above_one x
  end.

Definition store_odds_finite (d : Dict.t Game) : Prop :=
  forall k g, In (k, g) d ->
    finite_valid_odds (pA (currentOdds g)) /\ finite_valid_odds (pB (currentOdds g)).

(** The raw best-back price is one the router stores: a number that is
    neither NaN nor zero nor at most 1. *)
Definition usable_price (v : Js.value) : option Js.number :=
  match v with
  | Js.Number x =>
      if Js.isNaN x || Js.is_zero x || Js.le x (Js.of_Z 1) then None else Some x
  | _ => None
  end.

(** The rule of C7 for one runner delta: a usable price goes to the side
    whose selection identifier the runner carries, side A being looked at
    first; any other price changes nothing. *)
Definition written_odds (game : Game) (odds : Odds) (runner : RunnerChange) : Odds :=
  match usable_price (best_back runner) with
  | Some x =>
      if Z.eqb (rc_id runner) (selectionIdA game)
      then {| pA := Some x; pB := pB odds |}
      else if Z.eqb (rc_id runner) (selectionIdB game)
      then {| pA := pA odds; pB := Some x |}
      else odds
  | None => odds
  end.

(** The runner deltas of a market delta that count: those of a delta in
    play for an open market that is not excluded. *)
Definition counted_runners (cfg : Config) (mc : MarketChange) (game : Game)
  : list RunnerChange :=
  if isOpen game && negb (excluded cfg mc) && isInPlay_of mc
  then match rc mc with Some runnerChanges => runnerChanges | None => [] end
  else [].

(** The odds of a market after one delta for it, by the rule. *)
Definition odds_after (cfg : Config) (mc : MarketChange) (game : Game) : Odds :=
  fold_left (written_odds game) (counted_runners cfg mc game) (currentOdds game).

(** From [s] to [s'] the market [k], if it is still stored, keeps its
    odds. *)
Definition keeps_odds (k : string) (s s' : State) : Prop :=
  forall g', Dict.get k (gameHistoricalData s') = Some g' ->
    exists g, Dict.get k (gameHistoricalData s) = Some g
              /\ currentOdds g' = currentOdds g.

(** The multiplier after the settlements recorded in a stretch of the
    log: reset by a win, doubled by a loss. *)
Definition replay_record (m : Js.number) (r : string * Entry) : Js.number :=
  match snd r with
  | bet_outcome _ _ _ win _ => Js.of_Z 1
  | bet_outcome _ _ _ lose _ => Js.mul m (Js.of_Z 2)
  | _ => m
  end.

Definition replay (log : list (string * Entry)) (m : Js.number) : Js.number :=
  fold_left replay_record log m.

(** The binary64 value 2^k, for [k <= 1023]. *)
Definition pow2 (k : nat) : Js.number :=
  S754_finite false 4503599627370496 (Z.of_nat k - 52).

Definition power_of_two (m : Js.number) : Prop :=
  exists k, (k <= 1023)%nat /\ m = pow2 k.

(** The number of settlements recorded in a log. *)
Definition is_outcome (r : Entry) : bool :=
  match r with bet_outcome _ _ _ _ _ => true | _ => false end.

Definition settlements (log : list (string * Entry)) : nat :=
  List.length (filter (fun r => is_outcome (snd r)) log).

(** A decoder state in which no ASCII byte can continue the sequence begun. *)
Definition decoder_wf (d : Js.decoder) : Prop :=
  match d with
  | Js.Idle => True
  | Js.Cont _ _ lo _ => (128 <= lo)%N
  end.

(** A text without terminator inside. *)
Definition no_crlf (f : Js.str) : Prop := Js.indexOf_crlf f = None.

(** Frames, each followed by its terminator, as one text. *)
Definition framed (frames : list Js.str) : Js.str :=
  List.concat (map (fun f => f ++ [Js.CR; Js.LF]) frames).

(** Bytes of the ASCII range. *)
Definition ascii_bytes (data : list Byte.byte) : Prop :=
  Forall (fun b => (Byte.to_N b <= 127)%N) data.

(** Byte frames, each followed by CR LF, as one byte sequence. *)
Definition framed_bytes (frames : list (list Byte.byte)) : list Byte.byte :=
  List.concat (map (fun f => f ++ [Byte.x0d; Byte.x0a]) frames).

(** Feeding chunks to the data handler one at a time: the frames it cut
    off altogether, and the final state. *)
Fixpoint ingest (cfg : Config) (JSON_parse : Js.str -> option Message)
  (chunks : list (list Byte.byte)) (s : State) : list Js.str * State :=
  match chunks with
  | [] => ([], s)
  | data :: rest =>
      let '(frames, s) := on_data cfg JSON_parse data s in
      let '(frames', s) := ingest cfg JSON_parse rest s in
      (frames ++ frames', s)
  end.

(** The subscription requests for a list of open markets. *)
Definition batch (k : nat) (ids : list string) : list string :=
  firstn maxMarketsPerSubscription (skipn (k * maxMarketsPerSubscription) ids).

Definition batches (ids : list string) : list (list string) :=
  map (fun k => batch k ids)
    (seq 0 ((List.length ids + (maxMarketsPerSubscription - 1)) / maxMarketsPerSubscription)).

Definition subscription_requests (ids : list string) : list Outbound :=
  map (fun k => MarketSubscription (1 + k) (batch k ids)) (seq 0 (List.length (batches ids)))
  ++ [OrderSubscription 999].


(** Decimal digits of a number, for market identifiers. *)
Definition market_name (k : nat) : string :=
  ("1." ++ NilEmpty.string_of_uint (Nat.to_uint k))%string.

(** The multiplier after any number of doublings: a power of two, or
    the infinity the 1024th doubling in a row overflows to. *)
Definition doubling_range (m : Js.number) : Prop :=
  power_of_two m \/ m = S754_infinity false.

(** A handler working on market [k] leaves the other entries of the store
    alone and does not remove the entry of [k]. *)
Definition touches (k : string) (s s' : State) : Prop :=
  (forall k', k' <> k ->
     Dict.get k' (gameHistoricalData s') = Dict.get k' (gameHistoricalData s))
  /\ (Dict.get k (gameHistoricalData s) <> None ->
      Dict.get k (gameHistoricalData s') <> None).

(** The router does not touch the receive buffer. *)
Definition keeps_buffer (s s' : State) : Prop := buffer s' = buffer s.

(** The loop of the data handler on the buffer alone: the frames cut off
    and the text retained. *)
Fixpoint cut (fuel : nat) (text : Js.str) : list Js.str * Js.str :=
  match fuel with
  | O => ([], text)
  | S fuel' =>
      match Js.indexOf_crlf text with
      | None => ([], text)
      | Some index =>
          let '(frames, rest) := cut fuel' (Js.slice_from (index + 2) text) in
          (Js.slice_to index text :: frames, rest)
      end
  end.

(** [reaches cfg s s']: the process gets from [s] to [s'] by socket events,
    timer events and gateway replies (whatever [JSON.parse] makes of the
    frames) and by frames received whole and parsed to a message. *)
Inductive reaches (cfg : Config) (s : State) : State -> Prop :=
| reaches_here : reaches cfg s s
| reaches_event parse e s' :
    reaches cfg s s' -> reaches cfg s (step cfg parse e s')
| reaches_message m s' :
    reaches cfg s s' -> reaches cfg s (state_of (handleStreamMessage cfg m s')).

(** How the router may change what the invariants speak of: entries of the
    store are deleted or mutated, never added; a mutated price is a valid
    one; the log only grows and the multiplier follows the settlements
    logged. *)
Definition odds_step (o o' : option Js.number) : Prop := o' = o \/ valid_odds o'.

Definition game_step (g g' : Game) : Prop :=
  odds_step (pA (currentOdds g)) (pA (currentOdds g'))
  /\ odds_step (pB (currentOdds g)) (pB (currentOdds g')).

Definition store_step (d d' : Dict.t Game) : Prop :=
  forall k g', In (k, g') d' -> exists g, In (k, g) d /\ game_step g g'.

Definition log_step (s s' : State) : Prop :=
  exists l, ndjson s' = ndjson s ++ l /\ multiplier s' = replay l (multiplier s).

Definition evolves (s s' : State) : Prop :=
  store_step (gameHistoricalData s) (gameHistoricalData s') /\ log_step s s'.

(** ** Concrete inputs used in examples *)

Module Scenario.

Definition mcm (deltas : list MarketChange) : Message :=
  {| op := "mcm"; statusCode := ""; mc := Some deltas; oc := None |}.

Definition ocm (changes : list OrderChange) : Message :=
  {| op := "ocm"; statusCode := ""; mc := None; oc := Some changes |}.

Definition status_success : Message :=
  {| op := "status"; statusCode := "SUCCESS"; mc := None; oc := None |}.

(** An in-play delta carrying one best-back price for one runner. *)
Definition price_delta (market : string) (runner : Z) (price : Js.value) : MarketChange :=
  {| mc_id := market;
     marketDefinition :=
       Some {| inPlay := true; md_status := "OPEN"; score := None; runners := None |};
     rc := Some [{| rc_id := runner; batb := Some [[price]] |}] |}.

(** A closure delta naming the winner, if any. *)
Definition closed_delta (market : string) (winner : option Z) : MarketChange :=
  {| mc_id := market;
     marketDefinition :=
       Some {| inPlay := true; md_status := "CLOSED"; score := None;
               runners := option_map (fun w => [{| runner_id := w; runner_status := "WINNER" |}])
                            winner |};
     rc := None |}.

(** An in-play delta reporting the first set as completed with the given
    games, together with a best-back price for one runner. *)
Definition first_set_delta (market : string) (home away : Z) (runner : Z)
  (price : Js.number) : MarketChange :=
  {| mc_id := market;
     marketDefinition :=
       Some {| inPlay := true; md_status := "OPEN";
               score := Some {| score_sets :=
                                  Some [{| homeScore := Some (Js.of_Z home);
                                           awayScore := Some (Js.of_Z away);
                                           completed := true |}] |};
               runners := None |};
     rc := Some [{| rc_id := runner; batb := Some [[Js.Number price]] |}] |}.

(** An order report settling bet [betId] of [market] with a loss. *)
Definition lost_order (market betId : string) : OrderChange :=
  {| oc_marketId := market;
     oc_or := Some [{| or_status := "EXECUTION_COMPLETE";
                       or_profit := Some (Js.of_Z (-2));
                       or_betId := Some betId |}] |}.

Definition market (id : string) (selectionIdA selectionIdB : Z) : string * Game :=
  (id, new_game id id "Player A" "Player B" selectionIdA selectionIdB "UPCOMING").

Definition one_market : Dict.t Game := [market "1.1" 11 12].

Definition three_markets : Dict.t Game :=
  [market "1.1" 11 12; market "1.2" 21 22; market "1.3" 31 32].

(** A store of [n] open markets 1.0, 1.1, ... *)
Definition markets (n : nat) : Dict.t Game :=
  map (fun k => market (market_name k) (Z.of_nat (2 * k)) (Z.of_nat (2 * k + 1))) (seq 0 n).

(** What a written message is and how many market identifiers it carries. *)
Definition shape (m : nat * Outbound) : string * nat * nat :=
  match snd m with
  | Authentication => ("authentication"%string, 0, 0)
  | MarketSubscription id marketIds => ("marketSubscription"%string, id, List.length marketIds)
  | OrderSubscription id => ("orderSubscription"%string, id, 0)
  end.

(** Live test betting at the observed price. *)
Definition live_config : Config :=
  {| enableSimulation := false; useImpossibleOdds := false; testBetEnabled := true |}.

(** Simulated staking on the first set. *)
Definition staking_config : Config :=
  {| enableSimulation := true; useImpossibleOdds := true; testBetEnabled := false |}.

(** One losing round in live mode on market 1.1: a price near the target
    triggers a test bet, the gateway accepts it as bet "b", and the order
    stream reports it complete with a negative profit. *)
Definition losing_round (s : State) : State :=
  deliver live_config [ocm [lost_order "1.1" "b"]]
    (gateway_reply live_config 0 (Succeeded (Some "b"%string))
       (deliver live_config [mcm [price_delta "1.1" 11 (Js.Number (Js.of_Z 2))]] s)).

(** The markets of the store that hold a bet. *)
Definition markets_with_bet (s : State) : list string :=
  map fst (filter (fun kv => match bet (snd kv) with Some _ => true | None => false end)
             (gameHistoricalData s)).

(** [JSON.parse] on texts that are not JSON: it throws. *)
Definition not_json : Js.str -> option Message := fun _ => None.

(** The bytes of an ASCII text in which ' stands for the double quote. *)
Definition json (text : string) : list Byte.byte :=
  map (fun b => if Byte.eqb b Byte.x27 then Byte.x22 else b) (list_byte_of_string text).

Definition CRLF : list Byte.byte := [Byte.x0d; Byte.x0a].

End Scenario.

(** ** Start-up (bot.js, lines 138-178 and 676-729) *)

(** One entry of the market catalogue, as far as [runBot] reads it. *)
Record CatalogueRunner : Type := {
  cat_runnerName : option string;
  cat_selectionId : Z
}.

Record CatalogueEvent : Type := {
  cat_eventId : option string;
  cat_openDate : option string
}.

Record CatalogueMarket : Type := {
  cat_marketId : string;
  cat_event : option CatalogueEvent;
  cat_marketStartTime : option string;
  cat_runners : option (list CatalogueRunner)
}.

(** The outcome of [fetchOpenTennisMarkets]: the value returned ([None]
    for [undefined]), the requests sent and the delays waited, in order. *)
Record Fetched : Type := {
  fetched : option (list CatalogueMarket);
  requests : nat;
  waits : list N
}.

(** The property names every object inherits from [Object.prototype]:
    [gameHistoricalData[k]] is truthy for them although the store has no
    such entry. *)
Definition inherited (k : string) : bool :=
  existsb (String.eqb k)
    ["constructor"; "__defineGetter__"; "__defineSetter__"; "hasOwnProperty";
     "__lookupGetter__"; "__lookupSetter__"; "isPrototypeOf";
     "propertyIsEnumerable"; "toString"; "valueOf"; "__proto__";
     "toLocaleString"]%string.

(** [a || b] for a string that may be missing: the empty string is falsy. *)
Definition or_string (a : option string) (b : string) : string :=
  match a with
  | Some x => if String.eqb x "" then b else x
  | None => b
  end.

(** The store under construction, the counter of tracked markets and the
    number of clock readings made so far. *)
Record Setup : Type := {
  tracked : Dict.t Game;
  totalMarketsTracked : nat;
  readings : nat
}.

Section StartUp.

(** [answers n] is what the gateway answers to request number [n] for the
    catalogue: [None] when [fetch] throws or the response is not ok. *)
Variable answers : nat -> option (list CatalogueMarket).

(** The time value of [new Date(text)], [None] for an invalid date. *)
Variable Date_parse : string -> option Z.

(** The successive readings of the clock by [new Date()]. *)
Variable clock : nat -> Z.

(** The [while (retries > 0)] loop of [fetchOpenTennisMarkets] (lines
    140-177); [request] counts the requests sent before. *)
Fixpoint fetch_loop (retries request : nat) (waited : list N) : Fetched :=
  match retries with
  | O => {| fetched := None; requests := request; waits := waited |}
  | S retries' =>
      match answers request with
      | Some data =>
          {| fetched := Some data; requests := S request; waits := waited |}
      | None =>
          (* retries-- *)
          if 0 <? retries' then fetch_loop retries' (S request) (waited ++ [5000%N])
          else {| fetched := Some []; requests := S request; waits := waited |}
      end
  end.

Definition fetchOpenTennisMarkets : Fetched := fetch_loop 3 0 [].

(** [new Date(market.event?.openDate || market.marketStartTime || new Date())]:
    the time value and the clock readings made after it. *)
Definition eventOpenDate_of (market : CatalogueMarket) (n : nat) : option Z * nat :=
  let openDate :=
    match cat_event market with
    | Some e => or_string (cat_openDate e) ""
    | None => ""%string
    end in
  if negb (String.eqb openDate "") then (Date_parse openDate, n)
  else
    let start := or_string (cat_marketStartTime market) "" in
    if negb (String.eqb start "") then (Date_parse start, n)
    else (Some (clock n), S n).

(** [eventOpenDate > new Date()]: false for an invalid date. *)
Definition later_than (date : option Z) (now : Z) : bool :=
  match date with
  | Some t => (now <? t)%Z
  | None => false
  end.

(** The body of [initialMarkets.forEach] (lines 696-723). *)
Definition track_market (market : CatalogueMarket) (st : Setup) : Setup :=
  let marketId := cat_marketId market in
  let '(eventOpenDate, n) := eventOpenDate_of market (readings st) in
  let known :=
    match Dict.get marketId (tracked st) with
    | Some _ => true
    | None => inherited marketId
    end in
  match cat_runners market with
  | Some (a :: b :: _) =>
      if negb known then
        let game :=
          new_game marketId
            (or_string (match cat_event market with
                        | Some e => cat_eventId e
                        | None => None
                        end) marketId)
            (or_string (cat_runnerName a) "Player A")
            (or_string (cat_runnerName b) "Player B")
            (cat_selectionId a) (cat_selectionId b)
            (if later_than eventOpenDate (clock n) then "UPCOMING" else "IN_PLAY") in
        {| tracked := Dict.set marketId game (tracked st);
           totalMarketsTracked := S (totalMarketsTracked st);
           readings := S n |}
      else
        {| tracked := tracked st; totalMarketsTracked := totalMarketsTracked st;
           readings := n |}
  | _ =>
      {| tracked := tracked st; totalMarketsTracked := totalMarketsTracked st;
         readings := n |}
  end.

Definition track_markets (initialMarkets : list CatalogueMarket) : Setup :=
  fold_left (fun st market => track_market market st) initialMarkets
    {| tracked := []; totalMarketsTracked := 0; readings := 0 |}.

(** [runBot] up to the point where it leaves the process to its events:
    the state and the counter of tracked markets, or [None] when it
    returns before connecting.  [loggedIn] is the result of [login()]. *)
Definition runBot (loggedIn : bool) : option (State * nat) :=
  if negb loggedIn then None
  else
    match fetched fetchOpenTennisMarkets with
    | None | Some [] => None
    | Some initialMarkets =>
        let st := track_markets initialMarkets in
        Some (started (tracked st), totalMarketsTracked st)
    end.

End StartUp.

(** ** The status report (bot.js, lines 731-806) *)

Module Math.

(** [Math.max(x, y)] *)
Definition max (x y : Js.number) : Js.number :=
  match x, y with
  | S754_nan, _ | _, S754_nan => S754_nan
  | S754_zero a, S754_zero b => S754_zero (a && b)
  | _, _ => if SFltb x y then y else x
  end.

End Math.

(** A number read from a property that may be undefined. *)
Definition number_of (x : option Js.number) : Js.number :=
  match x with
  | Some v => v
  | None => S754_nan
  end.

(** [Math.max(game.sets[0].homeScore, game.sets[0].awayScore)] and
    [Math.abs(game.sets[0].homeScore - game.sets[0].awayScore)]; the
    report evaluates them on games that have a first set. *)
Definition leading_games (game : Game) : Js.number :=
  match sets game with
  | set1 :: _ => Math.max (number_of (homeScore set1)) (number_of (awayScore set1))
  | [] => S754_nan
  end.

Definition games_apart (game : Game) : Js.number :=
  match sets game with
  | set1 :: _ => Js.abs (Js.sub (number_of (homeScore set1)) (number_of (awayScore set1)))
  | [] => S754_nan
  end.

(** The filter for markets whose first set is close to ending (lines
    733-740). *)
Definition close_to_ending (game : Game) : bool :=
  isOpen game
  && (1 <=? List.length (sets game))
  && negb (hasFirstSetEnded game)
  && match sets game with
     | set1 :: _ =>
         match homeScore set1, awayScore set1 with
         | Some _, Some _ => Js.ge (leading_games game) (Js.of_Z 5)
         | _, _ => false
         end
     | [] => false
     end.

(** The comparator handed to [sort] (lines 748-755). *)
Definition by_closeness (a b : Game) : Js.number :=
  let maxA := leading_games a in
  let maxB := leading_games b in
  if negb (SFeqb maxA maxB) then Js.sub maxB maxA
  else Js.sub (games_apart b) (games_apart a).

(** [Array.prototype.sort] with a comparator: a stable sort, here by
    insertion; [a] goes before [b] when the comparator is negative on
    them.  (The standard fixes the result only for a consistent
    comparator.) *)
Fixpoint sort_insert (compare : Game -> Game -> Js.number) (x : Game)
  (sorted : list Game) : list Game :=
  match sorted with
  | [] => [x]
  | y :: rest =>
      if Js.lt (compare x y) (Js.of_Z 0) then x :: y :: rest
      else y :: sort_insert compare x rest
  end.

Definition sort (compare : Game -> Game -> Js.number) (l : list Game) : list Game :=
  fold_left (fun sorted x => sort_insert compare x sorted) l [].

(** What one status report computes from the store. *)
Record Report : Type := {
  closeMarkets : list Game;
  top3 : list Game;
  total : nat;
  upcomingMarkets : nat;
  inPlayMarkets : nat;
  endedMarkets : nat
}.

Definition with_status (text : string) (s : State) : nat :=
  List.length (filter (fun game => String.eqb (status game) text)
                 (Dict.values (gameHistoricalData s))).

Definition report (s : State) : Report :=
  let closeMarkets := filter close_to_ending (Dict.values (gameHistoricalData s)) in
  {| closeMarkets := closeMarkets;
     top3 := firstn 3 (sort by_closeness closeMarkets);
     total := List.length (gameHistoricalData s);
     upcomingMarkets := with_status "UPCOMING" s;
     inPlayMarkets := with_status "IN_PLAY" s;
     endedMarkets := with_status "ENDED" s |}.

(** ** Vocabulary of the further properties *)

(** The market identifiers carried by a stretch of written messages. *)
Definition subscribed (l : list (nat * Outbound)) : list string :=
  flat_map (fun m => match snd m with
                     | MarketSubscription _ marketIds => marketIds
                     | _ => []
                     end) l.

(** The runner a closing delta marks as winner, if its definition lists
    runners and one of them is. *)
Definition winner_of (mc : MarketChange) : option RunnerDefinition :=
  match marketDefinition mc with
  | Some md =>
      match runners md with
      | Some rs => find (fun r => String.eqb (runner_status r) "WINNER") rs
      | None => None
      end
  | None => None
  end.

(** The bet recorded on a market, if the market is tracked and holds one. *)
Definition bet_on (k : string) (s : State) : option Bet :=
  match Dict.get k (gameHistoricalData s) with
  | Some game => bet game
  | None => None
  end.

(** The test bet the trigger places for a game, given its current odds:
    on player A when A's price is near the target, else on player B when
    B's is. *)
Definition test_bet_calls (k : string) (game : Game) : list Call :=
  let sideB :=
    match pB (currentOdds game) with
    | Some oddsB =>
        if near_testBetOdds oddsB
        then [{| call_market := k; call_selectionId := selectionIdB game;
                 call_price := oddsB; call_isTestBet := true |}]
        else []
    | None => []
    end in
  match pA (currentOdds game) with
  | Some oddsA =>
      if near_testBetOdds oddsA
      then [{| call_market := k; call_selectionId := selectionIdA game;
               call_price := oddsA; call_isTestBet := true |}]
      else sideB
  | None => sideB
  end.

(** Events that are traffic on a connection or an answer of the gateway:
    neither a failure nor a timer. *)
Definition is_traffic (e : Event) : bool :=
  match e with
  | SocketConnect | SocketData _ | Gateway _ _ => true
  | _ => false
  end.

(** From [s] to [s'] the reconnect timers, the socket counter and the
    current socket are the same. *)
Definition keeps_link (s s' : State) : Prop :=
  timers s' = timers s /\ sockets s' = sockets s /\ ws s' = ws s.

(** How the handlers may change a tracked market: its identity is fixed,
    it is never reopened, the end of its first set and the presence of a
    bet are never taken back, and a status it is given is UPCOMING or
    IN_PLAY. *)
Definition game_advances (g g' : Game) : Prop :=
  marketId g' = marketId g
  /\ eventId g' = eventId g
  /\ playerA g' = playerA g
  /\ playerB g' = playerB g
  /\ selectionIdA g' = selectionIdA g
  /\ selectionIdB g' = selectionIdB g
  /\ (isOpen g' = true -> isOpen g = true)
  /\ (hasFirstSetEnded g = true -> hasFirstSetEnded g' = true)
  /\ (bet g <> None -> bet g' <> None)
  /\ (status g' = status g \/ status g' = "UPCOMING"%string
      \/ status g' = "IN_PLAY"%string).

Definition store_advances (d d' : Dict.t Game) : Prop :=
  forall k g', In (k, g') d' -> exists g, In (k, g) d /\ game_advances g g'.

(** The keys of the store, in order, are some of those it had. *)
Definition keys_shrink (d d' : Dict.t Game) : Prop :=
  exists keep : string -> bool, map fst d' = filter keep (map fst d).

(** Every entry stored under [k] holds a bet. *)
Definition holds_bet (k : string) (s : State) : Prop :=
  forall g, In (k, g) (gameHistoricalData s) -> bet g <> None.

(** Markets are never added and advance as above; an order identifier is
    only recorded for a market that holds a bet (or is gone). *)
Definition advances (s s' : State) : Prop :=
  store_advances (gameHistoricalData s) (gameHistoricalData s')
  /\ (forall k betId, In (k, betId) (orderIds s') ->
        In (k, betId) (orderIds s) \/ holds_bet k s')
  /\ keys_shrink (gameHistoricalData s) (gameHistoricalData s').

(** Whenever an order identifier is recorded for a tracked market, the
    market holds a bet. *)
Definition orders_backed (s : State) : Prop :=
  forall k betId, In (k, betId) (orderIds s) -> holds_bet k s.

(** A catalogue entry [runBot] tracks unless its market is tracked
    already: it has two runners at least, and its identifier is not the
    name of an inherited property. *)
Definition two_runners (market : CatalogueMarket) : bool :=
  match cat_runners market with
  | Some (_ :: _ :: _) => true
  | _ => false
  end.

Definition trackable (market : CatalogueMarket) : bool :=
  two_runners market && negb (inherited (cat_marketId market)).

(** An entry as [runBot] creates it under the key [k]. *)
Definition fresh_game (k : string) (g : Game) : Prop :=
  marketId g = k
  /\ isOpen g = true
  /\ currentOdds g = {| pA := None; pB := None |}
  /\ sets g = []
  /\ hasFirstSetEnded g = false
  /\ bet g = None
  /\ (status g = "UPCOMING"%string \/ status g = "IN_PLAY"%string)
  /\ eventId_or g k = eventId g.

(** The game carries what [runBot] copies from the catalogue entry. *)
Definition built_from (market : CatalogueMarket) (g : Game) : Prop :=
  match cat_runners market with
  | Some (a :: b :: _) =>
      marketId g = cat_marketId market
      /\ selectionIdA g = cat_selectionId a
      /\ selectionIdB g = cat_selectionId b
      /\ playerA g = or_string (cat_runnerName a) "Player A"
      /\ playerB g = or_string (cat_runnerName b) "Player B"
      /\ eventId g = or_string (match cat_event market with
                                | Some e => cat_eventId e
                                | None => None
                                end) (cat_marketId market)
  | _ => False
  end.

(** The first-set strategy does nothing from [s] to [s']: the calls of
    [placeBet] added are test bets, the three counters of the strategy
    stay, and so do the sets and the first-set mark of every game. *)
Definition strategy_idle (s s' : State) : Prop :=
  (exists l, placeBetCalls s' = placeBetCalls s ++ l
             /\ Forall (fun c => call_isTestBet c = true) l)
  /\ totalSetsCompleted s' = totalSetsCompleted s
  /\ totalConditionsMet s' = totalConditionsMet s
  /\ totalBetsPlaced s' = totalBetsPlaced s
  /\ (forall k g', In (k, g') (gameHistoricalData s') ->
        exists g, In (k, g) (gameHistoricalData s)
                  /\ sets g' = sets g
                  /\ hasFirstSetEnded g' = hasFirstSetEnded g).

(** A call of [placeBet] at a price the triggers accept: above 1, and
    within the tolerance of the target for a test bet, at least 2 for a
    bet of the first-set strategy. *)
Definition sound_call (c : Call) : Prop :=
  above_one (call_price c)
  /\ (if call_isTestBet c then near_testBetOdds (call_price c) = true
      else Js.ge (call_price c) (Js.of_Z 2) = true).

Definition bets_sound (s : State) : Prop :=
  store_odds_valid (gameHistoricalData s) /\ Forall sound_call (placeBetCalls s).

Definition keeps_bets_sound (s s' : State) : Prop := bets_sound s -> bets_sound s'.

(** In simulation nothing awaits the gateway, and the order identifiers
    recorded are the simulated ones. *)
Definition simulated (s : State) : Prop :=
  pending s = []
  /\ forall k betId, In (k, betId) (orderIds s) -> betId = ("sim_" ++ k)%string.

Definition stays_simulated (s s' : State) : Prop := simulated s -> simulated s'.

(** A catalogue for examples: market 1.1 twice, a market with one runner
    and a market without dates or names. *)
Module Catalogue.

Definition runner (name : string) (selectionId : Z) : CatalogueRunner :=
  {| cat_runnerName := Some name; cat_selectionId := selectionId |}.

Definition sample : list CatalogueMarket :=
  [ {| cat_marketId := "1.1";
       cat_event := Some {| cat_eventId := Some "e1"%string;
                            cat_openDate := Some "2025-06-01T10:00:00.000Z"%string |};
       cat_marketStartTime := None;
       cat_runners := Some [runner "A. One" 11; runner "B. Two" 12] |};
    {| cat_marketId := "1.2"; cat_event := None; cat_marketStartTime := None;
       cat_runners := Some [runner "C. Three" 21] |};
    {| cat_marketId := "1.1"; cat_event := None; cat_marketStartTime := None;
       cat_runners := Some [runner "X" 91; runner "Y" 92] |};
    {| cat_marketId := "1.3"; cat_event := None; cat_marketStartTime := None;
       cat_runners := Some [{| cat_runnerName := None; cat_selectionId := 31 |};
                            {| cat_runnerName := Some ""%string; cat_selectionId := 32 |};
                            runner "Z" 33] |} ]%string.

(** The gateway answers the second request. *)
Definition answers (n : nat) : option (list CatalogueMarket) :=
  match n with
  | 1 => Some sample
  | _ => None
  end.

(** Every date text stands for the instant 1000, and the clock reads
    2000, 2001, ... *)
Definition Date_parse (text : string) : option Z := Some 1000%Z.

Definition clock (n : nat) : Z := (2000 + Z.of_nat n)%Z.

End Catalogue.

(** The calls of [placeBet] made by the first-set strategy, and their
    number for one market. *)
Definition strategy_calls (s : State) : list Call :=
  filter (fun c => negb (call_isTestBet c)) (placeBetCalls s).

Definition staked (k : string) (s : State) : nat :=
  List.length (filter (fun c => String.eqb (call_market c) k) (strategy_calls s)).

(** Every entry stored under [k] has its first set marked as ended. *)
Definition first_set_over (k : string) (s : State) : Prop :=
  forall g, In (k, g) (gameHistoricalData s) -> hasFirstSetEnded g = true.

(** The books of the strategy: a market staked on has its first set marked,
    and no market is staked on twice; the counter of bets is the number of
    strategy calls, and the three counters are ordered. *)
Definition strategy_accounts (s : State) : Prop :=
  (forall k, staked k s = 0 \/ (staked k s = 1 /\ first_set_over k s))
  /\ totalBetsPlaced s = List.length (strategy_calls s)
  /\ totalBetsPlaced s <= totalConditionsMet s
  /\ totalConditionsMet s <= totalSetsCompleted s.

Definition keeps_accounts (s s' : State) : Prop :=
  strategy_accounts s -> strategy_accounts s'.

(** The messages [JSON.parse] makes of the frames that are JSON. *)
Definition parsed (JSON_parse : Js.str -> option Message) (frames : list Js.str)
  : list Message :=
  flat_map (fun f => match JSON_parse f with Some m => [m] | None => [] end) frames.

(** A result with another receive buffer. *)
Definition with_buffer (b : Js.str) (r : Result) : Result :=
  match r with
  | Normal s => Normal (set_buffer b s)
  | Thrown s => Thrown (set_buffer b s)
  end.


(** A [JSON.parse] for examples: it reads the authentication success
    and throws on every other text. *)
Definition reads_status (text : Js.str) : option Message :=
  let status := Js.toString (Scenario.json "{'op':'status','statusCode':'SUCCESS'}") in
  if (List.length text =? List.length status)
     && forallb (fun p => N.eqb (fst p) (snd p)) (combine text status)
  then Some Scenario.status_success
  else None.

(** ** Proofs *)

Unset Implicit Arguments.

Arguments Js.add : simpl never.
Arguments Js.sub : simpl never.
Arguments Js.mul : simpl never.
Arguments Js.div : simpl never.
Arguments Js.of_Z : simpl never.
Arguments Js.dec : simpl never.
Arguments Js.toString : simpl never.

(** Projections of assignments. *)
Ltac proj :=
  cbn [gameHistoricalData orderIds hasOpenBet testBetPlaced hasPlacedBet
       simBalance multiplier ws isSubscribed isAuthenticated buffer
       totalSetsCompleted totalConditionsMet totalBetsPlaced sockets timers
       written ndjson pending placeBetCalls
       set_gameHistoricalData set_orderIds set_hasOpenBet set_testBetPlaced
       set_hasPlacedBet set_simBalance set_multiplier set_ws set_isSubscribed
       set_isAuthenticated set_buffer set_totalSetsCompleted
       set_totalConditionsMet set_totalBetsPlaced set_sockets set_timers
       set_written set_ndjson set_pending set_placeBetCalls
       incr_totalSetsCompleted incr_totalConditionsMet incr_totalBetsPlaced
       appendToNdjson modify_game state_of] in *.

(** Case analysis on the scrutinee of the first test in the goal. *)
Ltac split_test :=
  match goal with
  | |- context [match ?x with _ => _ end] =>
      lazymatch x with
      | context [match _ with _ => _ end] => fail
      | _ => destruct x eqn:?
      end
  end.

(** *** Dictionaries *)

Lemma get_In V (k : string) (d : Dict.t V) (v : V) :
  Dict.get k d = Some v -> In (k, v) d.
Proof.
  unfold Dict.get. destruct (find _ d) as [[k' v']|] eqn:E; [|discriminate].
  cbn. intros [= <-]. apply find_some in E. destruct E as [Hin Hk].
  cbn in Hk. apply String.eqb_eq in Hk. now subst.
Qed.

Lemma get_None V (k : string) (d : Dict.t V) :
  Dict.get k d = None <-> forall v, ~ In (k, v) d.
Proof.
  unfold Dict.get. split.
  - destruct (find _ d) eqn:E; [discriminate|]. intros _ v Hin.
    apply (find_none _ _ E) in Hin. cbn in Hin. now rewrite String.eqb_refl in Hin.
  - intros H. destruct (find _ d) as [[k' v']|] eqn:E; [|reflexivity]. exfalso.
    apply find_some in E. destruct E as [Hin Hk]. cbn in Hk.
    apply String.eqb_eq in Hk. subst. now apply (H v').
Qed.

Lemma In_alter V (k : string) (f : V -> V) (d : Dict.t V) k' v' :
  In (k', v') (Dict.alter k f d) ->
  exists v, In (k', v) d /\ (v' = v \/ (k' = k /\ v' = f v)).
Proof.
  unfold Dict.alter. rewrite in_map_iff. intros [[k0 v0] [E Hin]].
  cbn in E. destruct (String.eqb k0 k) eqn:Hk.
  - apply String.eqb_eq in Hk. inversion E; subst. eauto.
  - inversion E; subst. eauto.
Qed.

Lemma In_delete V (k : string) (d : Dict.t V) k' v' :
  In (k', v') (Dict.delete k d) -> In (k', v') d /\ k' <> k.
Proof.
  unfold Dict.delete. rewrite filter_In. cbn. intros [Hin Hk]. split; [assumption|].
  intros ->. now rewrite String.eqb_refl in Hk.
Qed.

Lemma get_delete_same V (k : string) (d : Dict.t V) :
  Dict.get k (Dict.delete k d) = None.
Proof.
  apply get_None. intros v Hin. apply In_delete in Hin. now destruct Hin.
Qed.

Lemma get_alter_other V (k k' : string) (f : V -> V) (d : Dict.t V) :
  k' <> k -> Dict.get k' (Dict.alter k f d) = Dict.get k' d.
Proof.
  intros Hk. unfold Dict.get, Dict.alter. f_equal.
  induction d as [|[k0 v0] d IH]; [reflexivity|]. cbn.
  destruct (String.eqb k0 k) eqn:E0; cbn.
  - apply String.eqb_eq in E0. subst k0.
    destruct (String.eqb k k') eqn:E1.
    + apply String.eqb_eq in E1. congruence.
    + apply IH.
  - destruct (String.eqb k0 k'); [reflexivity | apply IH].
Qed.

Lemma get_alter_same V (k : string) (f : V -> V) (d : Dict.t V) :
  Dict.get k (Dict.alter k f d) = option_map f (Dict.get k d).
Proof.
  unfold Dict.get, Dict.alter.
  induction d as [|[k0 v0] d IH]; [reflexivity|]. cbn.
  destruct (String.eqb k0 k) eqn:E0; cbn; rewrite E0; [reflexivity | apply IH].
Qed.

Lemma get_delete_other V (k k' : string) (d : Dict.t V) :
  k' <> k -> Dict.get k' (Dict.delete k d) = Dict.get k' d.
Proof.
  intros Hk. unfold Dict.get, Dict.delete. f_equal.
  induction d as [|[k0 v0] d IH]; [reflexivity|]. cbn.
  destruct (String.eqb k0 k) eqn:E0; cbn.
  - apply String.eqb_eq in E0. subst k0.
    destruct (String.eqb k k') eqn:E1; [|apply IH].
    apply String.eqb_eq in E1. congruence.
  - destruct (String.eqb k0 k'); [reflexivity | apply IH].
Qed.

(** *** The evolution relation *)

Lemma odds_step_refl o : odds_step o o.
Proof. now left. Qed.

Lemma odds_step_trans o1 o2 o3 : odds_step o1 o2 -> odds_step o2 o3 -> odds_step o1 o3.
Proof.
  unfold odds_step. intros [->|H12] [->|H23]; auto.
Qed.

Lemma game_step_refl g : game_step g g.
Proof. split; apply odds_step_refl. Qed.

Lemma game_step_trans g1 g2 g3 : game_step g1 g2 -> game_step g2 g3 -> game_step g1 g3.
Proof.
  intros [A1 B1] [A2 B2]. split; eapply odds_step_trans; eassumption.
Qed.

Lemma store_step_refl d : store_step d d.
Proof. intros k g Hin. exists g. split; [assumption | apply game_step_refl]. Qed.

Lemma store_step_trans d1 d2 d3 : store_step d1 d2 -> store_step d2 d3 -> store_step d1 d3.
Proof.
  intros H12 H23 k g3 Hin. destruct (H23 _ _ Hin) as [g2 [Hin2 S23]].
  destruct (H12 _ _ Hin2) as [g1 [Hin1 S12]]. exists g1. split; [assumption|].
  eapply game_step_trans; eassumption.
Qed.

Lemma store_step_alter k f d :
  (forall g, game_step g (f g)) -> store_step d (Dict.alter k f d).
Proof.
  intros Hf k' g' Hin. apply In_alter in Hin. destruct Hin as [g [Hin [->|[-> ->]]]].
  - exists g. split; [assumption | apply game_step_refl].
  - exists g. split; [assumption | apply Hf].
Qed.

Lemma store_step_delete k (d : Dict.t Game) : store_step d (Dict.delete k d).
Proof.
  intros k' g' Hin. apply In_delete in Hin. exists g'. split; [tauto | apply game_step_refl].
Qed.

Lemma replay_app l1 l2 m : replay (l1 ++ l2) m = replay l2 (replay l1 m).
Proof. unfold replay. apply fold_left_app. Qed.

Lemma log_step_refl s : log_step s s.
Proof. exists []. now rewrite app_nil_r. Qed.

Lemma log_step_trans s1 s2 s3 : log_step s1 s2 -> log_step s2 s3 -> log_step s1 s3.
Proof.
  intros [l1 [E1 M1]] [l2 [E2 M2]]. exists (l1 ++ l2).
  rewrite E2, E1, app_assoc, M2, M1, replay_app. now split.
Qed.

Lemma log_step_same s s' :
  ndjson s' = ndjson s -> multiplier s' = multiplier s -> log_step s s'.
Proof. intros E1 E2. exists []. rewrite E1, E2, app_nil_r. now split. Qed.

Lemma evolves_refl s : evolves s s.
Proof. split; [apply store_step_refl | apply log_step_refl]. Qed.

Lemma evolves_trans s1 s2 s3 : evolves s1 s2 -> evolves s2 s3 -> evolves s1 s3.
Proof.
  intros [A1 B1] [A2 B2]. split.
  - eapply store_step_trans; eassumption.
  - eapply log_step_trans; eassumption.
Qed.

(** An assignment that touches neither the store nor the log nor the
    multiplier. *)
Lemma evolves_same s s' :
  gameHistoricalData s' = gameHistoricalData s ->
  ndjson s' = ndjson s ->
  multiplier s' = multiplier s ->
  evolves s s'.
Proof.
  intros E1 E2 E3. split.
  - rewrite E1. apply store_step_refl.
  - exists []. rewrite E2, E3, app_nil_r. now split.
Qed.

Lemma evolves_modify_game k f s :
  (forall g, game_step g (f g)) -> evolves s (modify_game k f s).
Proof.
  intros Hf. split; [|now apply log_step_same]. proj. now apply store_step_alter.
Qed.

Lemma evolves_delete_game k s :
  evolves s (set_gameHistoricalData (Dict.delete k (gameHistoricalData s)) s).
Proof.
  split; [|now apply log_step_same]. proj. apply store_step_delete.
Qed.

Lemma evolves_append e r s :
  is_outcome r = false -> evolves s (appendToNdjson e r s).
Proof.
  intros Hr. split; [apply store_step_refl|]. exists [(e, r)]. proj. split; [reflexivity|].
  destruct r; try discriminate; reflexivity.
Qed.

(** The composition step used to walk through a handler. *)
Lemma evolves_then s s' s'' : evolves s' s'' -> evolves s s' -> evolves s s''.
Proof. intros H1 H2. eapply evolves_trans; eassumption. Qed.

Lemma game_step_same_odds g g' : currentOdds g' = currentOdds g -> game_step g g'.
Proof. intros E. unfold game_step. rewrite E. split; apply odds_step_refl. Qed.

Create HintDb evolve.

#[global] Hint Extern 1 (evolves _ (set_gameHistoricalData (Dict.delete _ _) _)) =>
  apply evolves_delete_game : evolve.
#[global] Hint Extern 1 (evolves _ (modify_game _ _ _)) =>
  apply evolves_modify_game; intros; apply game_step_same_odds; reflexivity : evolve.
#[global] Hint Extern 1 (evolves _ (appendToNdjson _ _ _)) =>
  apply evolves_append; reflexivity : evolve.

(** Assignments to the other globals. *)
Lemma evolves_set_orderIds v s : evolves s (set_orderIds v s).
Proof. now apply evolves_same. Qed.

Lemma evolves_set_hasOpenBet v s : evolves s (set_hasOpenBet v s).
Proof. now apply evolves_same. Qed.

Lemma evolves_set_testBetPlaced v s : evolves s (set_testBetPlaced v s).
Proof. now apply evolves_same. Qed.

Lemma evolves_set_hasPlacedBet v s : evolves s (set_hasPlacedBet v s).
Proof. now apply evolves_same. Qed.

Lemma evolves_set_simBalance v s : evolves s (set_simBalance v s).
Proof. now apply evolves_same. Qed.

Lemma evolves_set_ws v s : evolves s (set_ws v s).
Proof. now apply evolves_same. Qed.

Lemma evolves_set_isSubscribed v s : evolves s (set_isSubscribed v s).
Proof. now apply evolves_same. Qed.

Lemma evolves_set_isAuthenticated v s : evolves s (set_isAuthenticated v s).
Proof. now apply evolves_same. Qed.

Lemma evolves_set_buffer v s : evolves s (set_buffer v s).
Proof. now apply evolves_same. Qed.

Lemma evolves_set_totalSetsCompleted v s : evolves s (set_totalSetsCompleted v s).
Proof. now apply evolves_same. Qed.

Lemma evolves_set_totalConditionsMet v s : evolves s (set_totalConditionsMet v s).
Proof. now apply evolves_same. Qed.

Lemma evolves_set_totalBetsPlaced v s : evolves s (set_totalBetsPlaced v s).
Proof. now apply evolves_same. Qed.

Lemma evolves_set_sockets v s : evolves s (set_sockets v s).
Proof. now apply evolves_same. Qed.

Lemma evolves_set_timers v s : evolves s (set_timers v s).
Proof. now apply evolves_same. Qed.

Lemma evolves_set_written v s : evolves s (set_written v s).
Proof. now apply evolves_same. Qed.

Lemma evolves_set_pending v s : evolves s (set_pending v s).
Proof. now apply evolves_same. Qed.

Lemma evolves_set_placeBetCalls v s : evolves s (set_placeBetCalls v s).
Proof. now apply evolves_same. Qed.

Lemma evolves_incr_totalSetsCompleted s : evolves s (incr_totalSetsCompleted s).
Proof. now apply evolves_same. Qed.

Lemma evolves_incr_totalConditionsMet s : evolves s (incr_totalConditionsMet s).
Proof. now apply evolves_same. Qed.

Lemma evolves_incr_totalBetsPlaced s : evolves s (incr_totalBetsPlaced s).
Proof. now apply evolves_same. Qed.

#[global] Hint Extern 1 (evolves _ (set_orderIds _ _)) => apply evolves_set_orderIds : evolve.
#[global] Hint Extern 1 (evolves _ (set_hasOpenBet _ _)) => apply evolves_set_hasOpenBet : evolve.
#[global] Hint Extern 1 (evolves _ (set_testBetPlaced _ _)) => apply evolves_set_testBetPlaced : evolve.
#[global] Hint Extern 1 (evolves _ (set_hasPlacedBet _ _)) => apply evolves_set_hasPlacedBet : evolve.
#[global] Hint Extern 1 (evolves _ (set_simBalance _ _)) => apply evolves_set_simBalance : evolve.
#[global] Hint Extern 1 (evolves _ (set_ws _ _)) => apply evolves_set_ws : evolve.
#[global] Hint Extern 1 (evolves _ (set_isSubscribed _ _)) => apply evolves_set_isSubscribed : evolve.
#[global] Hint Extern 1 (evolves _ (set_isAuthenticated _ _)) => apply evolves_set_isAuthenticated : evolve.
#[global] Hint Extern 1 (evolves _ (set_buffer _ _)) => apply evolves_set_buffer : evolve.
#[global] Hint Extern 1 (evolves _ (set_totalSetsCompleted _ _)) => apply evolves_set_totalSetsCompleted : evolve.
#[global] Hint Extern 1 (evolves _ (set_totalConditionsMet _ _)) => apply evolves_set_totalConditionsMet : evolve.
#[global] Hint Extern 1 (evolves _ (set_totalBetsPlaced _ _)) => apply evolves_set_totalBetsPlaced : evolve.
#[global] Hint Extern 1 (evolves _ (set_sockets _ _)) => apply evolves_set_sockets : evolve.
#[global] Hint Extern 1 (evolves _ (set_timers _ _)) => apply evolves_set_timers : evolve.
#[global] Hint Extern 1 (evolves _ (set_written _ _)) => apply evolves_set_written : evolve.
#[global] Hint Extern 1 (evolves _ (set_pending _ _)) => apply evolves_set_pending : evolve.
#[global] Hint Extern 1 (evolves _ (set_placeBetCalls _ _)) => apply evolves_set_placeBetCalls : evolve.
#[global] Hint Extern 1 (evolves _ (incr_totalSetsCompleted _)) => apply evolves_incr_totalSetsCompleted : evolve.
#[global] Hint Extern 1 (evolves _ (incr_totalConditionsMet _)) => apply evolves_incr_totalConditionsMet : evolve.
#[global] Hint Extern 1 (evolves _ (incr_totalBetsPlaced _)) => apply evolves_incr_totalBetsPlaced : evolve.

(** *** Walking through a handler

    For a preorder [R] on states: names the state bound by a [let], peels
    the outermost assignment or call off the final state (solving the step
    with [solver]), and splits on tests. *)
Ltac chain_let :=
  match goal with
  | |- ?R ?s (let x := ?e in @?b x) =>
      first
        [ let H := fresh "H" in
          assert (H : R s e);
          [ | change (R s (b e)); cbv beta;
              revert H; generalize e; intros ? H ]
        | change (R s (b e)); cbv beta ]
  end.

Ltac chain refl_lemma then_lemma solver :=
  repeat first
    [ match goal with
      | H : ?R ?a ?b |- ?R ?a ?b => exact H
      | |- ?R ?a ?a => apply refl_lemma
      end
    | chain_let
    | match goal with
      | |- ?R ?s (?F ?t) => apply (then_lemma s t (F t)); [solve [solver]|]
      end
    | split_test ].

Ltac evolve_chain := chain evolves_refl evolves_then ltac:(auto with evolve nocore).

(** *** Comparison with 1 *)

Lemma one_repr : Js.of_Z 1 = S754_finite false 4503599627370496 (-52).
Proof. reflexivity. Qed.

(** A number that is not NaN and not [<=] a positive finite bound is above
    that bound. *)
Lemma not_le_finite_above x m e :
  Js.isNaN x = false ->
  SFleb x (S754_finite false m e) = false ->
  SFltb (S754_finite false m e) x = true.
Proof.
  unfold SFleb, SFltb.
  destruct x as [s|s| |s m' e']; cbn [SFcompare Js.isNaN].
  - destruct s; discriminate.
  - destruct s; [discriminate | reflexivity].
  - discriminate.
  - intros _. destruct s; [discriminate|].
    rewrite (Z.compare_antisym e' e).
    destruct (e' ?= e)%Z; cbn [CompOpp]; try discriminate; try reflexivity.
    change (Pos.compare_cont Eq m' m) with (Pos.compare m' m).
    change (Pos.compare_cont Eq m m') with (Pos.compare m m').
    rewrite (Pos.compare_antisym m' m).
    destruct (Pos.compare m' m); cbn [CompOpp]; try discriminate; reflexivity.
Qed.

Lemma not_le_one_above x :
  Js.isNaN x = false -> Js.le x (Js.of_Z 1) = false -> above_one x.
Proof.
  unfold above_one, Js.gt, Js.le. rewrite one_repr. apply not_le_finite_above.
Qed.

Lemma usable_price_above v x : usable_price v = Some x -> above_one x.
Proof.
  destruct v; cbn [usable_price]; try discriminate.
  destruct (Js.isNaN x0) eqn:E1; [discriminate|].
  destruct (Js.is_zero x0) eqn:E2; [discriminate|].
  destruct (Js.le x0 (Js.of_Z 1)) eqn:E3; [discriminate|].
  cbn [orb]. intros [= <-]. now apply not_le_one_above.
Qed.

(** *** Every handler evolves the state *)

Lemma evolves_ws_write m s : evolves s (ws_write m s).
Proof. unfold ws_write. evolve_chain. Qed.

Lemma evolves_subscription_loop fuel i ids s :
  evolves s (subscription_loop fuel i ids s).
Proof.
  revert i s. induction fuel as [|fuel IH]; intros i s; cbn [subscription_loop];
    [apply evolves_refl|].
  destruct (i <? List.length ids); [|apply evolves_refl].
  eapply evolves_then; [apply IH | apply evolves_ws_write].
Qed.

#[global] Hint Extern 1 (evolves _ (ws_write _ _)) => apply evolves_ws_write : evolve.
#[global] Hint Extern 1 (evolves _ (subscription_loop _ _ _ _)) => apply evolves_subscription_loop : evolve.

Lemma evolves_subscribeToOpenMarkets s : evolves s (subscribeToOpenMarkets s).
Proof. unfold subscribeToOpenMarkets. evolve_chain. Qed.

Lemma evolves_placeBet cfg k sel price t s : evolves s (placeBet cfg k sel price t s).
Proof. unfold placeBet. cbv zeta. evolve_chain. Qed.

Lemma evolves_placeBet_end t s : evolves s (placeBet_end t s).
Proof. unfold placeBet_end. cbv zeta. evolve_chain. Qed.

#[global] Hint Extern 1 (evolves _ (subscribeToOpenMarkets _)) => apply evolves_subscribeToOpenMarkets : evolve.
#[global] Hint Extern 1 (evolves _ (placeBet _ _ _ _ _ _)) => apply evolves_placeBet : evolve.
#[global] Hint Extern 1 (evolves _ (placeBet_end _ _)) => apply evolves_placeBet_end : evolve.

Lemma evolves_editBet cfg k b n p t s : evolves s (editBet cfg k b n p t s).
Proof. unfold editBet. evolve_chain. Qed.

#[global] Hint Extern 1 (evolves _ (editBet _ _ _ _ _ _ _)) => apply evolves_editBet : evolve.

Lemma evolves_placeBet_resume cfg e k sel price size t r s :
  evolves s (placeBet_resume cfg e k sel price size t r s).
Proof. unfold placeBet_resume. cbv zeta. evolve_chain. Qed.

Lemma evolves_editBet_resume k b n p t r s :
  evolves s (editBet_resume k b n p t r s).
Proof. unfold editBet_resume. cbv zeta. evolve_chain. Qed.

#[global] Hint Extern 1 (evolves _ (placeBet_resume _ _ _ _ _ _ _ _ _)) => apply evolves_placeBet_resume : evolve.
#[global] Hint Extern 1 (evolves _ (editBet_resume _ _ _ _ _ _ _)) => apply evolves_editBet_resume : evolve.

Lemma game_step_set_pA x g : above_one x -> game_step g (set_pA x g).
Proof. intros Hx. split; [right; exact Hx | apply odds_step_refl]. Qed.

Lemma game_step_set_pB x g : above_one x -> game_step g (set_pB x g).
Proof. intros Hx. split; [apply odds_step_refl | right; exact Hx]. Qed.

Lemma evolves_update_runner k runner s : evolves s (update_runner k runner s).
Proof.
  unfold update_runner.
  destruct (Dict.get k (gameHistoricalData s)) as [game|]; [|apply evolves_refl].
  destruct (best_back runner) as [| | |odds| |]; try apply evolves_refl.
  destruct (Js.isNaN odds) eqn:E1; [apply evolves_refl|].
  destruct (Js.is_zero odds) eqn:E2; [apply evolves_refl|]. cbn [orb].
  destruct (Js.le odds (Js.of_Z 1)) eqn:E3; [apply evolves_refl|].
  pose proof (not_le_one_above odds E1 E3) as Hx.
  destruct (Z.eqb _ _).
  - apply evolves_modify_game. intros g. now apply game_step_set_pA.
  - destruct (Z.eqb _ _); [|apply evolves_refl].
    apply evolves_modify_game. intros g. now apply game_step_set_pB.
Qed.

Lemma evolves_fold A (f : A -> State -> State) (l : list A) s :
  (forall a s, evolves s (f a s)) ->
  evolves s (fold_left (fun s a => f a s) l s).
Proof.
  intros Hf. revert s. induction l as [|a l IH]; intros s; cbn [fold_left].
  - apply evolves_refl.
  - eapply evolves_trans; [apply Hf | apply IH].
Qed.

Lemma evolves_test_bet cfg k inplay s : evolves s (test_bet cfg k inplay s).
Proof. unfold test_bet. cbv zeta. evolve_chain. Qed.

#[global] Hint Extern 1 (evolves _ (update_runner _ _ _)) => apply evolves_update_runner : evolve.
#[global] Hint Extern 1 (evolves _ (test_bet _ _ _ _)) => apply evolves_test_bet : evolve.

Lemma evolves_odds_phase cfg k rcs inplay s : evolves s (odds_phase cfg k rcs inplay s).
Proof.
  unfold odds_phase. cbv zeta.
  assert (H : evolves s (test_bet cfg k inplay
                (fold_left (fun s runner => update_runner k runner s) rcs s))).
  { eapply evolves_trans; [|apply evolves_test_bet].
    apply evolves_fold. intros. apply evolves_update_runner. }
  revert H. generalize (test_bet cfg k inplay
                (fold_left (fun s runner => update_runner k runner s) rcs s)).
  intros s' H. evolve_chain.
Qed.

Lemma evolves_score_phase cfg k mc s : evolves s (score_phase cfg k mc s).
Proof. unfold score_phase. evolve_chain. Qed.

#[global] Hint Extern 1 (evolves _ (odds_phase _ _ _ _ _)) => apply evolves_odds_phase : evolve.
#[global] Hint Extern 1 (evolves _ (score_phase _ _ _ _)) => apply evolves_score_phase : evolve.

(** A step that logs one record and moves the multiplier as that record says. *)
Lemma evolves_logged s s' e r :
  gameHistoricalData s' = gameHistoricalData s ->
  ndjson s' = ndjson s ++ [(e, r)] ->
  multiplier s' = replay_record (multiplier s) (e, r) ->
  evolves s s'.
Proof.
  intros E1 E2 E3. split.
  - rewrite E1. apply store_step_refl.
  - exists [(e, r)]. split; [assumption|]. exact E3.
Qed.

Lemma evolves_settle cfg k game mc s :
  evolves s (snd (settle cfg k game mc s)).
Proof.
  unfold settle.
  destruct (bet game) as [b|]; [|apply evolves_refl].
  destruct (match marketDefinition mc with Some md => runners md | None => None end)
    as [rs|]; [|apply evolves_refl].
  destruct (find _ rs) as [winner|]; [|apply evolves_refl].
  destruct (enableSimulation cfg); destruct (Z.eqb _ _); cbn [snd];
    eapply evolves_logged; proj; reflexivity.
Qed.

Lemma evolves_status_phase cfg k mc s : evolves s (status_phase cfg k mc s).
Proof.
  unfold status_phase.
  destruct (is_closed mc); [|evolve_chain]. cbv zeta.
  assert (H : evolves s (modify_game k (fun g => set_status "ENDED" (set_isOpen false g)) s))
    by evolve_chain.
  revert H. generalize (modify_game k (fun g => set_status "ENDED" (set_isOpen false g)) s).
  intros s0 H.
  destruct (Dict.get k (gameHistoricalData s0)) as [game|]; [|assumption].
  pose proof (evolves_settle cfg k game mc s0) as Hs.
  destruct (settle cfg k game mc s0) as [[outcome pnl] s1]. cbn [snd] in Hs.
  assert (H1 : evolves s s1) by (eapply evolves_trans; eassumption).
  clear Hs H. evolve_chain.
Qed.

#[global] Hint Extern 1 (evolves _ (status_phase _ _ _ _)) => apply evolves_status_phase : evolve.

Lemma evolves_price_phase cfg mc s : evolves s (price_phase cfg mc s).
Proof. unfold price_phase. evolve_chain. Qed.

#[global] Hint Extern 1 (evolves _ (price_phase _ _ _)) => apply evolves_price_phase : evolve.

Lemma evolves_market_change cfg mc s : evolves s (market_change cfg mc s).
Proof. unfold market_change. evolve_chain. Qed.

(** The order loop, whether it returns or throws. *)
Lemma evolves_order_reports k game orders s :
  evolves s (state_of (order_reports k game orders s)).
Proof.
  revert s. induction orders as [|order rest IH]; intros s; cbn [order_reports];
    [apply evolves_refl|].
  destruct (or_profit order) as [profit|]; [|apply IH].
  destruct (_ && _); [|apply IH].
  destruct (bet game) as [b|]; [|apply evolves_refl].
  eapply evolves_trans; [|apply IH].
  eapply evolves_logged; proj; [reflexivity | reflexivity |].
  destruct (Js.gt profit (Js.of_Z 0)); reflexivity.
Qed.

Lemma evolves_order_change cfg oc s : evolves s (state_of (order_change cfg oc s)).
Proof.
  unfold order_change.
  destruct (Dict.get _ _) as [game|]; [|apply evolves_refl].
  destruct (_ && _); [|apply evolves_refl].
  destruct (oc_or oc); [apply evolves_order_reports | apply evolves_refl].
Qed.

Lemma evolves_order_changes cfg ocs s : evolves s (state_of (order_changes cfg ocs s)).
Proof.
  revert s. induction ocs as [|oc rest IH]; intros s; cbn [order_changes];
    [apply evolves_refl|].
  pose proof (evolves_order_change cfg oc s) as H.
  destruct (order_change cfg oc s) as [s'|s']; cbn [state_of] in *.
  - eapply evolves_trans; [exact H | apply IH].
  - exact H.
Qed.

Lemma evolves_handleStreamMessage cfg m s :
  evolves s (state_of (handleStreamMessage cfg m s)).
Proof.
  unfold handleStreamMessage.
  destruct (_ && _).
  - cbn [state_of]. evolve_chain.
  - destruct (String.eqb (op m) "mcm").
    + destruct (mc m); cbn [state_of]; [|apply evolves_refl].
      apply evolves_fold. intros. apply evolves_market_change.
    + destruct (String.eqb (op m) "ocm"); [|apply evolves_refl].
      destruct (oc m); [apply evolves_order_changes | apply evolves_refl].
Qed.

Lemma evolves_deliver cfg ms s : evolves s (deliver cfg ms s).
Proof.
  unfold deliver. apply evolves_fold with (f := fun m s => state_of (handleStreamMessage cfg m s)).
  intros. apply evolves_handleStreamMessage.
Qed.

Lemma evolves_dispatch cfg parse f s : evolves s (dispatch cfg parse f s).
Proof.
  unfold dispatch. destruct (parse f); [apply evolves_handleStreamMessage | apply evolves_refl].
Qed.

Lemma evolves_drain cfg parse fuel s : evolves s (snd (drain cfg parse fuel s)).
Proof.
  revert s. induction fuel as [|fuel IH]; intros s; cbn [drain]; [apply evolves_refl|].
  destruct (Js.indexOf_crlf (buffer s)) as [index|]; [|apply evolves_refl].
  match goal with |- context [drain cfg parse fuel ?t] =>
    pose proof (IH t) as H; destruct (drain cfg parse fuel t) as [frames s'] end.
  cbn [snd] in *. eapply evolves_trans; [|exact H].
  eapply evolves_trans; [|apply evolves_dispatch]. apply evolves_set_buffer.
Qed.

Lemma evolves_on_data cfg parse data s : evolves s (snd (on_data cfg parse data s)).
Proof.
  unfold on_data. eapply evolves_trans; [|apply evolves_drain]. apply evolves_set_buffer.
Qed.

Lemma evolves_connectStreamAPI s : evolves s (connectStreamAPI s).
Proof. unfold connectStreamAPI. evolve_chain. Qed.

#[global] Hint Extern 1 (evolves _ (connectStreamAPI _)) => apply evolves_connectStreamAPI : evolve.

Lemma evolves_gateway_reply cfg n reply s : evolves s (gateway_reply cfg n reply s).
Proof.
  unfold gateway_reply.
  destruct (take_task n (pending s)) as [[t rest]|]; [|apply evolves_refl].
  eapply evolves_trans; [apply evolves_set_pending|].
  destruct t; cbn [resume]; [apply evolves_placeBet_resume | apply evolves_editBet_resume].
Qed.

Lemma evolves_step cfg parse e s : evolves s (step cfg parse e s).
Proof.
  destruct e; cbn [step].
  - apply evolves_ws_write.
  - apply evolves_on_data.
  - unfold on_error, schedule_reconnect. evolve_chain.
  - unfold on_close, schedule_reconnect. evolve_chain.
  - destruct (timers s); evolve_chain.
  - apply evolves_gateway_reply.
Qed.

Lemma evolves_run cfg parse events s : evolves s (run cfg parse events s).
Proof.
  unfold run. apply evolves_fold with (f := step cfg parse). intros. apply evolves_step.
Qed.

(** *** Consequences of the evolution relation *)

Lemma store_step_absent d d' k :
  store_step d d' -> Dict.get k d = None -> Dict.get k d' = None.
Proof.
  intros Hs Hk. apply get_None. intros g' Hin.
  destruct (Hs _ _ Hin) as [g [Hin' _]]. rewrite get_None in Hk. now apply (Hk g).
Qed.

Lemma store_step_valid d d' :
  store_step d d' -> store_odds_valid d -> store_odds_valid d'.
Proof.
  intros Hs Hv k g' Hin. destruct (Hs _ _ Hin) as [g [Hin' [SA SB]]].
  destruct (Hv _ _ Hin') as [VA VB]. split.
  - destruct SA as [->|H]; assumption.
  - destruct SB as [->|H]; assumption.
Qed.

Lemma started_evolves store :
  gameHistoricalData (started store) = store
  /\ ndjson (started store) = []
  /\ multiplier (started store) = Js.of_Z 1.
Proof. repeat split. Qed.

Lemma replay_no_settlement l m : settlements l = 0 -> replay l m = m.
Proof.
  revert m. induction l as [|[e r] l IH]; intros m; [reflexivity|].
  unfold settlements in *. cbn [filter snd replay fold_left].
  destruct r; cbn [List.length replay_record snd]; try discriminate; intros H;
    apply IH; assumption.
Qed.

Lemma settlements_app l1 l2 : settlements (l1 ++ l2) = settlements l1 + settlements l2.
Proof. unfold settlements. now rewrite filter_app, length_app. Qed.

Lemma log_step_quiet s s' :
  log_step s s' -> settlements (ndjson s') = settlements (ndjson s) ->
  multiplier s' = multiplier s.
Proof.
  intros [l [E M]] H. rewrite E, settlements_app in H. rewrite M.
  apply replay_no_settlement. lia.
Qed.

(** *** Powers of two in binary64 *)

Lemma eqb_eq x y : Js.eqb x y = true -> x = y.
Proof.
  destruct x, y; cbn [Js.eqb]; try discriminate.
  - intros H. apply Bool.eqb_prop in H. now subst.
  - intros H. apply Bool.eqb_prop in H. now subst.
  - reflexivity.
  - intros H. apply andb_prop in H. destruct H as [H He]. apply andb_prop in H.
    destruct H as [Hs Hm]. apply Bool.eqb_prop in Hs. apply Pos.eqb_eq in Hm.
    apply Z.eqb_eq in He. now subst.
Qed.

Lemma double_pow2_table :
  forallb (fun k => Js.eqb (Js.mul (pow2 k) (Js.of_Z 2)) (pow2 (S k))) (seq 0 1023) = true.
Proof. vm_compute. reflexivity. Qed.

Lemma double_pow2 k : k < 1023 -> Js.mul (pow2 k) (Js.of_Z 2) = pow2 (S k).
Proof.
  intros Hk. apply eqb_eq.
  pose proof double_pow2_table as H. rewrite forallb_forall in H.
  apply H. apply in_seq. lia.
Qed.

Lemma double_pow2_top : Js.mul (pow2 1023) (Js.of_Z 2) = S754_infinity false.
Proof. vm_compute. reflexivity. Qed.

Lemma double_infinity : Js.mul (S754_infinity false) (Js.of_Z 2) = S754_infinity false.
Proof. vm_compute. reflexivity. Qed.

Lemma one_is_pow2 : Js.of_Z 1 = pow2 0.
Proof. reflexivity. Qed.

Lemma doubling_range_double m : doubling_range m -> doubling_range (Js.mul m (Js.of_Z 2)).
Proof.
  intros [[k [Hk ->]]| ->].
  - destruct (Nat.eq_dec k 1023) as [->|Hne].
    + right. apply double_pow2_top.
    + left. exists (S k). split; [lia|]. apply double_pow2. lia.
  - right. apply double_infinity.
Qed.

Lemma doubling_range_one : doubling_range (Js.of_Z 1).
Proof. left. exists 0. split; [lia | apply one_is_pow2]. Qed.

Lemma doubling_range_replay l m : doubling_range m -> doubling_range (replay l m).
Proof.
  revert m. induction l as [|[e r] l IH]; intros m Hm; [exact Hm|].
  cbn [replay fold_left]. apply IH. unfold replay_record. cbn [snd].
  destruct r; try exact Hm.
  destruct outcome; [exact Hm | apply doubling_range_one | now apply doubling_range_double].
Qed.

(** *** Handlers of one market leave the other markets alone *)

Lemma touches_refl k s : touches k s s.
Proof. split; [reflexivity | trivial]. Qed.

Lemma touches_then k s s' s'' : touches k s' s'' -> touches k s s' -> touches k s s''.
Proof.
  intros [A2 B2] [A1 B1]. split.
  - intros k' Hk. rewrite (A2 k' Hk). now apply A1.
  - intros H. apply B2. now apply B1.
Qed.

Lemma touches_same k s s' :
  gameHistoricalData s' = gameHistoricalData s -> touches k s s'.
Proof. intros E. unfold touches. rewrite E. split; [reflexivity | trivial]. Qed.

Lemma touches_modify_game k f s : touches k s (modify_game k f s).
Proof.
  split; proj.
  - intros k' Hk. now apply get_alter_other.
  - rewrite get_alter_same. destruct (Dict.get k (gameHistoricalData s)); cbn; congruence.
Qed.

Lemma touches_appendToNdjson k e r s : touches k s (appendToNdjson e r s).
Proof. now apply touches_same. Qed.

Lemma touches_set_orderIds k v s : touches k s (set_orderIds v s).
Proof. now apply touches_same. Qed.

Lemma touches_set_hasOpenBet k v s : touches k s (set_hasOpenBet v s).
Proof. now apply touches_same. Qed.

Lemma touches_set_testBetPlaced k v s : touches k s (set_testBetPlaced v s).
Proof. now apply touches_same. Qed.

Lemma touches_set_hasPlacedBet k v s : touches k s (set_hasPlacedBet v s).
Proof. now apply touches_same. Qed.

Lemma touches_set_simBalance k v s : touches k s (set_simBalance v s).
Proof. now apply touches_same. Qed.

Lemma touches_set_multiplier k v s : touches k s (set_multiplier v s).
Proof. now apply touches_same. Qed.

Lemma touches_set_ws k v s : touches k s (set_ws v s).
Proof. now apply touches_same. Qed.

Lemma touches_set_isSubscribed k v s : touches k s (set_isSubscribed v s).
Proof. now apply touches_same. Qed.

Lemma touches_set_isAuthenticated k v s : touches k s (set_isAuthenticated v s).
Proof. now apply touches_same. Qed.

Lemma touches_set_buffer k v s : touches k s (set_buffer v s).
Proof. now apply touches_same. Qed.

Lemma touches_set_totalSetsCompleted k v s : touches k s (set_totalSetsCompleted v s).
Proof. now apply touches_same. Qed.

Lemma touches_set_totalConditionsMet k v s : touches k s (set_totalConditionsMet v s).
Proof. now apply touches_same. Qed.

Lemma touches_set_totalBetsPlaced k v s : touches k s (set_totalBetsPlaced v s).
Proof. now apply touches_same. Qed.

Lemma touches_set_sockets k v s : touches k s (set_sockets v s).
Proof. now apply touches_same. Qed.

Lemma touches_set_timers k v s : touches k s (set_timers v s).
Proof. now apply touches_same. Qed.

Lemma touches_set_written k v s : touches k s (set_written v s).
Proof. now apply touches_same. Qed.

Lemma touches_set_ndjson k v s : touches k s (set_ndjson v s).
Proof. now apply touches_same. Qed.

Lemma touches_set_pending k v s : touches k s (set_pending v s).
Proof. now apply touches_same. Qed.

Lemma touches_set_placeBetCalls k v s : touches k s (set_placeBetCalls v s).
Proof. now apply touches_same. Qed.

Lemma touches_incr_totalSetsCompleted k s : touches k s (incr_totalSetsCompleted s).
Proof. now apply touches_same. Qed.

Lemma touches_incr_totalConditionsMet k s : touches k s (incr_totalConditionsMet s).
Proof. now apply touches_same. Qed.

Lemma touches_incr_totalBetsPlaced k s : touches k s (incr_totalBetsPlaced s).
Proof. now apply touches_same. Qed.

Create HintDb touch.

#[global] Hint Extern 1 (touches ?k _ (modify_game ?k _ _)) => apply touches_modify_game : touch.
#[global] Hint Extern 1 (touches _ _ (appendToNdjson _ _ _)) => apply touches_appendToNdjson : touch.
#[global] Hint Extern 1 (touches _ _ (set_orderIds _ _)) => apply touches_set_orderIds : touch.
#[global] Hint Extern 1 (touches _ _ (set_hasOpenBet _ _)) => apply touches_set_hasOpenBet : touch.
#[global] Hint Extern 1 (touches _ _ (set_testBetPlaced _ _)) => apply touches_set_testBetPlaced : touch.
#[global] Hint Extern 1 (touches _ _ (set_hasPlacedBet _ _)) => apply touches_set_hasPlacedBet : touch.
#[global] Hint Extern 1 (touches _ _ (set_simBalance _ _)) => apply touches_set_simBalance : touch.
#[global] Hint Extern 1 (touches _ _ (set_multiplier _ _)) => apply touches_set_multiplier : touch.
#[global] Hint Extern 1 (touches _ _ (set_ws _ _)) => apply touches_set_ws : touch.
#[global] Hint Extern 1 (touches _ _ (set_isSubscribed _ _)) => apply touches_set_isSubscribed : touch.
#[global] Hint Extern 1 (touches _ _ (set_isAuthenticated _ _)) => apply touches_set_isAuthenticated : touch.
#[global] Hint Extern 1 (touches _ _ (set_buffer _ _)) => apply touches_set_buffer : touch.
#[global] Hint Extern 1 (touches _ _ (set_totalSetsCompleted _ _)) => apply touches_set_totalSetsCompleted : touch.
#[global] Hint Extern 1 (touches _ _ (set_totalConditionsMet _ _)) => apply touches_set_totalConditionsMet : touch.
#[global] Hint Extern 1 (touches _ _ (set_totalBetsPlaced _ _)) => apply touches_set_totalBetsPlaced : touch.
#[global] Hint Extern 1 (touches _ _ (set_sockets _ _)) => apply touches_set_sockets : touch.
#[global] Hint Extern 1 (touches _ _ (set_timers _ _)) => apply touches_set_timers : touch.
#[global] Hint Extern 1 (touches _ _ (set_written _ _)) => apply touches_set_written : touch.
#[global] Hint Extern 1 (touches _ _ (set_ndjson _ _)) => apply touches_set_ndjson : touch.
#[global] Hint Extern 1 (touches _ _ (set_pending _ _)) => apply touches_set_pending : touch.
#[global] Hint Extern 1 (touches _ _ (set_placeBetCalls _ _)) => apply touches_set_placeBetCalls : touch.
#[global] Hint Extern 1 (touches _ _ (incr_totalSetsCompleted _)) => apply touches_incr_totalSetsCompleted : touch.
#[global] Hint Extern 1 (touches _ _ (incr_totalConditionsMet _)) => apply touches_incr_totalConditionsMet : touch.
#[global] Hint Extern 1 (touches _ _ (incr_totalBetsPlaced _)) => apply touches_incr_totalBetsPlaced : touch.

Ltac touch_chain k :=
  chain (touches_refl k) (touches_then k) ltac:(auto with touch nocore).

Lemma touches_placeBet cfg k sel price t s : touches k s (placeBet cfg k sel price t s).
Proof. unfold placeBet. cbv zeta. touch_chain k. Qed.

#[global] Hint Extern 1 (touches ?k _ (placeBet _ ?k _ _ _ _)) => apply touches_placeBet : touch.

Lemma touches_update_runner k runner s : touches k s (update_runner k runner s).
Proof. unfold update_runner. touch_chain k. Qed.

Lemma touches_fold A k (f : A -> State -> State) (l : list A) s :
  (forall a s, touches k s (f a s)) ->
  touches k s (fold_left (fun s a => f a s) l s).
Proof.
  intros Hf. revert s. induction l as [|a l IH]; intros s; cbn [fold_left].
  - apply touches_refl.
  - eapply touches_then; [apply IH | apply Hf].
Qed.

Lemma touches_test_bet cfg k inplay s : touches k s (test_bet cfg k inplay s).
Proof. unfold test_bet. cbv zeta. touch_chain k. Qed.

Lemma touches_odds_phase cfg k rcs inplay s : touches k s (odds_phase cfg k rcs inplay s).
Proof.
  unfold odds_phase. cbv zeta.
  assert (H : touches k s (test_bet cfg k inplay
                (fold_left (fun s runner => update_runner k runner s) rcs s))).
  { eapply touches_then; [apply touches_test_bet|].
    apply touches_fold. intros. apply touches_update_runner. }
  revert H. generalize (test_bet cfg k inplay
                (fold_left (fun s runner => update_runner k runner s) rcs s)).
  intros s' H. touch_chain k.
Qed.

Lemma touches_price_phase cfg mc s : touches (mc_id mc) s (price_phase cfg mc s).
Proof.
  unfold price_phase. destruct (rc mc); [|apply touches_refl].
  destruct (isInPlay_of mc); [apply touches_odds_phase | apply touches_refl].
Qed.

Lemma touches_score_phase cfg k mc s : touches k s (score_phase cfg k mc s).
Proof. unfold score_phase. touch_chain k. Qed.

(** *** The closure of a market *)

Lemma settle_store cfg k game mc s :
  gameHistoricalData (snd (settle cfg k game mc s)) = gameHistoricalData s.
Proof.
  unfold settle.
  destruct (bet game) as [b|]; [|reflexivity].
  destruct (match marketDefinition mc with Some md => runners md | None => None end)
    as [rs|]; [|reflexivity].
  destruct (find _ rs) as [winner|]; [|reflexivity].
  destruct (enableSimulation cfg); destruct (Z.eqb _ _); reflexivity.
Qed.

(** What the status block does with a closing market that is in the store. *)
Lemma status_phase_closed cfg k mc s game :
  is_closed mc = true ->
  Dict.get k (gameHistoricalData s) = Some game ->
  let s' := status_phase cfg k mc s in
  hasOpenBet s' = false
  /\ testBetPlaced s' = false
  /\ Dict.get k (gameHistoricalData s') = None
  /\ (forall k', k' <> k ->
        Dict.get k' (gameHistoricalData s') = Dict.get k' (gameHistoricalData s)).
Proof.
  intros Hc Hg. unfold status_phase. rewrite Hc. cbv zeta. proj.
  rewrite get_alter_same, Hg. cbn [option_map].
  pose proof (settle_store cfg k (set_status "ENDED" (set_isOpen false game)) mc
                (modify_game k (fun g => set_status "ENDED" (set_isOpen false g)) s)) as Hs.
  destruct (settle cfg k _ mc _) as [[outcome pnl] s1]. cbn [snd] in Hs. proj.
  repeat split.
  - apply get_delete_same.
  - intros k' Hk. rewrite get_delete_other by assumption. rewrite Hs.
    now apply get_alter_other.
Qed.

(** What [market_change] does with a closing delta for a tracked open
    market, unless the exclusion rule applies first. *)
Lemma market_change_closed cfg mc s game :
  Dict.get (mc_id mc) (gameHistoricalData s) = Some game ->
  isOpen game = true ->
  is_closed mc = true ->
  excluded cfg mc = false ->
  let s' := market_change cfg mc s in
  hasOpenBet s' = false
  /\ testBetPlaced s' = false
  /\ Dict.get (mc_id mc) (gameHistoricalData s') = None
  /\ (forall k', k' <> mc_id mc ->
        Dict.get k' (gameHistoricalData s') = Dict.get k' (gameHistoricalData s)).
Proof.
  intros Hg Ho Hc He. unfold market_change. cbv zeta. rewrite Hg, Ho, He. cbn [negb].
  assert (T : touches (mc_id mc) s (score_phase cfg (mc_id mc) mc (price_phase cfg mc s))).
  { eapply touches_then; [apply touches_score_phase | apply touches_price_phase]. }
  revert T. generalize (score_phase cfg (mc_id mc) mc (price_phase cfg mc s)).
  intros s2 [T1 T2].
  destruct (Dict.get (mc_id mc) (gameHistoricalData s2)) as [game2|] eqn:Hg2.
  - destruct (status_phase_closed cfg (mc_id mc) mc s2 game2 Hc Hg2) as [A [B [C D]]].
    repeat split; try assumption.
    intros k' Hk. rewrite (D k' Hk). now apply T1.
  - exfalso. refine (T2 _ eq_refl). rewrite Hg. discriminate.
Qed.

(** A delta for a market that is not in the store does nothing. *)
Lemma market_change_untracked cfg mc s :
  Dict.get (mc_id mc) (gameHistoricalData s) = None -> market_change cfg mc s = s.
Proof. intros H. unfold market_change. cbv zeta. now rewrite H. Qed.

Lemma order_change_untracked cfg oc s :
  Dict.get (oc_marketId oc) (gameHistoricalData s) = None -> order_change cfg oc s = Normal s.
Proof. intros H. unfold order_change. cbv zeta. now rewrite H. Qed.

Lemma excluded_bot_config mc : excluded bot_config mc = false.
Proof. reflexivity. Qed.

(** ** The claims *)

Lemma reaches_trans cfg s1 s2 s3 :
  reaches cfg s1 s2 -> reaches cfg s2 s3 -> reaches cfg s1 s3.
Proof.
  intros H12 H23. induction H23 as [|parse e s' _ IH|m s' _ IH].
  - exact H12.
  - now apply reaches_event.
  - now apply reaches_message.
Qed.

Lemma reaches_deliver cfg messages s : reaches cfg s (deliver cfg messages s).
Proof.
  unfold deliver. revert s. induction messages as [|m l IH]; intros s; cbn [fold_left].
  - apply reaches_here.
  - eapply reaches_trans; [|apply IH]. apply reaches_message, reaches_here.
Qed.

Lemma reaches_run cfg parse events s : reaches cfg s (run cfg parse events s).
Proof.
  unfold run. revert s. induction events as [|e l IH]; intros s; cbn [fold_left].
  - apply reaches_here.
  - eapply reaches_trans; [|apply IH]. apply reaches_event, reaches_here.
Qed.

Lemma reaches_gateway_reply cfg n reply s : reaches cfg s (gateway_reply cfg n reply s).
Proof.
  apply (@reaches_event cfg s Scenario.not_json (Gateway n reply) s). apply reaches_here.
Qed.

Lemma reaches_evolves cfg s s' : reaches cfg s s' -> evolves s s'.
Proof.
  induction 1 as [|parse e s' _ IH|m s' _ IH].
  - apply evolves_refl.
  - eapply evolves_trans; [exact IH | apply evolves_step].
  - eapply evolves_trans; [exact IH | apply evolves_handleStreamMessage].
Qed.

(** *** C6: the multiplier law *)

(** C6, as the code has it.  The multiplier starts at 1.  In every state
    reached from the start it equals the replay of the settlements logged
    so far: reset to 1 by each logged win, multiplied by 2 (in binary64) by
    each logged loss, whichever of the two settlement paths logged it.
    Hence it is 2^k for some k <= 1023, or +Infinity once a 1024th loss in a
    row has been settled.  An event or a message that logs no settlement
    leaves it unchanged. *)
Theorem multiplier_law cfg store s :
  reaches cfg (started store) s ->
  multiplier (started store) = Js.of_Z 1
  /\ multiplier s = replay (ndjson s) (Js.of_Z 1)
  /\ (power_of_two (multiplier s) \/ multiplier s = S754_infinity false)
  /\ (forall parse e,
        settlements (ndjson (step cfg parse e s)) = settlements (ndjson s) ->
        multiplier (step cfg parse e s) = multiplier s)
  /\ (forall m,
        settlements (ndjson (state_of (handleStreamMessage cfg m s))) = settlements (ndjson s) ->
        multiplier (state_of (handleStreamMessage cfg m s)) = multiplier s).
Proof.
  intros R.
  destruct (reaches_evolves cfg _ _ R) as [_ [l [El Ml]]]. cbn [started] in El.
  assert (E : multiplier s = replay (ndjson s) (Js.of_Z 1)).
  { rewrite Ml, El. reflexivity. }
  split; [reflexivity|]. split; [exact E|]. split.
  - rewrite E. apply doubling_range_replay, doubling_range_one.
  - split.
    + intros parse e. apply log_step_quiet. apply evolves_step.
    + intros m. apply log_step_quiet. apply evolves_handleStreamMessage.
Qed.

Lemma reaches_losing_round s :
  reaches Scenario.live_config s (Scenario.losing_round s).
Proof.
  unfold Scenario.losing_round.
  eapply reaches_trans; [|apply reaches_deliver].
  eapply reaches_trans; [|apply reaches_gateway_reply].
  apply reaches_deliver.
Qed.

(** C6 at a concrete run: one losing round in live mode doubles the
    multiplier, and the price update that follows, which logs no
    settlement, leaves it at 2. *)
Lemma multiplier_law_witness :
  let s := Scenario.losing_round (started Scenario.one_market) in
  let m := Scenario.mcm [Scenario.price_delta "1.1" 11 (Js.Number (Js.of_Z 2))] in
  reaches Scenario.live_config (started Scenario.one_market) s
  /\ multiplier s = Js.of_Z 2
  /\ multiplier s = replay (ndjson s) (Js.of_Z 1)
  /\ multiplier (state_of (handleStreamMessage Scenario.live_config m s)) = multiplier s.
Proof.
  intros s m.
  assert (R : reaches Scenario.live_config (started Scenario.one_market) s)
    by apply reaches_losing_round.
  destruct (multiplier_law Scenario.live_config Scenario.one_market s R)
    as [_ [A [_ [_ B]]]].
  split; [exact R|]. split; [vm_compute; reflexivity|]. split; [exact A|].
  apply B. vm_compute. reflexivity.
Defined.

Lemma reaches_losing_rounds n s :
  reaches Scenario.live_config s (Nat.iter n Scenario.losing_round s).
Proof.
  induction n as [|n IH]; cbn [Nat.iter]; [apply reaches_here|].
  eapply reaches_trans; [exact IH | apply reaches_losing_round].
Qed.

(** C6 as stated fails: after 1024 losing rounds in a row the state is
    reachable and its multiplier is no power of two. *)
Lemma multiplier_overflow :
  reaches Scenario.live_config (started Scenario.one_market)
    (Nat.iter 1024 Scenario.losing_round (started Scenario.one_market))
  /\ ~ power_of_two
        (multiplier (Nat.iter 1024 Scenario.losing_round (started Scenario.one_market))).
Proof.
  split; [apply reaches_losing_rounds|].
  assert (E : multiplier (Nat.iter 1024 Scenario.losing_round (started Scenario.one_market))
              = S754_infinity false) by (vm_compute; reflexivity).
  rewrite E. intros [k [_ H]]. discriminate H.
Qed.

(** *** C7: stored odds *)

Lemma set_currentOdds_id game : set_currentOdds (currentOdds game) game = game.
Proof. now destruct game. Qed.

(** Steps that keep the odds of a market. *)

Lemma keeps_odds_refl k s : keeps_odds k s s.
Proof. intros g' H. now exists g'. Qed.

Lemma keeps_odds_then k s s' s'' :
  keeps_odds k s' s'' -> keeps_odds k s s' -> keeps_odds k s s''.
Proof.
  intros H2 H1 g'' Hg. destruct (H2 _ Hg) as [g' [Hg' E2]].
  destruct (H1 _ Hg') as [g [Hg0 E1]]. exists g. split; [exact Hg0 | congruence].
Qed.

Lemma keeps_odds_same k s s' :
  gameHistoricalData s' = gameHistoricalData s -> keeps_odds k s s'.
Proof. intros E g' H. rewrite E in H. now exists g'. Qed.

Lemma keeps_odds_modify_game k k' f s :
  (forall g, currentOdds (f g) = currentOdds g) -> keeps_odds k s (modify_game k' f s).
Proof.
  intros Hf g' H. proj. destruct (String.eqb k k') eqn:E.
  - apply String.eqb_eq in E. subst k'. rewrite get_alter_same in H.
    destruct (Dict.get k (gameHistoricalData s)) as [g|]; [|discriminate].
    injection H as <-. exists g. split; [reflexivity | apply Hf].
  - apply String.eqb_neq in E. rewrite get_alter_other in H by exact E. now exists g'.
Qed.

Lemma keeps_odds_delete_game k k' s :
  keeps_odds k s (set_gameHistoricalData (Dict.delete k' (gameHistoricalData s)) s).
Proof.
  intros g' H. proj. destruct (String.eqb k k') eqn:E.
  - apply String.eqb_eq in E. subst k'. now rewrite get_delete_same in H.
  - apply String.eqb_neq in E. rewrite get_delete_other in H by exact E. now exists g'.
Qed.

Lemma keeps_odds_set_orderIds k v s : keeps_odds k s (set_orderIds v s).
Proof. now apply keeps_odds_same. Qed.

Lemma keeps_odds_set_hasOpenBet k v s : keeps_odds k s (set_hasOpenBet v s).
Proof. now apply keeps_odds_same. Qed.

Lemma keeps_odds_set_testBetPlaced k v s : keeps_odds k s (set_testBetPlaced v s).
Proof. now apply keeps_odds_same. Qed.

Lemma keeps_odds_set_hasPlacedBet k v s : keeps_odds k s (set_hasPlacedBet v s).
Proof. now apply keeps_odds_same. Qed.

Lemma keeps_odds_set_simBalance k v s : keeps_odds k s (set_simBalance v s).
Proof. now apply keeps_odds_same. Qed.

Lemma keeps_odds_set_multiplier k v s : keeps_odds k s (set_multiplier v s).
Proof. now apply keeps_odds_same. Qed.

Lemma keeps_odds_set_ws k v s : keeps_odds k s (set_ws v s).
Proof. now apply keeps_odds_same. Qed.

Lemma keeps_odds_set_isSubscribed k v s : keeps_odds k s (set_isSubscribed v s).
Proof. now apply keeps_odds_same. Qed.

Lemma keeps_odds_set_isAuthenticated k v s : keeps_odds k s (set_isAuthenticated v s).
Proof. now apply keeps_odds_same. Qed.

Lemma keeps_odds_set_buffer k v s : keeps_odds k s (set_buffer v s).
Proof. now apply keeps_odds_same. Qed.

Lemma keeps_odds_set_totalSetsCompleted k v s : keeps_odds k s (set_totalSetsCompleted v s).
Proof. now apply keeps_odds_same. Qed.

Lemma keeps_odds_set_totalConditionsMet k v s : keeps_odds k s (set_totalConditionsMet v s).
Proof. now apply keeps_odds_same. Qed.

Lemma keeps_odds_set_totalBetsPlaced k v s : keeps_odds k s (set_totalBetsPlaced v s).
Proof. now apply keeps_odds_same. Qed.

Lemma keeps_odds_set_sockets k v s : keeps_odds k s (set_sockets v s).
Proof. now apply keeps_odds_same. Qed.

Lemma keeps_odds_set_timers k v s : keeps_odds k s (set_timers v s).
Proof. now apply keeps_odds_same. Qed.

Lemma keeps_odds_set_written k v s : keeps_odds k s (set_written v s).
Proof. now apply keeps_odds_same. Qed.

Lemma keeps_odds_set_ndjson k v s : keeps_odds k s (set_ndjson v s).
Proof. now apply keeps_odds_same. Qed.

Lemma keeps_odds_set_pending k v s : keeps_odds k s (set_pending v s).
Proof. now apply keeps_odds_same. Qed.

Lemma keeps_odds_set_placeBetCalls k v s : keeps_odds k s (set_placeBetCalls v s).
Proof. now apply keeps_odds_same. Qed.

Lemma keeps_odds_incr_totalSetsCompleted k s : keeps_odds k s (incr_totalSetsCompleted s).
Proof. now apply keeps_odds_same. Qed.

Lemma keeps_odds_incr_totalConditionsMet k s : keeps_odds k s (incr_totalConditionsMet s).
Proof. now apply keeps_odds_same. Qed.

Lemma keeps_odds_incr_totalBetsPlaced k s : keeps_odds k s (incr_totalBetsPlaced s).
Proof. now apply keeps_odds_same. Qed.

Lemma keeps_odds_appendToNdjson k e r s : keeps_odds k s (appendToNdjson e r s).
Proof. now apply keeps_odds_same. Qed.

Create HintDb odds.

#[global] Hint Extern 1 (keeps_odds _ _ (set_orderIds _ _)) => apply keeps_odds_set_orderIds : odds.
#[global] Hint Extern 1 (keeps_odds _ _ (set_hasOpenBet _ _)) => apply keeps_odds_set_hasOpenBet : odds.
#[global] Hint Extern 1 (keeps_odds _ _ (set_testBetPlaced _ _)) => apply keeps_odds_set_testBetPlaced : odds.
#[global] Hint Extern 1 (keeps_odds _ _ (set_hasPlacedBet _ _)) => apply keeps_odds_set_hasPlacedBet : odds.
#[global] Hint Extern 1 (keeps_odds _ _ (set_simBalance _ _)) => apply keeps_odds_set_simBalance : odds.
#[global] Hint Extern 1 (keeps_odds _ _ (set_multiplier _ _)) => apply keeps_odds_set_multiplier : odds.
#[global] Hint Extern 1 (keeps_odds _ _ (set_ws _ _)) => apply keeps_odds_set_ws : odds.
#[global] Hint Extern 1 (keeps_odds _ _ (set_isSubscribed _ _)) => apply keeps_odds_set_isSubscribed : odds.
#[global] Hint Extern 1 (keeps_odds _ _ (set_isAuthenticated _ _)) => apply keeps_odds_set_isAuthenticated : odds.
#[global] Hint Extern 1 (keeps_odds _ _ (set_buffer _ _)) => apply keeps_odds_set_buffer : odds.
#[global] Hint Extern 1 (keeps_odds _ _ (set_totalSetsCompleted _ _)) => apply keeps_odds_set_totalSetsCompleted : odds.
#[global] Hint Extern 1 (keeps_odds _ _ (set_totalConditionsMet _ _)) => apply keeps_odds_set_totalConditionsMet : odds.
#[global] Hint Extern 1 (keeps_odds _ _ (set_totalBetsPlaced _ _)) => apply keeps_odds_set_totalBetsPlaced : odds.
#[global] Hint Extern 1 (keeps_odds _ _ (set_sockets _ _)) => apply keeps_odds_set_sockets : odds.
#[global] Hint Extern 1 (keeps_odds _ _ (set_timers _ _)) => apply keeps_odds_set_timers : odds.
#[global] Hint Extern 1 (keeps_odds _ _ (set_written _ _)) => apply keeps_odds_set_written : odds.
#[global] Hint Extern 1 (keeps_odds _ _ (set_ndjson _ _)) => apply keeps_odds_set_ndjson : odds.
#[global] Hint Extern 1 (keeps_odds _ _ (set_pending _ _)) => apply keeps_odds_set_pending : odds.
#[global] Hint Extern 1 (keeps_odds _ _ (set_placeBetCalls _ _)) => apply keeps_odds_set_placeBetCalls : odds.
#[global] Hint Extern 1 (keeps_odds _ _ (incr_totalSetsCompleted _)) => apply keeps_odds_incr_totalSetsCompleted : odds.
#[global] Hint Extern 1 (keeps_odds _ _ (incr_totalConditionsMet _)) => apply keeps_odds_incr_totalConditionsMet : odds.
#[global] Hint Extern 1 (keeps_odds _ _ (incr_totalBetsPlaced _)) => apply keeps_odds_incr_totalBetsPlaced : odds.
#[global] Hint Extern 1 (keeps_odds _ _ (appendToNdjson _ _ _)) => apply keeps_odds_appendToNdjson : odds.
#[global] Hint Extern 1 (keeps_odds _ _ (modify_game _ _ _)) =>
  apply keeps_odds_modify_game; intros; reflexivity : odds.
#[global] Hint Extern 1 (keeps_odds _ _ (set_gameHistoricalData (Dict.delete _ _) _)) =>
  apply keeps_odds_delete_game : odds.

Ltac odds_chain k :=
  chain (keeps_odds_refl k) (keeps_odds_then k) ltac:(auto with odds nocore).

Lemma keeps_odds_placeBet cfg k k' sel price t s :
  keeps_odds k s (placeBet cfg k' sel price t s).
Proof. unfold placeBet. cbv zeta. odds_chain k. Qed.

#[global] Hint Extern 1 (keeps_odds _ _ (placeBet _ _ _ _ _ _)) =>
  apply keeps_odds_placeBet : odds.

Lemma keeps_odds_test_bet cfg k k' inplay s : keeps_odds k s (test_bet cfg k' inplay s).
Proof. unfold test_bet. cbv zeta. odds_chain k. Qed.

Lemma keeps_odds_score_phase cfg k k' mc s : keeps_odds k s (score_phase cfg k' mc s).
Proof. unfold score_phase. odds_chain k. Qed.

Lemma keeps_odds_settle cfg k k' game mc s :
  keeps_odds k s (snd (settle cfg k' game mc s)).
Proof. apply keeps_odds_same. apply settle_store. Qed.

Lemma keeps_odds_status_phase cfg k k' mc s : keeps_odds k s (status_phase cfg k' mc s).
Proof.
  unfold status_phase.
  destruct (is_closed mc); [|odds_chain k]. cbv zeta.
  assert (H : keeps_odds k s
                (modify_game k' (fun g => set_status "ENDED" (set_isOpen false g)) s))
    by odds_chain k.
  revert H. generalize (modify_game k' (fun g => set_status "ENDED" (set_isOpen false g)) s).
  intros s0 H.
  destruct (Dict.get k' (gameHistoricalData s0)) as [game|]; [|assumption].
  pose proof (keeps_odds_settle cfg k k' game mc s0) as Hs.
  destruct (settle cfg k' game mc s0) as [[outcome pnl] s1]. cbn [snd] in Hs.
  assert (H1 : keeps_odds k s s1) by (eapply keeps_odds_then; eassumption).
  clear Hs H. odds_chain k.
Qed.

(** One runner delta writes the odds of its market as the rule says. *)
Lemma update_runner_written k runner s game :
  Dict.get k (gameHistoricalData s) = Some game ->
  Dict.get k (gameHistoricalData (update_runner k runner s))
  = Some (set_currentOdds (written_odds game (currentOdds game) runner) game).
Proof.
  intros Hg. unfold update_runner, written_odds. rewrite Hg.
  destruct (best_back runner) as [| | |x| |]; cbn [usable_price];
    try (rewrite set_currentOdds_id; exact Hg).
  destruct (Js.isNaN x || Js.is_zero x); cbn [orb];
    [rewrite set_currentOdds_id; exact Hg|].
  destruct (Js.le x (Js.of_Z 1)); [rewrite set_currentOdds_id; exact Hg|].
  destruct (Z.eqb (rc_id runner) (selectionIdA game)).
  - proj. now rewrite get_alter_same, Hg.
  - destruct (Z.eqb (rc_id runner) (selectionIdB game)).
    + proj. now rewrite get_alter_same, Hg.
    + rewrite set_currentOdds_id. exact Hg.
Qed.

Lemma set_currentOdds_twice a b game :
  set_currentOdds a (set_currentOdds b game) = set_currentOdds a game.
Proof. reflexivity. Qed.

Lemma update_runners_written k rcs : forall s game,
  Dict.get k (gameHistoricalData s) = Some game ->
  Dict.get k (gameHistoricalData (fold_left (fun s runner => update_runner k runner s) rcs s))
  = Some (set_currentOdds (fold_left (written_odds game) rcs (currentOdds game)) game).
Proof.
  induction rcs as [|runner rcs IH]; intros s game Hg; cbn [fold_left].
  - now rewrite set_currentOdds_id.
  - rewrite (IH _ _ (update_runner_written k runner s game Hg)).
    now rewrite set_currentOdds_twice.
Qed.

(** The price block: the odds of its market are those the rule gives for
    the runner deltas, when the delta is in play. *)
Lemma price_phase_written cfg mc s game g' :
  Dict.get (mc_id mc) (gameHistoricalData s) = Some game ->
  Dict.get (mc_id mc) (gameHistoricalData (price_phase cfg mc s)) = Some g' ->
  currentOdds g'
  = fold_left (written_odds game)
      (if isInPlay_of mc then match rc mc with Some l => l | None => [] end else [])
      (currentOdds game).
Proof.
  intros Hg H. unfold price_phase in H.
  destruct (rc mc) as [rcs|].
  - destruct (isInPlay_of mc).
    + unfold odds_phase in H. cbv zeta in H.
      pose proof (update_runners_written (mc_id mc) rcs s game Hg) as Hf.
      revert H Hf. generalize (fold_left (fun s runner => update_runner (mc_id mc) runner s) rcs s).
      intros s1 H Hf.
      assert (K : keeps_odds (mc_id mc) s1 (test_bet cfg (mc_id mc) true s1))
        by apply keeps_odds_test_bet.
      revert H K. generalize (test_bet cfg (mc_id mc) true s1). intros s2 H K.
      assert (H2 : Dict.get (mc_id mc) (gameHistoricalData s2) = Some g').
      { destruct (Dict.get (mc_id mc) (gameHistoricalData s2)) eqn:E2; proj;
          rewrite E2 in H; exact H. }
      destruct (K _ H2) as [g1 [Hg1 E]]. rewrite Hf in Hg1. injection Hg1 as <-.
      exact E.
    + rewrite Hg in H. now injection H as <-.
  - rewrite Hg in H. injection H as <-. now destruct (isInPlay_of mc).
Qed.

(** What one market delta does to the stored odds. *)
Lemma market_change_odds cfg mc s g' :
  Dict.get (mc_id mc) (gameHistoricalData (market_change cfg mc s)) = Some g' ->
  exists game,
    Dict.get (mc_id mc) (gameHistoricalData s) = Some game
    /\ currentOdds g' = odds_after cfg mc game.
Proof.
  unfold market_change. cbv zeta.
  destruct (Dict.get (mc_id mc) (gameHistoricalData s)) as [game|] eqn:Hg;
    [|intros H; rewrite Hg in H; discriminate].
  intros H. exists game. split; [reflexivity|].
  unfold odds_after, counted_runners.
  destruct (isOpen game) eqn:Ho; cbn [negb andb] in *;
    [|rewrite Hg in H; now injection H as <-].
  destruct (excluded cfg mc) eqn:He; cbn [negb andb] in *.
  - proj. rewrite get_alter_same, Hg in H. cbn [option_map] in H. now injection H as <-.
  - destruct (keeps_odds_status_phase cfg (mc_id mc) (mc_id mc) mc _ _ H) as [g2 [H2 E2]].
    destruct (keeps_odds_score_phase cfg (mc_id mc) (mc_id mc) mc _ _ H2) as [g1 [H1 E1]].
    rewrite E2, E1. rewrite (price_phase_written cfg mc s game g1 Hg H1).
    destruct (isInPlay_of mc); reflexivity.
Qed.

(** A delta removes its market only by closing it. *)
Lemma market_change_stays cfg mc s game :
  Dict.get (mc_id mc) (gameHistoricalData s) = Some game ->
  isOpen game && negb (excluded cfg mc) && is_closed mc = false ->
  Dict.get (mc_id mc) (gameHistoricalData (market_change cfg mc s)) <> None.
Proof.
  intros Hg Hc. unfold market_change. cbv zeta. rewrite Hg.
  destruct (isOpen game); cbn [negb andb] in *; [|now rewrite Hg].
  destruct (excluded cfg mc); cbn [negb andb] in *.
  - proj. rewrite get_alter_same, Hg. discriminate.
  - assert (T : touches (mc_id mc) s (score_phase cfg (mc_id mc) mc (price_phase cfg mc s))).
    { eapply touches_then; [apply touches_score_phase | apply touches_price_phase]. }
    destruct T as [_ T]. unfold status_phase. rewrite Hc.
    destruct (isInPlay_of mc); proj; rewrite get_alter_same;
      destruct (Dict.get (mc_id mc) (gameHistoricalData (score_phase cfg (mc_id mc) mc
                                                            (price_phase cfg mc s))));
      try discriminate; exfalso; apply T; [rewrite Hg; discriminate | reflexivity
                                            | rewrite Hg; discriminate | reflexivity].
Qed.

Lemma status_phase_elsewhere cfg k mc s k' :
  k' <> k ->
  Dict.get k' (gameHistoricalData (status_phase cfg k mc s))
  = Dict.get k' (gameHistoricalData s).
Proof.
  intros Hk. destruct (is_closed mc) eqn:Hc.
  - destruct (Dict.get k (gameHistoricalData s)) as [game|] eqn:Hg.
    + now apply (status_phase_closed cfg k mc s game Hc Hg).
    + unfold status_phase. rewrite Hc. cbv zeta. proj.
      rewrite get_alter_same, Hg. cbn [option_map]. now apply get_alter_other.
  - unfold status_phase. rewrite Hc.
    destruct (isInPlay_of mc); proj; now apply get_alter_other.
Qed.

Lemma market_change_elsewhere cfg mc s k :
  k <> mc_id mc ->
  Dict.get k (gameHistoricalData (market_change cfg mc s)) = Dict.get k (gameHistoricalData s).
Proof.
  intros Hk. unfold market_change. cbv zeta.
  destruct (Dict.get (mc_id mc) (gameHistoricalData s)) as [game|]; [|reflexivity].
  destruct (negb (isOpen game)); [reflexivity|].
  destruct (excluded cfg mc).
  - proj. now apply get_alter_other.
  - rewrite status_phase_elsewhere by exact Hk.
    assert (T : touches (mc_id mc) s (score_phase cfg (mc_id mc) mc (price_phase cfg mc s))).
    { eapply touches_then; [apply touches_score_phase | apply touches_price_phase]. }
    now apply T.
Qed.

(** C7, as the code has it.  Starting from a store whose odds are unset or
    greater than 1, in every state reached, whatever is received, each
    stored [pA] and [pB] is unset or a number greater than 1 (so never NaN;
    finiteness is not checked).  One market delta changes the odds of its
    own market only, and only when the market is open and not excluded and
    the delta is in play: then its runner deltas are applied in order, a
    best-back price that is not a number, or is NaN, zero or at most 1,
    changing nothing, and any other price being written to [pA] when the
    runner is selection A, else to [pB] when it is selection B, else
    nowhere.  A delta that is not in play, or carries no market
    definition or no runner deltas, stores no price.  The market stays in
    the store unless the delta closes it. *)
Theorem stored_odds_valid cfg store s :
  store_odds_valid store ->
  reaches cfg (started store) s ->
  store_odds_valid (gameHistoricalData s)
  /\ (forall mc g',
        Dict.get (mc_id mc) (gameHistoricalData (market_change cfg mc s)) = Some g' ->
        exists game,
          Dict.get (mc_id mc) (gameHistoricalData s) = Some game
          /\ currentOdds g' = odds_after cfg mc game)
  /\ (forall mc game,
        Dict.get (mc_id mc) (gameHistoricalData s) = Some game ->
        isOpen game && negb (excluded cfg mc) && is_closed mc = false ->
        Dict.get (mc_id mc) (gameHistoricalData (market_change cfg mc s)) <> None)
  /\ (forall mc k,
        k <> mc_id mc ->
        Dict.get k (gameHistoricalData (market_change cfg mc s))
        = Dict.get k (gameHistoricalData s)).
Proof.
  intros Hv R. split; [|split; [|split]].
  - eapply store_step_valid; [|exact Hv]. apply (reaches_evolves cfg _ _ R).
  - intros mc g'. apply market_change_odds.
  - intros mc game. apply market_change_stays.
  - intros mc k. apply market_change_elsewhere.
Qed.

Lemma unset_odds_valid : store_odds_valid Scenario.one_market.
Proof.
  intros k g [H|[]]. inversion H; subst. split; exact I.
Qed.

(** C7 at a concrete run, with the switches of the script: in play, a
    price of 2 for selection 11 of market 1.1 and a price of 0.5 for
    selection 12 arrive in one delta; the first is stored and the second is
    not. *)
Lemma stored_odds_valid_witness :
  let mc := {| mc_id := "1.1";
               marketDefinition :=
                 Some {| inPlay := true; md_status := "OPEN"; score := None;
                         runners := None |};
               rc := Some [{| rc_id := 11; batb := Some [[Js.Number (Js.of_Z 2)]] |};
                           {| rc_id := 12; batb := Some [[Js.Number (Js.dec 5 10)]] |}] |} in
  let s := started Scenario.one_market in
  store_odds_valid (gameHistoricalData (market_change bot_config mc s))
  /\ option_map currentOdds
       (Dict.get "1.1" (gameHistoricalData (market_change bot_config mc s)))
     = Some {| pA := Some (Js.of_Z 2); pB := None |}.
Proof.
  intros mc s.
  assert (R : reaches bot_config (started Scenario.one_market) s) by constructor.
  destruct (stored_odds_valid bot_config Scenario.one_market s unset_odds_valid R)
    as [_ [A [B _]]].
  assert (R' : reaches bot_config (started Scenario.one_market)
                 (deliver bot_config [Scenario.mcm [mc]] s)) by apply reaches_deliver.
  split.
  - exact (proj1 (stored_odds_valid bot_config Scenario.one_market _ unset_odds_valid R')).
  - destruct (Dict.get "1.1" (gameHistoricalData (market_change bot_config mc s)))
      as [g'|] eqn:E.
    + destruct (A mc g' E) as [game [Hg Ho]]. vm_compute in Hg. injection Hg as <-.
      cbn [option_map]. rewrite Ho. vm_compute. reflexivity.
    + exfalso. refine (B mc _ _ _ E); vm_compute; reflexivity.
Defined.

(** A best-back price of +Infinity (what [JSON.parse] yields for a literal
    such as 1e999) is stored. *)
Lemma infinite_odds_stored :
  let s := deliver bot_config
             [Scenario.mcm
                [Scenario.price_delta "1.1" 11 (Js.Number (S754_infinity false))]]
             (started Scenario.one_market) in
  reaches bot_config (started Scenario.one_market) s
  /\ ~ store_odds_finite (gameHistoricalData s).
Proof.
  intros s. split; [apply reaches_deliver|]. intros H.
  assert (E : exists g,
            Dict.get "1.1" (gameHistoricalData s) = Some g
            /\ pA (currentOdds g) = Some (S754_infinity false))
    by (vm_compute; eexists; split; reflexivity).
  destruct E as [g [E Eg]].
  apply get_In in E. apply H in E. destruct E as [E _]. rewrite Eg in E.
  destruct E as [Hfin _]. discriminate Hfin.
Qed.

(** C7 as stated fails twice.  A best-back price of +Infinity is stored,
    so the stored odds are not all finite.  And a valid price is not
    always written: a price of 3 for selection 11 of market 1.1 in a
    delta that is not in play leaves the odds unset. *)
Lemma stored_odds_counterexample :
  (let s := deliver bot_config
              [Scenario.mcm
                 [Scenario.price_delta "1.1" 11 (Js.Number (S754_infinity false))]]
              (started Scenario.one_market) in
   reaches bot_config (started Scenario.one_market) s
   /\ ~ store_odds_finite (gameHistoricalData s))
  /\ (let mc := {| mc_id := "1.1";
                   marketDefinition :=
                     Some {| inPlay := false; md_status := "OPEN"; score := None;
                             runners := None |};
                   rc := Some [{| rc_id := 11;
                                  batb := Some [[Js.Number (Js.of_Z 3)]] |}] |} in
      let s := deliver bot_config [Scenario.mcm [mc]] (started Scenario.one_market) in
      usable_price (Js.Number (Js.of_Z 3)) = Some (Js.of_Z 3)
      /\ option_map currentOdds (Dict.get "1.1" (gameHistoricalData s))
         = Some {| pA := None; pB := None |}).
Proof.
  split; [exact infinite_odds_stored|]. vm_compute. split; reflexivity.
Qed.

(** *** C10: a closure clears the flags *)

(** C10.  With the switches of the script ([bot_config]), a delta with
    status CLOSED for a tracked open market leaves [hasOpenBet] and
    [testBetPlaced] false whatever the market held, and leaves every other
    market, with the bet recorded on it, as it was: the closure of a
    market without bet clears the outstanding status of a bet recorded on
    another market.  (The exclusion of lines 447-462 is part of non-test
    mode; the script has [testBetEnabled] true.) *)
Theorem closure_clears_flags mc s game :
  Dict.get (mc_id mc) (gameHistoricalData s) = Some game ->
  isOpen game = true ->
  is_closed mc = true ->
  hasOpenBet (market_change bot_config mc s) = false
  /\ testBetPlaced (market_change bot_config mc s) = false
  /\ (forall k g, k <> mc_id mc ->
        Dict.get k (gameHistoricalData s) = Some g ->
        Dict.get k (gameHistoricalData (market_change bot_config mc s)) = Some g).
Proof.
  intros Hg Ho Hc.
  destruct (market_change_closed bot_config mc s game Hg Ho Hc (excluded_bot_config mc))
    as [A [B [_ D]]].
  repeat split; try assumption.
  intros k g Hk Hkg. rewrite (D k Hk). exact Hkg.
Qed.

(** C10 at a concrete run: market 1.1 holds the only bet; market 1.3, which
    holds none, closes; the flag is cleared while the bet on 1.1 stays. *)
Lemma closure_clears_flags_witness :
  let s := deliver bot_config
             [Scenario.mcm [Scenario.price_delta "1.1" 11 (Js.Number (Js.dec 15 10))]]
             (started Scenario.three_markets) in
  let s' := market_change bot_config (Scenario.closed_delta "1.3" None) s in
  hasOpenBet s = true
  /\ Scenario.markets_with_bet s = ["1.1"%string]
  /\ hasOpenBet s' = false
  /\ testBetPlaced s' = false
  /\ Scenario.markets_with_bet s' = ["1.1"%string].
Proof.
  intros s s'.
  assert (Hg : Dict.get "1.3" (gameHistoricalData s) = Some (snd (Scenario.market "1.3" 31 32)))
    by (vm_compute; reflexivity).
  destruct (closure_clears_flags (Scenario.closed_delta "1.3" None) s _
              Hg eq_refl eq_refl) as [A [B _]].
  fold s' in A, B.
  split; [vm_compute; reflexivity|]. split; [vm_compute; reflexivity|].
  split; [exact A|]. split; [exact B|]. vm_compute. reflexivity.
Defined.

(** *** C9: a closed market is inert *)

(** C9.  Once a CLOSED delta for a tracked open market has been processed,
    in every state reached from there a further delta for that market
    (closure or odds) and an order change for it leave the whole state as
    it is: no settlement, no balance or multiplier change, no odds
    update. *)
Theorem closed_market_inert cfg mc s game s1 :
  Dict.get (mc_id mc) (gameHistoricalData s) = Some game ->
  isOpen game = true ->
  is_closed mc = true ->
  excluded cfg mc = false ->
  reaches cfg (market_change cfg mc s) s1 ->
  (forall mc', mc_id mc' = mc_id mc -> market_change cfg mc' s1 = s1)
  /\ (forall oc', oc_marketId oc' = mc_id mc -> order_change cfg oc' s1 = Normal s1).
Proof.
  intros Hg Ho Hc He R.
  destruct (market_change_closed cfg mc s game Hg Ho Hc He) as [_ [_ [C _]]].
  assert (H1 : Dict.get (mc_id mc) (gameHistoricalData s1) = None).
  { eapply store_step_absent; [|exact C]. apply (reaches_evolves cfg _ _ R). }
  split.
  - intros mc' E. apply market_change_untracked. now rewrite E.
  - intros oc' E. apply order_change_untracked. now rewrite E.
Qed.

(** C9 at a concrete run: market 1.1 closes, a price for market 1.2
    follows; the closure of 1.1 delivered again and a price for 1.1 change
    nothing. *)
Lemma closed_market_inert_witness :
  let mc := Scenario.closed_delta "1.1" (Some 11%Z) in
  let s1 := deliver bot_config
              [Scenario.mcm [Scenario.price_delta "1.2" 21 (Js.Number (Js.of_Z 2))]]
              (market_change bot_config mc (started Scenario.three_markets)) in
  market_change bot_config mc s1 = s1
  /\ market_change bot_config (Scenario.price_delta "1.1" 11 (Js.Number (Js.of_Z 2))) s1 = s1.
Proof.
  intros mc s1.
  destruct (closed_market_inert bot_config mc (started Scenario.three_markets)
              (snd (Scenario.market "1.1" 11 12)) s1
              eq_refl eq_refl eq_refl eq_refl (reaches_deliver _ _ _)) as [A _].
  split; [exact (A mc eq_refl)|].
  exact (A (Scenario.price_delta "1.1" 11 (Js.Number (Js.of_Z 2))) eq_refl).
Defined.

(** *** C5: settlement accounting *)

Lemma commission_factor : Js.sub (Js.of_Z 1) (Js.dec 5 100) = commissionFactor.
Proof. vm_compute. reflexivity. Qed.

(** C5.  When the status block settles the bet (stake [size], price [p])
    of a closing market against the runner marked WINNER: on a win both
    log records carry the profit (p - 1) * size * (1 - 0.05), the
    multiplier becomes 1 and, in simulation, the balance grows by profit +
    size; on a loss they carry -size, the multiplier is doubled and, in
    simulation, the balance shrinks by size.  Outside simulation the
    balance is not touched. *)
Theorem settlement_accounting cfg k mc s game b md rs winner :
  Dict.get k (gameHistoricalData s) = Some game ->
  bet game = Some b ->
  marketDefinition mc = Some md ->
  md_status md = "CLOSED"%string ->
  runners md = Some rs ->
  find (fun r => String.eqb (runner_status r) "WINNER") rs = Some winner ->
  let s' := status_phase cfg k mc s in
  let size := bet_size b in
  let profit :=
    Js.mul (Js.mul (Js.sub (bet_price b) (Js.of_Z 1)) size)
      (Js.sub (Js.of_Z 1) (Js.dec 5 100)) in
  let record outcome pnl :=
    [(eventId_or game k,
      bet_outcome (enableSimulation cfg) k (bet_selectionId b) outcome pnl);
     (eventId_or game k, market_closed outcome pnl)] in
  (runner_id winner = bet_selectionId b ->
     ndjson s' = ndjson s ++ record win profit
     /\ multiplier s' = Js.of_Z 1
     /\ simBalance s' = if enableSimulation cfg
                        then Js.add (simBalance s) (Js.add profit size)
                        else simBalance s)
  /\ (runner_id winner <> bet_selectionId b ->
      ndjson s' = ndjson s ++ record lose (Js.neg size)
      /\ multiplier s' = Js.mul (multiplier s) (Js.of_Z 2)
      /\ simBalance s' = if enableSimulation cfg
                         then Js.sub (simBalance s) size
                         else simBalance s).
Proof.
  intros Hg Hb Hmd Hst Hrs Hw s' size profit record.
  assert (Hc : is_closed mc = true).
  { unfold is_closed. rewrite Hmd, Hst. reflexivity. }
  subst s' profit record size. rewrite commission_factor.
  unfold status_phase. rewrite Hc. cbv zeta. proj.
  rewrite get_alter_same, Hg. cbn [option_map].
  unfold settle. cbn [bet set_status set_isOpen]. rewrite Hb, Hmd, Hrs, Hw.
  unfold eventId_or. cbn [eventId set_status set_isOpen].
  split; intros Hsel.
  - apply Z.eqb_eq in Hsel. rewrite Hsel.
    destruct (enableSimulation cfg); proj; rewrite <- app_assoc; repeat split.
  - apply Z.eqb_neq in Hsel. rewrite Hsel.
    destruct (enableSimulation cfg); proj; rewrite <- app_assoc; repeat split.
Qed.

(** In simulation the order stream settles nothing, so every settlement
    is one made by the status block. *)
Lemma order_change_simulated cfg oc s :
  enableSimulation cfg = true -> order_change cfg oc s = Normal s.
Proof.
  intros H. unfold order_change. cbv zeta. rewrite H.
  destruct (Dict.get _ _); [|reflexivity]. now rewrite andb_false_r.
Qed.

(** A delta that carries neither prices nor score goes straight to the
    status block. *)
Lemma market_change_status_only cfg mc s game :
  Dict.get (mc_id mc) (gameHistoricalData s) = Some game ->
  isOpen game = true ->
  excluded cfg mc = false ->
  rc mc = None ->
  score_of mc = None ->
  market_change cfg mc s = status_phase cfg (mc_id mc) mc s.
Proof.
  intros Hg Ho He Hrc Hsc. unfold market_change, price_phase, score_phase. cbv zeta.
  now rewrite Hg, Ho, He, Hrc, Hsc.
Qed.

(** C5 on the scenario of the specification.  A stake of 10 (10% of the
    balance 100) is placed at price 3 on selection 12; the balance is 90.
    The market closes with 12 as winner: profit 19, balance 119. *)
Lemma settlement_accounting_witness :
  let s := deliver Scenario.staking_config
             [Scenario.mcm [Scenario.first_set_delta "1.1" 6 4 12 (Js.of_Z 3)]]
             (started Scenario.one_market) in
  let s' := status_phase Scenario.staking_config "1.1"
              (Scenario.closed_delta "1.1" (Some 12%Z)) s in
  simBalance s = Js.of_Z 90
  /\ ndjson s' = ndjson s ++ [("1.1"%string, bet_outcome true "1.1" 12 win (Js.of_Z 19));
                              ("1.1"%string, market_closed win (Js.of_Z 19))]
  /\ multiplier s' = Js.of_Z 1
  /\ simBalance s' = Js.of_Z 119.
Proof.
  intros s s'.
  assert (Hg : exists game,
             Dict.get "1.1" (gameHistoricalData s) = Some game
             /\ bet game = Some {| bet_selectionId := 12; bet_size := Js.of_Z 10;
                                   bet_price := Js.of_Z 3 |}
             /\ eventId_or game "1.1" = "1.1"%string)
    by (vm_compute; eexists; repeat split).
  destruct Hg as [game [Hg [Hb He]]].
  destruct (settlement_accounting Scenario.staking_config "1.1"
              (Scenario.closed_delta "1.1" (Some 12%Z)) s game _ _ _ _
              Hg Hb eq_refl eq_refl eq_refl eq_refl) as [Hwin _].
  destruct (Hwin eq_refl) as [A [B C]]. fold s' in A, B, C.
  split; [vm_compute; reflexivity|]. split; [|split].
  - rewrite A, He. reflexivity.
  - exact B.
  - rewrite C. vm_compute. reflexivity.
Defined.

(** The same stake lost: profit -10, balance 80, multiplier 2. *)
Example settlement_of_a_loss :
  let s := deliver Scenario.staking_config
             [Scenario.mcm [Scenario.first_set_delta "1.1" 6 4 12 (Js.of_Z 3)]]
             (started Scenario.one_market) in
  let s' := status_phase Scenario.staking_config "1.1"
              (Scenario.closed_delta "1.1" (Some 11%Z)) s in
  ndjson s' = ndjson s ++ [("1.1"%string, bet_outcome true "1.1" 12 lose (Js.of_Z (-10)));
                           ("1.1"%string, market_closed lose (Js.of_Z (-10)))]
  /\ multiplier s' = Js.of_Z 2
  /\ simBalance s' = Js.of_Z 80.
Proof. vm_compute. repeat split. Qed.

(** *** C4: the staking condition *)

(** Reading [placeBetCalls] and [hasOpenBet] through the assignments. *)

Lemma placeBetCalls_set_gameHistoricalData v s : placeBetCalls (set_gameHistoricalData v s) = placeBetCalls s.
Proof. reflexivity. Qed.

Lemma placeBetCalls_set_orderIds v s : placeBetCalls (set_orderIds v s) = placeBetCalls s.
Proof. reflexivity. Qed.

Lemma placeBetCalls_set_hasOpenBet v s : placeBetCalls (set_hasOpenBet v s) = placeBetCalls s.
Proof. reflexivity. Qed.

Lemma placeBetCalls_set_testBetPlaced v s : placeBetCalls (set_testBetPlaced v s) = placeBetCalls s.
Proof. reflexivity. Qed.

Lemma placeBetCalls_set_hasPlacedBet v s : placeBetCalls (set_hasPlacedBet v s) = placeBetCalls s.
Proof. reflexivity. Qed.

Lemma placeBetCalls_set_simBalance v s : placeBetCalls (set_simBalance v s) = placeBetCalls s.
Proof. reflexivity. Qed.

Lemma placeBetCalls_set_multiplier v s : placeBetCalls (set_multiplier v s) = placeBetCalls s.
Proof. reflexivity. Qed.

Lemma placeBetCalls_set_ws v s : placeBetCalls (set_ws v s) = placeBetCalls s.
Proof. reflexivity. Qed.

Lemma placeBetCalls_set_isSubscribed v s : placeBetCalls (set_isSubscribed v s) = placeBetCalls s.
Proof. reflexivity. Qed.

Lemma placeBetCalls_set_isAuthenticated v s : placeBetCalls (set_isAuthenticated v s) = placeBetCalls s.
Proof. reflexivity. Qed.

Lemma placeBetCalls_set_buffer v s : placeBetCalls (set_buffer v s) = placeBetCalls s.
Proof. reflexivity. Qed.

Lemma placeBetCalls_set_totalSetsCompleted v s : placeBetCalls (set_totalSetsCompleted v s) = placeBetCalls s.
Proof. reflexivity. Qed.

Lemma placeBetCalls_set_totalConditionsMet v s : placeBetCalls (set_totalConditionsMet v s) = placeBetCalls s.
Proof. reflexivity. Qed.

Lemma placeBetCalls_set_totalBetsPlaced v s : placeBetCalls (set_totalBetsPlaced v s) = placeBetCalls s.
Proof. reflexivity. Qed.

Lemma placeBetCalls_set_sockets v s : placeBetCalls (set_sockets v s) = placeBetCalls s.
Proof. reflexivity. Qed.

Lemma placeBetCalls_set_timers v s : placeBetCalls (set_timers v s) = placeBetCalls s.
Proof. reflexivity. Qed.

Lemma placeBetCalls_set_written v s : placeBetCalls (set_written v s) = placeBetCalls s.
Proof. reflexivity. Qed.

Lemma placeBetCalls_set_ndjson v s : placeBetCalls (set_ndjson v s) = placeBetCalls s.
Proof. reflexivity. Qed.

Lemma placeBetCalls_set_pending v s : placeBetCalls (set_pending v s) = placeBetCalls s.
Proof. reflexivity. Qed.

Lemma placeBetCalls_incr_totalSetsCompleted s : placeBetCalls (incr_totalSetsCompleted s) = placeBetCalls s.
Proof. reflexivity. Qed.

Lemma placeBetCalls_incr_totalConditionsMet s : placeBetCalls (incr_totalConditionsMet s) = placeBetCalls s.
Proof. reflexivity. Qed.

Lemma placeBetCalls_incr_totalBetsPlaced s : placeBetCalls (incr_totalBetsPlaced s) = placeBetCalls s.
Proof. reflexivity. Qed.

Lemma placeBetCalls_modify_game k f s : placeBetCalls (modify_game k f s) = placeBetCalls s.
Proof. reflexivity. Qed.

Lemma placeBetCalls_appendToNdjson e r s : placeBetCalls (appendToNdjson e r s) = placeBetCalls s.
Proof. reflexivity. Qed.

Lemma hasOpenBet_set_gameHistoricalData v s : hasOpenBet (set_gameHistoricalData v s) = hasOpenBet s.
Proof. reflexivity. Qed.

Lemma hasOpenBet_set_orderIds v s : hasOpenBet (set_orderIds v s) = hasOpenBet s.
Proof. reflexivity. Qed.

Lemma hasOpenBet_set_testBetPlaced v s : hasOpenBet (set_testBetPlaced v s) = hasOpenBet s.
Proof. reflexivity. Qed.

Lemma hasOpenBet_set_hasPlacedBet v s : hasOpenBet (set_hasPlacedBet v s) = hasOpenBet s.
Proof. reflexivity. Qed.

Lemma hasOpenBet_set_simBalance v s : hasOpenBet (set_simBalance v s) = hasOpenBet s.
Proof. reflexivity. Qed.

Lemma hasOpenBet_set_multiplier v s : hasOpenBet (set_multiplier v s) = hasOpenBet s.
Proof. reflexivity. Qed.

Lemma hasOpenBet_set_ws v s : hasOpenBet (set_ws v s) = hasOpenBet s.
Proof. reflexivity. Qed.

Lemma hasOpenBet_set_isSubscribed v s : hasOpenBet (set_isSubscribed v s) = hasOpenBet s.
Proof. reflexivity. Qed.

Lemma hasOpenBet_set_isAuthenticated v s : hasOpenBet (set_isAuthenticated v s) = hasOpenBet s.
Proof. reflexivity. Qed.

Lemma hasOpenBet_set_buffer v s : hasOpenBet (set_buffer v s) = hasOpenBet s.
Proof. reflexivity. Qed.

Lemma hasOpenBet_set_totalSetsCompleted v s : hasOpenBet (set_totalSetsCompleted v s) = hasOpenBet s.
Proof. reflexivity. Qed.

Lemma hasOpenBet_set_totalConditionsMet v s : hasOpenBet (set_totalConditionsMet v s) = hasOpenBet s.
Proof. reflexivity. Qed.

Lemma hasOpenBet_set_totalBetsPlaced v s : hasOpenBet (set_totalBetsPlaced v s) = hasOpenBet s.
Proof. reflexivity. Qed.

Lemma hasOpenBet_set_sockets v s : hasOpenBet (set_sockets v s) = hasOpenBet s.
Proof. reflexivity. Qed.

Lemma hasOpenBet_set_timers v s : hasOpenBet (set_timers v s) = hasOpenBet s.
Proof. reflexivity. Qed.

Lemma hasOpenBet_set_written v s : hasOpenBet (set_written v s) = hasOpenBet s.
Proof. reflexivity. Qed.

Lemma hasOpenBet_set_ndjson v s : hasOpenBet (set_ndjson v s) = hasOpenBet s.
Proof. reflexivity. Qed.

Lemma hasOpenBet_set_pending v s : hasOpenBet (set_pending v s) = hasOpenBet s.
Proof. reflexivity. Qed.

Lemma hasOpenBet_set_placeBetCalls v s : hasOpenBet (set_placeBetCalls v s) = hasOpenBet s.
Proof. reflexivity. Qed.

Lemma hasOpenBet_incr_totalSetsCompleted s : hasOpenBet (incr_totalSetsCompleted s) = hasOpenBet s.
Proof. reflexivity. Qed.

Lemma hasOpenBet_incr_totalConditionsMet s : hasOpenBet (incr_totalConditionsMet s) = hasOpenBet s.
Proof. reflexivity. Qed.

Lemma hasOpenBet_incr_totalBetsPlaced s : hasOpenBet (incr_totalBetsPlaced s) = hasOpenBet s.
Proof. reflexivity. Qed.

Lemma hasOpenBet_modify_game k f s : hasOpenBet (modify_game k f s) = hasOpenBet s.
Proof. reflexivity. Qed.

Lemma hasOpenBet_appendToNdjson e r s : hasOpenBet (appendToNdjson e r s) = hasOpenBet s.
Proof. reflexivity. Qed.

Lemma gameHistoricalData_modify_game k f s :
  gameHistoricalData (modify_game k f s) = Dict.alter k f (gameHistoricalData s).
Proof. reflexivity. Qed.

Create Rewrite HintDb fields.

#[global] Hint Rewrite placeBetCalls_set_gameHistoricalData
  placeBetCalls_set_orderIds placeBetCalls_set_hasOpenBet
  placeBetCalls_set_testBetPlaced placeBetCalls_set_hasPlacedBet
  placeBetCalls_set_simBalance placeBetCalls_set_multiplier
  placeBetCalls_set_ws placeBetCalls_set_isSubscribed
  placeBetCalls_set_isAuthenticated placeBetCalls_set_buffer
  placeBetCalls_set_totalSetsCompleted placeBetCalls_set_totalConditionsMet
  placeBetCalls_set_totalBetsPlaced placeBetCalls_set_sockets
  placeBetCalls_set_timers placeBetCalls_set_written
  placeBetCalls_set_ndjson placeBetCalls_set_pending
  placeBetCalls_incr_totalSetsCompleted
  placeBetCalls_incr_totalConditionsMet placeBetCalls_incr_totalBetsPlaced
  placeBetCalls_modify_game placeBetCalls_appendToNdjson
  hasOpenBet_set_gameHistoricalData hasOpenBet_set_orderIds
  hasOpenBet_set_testBetPlaced hasOpenBet_set_hasPlacedBet
  hasOpenBet_set_simBalance hasOpenBet_set_multiplier hasOpenBet_set_ws
  hasOpenBet_set_isSubscribed hasOpenBet_set_isAuthenticated
  hasOpenBet_set_buffer hasOpenBet_set_totalSetsCompleted
  hasOpenBet_set_totalConditionsMet hasOpenBet_set_totalBetsPlaced
  hasOpenBet_set_sockets hasOpenBet_set_timers hasOpenBet_set_written
  hasOpenBet_set_ndjson hasOpenBet_set_pending hasOpenBet_set_placeBetCalls
  hasOpenBet_incr_totalSetsCompleted hasOpenBet_incr_totalConditionsMet
  hasOpenBet_incr_totalBetsPlaced hasOpenBet_modify_game
  hasOpenBet_appendToNdjson gameHistoricalData_modify_game : fields.


Lemma placeBet_calls cfg k sel price t s :
  placeBetCalls (placeBet cfg k sel price t s) =
  placeBetCalls s ++ [{| call_market := k; call_selectionId := sel;
                         call_price := price; call_isTestBet := t |}].
Proof.
  unfold placeBet. cbv zeta. proj.
  destruct (Dict.get k (gameHistoricalData s)); [|reflexivity].
  destruct (enableSimulation cfg); [|reflexivity].
  destruct t; reflexivity.
Qed.

(** In simulation [placeBet] runs to its end inside the caller: the bet is
    recorded and the outstanding-bet flag is set before it returns. *)
Lemma placeBet_simulated cfg k sel price t s game :
  enableSimulation cfg = true ->
  Dict.get k (gameHistoricalData s) = Some game ->
  let s' := placeBet cfg k sel price t s in
  let stake := Js.mul (Js.mul (Js.div betPercentage (Js.of_Z 100)) (simBalance s))
                 (multiplier s) in
  hasOpenBet s' = true
  /\ pending s' = pending s
  /\ simBalance s' = Js.sub (simBalance s) stake
  /\ Dict.get k (gameHistoricalData s') =
     Some (set_bet (Some {| bet_selectionId := sel; bet_size := stake;
                            bet_price := price |}) game).
Proof.
  intros Hsim Hg. unfold placeBet, betSize_of. cbv zeta. proj. rewrite Hg, Hsim.
  destruct t; proj; rewrite get_alter_same, Hg; repeat split.
Qed.

(** Outside simulation [placeBet] returns to its caller at the first
    [await]: the request is pending, nothing is recorded and the flag is
    as it was. *)
Lemma placeBet_live cfg k sel price t s game :
  enableSimulation cfg = false ->
  Dict.get k (gameHistoricalData s) = Some game ->
  let s' := placeBet cfg k sel price t s in
  hasOpenBet s' = hasOpenBet s
  /\ gameHistoricalData s' = gameHistoricalData s
  /\ pending s' = pending s ++ [AwaitPlaceOrders (eventId_or game k) k sel price
                                   (betSize_of cfg s) t].
Proof.
  intros Hsim Hg. unfold placeBet. cbv zeta. proj. rewrite Hg, Hsim.
  repeat split.
Qed.

Lemma settle_calls cfg k game mc s :
  placeBetCalls (snd (settle cfg k game mc s)) = placeBetCalls s.
Proof.
  unfold settle.
  destruct (bet game) as [b|]; [|reflexivity].
  destruct (match marketDefinition mc with Some md => runners md | None => None end)
    as [rs|]; [|reflexivity].
  destruct (find _ rs) as [winner|]; [|reflexivity].
  destruct (enableSimulation cfg); destruct (Z.eqb _ _); reflexivity.
Qed.

Lemma status_phase_calls cfg k mc s :
  placeBetCalls (status_phase cfg k mc s) = placeBetCalls s.
Proof.
  unfold status_phase. destruct (is_closed mc).
  - cbv zeta.
    destruct (Dict.get k (gameHistoricalData (modify_game k _ s))) as [game|]; [|reflexivity].
    pose proof (settle_calls cfg k game mc
                  (modify_game k (fun g => set_status "ENDED" (set_isOpen false g)) s)) as H.
    destruct (settle cfg k game mc _) as [[outcome pnl] s1]. cbn [snd] in H. proj.
    exact H.
  - destruct (isInPlay_of mc); reflexivity.
Qed.

(** Without test betting, the price block only rewrites the odds of its
    market. *)
Lemma update_runner_odds_only k runner s game odds :
  Dict.get k (gameHistoricalData s) = Some (set_currentOdds odds game) ->
  exists odds',
    Dict.get k (gameHistoricalData (update_runner k runner s))
      = Some (set_currentOdds odds' game)
    /\ hasOpenBet (update_runner k runner s) = hasOpenBet s
    /\ placeBetCalls (update_runner k runner s) = placeBetCalls s.
Proof.
  intros Hg. unfold update_runner. rewrite Hg.
  destruct (best_back runner) as [| | |x| |]; try (exists odds; now repeat split).
  destruct (Js.isNaN x || Js.is_zero x); [exists odds; now repeat split|].
  destruct (Js.le x (Js.of_Z 1)); [exists odds; now repeat split|].
  destruct (Z.eqb _ _).
  - eexists. proj. rewrite get_alter_same, Hg. cbn [option_map]. repeat split.
  - destruct (Z.eqb _ _).
    + eexists. proj. rewrite get_alter_same, Hg. cbn [option_map]. repeat split.
    + exists odds. now repeat split.
Qed.

Lemma price_phase_staking cfg mc s game :
  testBetEnabled cfg = false ->
  Dict.get (mc_id mc) (gameHistoricalData s) = Some game ->
  exists odds,
    Dict.get (mc_id mc) (gameHistoricalData (price_phase cfg mc s))
      = Some (set_currentOdds odds game)
    /\ hasOpenBet (price_phase cfg mc s) = hasOpenBet s
    /\ placeBetCalls (price_phase cfg mc s) = placeBetCalls s.
Proof.
  intros Ht Hg. rewrite <- (set_currentOdds_id game) in Hg at 1.
  unfold price_phase.
  destruct (rc mc) as [rcs|]; [|eexists; repeat split; exact Hg].
  destruct (isInPlay_of mc); [|eexists; repeat split; exact Hg].
  unfold odds_phase, test_bet. rewrite Ht. cbn [andb]. cbv zeta.
  assert (H : exists odds',
            Dict.get (mc_id mc) (gameHistoricalData
               (fold_left (fun s runner => update_runner (mc_id mc) runner s) rcs s))
              = Some (set_currentOdds odds' game)
            /\ hasOpenBet (fold_left (fun s runner => update_runner (mc_id mc) runner s) rcs s)
               = hasOpenBet s
            /\ placeBetCalls (fold_left (fun s runner => update_runner (mc_id mc) runner s) rcs s)
               = placeBetCalls s).
  { revert Hg. generalize (currentOdds game) as odds. revert s.
    induction rcs as [|runner rcs IH]; intros s odds Hg; cbn [fold_left].
    - exists odds. now repeat split.
    - destruct (update_runner_odds_only (mc_id mc) runner s game odds Hg)
        as [odds1 [H1 [H2 H3]]].
      destruct (IH _ _ H1) as [odds2 [H4 [H5 H6]]].
      exists odds2. repeat split; congruence. }
  destruct H as [odds' [H1 [H2 H3]]]. rewrite H1. proj.
  exists odds'. now repeat split.
Qed.

Lemma score_phase_calls cfg k mc s game sc set1 rest :
  testBetEnabled cfg = false ->
  Dict.get k (gameHistoricalData s) = Some game ->
  hasFirstSetEnded game = false ->
  score_of mc = Some sc ->
  score_sets sc = Some (set1 :: rest) ->
  completed set1 = true ->
  let home := or_zero (homeScore set1) in
  let away := or_zero (awayScore set1) in
  placeBetCalls (score_phase cfg k mc s) =
  placeBetCalls s ++
  match (if Js.gt home away then pB (currentOdds game) else pA (currentOdds game)) with
  | Some odds =>
      if Js.le (Js.abs (Js.sub home away)) (Js.of_Z 2) && Js.ge odds (Js.of_Z 2)
         && negb (hasOpenBet s)
      then [{| call_market := k;
               call_selectionId := if Js.gt home away then selectionIdB game
                                   else selectionIdA game;
               call_price := odds; call_isTestBet := false |}]
      else []
  | None => []
  end.
Proof.
  intros Ht Hg Hf Hsc Hsets Hcomp home away. subst home away.
  unfold score_phase. rewrite Hsc, Ht, Hsets.
  set (s1 := modify_game k (set_sets (set1 :: rest)) s).
  assert (Hg1 : Dict.get k (gameHistoricalData s1)
                = Some (set_sets (set1 :: rest) game)).
  { subst s1. rewrite gameHistoricalData_modify_game, get_alter_same, Hg. reflexivity. }
  assert (Hc1 : placeBetCalls s1 = placeBetCalls s) by reflexivity.
  assert (Hb1 : hasOpenBet s1 = hasOpenBet s) by reflexivity.
  clearbody s1. cbv zeta. rewrite Hg1.
  cbn [sets set_sets hasFirstSetEnded currentOdds selectionIdA selectionIdB].
  rewrite Hf, Hcomp. cbn [negb andb].
  rewrite <- Hc1, <- Hb1.
  destruct (if Js.gt (or_zero (homeScore set1)) (or_zero (awayScore set1))
            then pB (currentOdds game) else pA (currentOdds game)) as [odds|].
  - destruct (Js.le _ _ && Js.ge _ _); cbn [andb].
    + autorewrite with fields.
      destruct (hasOpenBet s1); cbn [negb]; autorewrite with fields.
      * now rewrite app_nil_r.
      * rewrite placeBet_calls. autorewrite with fields. reflexivity.
    + autorewrite with fields. now rewrite app_nil_r.
  - autorewrite with fields. now rewrite app_nil_r.
Qed.

(** The calls of [placeBet] made by [market_change] when the first set
    ends, without test betting. *)
Lemma market_change_staking cfg mc s game sc set1 rest :
  testBetEnabled cfg = false ->
  Dict.get (mc_id mc) (gameHistoricalData s) = Some game ->
  isOpen game = true ->
  hasFirstSetEnded game = false ->
  score_of mc = Some sc ->
  score_sets sc = Some (set1 :: rest) ->
  completed set1 = true ->
  let home := or_zero (homeScore set1) in
  let away := or_zero (awayScore set1) in
  let diff := Js.abs (Js.sub home away) in
  exists game1,
    Dict.get (mc_id mc) (gameHistoricalData (price_phase cfg mc s)) = Some game1
    /\ let underdogOdds :=
         if Js.gt home away then pB (currentOdds game1) else pA (currentOdds game1) in
       let underdog :=
         if Js.gt home away then selectionIdB game else selectionIdA game in
       placeBetCalls (market_change cfg mc s) =
       placeBetCalls s ++
       match underdogOdds with
       | Some odds =>
           if Js.le diff (Js.of_Z 2) && Js.ge odds (Js.of_Z 2) && negb (hasOpenBet s)
           then [{| call_market := mc_id mc; call_selectionId := underdog;
                    call_price := odds; call_isTestBet := false |}]
           else []
       | None => []
       end.
Proof.
  intros Ht Hg Ho Hf Hsc Hsets Hcomp home away diff.
  destruct (price_phase_staking cfg mc s game Ht Hg) as [odds [H1 [H2 H3]]].
  exists (set_currentOdds odds game). split; [exact H1|]. cbv zeta.
  unfold market_change. cbv zeta. rewrite Hg, Ho. cbn [negb].
  assert (He : excluded cfg mc = false).
  { unfold excluded. rewrite Hsc. apply andb_false_r. }
  rewrite He, status_phase_calls.
  rewrite (score_phase_calls cfg (mc_id mc) mc (price_phase cfg mc s)
             (set_currentOdds odds game) sc set1 rest Ht H1 Hf Hsc Hsets Hcomp).
  rewrite H2, H3. reflexivity.
Qed.

(** Without test betting the price block leaves the money alone. *)
Lemma update_runner_money k runner s :
  simBalance (update_runner k runner s) = simBalance s
  /\ multiplier (update_runner k runner s) = multiplier s.
Proof. unfold update_runner. repeat split_test; now split. Qed.

Lemma price_phase_money cfg mc s :
  testBetEnabled cfg = false ->
  simBalance (price_phase cfg mc s) = simBalance s
  /\ multiplier (price_phase cfg mc s) = multiplier s.
Proof.
  intros Ht. unfold price_phase.
  destruct (rc mc) as [rcs|]; [|now split].
  destruct (isInPlay_of mc); [|now split].
  unfold odds_phase, test_bet. rewrite Ht. cbn [andb]. cbv zeta.
  assert (H : simBalance (fold_left (fun s runner => update_runner (mc_id mc) runner s) rcs s)
              = simBalance s
              /\ multiplier (fold_left (fun s runner => update_runner (mc_id mc) runner s) rcs s)
                 = multiplier s).
  { revert s. induction rcs as [|runner rcs IH]; intros s; cbn [fold_left]; [now split|].
    destruct (IH (update_runner (mc_id mc) runner s)) as [A B].
    destruct (update_runner_money (mc_id mc) runner s) as [C D]. split; congruence. }
  destruct (Dict.get _ _); exact H.
Qed.

(** In simulation, the stake the first-set block places when its test
    passes: the bet is recorded on the market at the loser's odds, the
    stake is debited and [hasOpenBet] is set. *)
Lemma score_phase_stakes cfg k mc s game sc set1 rest odds :
  testBetEnabled cfg = false ->
  enableSimulation cfg = true ->
  Dict.get k (gameHistoricalData s) = Some game ->
  hasFirstSetEnded game = false ->
  score_of mc = Some sc ->
  score_sets sc = Some (set1 :: rest) ->
  completed set1 = true ->
  let home := or_zero (homeScore set1) in
  let away := or_zero (awayScore set1) in
  (if Js.gt home away then pB (currentOdds game) else pA (currentOdds game)) = Some odds ->
  Js.le (Js.abs (Js.sub home away)) (Js.of_Z 2) && Js.ge odds (Js.of_Z 2) = true ->
  hasOpenBet s = false ->
  let s' := score_phase cfg k mc s in
  let stake := Js.mul (Js.mul (Js.div betPercentage (Js.of_Z 100)) (simBalance s))
                 (multiplier s) in
  bet_on k s' = Some {| bet_selectionId := if Js.gt home away then selectionIdB game
                                           else selectionIdA game;
                        bet_size := stake; bet_price := odds |}
  /\ simBalance s' = Js.sub (simBalance s) stake
  /\ multiplier s' = multiplier s
  /\ hasOpenBet s' = true.
Proof.
  intros Ht Hsim Hg Hf Hsc Hsets Hcomp home away Hodds Hcond Hopen s' stake.
  subst s' home away. unfold score_phase. rewrite Hsc, Ht, Hsets.
  set (s1 := modify_game k (set_sets (set1 :: rest)) s).
  assert (Hg1 : Dict.get k (gameHistoricalData s1) = Some (set_sets (set1 :: rest) game)).
  { subst s1. rewrite gameHistoricalData_modify_game, get_alter_same, Hg. reflexivity. }
  cbv zeta. rewrite Hg1.
  cbn [sets set_sets hasFirstSetEnded currentOdds selectionIdA selectionIdB].
  rewrite Hf, Hcomp. cbn [negb andb]. rewrite Hodds, Hcond.
  change (hasOpenBet (incr_totalConditionsMet
            (incr_totalSetsCompleted (modify_game k (set_hasFirstSetEnded true) s1))))
    with (hasOpenBet s).
  rewrite Hopen. cbn [negb].
  set (s3 := incr_totalConditionsMet
               (incr_totalSetsCompleted (modify_game k (set_hasFirstSetEnded true) s1))).
  assert (Hg3 : Dict.get k (gameHistoricalData s3)
                = Some (set_hasFirstSetEnded true (set_sets (set1 :: rest) game))).
  { subst s3. unfold incr_totalConditionsMet, incr_totalSetsCompleted. proj.
    rewrite get_alter_same, Hg1. reflexivity. }
  destruct (placeBet_simulated cfg k
              (if Js.gt (or_zero (homeScore set1)) (or_zero (awayScore set1))
               then selectionIdB game else selectionIdA game)
              odds false s3 _ Hsim Hg3) as [A [_ [B C]]].
  assert (M : multiplier (placeBet cfg k
                (if Js.gt (or_zero (homeScore set1)) (or_zero (awayScore set1))
                 then selectionIdB game else selectionIdA game) odds false s3)
              = multiplier s3).
  { unfold placeBet. cbv zeta. proj. rewrite Hg3, Hsim. reflexivity. }
  unfold bet_on, incr_totalBetsPlaced. proj. rewrite C. cbn [bet set_bet].
  split; [reflexivity|]. split; [exact B|]. split; [exact M | exact A].
Qed.

(** The status block of a delta that does not close the market keeps its
    bet, the money and the flag. *)
Lemma status_phase_open cfg k mc s :
  is_closed mc = false ->
  bet_on k (status_phase cfg k mc s) = bet_on k s
  /\ simBalance (status_phase cfg k mc s) = simBalance s
  /\ multiplier (status_phase cfg k mc s) = multiplier s
  /\ hasOpenBet (status_phase cfg k mc s) = hasOpenBet s.
Proof.
  intros Hc. unfold status_phase, bet_on. rewrite Hc.
  destruct (isInPlay_of mc); proj; rewrite get_alter_same;
    destruct (Dict.get k (gameHistoricalData s)); now repeat split.
Qed.

(** What the code decides when a first set ends.  Without test betting,
    when a delta for a tracked open market whose first set had not ended
    reports that set as completed: with the game counts [home] and
    [away], [diff] their absolute difference, and the losing side taken
    as B when [home > away] and as A otherwise, [placeBet] is called,
    once, for the losing side's selection at its current odds (those after
    the delta's own price update) exactly when [diff <= 2], those odds
    are set and [>= 2], and the flag [hasOpenBet] is false; in simulation
    the bet is then recorded on the market at those odds with a stake of
    10% of the balance times the multiplier, which is debited. *)
Lemma staking_decision cfg mc s game sc set1 rest :
  testBetEnabled cfg = false ->
  Dict.get (mc_id mc) (gameHistoricalData s) = Some game ->
  isOpen game = true ->
  hasFirstSetEnded game = false ->
  score_of mc = Some sc ->
  score_sets sc = Some (set1 :: rest) ->
  completed set1 = true ->
  let home := or_zero (homeScore set1) in
  let away := or_zero (awayScore set1) in
  let diff := Js.abs (Js.sub home away) in
  let s' := market_change cfg mc s in
  exists game1,
    Dict.get (mc_id mc) (gameHistoricalData (price_phase cfg mc s)) = Some game1
    /\ let underdogOdds :=
         if Js.gt home away then pB (currentOdds game1) else pA (currentOdds game1) in
       let underdog :=
         if Js.gt home away then selectionIdB game else selectionIdA game in
       match underdogOdds with
       | Some odds =>
           if Js.le diff (Js.of_Z 2) && Js.ge odds (Js.of_Z 2) && negb (hasOpenBet s)
           then
             placeBetCalls s' =
             placeBetCalls s ++ [{| call_market := mc_id mc; call_selectionId := underdog;
                                    call_price := odds; call_isTestBet := false |}]
             /\ (enableSimulation cfg = true ->
                 is_closed mc = false ->
                 let stake :=
                   Js.mul (Js.mul (Js.div betPercentage (Js.of_Z 100)) (simBalance s))
                     (multiplier s) in
                 bet_on (mc_id mc) s' = Some {| bet_selectionId := underdog;
                                                bet_size := stake; bet_price := odds |}
                 /\ simBalance s' = Js.sub (simBalance s) stake
                 /\ hasOpenBet s' = true)
           else placeBetCalls s' = placeBetCalls s
       | None => placeBetCalls s' = placeBetCalls s
       end.
Proof.
  intros Ht Hg Ho Hf Hsc Hsets Hcomp home away diff s'.
  destruct (market_change_staking cfg mc s game sc set1 rest Ht Hg Ho Hf Hsc Hsets Hcomp)
    as [game1 [H1 H2]].
  exists game1. split; [exact H1|]. cbv zeta in H2 |- *. fold home away diff s' in H2 |- *.
  destruct (if Js.gt home away then pB (currentOdds game1) else pA (currentOdds game1))
    as [odds|] eqn:Hodds; [|now rewrite H2, app_nil_r].
  destruct (Js.le diff (Js.of_Z 2) && Js.ge odds (Js.of_Z 2) && negb (hasOpenBet s))
    eqn:Hcond; [|now rewrite H2, app_nil_r].
  split; [exact H2|]. intros Hsim Hc.
  apply andb_prop in Hcond. destruct Hcond as [Hcond Hopen].
  apply negb_true_iff in Hopen.
  destruct (price_phase_staking cfg mc s game Ht Hg) as [odds1 [P1 [P2 _]]].
  rewrite P1 in H1. injection H1 as <-.
  destruct (price_phase_money cfg mc s Ht) as [M1 M2].
  assert (Hpf : hasFirstSetEnded (set_currentOdds odds1 game) = false) by exact Hf.
  assert (Hop : hasOpenBet (price_phase cfg mc s) = false) by congruence.
  destruct (score_phase_stakes cfg (mc_id mc) mc (price_phase cfg mc s)
              (set_currentOdds odds1 game) sc set1 rest odds
              Ht Hsim P1 Hpf Hsc Hsets Hcomp Hodds Hcond Hop) as [S1 [S2 [S3 S4]]].
  destruct (status_phase_open cfg (mc_id mc) mc
              (score_phase cfg (mc_id mc) mc (price_phase cfg mc s)) Hc)
    as [T1 [T2 [_ T4]]].
  assert (E : s' = status_phase cfg (mc_id mc) mc
                     (score_phase cfg (mc_id mc) mc (price_phase cfg mc s))).
  { subst s'. unfold market_change. cbv zeta. rewrite Hg, Ho. cbn [negb].
    replace (excluded cfg mc) with false; [reflexivity|].
    unfold excluded. rewrite Hsc. now rewrite andb_false_r. }
  rewrite E, T1, T2, T4, S1, S2, S4, M1, M2. now repeat split.
Qed.

(** C4 on the code.  The staking condition tests the flag [hasOpenBet],
    and the flag is not the condition of C4: the closure of any
    market clears it (lines 629-630).  Without test betting and in
    simulation, with three tracked open markets: the first set of market
    1.1 ends 6-4 with the loser at 2.5, and a bet is placed on the loser at
    2.5 with a stake of 10% of the balance; market 1.3, which holds no
    bet, closes; then the first set of market 1.2 ends 6-4 with the loser
    at 2.5, and a second bet is placed, on that loser at 2.5, while the
    bet on market 1.1 is open in the store. *)
Theorem staking_condition_broken :
  let cfg := Scenario.staking_config in
  let closing := {| mc_id := "1.3";
                    marketDefinition :=
                      Some {| inPlay := false; md_status := "CLOSED"; score := None;
                              runners := None |};
                    rc := None |} in
  let s1 := deliver cfg
              [Scenario.mcm [Scenario.first_set_delta "1.1" 6 4 12 (Js.dec 25 10)]]
              (started Scenario.three_markets) in
  let s2 := deliver cfg [Scenario.mcm [closing]] s1 in
  let s3 := deliver cfg
              [Scenario.mcm [Scenario.first_set_delta "1.2" 6 4 22 (Js.dec 25 10)]] s2 in
  reaches cfg (started Scenario.three_markets) s3
  /\ (bet_on "1.1" s1 = Some {| bet_selectionId := 12%Z;
                                bet_size := Js.mul (Js.div betPercentage (Js.of_Z 100))
                                              (simBalance (started Scenario.three_markets));
                                bet_price := Js.dec 25 10 |}
      /\ hasOpenBet s1 = true)
  /\ (Scenario.markets_with_bet s2 = ["1.1"%string]
      /\ bet_on "1.1" s2 = bet_on "1.1" s1
      /\ hasOpenBet s2 = false)
  /\ (placeBetCalls s3 =
      placeBetCalls s2 ++ [{| call_market := "1.2"; call_selectionId := 22;
                              call_price := Js.dec 25 10; call_isTestBet := false |}]
      /\ option_map bet_selectionId (bet_on "1.2" s3) = Some 22%Z
      /\ option_map bet_price (bet_on "1.2" s3) = Some (Js.dec 25 10)
      /\ bet_on "1.1" s3 = bet_on "1.1" s1
      /\ Scenario.markets_with_bet s3 = ["1.1"; "1.2"]%string).
Proof.
  cbv zeta. split.
  - eapply reaches_trans; [|apply reaches_deliver].
    eapply reaches_trans; [|apply reaches_deliver].
    apply reaches_deliver.
  - vm_compute. now repeat split.
Qed.

(** A first set ending 6-1 places no bet, whatever the odds. *)
Example no_stake_after_6_1 cfg mc s game sc rest :
  testBetEnabled cfg = false ->
  Dict.get (mc_id mc) (gameHistoricalData s) = Some game ->
  isOpen game = true ->
  hasFirstSetEnded game = false ->
  score_of mc = Some sc ->
  score_sets sc = Some ({| homeScore := Some (Js.of_Z 6); awayScore := Some (Js.of_Z 1);
                           completed := true |} :: rest) ->
  placeBetCalls (market_change cfg mc s) = placeBetCalls s.
Proof.
  intros Ht Hg Ho Hf Hsc Hsets.
  destruct (market_change_staking cfg mc s game sc _ rest Ht Hg Ho Hf Hsc Hsets eq_refl)
    as [game1 [_ H]].
  rewrite H. clear H.
  match goal with
  | |- context [Js.le ?a ?b] => replace (Js.le a b) with false by (vm_compute; reflexivity)
  end.
  cbn [andb]. repeat split_test; apply app_nil_r.
Qed.

(** *** C8: the subscription contract *)

Lemma ws_write_written m s socket :
  ws s = Some socket ->
  written (ws_write m s) = written s ++ [(socket, m)]
  /\ ws (ws_write m s) = Some socket
  /\ isSubscribed (ws_write m s) = isSubscribed s.
Proof. intros H. unfold ws_write. rewrite H. repeat split. exact H. Qed.

(** The loop from batch [j] on emits the batches [j], [j+1], ... up to the
    last one, provided the fuel covers them. *)
Lemma subscription_loop_written fuel j ids s socket :
  ws s = Some socket ->
  (List.length ids + 9) / 10 <= fuel + j ->
  written (subscription_loop fuel (j * 10) ids s) =
    written s ++ map (fun k => (socket, MarketSubscription (1 + k) (batch k ids)))
                   (seq j ((List.length ids + 9) / 10 - j))
  /\ ws (subscription_loop fuel (j * 10) ids s) = Some socket
  /\ isSubscribed (subscription_loop fuel (j * 10) ids s) = isSubscribed s.
Proof.
  revert j s. induction fuel as [|fuel IH]; intros j s Hws Hfuel; cbn [subscription_loop].
  - replace ((List.length ids + 9) / 10 - j) with 0 by lia.
    cbn [seq map]. rewrite app_nil_r. now repeat split.
  - destruct (j * 10 <? List.length ids) eqn:E.
    + apply Nat.ltb_lt in E.
      assert (Hj : j < (List.length ids + 9) / 10).
      { apply Nat.div_le_lower_bound; lia. }
      destruct (ws_write_written
                  (MarketSubscription (1 + j * 10 / maxMarketsPerSubscription)
                     (firstn maxMarketsPerSubscription (skipn (j * 10) ids))) s socket Hws)
        as [W1 [W2 W3]].
      change (j * 10 + maxMarketsPerSubscription) with (j * 10 + 10).
      replace (j * 10 + 10) with (S j * 10) by lia.
      destruct (IH (S j) _ W2 ltac:(lia)) as [A [B C]].
      rewrite A, B, C, W1, W3. repeat split.
      replace ((List.length ids + 9) / 10 - j) with (S ((List.length ids + 9) / 10 - S j))
        by lia.
      cbn [seq map]. rewrite <- app_assoc. cbn [app].
      unfold batch, maxMarketsPerSubscription. rewrite Nat.div_mul by lia. reflexivity.
    + apply Nat.ltb_ge in E.
      assert (Hj : (List.length ids + 9) / 10 <= j).
      { apply Nat.lt_succ_r. apply Nat.Div0.div_lt_upper_bound; lia. }
      replace ((List.length ids + 9) / 10 - j) with 0 by lia.
      cbn [seq map]. rewrite app_nil_r. now repeat split.
Qed.

Lemma batches_length ids :
  List.length (batches ids) = (List.length ids + 9) / 10.
Proof. unfold batches. now rewrite length_map, length_seq. Qed.



Lemma subscribe_written s socket :
  ws s = Some socket ->
  isSubscribed s = false ->
  openMarketIds_of s <> [] ->
  written (subscribeToOpenMarkets s) =
    written s ++ map (pair socket) (subscription_requests (openMarketIds_of s))
  /\ isSubscribed (subscribeToOpenMarkets s) = true.
Proof.
  intros Hws Hsub Hids. unfold subscribeToOpenMarkets. rewrite Hsub, Hws.
  destruct (openMarketIds_of s) as [|id ids] eqn:E; [congruence|]. cbv zeta.
  destruct (subscription_loop_written (List.length (id :: ids)) 0 (id :: ids) s socket Hws)
    as [A [B C]].
  { rewrite Nat.add_0_r. apply Nat.Div0.div_le_upper_bound. cbn [List.length]. lia. }
  change (0 * 10) with 0 in A, B, C.
  destruct (ws_write_written (OrderSubscription 999)
              (subscription_loop (List.length (id :: ids)) 0 (id :: ids) s) socket B)
    as [W1 _].
  split; [|reflexivity]. proj. rewrite W1, A, Nat.sub_0_r, <- app_assoc. f_equal.
  unfold subscription_requests. rewrite map_app, map_map, batches_length. reflexivity.
Qed.




(** *** C2 and C3: the frame decoder *)

Lemma keeps_refl s : keeps_buffer s s.
Proof. reflexivity. Qed.

Lemma keeps_then s s' s'' : keeps_buffer s' s'' -> keeps_buffer s s' -> keeps_buffer s s''.
Proof. unfold keeps_buffer. congruence. Qed.

Lemma keeps_modify_game k f s : keeps_buffer s (modify_game k f s).
Proof. reflexivity. Qed.

Lemma keeps_appendToNdjson e r s : keeps_buffer s (appendToNdjson e r s).
Proof. reflexivity. Qed.

Lemma keeps_set_gameHistoricalData v s : keeps_buffer s (set_gameHistoricalData v s).
Proof. reflexivity. Qed.

Lemma keeps_set_orderIds v s : keeps_buffer s (set_orderIds v s).
Proof. reflexivity. Qed.

Lemma keeps_set_hasOpenBet v s : keeps_buffer s (set_hasOpenBet v s).
Proof. reflexivity. Qed.

Lemma keeps_set_testBetPlaced v s : keeps_buffer s (set_testBetPlaced v s).
Proof. reflexivity. Qed.

Lemma keeps_set_hasPlacedBet v s : keeps_buffer s (set_hasPlacedBet v s).
Proof. reflexivity. Qed.

Lemma keeps_set_simBalance v s : keeps_buffer s (set_simBalance v s).
Proof. reflexivity. Qed.

Lemma keeps_set_multiplier v s : keeps_buffer s (set_multiplier v s).
Proof. reflexivity. Qed.

Lemma keeps_set_ws v s : keeps_buffer s (set_ws v s).
Proof. reflexivity. Qed.

Lemma keeps_set_isSubscribed v s : keeps_buffer s (set_isSubscribed v s).
Proof. reflexivity. Qed.

Lemma keeps_set_isAuthenticated v s : keeps_buffer s (set_isAuthenticated v s).
Proof. reflexivity. Qed.

Lemma keeps_set_totalSetsCompleted v s : keeps_buffer s (set_totalSetsCompleted v s).
Proof. reflexivity. Qed.

Lemma keeps_set_totalConditionsMet v s : keeps_buffer s (set_totalConditionsMet v s).
Proof. reflexivity. Qed.

Lemma keeps_set_totalBetsPlaced v s : keeps_buffer s (set_totalBetsPlaced v s).
Proof. reflexivity. Qed.

Lemma keeps_set_sockets v s : keeps_buffer s (set_sockets v s).
Proof. reflexivity. Qed.

Lemma keeps_set_timers v s : keeps_buffer s (set_timers v s).
Proof. reflexivity. Qed.

Lemma keeps_set_written v s : keeps_buffer s (set_written v s).
Proof. reflexivity. Qed.

Lemma keeps_set_ndjson v s : keeps_buffer s (set_ndjson v s).
Proof. reflexivity. Qed.

Lemma keeps_set_pending v s : keeps_buffer s (set_pending v s).
Proof. reflexivity. Qed.

Lemma keeps_set_placeBetCalls v s : keeps_buffer s (set_placeBetCalls v s).
Proof. reflexivity. Qed.

Lemma keeps_incr_totalSetsCompleted s : keeps_buffer s (incr_totalSetsCompleted s).
Proof. reflexivity. Qed.

Lemma keeps_incr_totalConditionsMet s : keeps_buffer s (incr_totalConditionsMet s).
Proof. reflexivity. Qed.

Lemma keeps_incr_totalBetsPlaced s : keeps_buffer s (incr_totalBetsPlaced s).
Proof. reflexivity. Qed.

Create HintDb keep.

#[global] Hint Extern 1 (keeps_buffer _ (modify_game _ _ _)) => apply keeps_modify_game : keep.
#[global] Hint Extern 1 (keeps_buffer _ (appendToNdjson _ _ _)) => apply keeps_appendToNdjson : keep.
#[global] Hint Extern 1 (keeps_buffer _ (set_gameHistoricalData _ _)) => apply keeps_set_gameHistoricalData : keep.
#[global] Hint Extern 1 (keeps_buffer _ (set_orderIds _ _)) => apply keeps_set_orderIds : keep.
#[global] Hint Extern 1 (keeps_buffer _ (set_hasOpenBet _ _)) => apply keeps_set_hasOpenBet : keep.
#[global] Hint Extern 1 (keeps_buffer _ (set_testBetPlaced _ _)) => apply keeps_set_testBetPlaced : keep.
#[global] Hint Extern 1 (keeps_buffer _ (set_hasPlacedBet _ _)) => apply keeps_set_hasPlacedBet : keep.
#[global] Hint Extern 1 (keeps_buffer _ (set_simBalance _ _)) => apply keeps_set_simBalance : keep.
#[global] Hint Extern 1 (keeps_buffer _ (set_multiplier _ _)) => apply keeps_set_multiplier : keep.
#[global] Hint Extern 1 (keeps_buffer _ (set_ws _ _)) => apply keeps_set_ws : keep.
#[global] Hint Extern 1 (keeps_buffer _ (set_isSubscribed _ _)) => apply keeps_set_isSubscribed : keep.
#[global] Hint Extern 1 (keeps_buffer _ (set_isAuthenticated _ _)) => apply keeps_set_isAuthenticated : keep.
#[global] Hint Extern 1 (keeps_buffer _ (set_totalSetsCompleted _ _)) => apply keeps_set_totalSetsCompleted : keep.
#[global] Hint Extern 1 (keeps_buffer _ (set_totalConditionsMet _ _)) => apply keeps_set_totalConditionsMet : keep.
#[global] Hint Extern 1 (keeps_buffer _ (set_totalBetsPlaced _ _)) => apply keeps_set_totalBetsPlaced : keep.
#[global] Hint Extern 1 (keeps_buffer _ (set_sockets _ _)) => apply keeps_set_sockets : keep.
#[global] Hint Extern 1 (keeps_buffer _ (set_timers _ _)) => apply keeps_set_timers : keep.
#[global] Hint Extern 1 (keeps_buffer _ (set_written _ _)) => apply keeps_set_written : keep.
#[global] Hint Extern 1 (keeps_buffer _ (set_ndjson _ _)) => apply keeps_set_ndjson : keep.
#[global] Hint Extern 1 (keeps_buffer _ (set_pending _ _)) => apply keeps_set_pending : keep.
#[global] Hint Extern 1 (keeps_buffer _ (set_placeBetCalls _ _)) => apply keeps_set_placeBetCalls : keep.
#[global] Hint Extern 1 (keeps_buffer _ (incr_totalSetsCompleted _)) => apply keeps_incr_totalSetsCompleted : keep.
#[global] Hint Extern 1 (keeps_buffer _ (incr_totalConditionsMet _)) => apply keeps_incr_totalConditionsMet : keep.
#[global] Hint Extern 1 (keeps_buffer _ (incr_totalBetsPlaced _)) => apply keeps_incr_totalBetsPlaced : keep.

Ltac keep_chain := chain keeps_refl keeps_then ltac:(auto with keep nocore).

Lemma keeps_ws_write m s : keeps_buffer s (ws_write m s).
Proof. unfold ws_write. keep_chain. Qed.

#[global] Hint Extern 1 (keeps_buffer _ (ws_write _ _)) => apply keeps_ws_write : keep.

Lemma keeps_subscription_loop fuel i ids s : keeps_buffer s (subscription_loop fuel i ids s).
Proof.
  revert i s. induction fuel as [|fuel IH]; intros i s; cbn [subscription_loop];
    [apply keeps_refl|].
  destruct (i <? List.length ids); [|apply keeps_refl].
  eapply keeps_then; [apply IH | apply keeps_ws_write].
Qed.

#[global] Hint Extern 1 (keeps_buffer _ (subscription_loop _ _ _ _)) =>
  apply keeps_subscription_loop : keep.

Lemma keeps_subscribeToOpenMarkets s : keeps_buffer s (subscribeToOpenMarkets s).
Proof. unfold subscribeToOpenMarkets. keep_chain. Qed.

Lemma keeps_placeBet cfg k sel price t s : keeps_buffer s (placeBet cfg k sel price t s).
Proof. unfold placeBet. cbv zeta. keep_chain. Qed.

#[global] Hint Extern 1 (keeps_buffer _ (subscribeToOpenMarkets _)) =>
  apply keeps_subscribeToOpenMarkets : keep.
#[global] Hint Extern 1 (keeps_buffer _ (placeBet _ _ _ _ _ _)) => apply keeps_placeBet : keep.

Lemma keeps_update_runner k runner s : keeps_buffer s (update_runner k runner s).
Proof. unfold update_runner. keep_chain. Qed.

Lemma keeps_fold A (f : A -> State -> State) (l : list A) s :
  (forall a s, keeps_buffer s (f a s)) ->
  keeps_buffer s (fold_left (fun s a => f a s) l s).
Proof.
  intros Hf. revert s. induction l as [|a l IH]; intros s; cbn [fold_left].
  - apply keeps_refl.
  - eapply keeps_then; [apply IH | apply Hf].
Qed.

Lemma keeps_test_bet cfg k inplay s : keeps_buffer s (test_bet cfg k inplay s).
Proof. unfold test_bet. cbv zeta. keep_chain. Qed.

Lemma keeps_odds_phase cfg k rcs inplay s : keeps_buffer s (odds_phase cfg k rcs inplay s).
Proof.
  unfold odds_phase. cbv zeta.
  assert (H : keeps_buffer s (test_bet cfg k inplay
                (fold_left (fun s runner => update_runner k runner s) rcs s))).
  { eapply keeps_then; [apply keeps_test_bet|].
    apply keeps_fold. intros. apply keeps_update_runner. }
  revert H. generalize (test_bet cfg k inplay
                (fold_left (fun s runner => update_runner k runner s) rcs s)).
  intros s' H. keep_chain.
Qed.

#[global] Hint Extern 1 (keeps_buffer _ (odds_phase _ _ _ _ _)) => apply keeps_odds_phase : keep.

Lemma keeps_price_phase cfg mc s : keeps_buffer s (price_phase cfg mc s).
Proof. unfold price_phase. keep_chain. Qed.

Lemma keeps_score_phase cfg k mc s : keeps_buffer s (score_phase cfg k mc s).
Proof. unfold score_phase. keep_chain. Qed.

Lemma keeps_settle cfg k game mc s : keeps_buffer s (snd (settle cfg k game mc s)).
Proof.
  unfold settle.
  destruct (bet game) as [b|]; [|reflexivity].
  destruct (match marketDefinition mc with Some md => runners md | None => None end)
    as [rs|]; [|reflexivity].
  destruct (find _ rs) as [winner|]; [|reflexivity].
  destruct (enableSimulation cfg); destruct (Z.eqb _ _); reflexivity.
Qed.

Lemma keeps_status_phase cfg k mc s : keeps_buffer s (status_phase cfg k mc s).
Proof.
  unfold status_phase.
  destruct (is_closed mc); [|keep_chain]. cbv zeta.
  destruct (Dict.get k (gameHistoricalData (modify_game k _ s))) as [game|]; [|reflexivity].
  pose proof (keeps_settle cfg k game mc
                (modify_game k (fun g => set_status "ENDED" (set_isOpen false g)) s)) as H.
  destruct (settle cfg k game mc _) as [[outcome pnl] s1]. cbn [snd] in H.
  unfold keeps_buffer in *. proj. exact H.
Qed.

#[global] Hint Extern 1 (keeps_buffer _ (price_phase _ _ _)) => apply keeps_price_phase : keep.
#[global] Hint Extern 1 (keeps_buffer _ (score_phase _ _ _ _)) => apply keeps_score_phase : keep.
#[global] Hint Extern 1 (keeps_buffer _ (status_phase _ _ _ _)) => apply keeps_status_phase : keep.

Lemma keeps_market_change cfg mc s : keeps_buffer s (market_change cfg mc s).
Proof. unfold market_change. keep_chain. Qed.

Lemma keeps_order_reports k game orders s :
  keeps_buffer s (state_of (order_reports k game orders s)).
Proof.
  revert s. induction orders as [|order rest IH]; intros s; cbn [order_reports];
    [apply keeps_refl|].
  destruct (or_profit order) as [profit|]; [|apply IH].
  destruct (_ && _); [|apply IH].
  destruct (bet game) as [b|]; [|apply keeps_refl].
  eapply keeps_then; [apply IH|]. reflexivity.
Qed.

Lemma keeps_order_change cfg oc s : keeps_buffer s (state_of (order_change cfg oc s)).
Proof.
  unfold order_change.
  destruct (Dict.get _ _) as [game|]; [|apply keeps_refl].
  destruct (_ && _); [|apply keeps_refl].
  destruct (oc_or oc); [apply keeps_order_reports | apply keeps_refl].
Qed.

Lemma keeps_order_changes cfg ocs s : keeps_buffer s (state_of (order_changes cfg ocs s)).
Proof.
  revert s. induction ocs as [|oc rest IH]; intros s; cbn [order_changes];
    [apply keeps_refl|].
  pose proof (keeps_order_change cfg oc s) as H.
  destruct (order_change cfg oc s) as [s'|s']; cbn [state_of] in *.
  - eapply keeps_then; [apply IH | exact H].
  - exact H.
Qed.

Lemma keeps_handleStreamMessage cfg m s :
  keeps_buffer s (state_of (handleStreamMessage cfg m s)).
Proof.
  unfold handleStreamMessage.
  destruct (_ && _).
  - cbn [state_of]. keep_chain.
  - destruct (String.eqb (op m) "mcm").
    + destruct (mc m); cbn [state_of]; [|apply keeps_refl].
      apply keeps_fold. intros. apply keeps_market_change.
    + destruct (String.eqb (op m) "ocm"); [|apply keeps_refl].
      destruct (oc m); [apply keeps_order_changes | apply keeps_refl].
Qed.

Lemma buffer_dispatch cfg parse frame s : buffer (dispatch cfg parse frame s) = buffer s.
Proof.
  unfold dispatch. destruct (parse frame); [apply keeps_handleStreamMessage | reflexivity].
Qed.

(** The frames the data handler cuts off and the text it retains depend on
    the buffer alone. *)
Lemma drain_cut cfg parse fuel s :
  fst (drain cfg parse fuel s) = fst (cut fuel (buffer s))
  /\ buffer (snd (drain cfg parse fuel s)) = snd (cut fuel (buffer s)).
Proof.
  revert s. induction fuel as [|fuel IH]; intros s; cbn [drain cut]; [now split|].
  destruct (Js.indexOf_crlf (buffer s)) as [index|]; [|now split].
  match goal with |- context [drain cfg parse fuel ?t] =>
    destruct (IH t) as [A B]; destruct (drain cfg parse fuel t) as [frames s'] end.
  rewrite buffer_dispatch in A, B. proj.
  destruct (cut fuel (Js.slice_from (index + 2) (buffer s))) as [frames' rest].
  cbn [fst snd] in *. split; [now f_equal | exact B].
Qed.

Lemma indexOf_framed f rest :
  no_crlf f -> Js.indexOf_crlf (f ++ Js.CR :: Js.LF :: rest) = Some (List.length f).
Proof.
  unfold no_crlf. induction f as [|c f IH]; intros Hf; [reflexivity|].
  cbn [app Js.indexOf_crlf List.length] in *.
  destruct f as [|d f'].
  - cbn [app]. replace (N.eqb Js.CR Js.LF) with false by reflexivity.
    rewrite andb_false_r. reflexivity.
  - cbn [app] in *. destruct (N.eqb c Js.CR && N.eqb d Js.LF); [discriminate|].
    destruct (Js.indexOf_crlf (d :: f')) eqn:E; [discriminate|].
    rewrite IH by reflexivity. reflexivity.
Qed.

Lemma indexOf_split text index :
  Js.indexOf_crlf text = Some index ->
  text = Js.slice_to index text ++ Js.CR :: Js.LF :: Js.slice_from (index + 2) text
  /\ no_crlf (Js.slice_to index text).
Proof.
  unfold Js.slice_to, Js.slice_from, no_crlf. revert index.
  induction text as [|c text IH]; intros index H; [discriminate|].
  cbn [Js.indexOf_crlf] in H. destruct text as [|d text']; [discriminate|].
  destruct (N.eqb c Js.CR && N.eqb d Js.LF) eqn:E.
  - injection H as <-. apply andb_prop in E. destruct E as [Ec Ed].
    apply N.eqb_eq in Ec, Ed. subst. now split.
  - destruct (Js.indexOf_crlf (d :: text')) as [i|] eqn:Ei; [|discriminate].
    injection H as <-. destruct (IH i eq_refl) as [A B].
    cbn [Nat.add firstn skipn]. split.
    + cbn [app]. f_equal. exact A.
    + destruct i as [|i]; [reflexivity|].
      cbn [firstn] in *. cbn [Js.indexOf_crlf]. rewrite E.
      cbn [Js.indexOf_crlf] in B. destruct (firstn i text') eqn:Ef.
      * reflexivity.
      * now rewrite B.
Qed.

Lemma framed_cons f frames :
  framed (f :: frames) = f ++ Js.CR :: Js.LF :: framed frames.
Proof. unfold framed. cbn [map List.concat]. now rewrite <- app_assoc. Qed.

Lemma framed_app a b : framed (a ++ b) = framed a ++ framed b.
Proof. unfold framed. now rewrite map_app, concat_app. Qed.

(** With fuel beyond the length of the text, the loop stops because no
    terminator is left: the frames cut off and the text retained are the
    decomposition of the text at its terminators. *)
Lemma cut_spec fuel text :
  List.length text < fuel ->
  framed (fst (cut fuel text)) ++ snd (cut fuel text) = text
  /\ Forall no_crlf (fst (cut fuel text))
  /\ no_crlf (snd (cut fuel text)).
Proof.
  revert text. induction fuel as [|fuel IH]; intros text Hlen; [lia|].
  cbn [cut]. destruct (Js.indexOf_crlf text) as [index|] eqn:E.
  - destruct (indexOf_split text index E) as [A B].
    assert (Hrest : List.length (Js.slice_from (index + 2) text) < fuel).
    { apply (f_equal (@List.length N)) in A. rewrite length_app in A.
      cbn [List.length] in A. lia. }
    destruct (IH _ Hrest) as [C [D F]].
    destruct (cut fuel (Js.slice_from (index + 2) text)) as [frames rest].
    cbn [fst snd] in *. split; [|split].
    + rewrite framed_cons, <- app_assoc. cbn [app]. rewrite C. symmetry. exact A.
    + constructor; assumption.
    + exact F.
  - cbn [fst snd]. split; [reflexivity|]. split; [constructor | exact E].
Qed.

Lemma app_same_length A (a b x y : list A) :
  List.length a = List.length b -> a ++ x = b ++ y -> a = b /\ x = y.
Proof.
  revert b. induction a as [|c a IH]; intros [|d b] L E; try discriminate.
  - now split.
  - cbn [app] in E. injection E as -> E. injection L as L.
    destruct (IH b L E) as [-> ->]. now split.
Qed.

(** A text has one decomposition into terminator-free frames and a
    terminator-free remainder. *)
Lemma framed_unique fs r gs :
  Forall no_crlf fs -> no_crlf r -> Forall no_crlf gs ->
  framed fs ++ r = framed gs ->
  fs = gs /\ r = [].
Proof.
  revert gs. induction fs as [|f fs IH]; intros gs Hfs Hr Hgs E.
  - cbn [framed map List.concat app] in E. destruct gs as [|g gs].
    + now split.
    + exfalso. inversion Hgs; subst. rewrite framed_cons in Hr.
      unfold no_crlf in Hr. rewrite indexOf_framed in Hr by assumption. discriminate.
  - inversion Hfs; subst. destruct gs as [|g gs].
    + exfalso. rewrite framed_cons in E. destruct f; discriminate.
    + inversion Hgs; subst. rewrite !framed_cons, <- app_assoc in E. cbn [app] in E.
      assert (L : List.length f = List.length g).
      { pose proof (indexOf_framed f (framed fs ++ r) H1) as I1.
        pose proof (indexOf_framed g (framed gs) H3) as I2.
        rewrite E in I1. congruence. }
      apply app_same_length in E; [|exact L].
      destruct E as [-> E]. injection E as E.
      destruct (IH gs H2 Hr H4 E) as [-> ->]. now split.
Qed.

Lemma on_data_spec cfg parse data s :
  framed (fst (on_data cfg parse data s)) ++ buffer (snd (on_data cfg parse data s))
    = buffer s ++ Js.toString data
  /\ Forall no_crlf (fst (on_data cfg parse data s))
  /\ no_crlf (buffer (snd (on_data cfg parse data s))).
Proof.
  unfold on_data. cbv zeta.
  destruct (drain_cut cfg parse
              (S (List.length (buffer (set_buffer (buffer s ++ Js.toString data) s))))
              (set_buffer (buffer s ++ Js.toString data) s)) as [A B].
  rewrite A, B. proj. apply cut_spec. lia.
Qed.

Lemma on_data_no_terminator cfg parse data s :
  no_crlf (buffer s ++ Js.toString data) ->
  on_data cfg parse data s = ([], set_buffer (buffer s ++ Js.toString data) s).
Proof.
  intros H. unfold on_data. cbv zeta. cbn [drain]. proj. now rewrite H.
Qed.

Lemma ingest_spec cfg parse chunks s :
  no_crlf (buffer s) ->
  framed (fst (ingest cfg parse chunks s)) ++ buffer (snd (ingest cfg parse chunks s))
    = buffer s ++ List.concat (map Js.toString chunks)
  /\ Forall no_crlf (fst (ingest cfg parse chunks s))
  /\ no_crlf (buffer (snd (ingest cfg parse chunks s))).
Proof.
  revert s. induction chunks as [|data rest IH]; intros s Hs; cbn [ingest map List.concat].
  - cbn [fst snd framed map List.concat app]. rewrite app_nil_r. repeat split; [constructor | exact Hs].
  - destruct (on_data_spec cfg parse data s) as [A [B C]].
    destruct (on_data cfg parse data s) as [frames s1]. cbn [fst snd] in A, B, C.
    destruct (IH s1 C) as [D [E F]].
    destruct (ingest cfg parse rest s1) as [frames' s2]. cbn [fst snd] in *.
    split; [|split].
    + rewrite framed_app, <- app_assoc, D, !app_assoc, A. reflexivity.
    + apply Forall_app. now split.
    + exact F.
Qed.

(** Decoding and framing.  After any prefix, an ASCII byte is decoded as
    itself and leaves the decoder idle, so the text of a byte stream made of
    frames and terminators is made of the texts of the frames and
    terminators. *)

Lemma lead_wf b : decoder_wf (snd (Js.lead b)).
Proof.
  unfold Js.lead.
  destruct (N.leb b 127); [exact I|].
  destruct (Js.within 194 223 b); [cbn; lia|].
  destruct (Js.within 224 239 b); [cbn; destruct (N.eqb b 224); lia|].
  destruct (Js.within 240 244 b); [cbn; destruct (N.eqb b 240); lia|].
  exact I.
Qed.

Lemma feed_wf d b : decoder_wf d -> decoder_wf (snd (Js.feed d b)).
Proof.
  intros Hd. destruct d as [|cp needed lo hi]; cbn [Js.feed]; [apply lead_wf|].
  destruct (Js.within lo hi b).
  - destruct needed as [|[|n]]; cbn; try exact I. lia.
  - pose proof (lead_wf b) as H. destruct (Js.lead b) as [out d']. exact H.
Qed.

Lemma decode_ascii d b rest :
  decoder_wf d -> (b <= 127)%N ->
  Js.decode d (b :: rest) = Js.decode d [] ++ b :: Js.decode Js.Idle rest.
Proof.
  intros Hd Hb. cbn [Js.decode].
  assert (L : Js.lead b = ([b], Js.Idle)).
  { unfold Js.lead. apply N.leb_le in Hb. now rewrite Hb. }
  destruct d as [|cp needed lo hi]; cbn [Js.feed].
  - rewrite L. reflexivity.
  - replace (Js.within lo hi b) with false; [rewrite L; reflexivity|].
    symmetry. unfold Js.within. apply andb_false_intro1. apply N.leb_gt.
    cbn in Hd. lia.
Qed.

Lemma decode_cut f : forall d b rest,
  decoder_wf d -> (b <= 127)%N ->
  Js.decode d (f ++ b :: rest) = Js.decode d f ++ b :: Js.decode Js.Idle rest.
Proof.
  induction f as [|x f IH]; intros d b rest Hd Hb.
  - now apply decode_ascii.
  - cbn [app Js.decode]. pose proof (feed_wf d x Hd) as Hw.
    destruct (Js.feed d x) as [out d']. cbn [snd] in Hw.
    rewrite (IH d' b rest Hw Hb). now rewrite app_assoc.
Qed.

Lemma toString_cut f rest :
  Js.toString (f ++ Byte.x0d :: Byte.x0a :: rest)
  = Js.toString f ++ Js.CR :: Js.LF :: Js.toString rest.
Proof.
  unfold Js.toString. rewrite map_app. cbn [map].
  change (Byte.to_N Byte.x0d) with 13%N. change (Byte.to_N Byte.x0a) with 10%N.
  rewrite (decode_cut (map Byte.to_N f) Js.Idle 13) by (cbn; lia || exact I).
  rewrite (decode_ascii Js.Idle 10 (map Byte.to_N rest)) by (cbn; lia || exact I).
  rewrite flat_map_app. reflexivity.
Qed.

Lemma toString_framed frames :
  Js.toString (framed_bytes frames) = framed (map Js.toString frames).
Proof.
  unfold framed_bytes. induction frames as [|f frames IH]; [reflexivity|].
  cbn [map List.concat]. rewrite <- app_assoc. cbn [app].
  rewrite toString_cut, IH, framed_cons. reflexivity.
Qed.

Lemma buffer_deliver cfg messages s : buffer (deliver cfg messages s) = buffer s.
Proof.
  revert s. induction messages as [|m messages IH]; intros s; [reflexivity|].
  unfold deliver in *. cbn [fold_left]. rewrite IH. apply keeps_handleStreamMessage.
Qed.

(** The router never looks at the receive buffer: a handler run with
    another buffer does the same to the rest of the state. *)

Lemma blind_gameHistoricalData b s : gameHistoricalData (set_buffer b s) = gameHistoricalData s.
Proof. reflexivity. Qed.

Lemma blind_set_gameHistoricalData v b s : set_gameHistoricalData v (set_buffer b s) = set_buffer b (set_gameHistoricalData v s).
Proof. reflexivity. Qed.

Lemma blind_orderIds b s : orderIds (set_buffer b s) = orderIds s.
Proof. reflexivity. Qed.

Lemma blind_set_orderIds v b s : set_orderIds v (set_buffer b s) = set_buffer b (set_orderIds v s).
Proof. reflexivity. Qed.

Lemma blind_hasOpenBet b s : hasOpenBet (set_buffer b s) = hasOpenBet s.
Proof. reflexivity. Qed.

Lemma blind_set_hasOpenBet v b s : set_hasOpenBet v (set_buffer b s) = set_buffer b (set_hasOpenBet v s).
Proof. reflexivity. Qed.

Lemma blind_testBetPlaced b s : testBetPlaced (set_buffer b s) = testBetPlaced s.
Proof. reflexivity. Qed.

Lemma blind_set_testBetPlaced v b s : set_testBetPlaced v (set_buffer b s) = set_buffer b (set_testBetPlaced v s).
Proof. reflexivity. Qed.

Lemma blind_hasPlacedBet b s : hasPlacedBet (set_buffer b s) = hasPlacedBet s.
Proof. reflexivity. Qed.

Lemma blind_set_hasPlacedBet v b s : set_hasPlacedBet v (set_buffer b s) = set_buffer b (set_hasPlacedBet v s).
Proof. reflexivity. Qed.

Lemma blind_simBalance b s : simBalance (set_buffer b s) = simBalance s.
Proof. reflexivity. Qed.

Lemma blind_set_simBalance v b s : set_simBalance v (set_buffer b s) = set_buffer b (set_simBalance v s).
Proof. reflexivity. Qed.

Lemma blind_multiplier b s : multiplier (set_buffer b s) = multiplier s.
Proof. reflexivity. Qed.

Lemma blind_set_multiplier v b s : set_multiplier v (set_buffer b s) = set_buffer b (set_multiplier v s).
Proof. reflexivity. Qed.

Lemma blind_ws b s : ws (set_buffer b s) = ws s.
Proof. reflexivity. Qed.

Lemma blind_set_ws v b s : set_ws v (set_buffer b s) = set_buffer b (set_ws v s).
Proof. reflexivity. Qed.

Lemma blind_isSubscribed b s : isSubscribed (set_buffer b s) = isSubscribed s.
Proof. reflexivity. Qed.

Lemma blind_set_isSubscribed v b s : set_isSubscribed v (set_buffer b s) = set_buffer b (set_isSubscribed v s).
Proof. reflexivity. Qed.

Lemma blind_isAuthenticated b s : isAuthenticated (set_buffer b s) = isAuthenticated s.
Proof. reflexivity. Qed.

Lemma blind_set_isAuthenticated v b s : set_isAuthenticated v (set_buffer b s) = set_buffer b (set_isAuthenticated v s).
Proof. reflexivity. Qed.

Lemma blind_totalSetsCompleted b s : totalSetsCompleted (set_buffer b s) = totalSetsCompleted s.
Proof. reflexivity. Qed.

Lemma blind_set_totalSetsCompleted v b s : set_totalSetsCompleted v (set_buffer b s) = set_buffer b (set_totalSetsCompleted v s).
Proof. reflexivity. Qed.

Lemma blind_totalConditionsMet b s : totalConditionsMet (set_buffer b s) = totalConditionsMet s.
Proof. reflexivity. Qed.

Lemma blind_set_totalConditionsMet v b s : set_totalConditionsMet v (set_buffer b s) = set_buffer b (set_totalConditionsMet v s).
Proof. reflexivity. Qed.

Lemma blind_totalBetsPlaced b s : totalBetsPlaced (set_buffer b s) = totalBetsPlaced s.
Proof. reflexivity. Qed.

Lemma blind_set_totalBetsPlaced v b s : set_totalBetsPlaced v (set_buffer b s) = set_buffer b (set_totalBetsPlaced v s).
Proof. reflexivity. Qed.

Lemma blind_sockets b s : sockets (set_buffer b s) = sockets s.
Proof. reflexivity. Qed.

Lemma blind_set_sockets v b s : set_sockets v (set_buffer b s) = set_buffer b (set_sockets v s).
Proof. reflexivity. Qed.

Lemma blind_timers b s : timers (set_buffer b s) = timers s.
Proof. reflexivity. Qed.

Lemma blind_set_timers v b s : set_timers v (set_buffer b s) = set_buffer b (set_timers v s).
Proof. reflexivity. Qed.

Lemma blind_written b s : written (set_buffer b s) = written s.
Proof. reflexivity. Qed.

Lemma blind_set_written v b s : set_written v (set_buffer b s) = set_buffer b (set_written v s).
Proof. reflexivity. Qed.

Lemma blind_ndjson b s : ndjson (set_buffer b s) = ndjson s.
Proof. reflexivity. Qed.

Lemma blind_set_ndjson v b s : set_ndjson v (set_buffer b s) = set_buffer b (set_ndjson v s).
Proof. reflexivity. Qed.

Lemma blind_pending b s : pending (set_buffer b s) = pending s.
Proof. reflexivity. Qed.

Lemma blind_set_pending v b s : set_pending v (set_buffer b s) = set_buffer b (set_pending v s).
Proof. reflexivity. Qed.

Lemma blind_placeBetCalls b s : placeBetCalls (set_buffer b s) = placeBetCalls s.
Proof. reflexivity. Qed.

Lemma blind_set_placeBetCalls v b s : set_placeBetCalls v (set_buffer b s) = set_buffer b (set_placeBetCalls v s).
Proof. reflexivity. Qed.

Lemma blind_incr_totalSetsCompleted b s : incr_totalSetsCompleted (set_buffer b s) = set_buffer b (incr_totalSetsCompleted s).
Proof. reflexivity. Qed.

Lemma blind_incr_totalConditionsMet b s : incr_totalConditionsMet (set_buffer b s) = set_buffer b (incr_totalConditionsMet s).
Proof. reflexivity. Qed.

Lemma blind_incr_totalBetsPlaced b s : incr_totalBetsPlaced (set_buffer b s) = set_buffer b (incr_totalBetsPlaced s).
Proof. reflexivity. Qed.

Lemma blind_appendToNdjson e r b s :
  appendToNdjson e r (set_buffer b s) = set_buffer b (appendToNdjson e r s).
Proof. reflexivity. Qed.

Lemma blind_modify_game k f b s :
  modify_game k f (set_buffer b s) = set_buffer b (modify_game k f s).
Proof. reflexivity. Qed.

Lemma blind_betSize_of cfg b s : betSize_of cfg (set_buffer b s) = betSize_of cfg s.
Proof. reflexivity. Qed.

Lemma blind_openMarketIds_of b s : openMarketIds_of (set_buffer b s) = openMarketIds_of s.
Proof. reflexivity. Qed.

Lemma blind_has_orderId k b s : has_orderId k (set_buffer b s) = has_orderId k s.
Proof. reflexivity. Qed.

Lemma set_buffer_twice a b s : set_buffer a (set_buffer b s) = set_buffer a s.
Proof. reflexivity. Qed.

Lemma set_buffer_same s : set_buffer (buffer s) s = s.
Proof. now destruct s. Qed.

Create Rewrite HintDb blind.

#[global] Hint Rewrite blind_gameHistoricalData blind_set_gameHistoricalData blind_orderIds blind_set_orderIds blind_hasOpenBet blind_set_hasOpenBet blind_testBetPlaced blind_set_testBetPlaced blind_hasPlacedBet blind_set_hasPlacedBet blind_simBalance blind_set_simBalance blind_multiplier blind_set_multiplier blind_ws blind_set_ws blind_isSubscribed blind_set_isSubscribed blind_isAuthenticated blind_set_isAuthenticated blind_totalSetsCompleted blind_set_totalSetsCompleted blind_totalConditionsMet blind_set_totalConditionsMet blind_totalBetsPlaced blind_set_totalBetsPlaced blind_sockets blind_set_sockets blind_timers blind_set_timers blind_written blind_set_written blind_ndjson blind_set_ndjson blind_pending blind_set_pending blind_placeBetCalls blind_set_placeBetCalls blind_incr_totalSetsCompleted blind_incr_totalConditionsMet blind_incr_totalBetsPlaced blind_appendToNdjson blind_modify_game blind_betSize_of blind_openMarketIds_of blind_has_orderId : blind.


Ltac case_all :=
  repeat (autorewrite with blind;
          match goal with
          | |- context [match ?x with _ => _ end] =>
              lazymatch x with
              | context [match _ with _ => _ end] => fail
              | _ => destruct x eqn:?
              end
          end);
  autorewrite with blind.

Ltac blind := cbv zeta; case_all; try reflexivity.

Lemma blind_ws_write m b s : ws_write m (set_buffer b s) = set_buffer b (ws_write m s).
Proof. unfold ws_write. blind. Qed.

#[global] Hint Rewrite blind_ws_write : blind.

Lemma blind_subscription_loop fuel i ids b s :
  subscription_loop fuel i ids (set_buffer b s)
  = set_buffer b (subscription_loop fuel i ids s).
Proof.
  revert i s. induction fuel as [|fuel IH]; intros i s; cbn [subscription_loop];
    [reflexivity|].
  destruct (i <? List.length ids); [|reflexivity].
  cbv zeta. now rewrite blind_ws_write, IH.
Qed.

#[global] Hint Rewrite blind_subscription_loop : blind.

Lemma blind_subscribeToOpenMarkets b s :
  subscribeToOpenMarkets (set_buffer b s) = set_buffer b (subscribeToOpenMarkets s).
Proof. unfold subscribeToOpenMarkets. blind. Qed.

Lemma blind_placeBet cfg k sel price t b s :
  placeBet cfg k sel price t (set_buffer b s) = set_buffer b (placeBet cfg k sel price t s).
Proof. unfold placeBet. blind. Qed.

#[global] Hint Rewrite blind_subscribeToOpenMarkets blind_placeBet : blind.

Lemma blind_update_runner k runner b s :
  update_runner k runner (set_buffer b s) = set_buffer b (update_runner k runner s).
Proof. unfold update_runner. blind. Qed.

Lemma blind_fold A (f : A -> State -> State) (l : list A) b s :
  (forall a s, f a (set_buffer b s) = set_buffer b (f a s)) ->
  fold_left (fun s a => f a s) l (set_buffer b s)
  = set_buffer b (fold_left (fun s a => f a s) l s).
Proof.
  intros Hf. revert s. induction l as [|a l IH]; intros s; cbn [fold_left]; [reflexivity|].
  now rewrite Hf, IH.
Qed.

Lemma blind_test_bet cfg k inplay b s :
  test_bet cfg k inplay (set_buffer b s) = set_buffer b (test_bet cfg k inplay s).
Proof. unfold test_bet. blind. Qed.

#[global] Hint Rewrite blind_test_bet : blind.

Lemma blind_odds_phase cfg k rcs inplay b s :
  odds_phase cfg k rcs inplay (set_buffer b s) = set_buffer b (odds_phase cfg k rcs inplay s).
Proof.
  unfold odds_phase. cbv zeta.
  rewrite (blind_fold _ (update_runner k)) by (intros; apply blind_update_runner).
  blind.
Qed.

Lemma blind_score_phase cfg k mc b s :
  score_phase cfg k mc (set_buffer b s) = set_buffer b (score_phase cfg k mc s).
Proof. unfold score_phase. blind. Qed.

Lemma blind_settle cfg k game mc b s :
  settle cfg k game mc (set_buffer b s)
  = (fst (settle cfg k game mc s), set_buffer b (snd (settle cfg k game mc s))).
Proof. unfold settle. blind. Qed.

#[global] Hint Rewrite blind_odds_phase blind_score_phase : blind.

Lemma blind_status_phase cfg k mc b s :
  status_phase cfg k mc (set_buffer b s) = set_buffer b (status_phase cfg k mc s).
Proof.
  unfold status_phase. cbv zeta. autorewrite with blind.
  destruct (is_closed mc); [|blind].
  destruct (Dict.get k _) as [game|]; [|reflexivity].
  rewrite blind_settle.
  destruct (settle cfg k game mc _) as [[outcome pnl] s1]. cbn [fst snd]. blind.
Qed.

Lemma blind_price_phase cfg mc b s :
  price_phase cfg mc (set_buffer b s) = set_buffer b (price_phase cfg mc s).
Proof. unfold price_phase. blind. Qed.

#[global] Hint Rewrite blind_status_phase blind_price_phase : blind.

Lemma blind_market_change cfg mc b s :
  market_change cfg mc (set_buffer b s) = set_buffer b (market_change cfg mc s).
Proof. unfold market_change. blind. Qed.

Lemma blind_order_reports k game orders b s :
  order_reports k game orders (set_buffer b s)
  = with_buffer b (order_reports k game orders s).
Proof.
  revert s. induction orders as [|order rest IH]; intros s; cbn [order_reports];
    [reflexivity|].
  autorewrite with blind.
  destruct (or_profit order) as [profit|]; [|apply IH].
  destruct (_ && _); [|apply IH].
  destruct (bet game) as [bt|]; [|reflexivity].
  cbv zeta. autorewrite with blind. apply IH.
Qed.

Lemma blind_order_change cfg oc b s :
  order_change cfg oc (set_buffer b s) = with_buffer b (order_change cfg oc s).
Proof.
  unfold order_change. cbv zeta. autorewrite with blind.
  destruct (Dict.get _ _) as [game|]; [|reflexivity].
  destruct (_ && _); [|reflexivity].
  destruct (oc_or oc); [apply blind_order_reports | reflexivity].
Qed.

Lemma blind_order_changes cfg ocs b s :
  order_changes cfg ocs (set_buffer b s) = with_buffer b (order_changes cfg ocs s).
Proof.
  revert s. induction ocs as [|oc rest IH]; intros s; cbn [order_changes]; [reflexivity|].
  rewrite blind_order_change.
  destruct (order_change cfg oc s) as [s'|s']; cbn [with_buffer]; [apply IH | reflexivity].
Qed.

Lemma blind_handleStreamMessage cfg m b s :
  handleStreamMessage cfg m (set_buffer b s) = with_buffer b (handleStreamMessage cfg m s).
Proof.
  unfold handleStreamMessage.
  destruct (_ && _).
  - cbv zeta. autorewrite with blind. destruct (negb (isAuthenticated s)); now autorewrite with blind.
  - destruct (String.eqb (op m) "mcm").
    + destruct (mc m) as [mcs|]; [|reflexivity]. cbn [with_buffer].
      now rewrite (blind_fold _ (market_change cfg)) by (intros; apply blind_market_change).
    + destruct (String.eqb (op m) "ocm"); [|reflexivity].
      destruct (oc m); [apply blind_order_changes | reflexivity].
Qed.

Lemma blind_dispatch cfg parse f b s :
  dispatch cfg parse f (set_buffer b s) = set_buffer b (dispatch cfg parse f s).
Proof.
  unfold dispatch. destruct (parse f) as [m|]; [|reflexivity].
  rewrite blind_handleStreamMessage. now destruct (handleStreamMessage cfg m s).
Qed.

Lemma blind_dispatches cfg parse frames b s :
  fold_left (fun s f => dispatch cfg parse f s) frames (set_buffer b s)
  = set_buffer b (fold_left (fun s f => dispatch cfg parse f s) frames s).
Proof. apply (blind_fold _ (dispatch cfg parse)). intros. apply blind_dispatch. Qed.

(** Handing frames to the [try] of the data handler is delivering the
    messages of those that parse. *)
Lemma dispatches_deliver cfg parse frames s :
  fold_left (fun s f => dispatch cfg parse f s) frames s = deliver cfg (parsed parse frames) s.
Proof.
  revert s. induction frames as [|f frames IH]; intros s; [reflexivity|].
  cbn [fold_left parsed flat_map]. rewrite IH. unfold dispatch, deliver.
  destruct (parse f) as [m|]; reflexivity.
Qed.

Lemma drain_dispatches cfg parse fuel s :
  snd (drain cfg parse fuel s)
  = set_buffer (snd (cut fuel (buffer s)))
      (fold_left (fun s f => dispatch cfg parse f s) (fst (cut fuel (buffer s))) s).
Proof.
  revert s. induction fuel as [|fuel IH]; intros s; cbn [drain cut].
  - cbn [fst snd fold_left]. now rewrite set_buffer_same.
  - destruct (Js.indexOf_crlf (buffer s)) as [index|];
      [|cbn [fst snd fold_left]; now rewrite set_buffer_same].
    match goal with |- context [drain cfg parse fuel ?t] =>
      pose proof (IH t) as H; destruct (drain cfg parse fuel t) as [frames s'] end.
    cbn [snd] in H. rewrite H. rewrite blind_dispatch. proj.
    destruct (cut fuel (Js.slice_from (index + 2) (buffer s))) as [frames' rest].
    cbn [fst snd fold_left]. now rewrite blind_dispatches, set_buffer_twice.
Qed.

Lemma dispatches_buffered cfg parse frames rest b s :
  set_buffer rest (fold_left (fun s f => dispatch cfg parse f s) frames (set_buffer b s))
  = set_buffer rest (deliver cfg (parsed parse frames) s).
Proof. now rewrite blind_dispatches, set_buffer_twice, dispatches_deliver. Qed.

Lemma on_data_delivers cfg parse data s :
  snd (on_data cfg parse data s)
  = set_buffer (buffer (snd (on_data cfg parse data s)))
      (deliver cfg (parsed parse (fst (on_data cfg parse data s))) s).
Proof.
  unfold on_data. cbv zeta.
  set (s0 := set_buffer (buffer s ++ Js.toString data) s).
  destruct (drain_cut cfg parse (S (List.length (buffer s0))) s0) as [A B].
  rewrite drain_dispatches at 1. rewrite A, B. apply dispatches_buffered.
Qed.

Lemma blind_deliver cfg messages b s :
  deliver cfg messages (set_buffer b s) = set_buffer b (deliver cfg messages s).
Proof.
  unfold deliver. apply (blind_fold _ (fun m s => state_of (handleStreamMessage cfg m s))).
  intros m t. rewrite blind_handleStreamMessage. now destruct (handleStreamMessage cfg m t).
Qed.

Lemma deliver_app cfg l l' s :
  deliver cfg (l ++ l') s = deliver cfg l' (deliver cfg l s).
Proof. unfold deliver. apply fold_left_app. Qed.

Lemma parsed_app parse l l' : parsed parse (l ++ l') = parsed parse l ++ parsed parse l'.
Proof. unfold parsed. apply flat_map_app. Qed.

Lemma ingest_delivers cfg parse chunks s :
  snd (ingest cfg parse chunks s)
  = set_buffer (buffer (snd (ingest cfg parse chunks s)))
      (deliver cfg (parsed parse (fst (ingest cfg parse chunks s))) s).
Proof.
  revert s. induction chunks as [|data rest IH]; intros s; cbn [ingest].
  - cbn [fst snd parsed flat_map]. unfold deliver. cbn [fold_left].
    now rewrite set_buffer_same.
  - pose proof (on_data_delivers cfg parse data s) as H1.
    destruct (on_data cfg parse data s) as [frames s1]. cbn [fst snd] in H1.
    pose proof (IH s1) as H2.
    destruct (ingest cfg parse rest s1) as [frames' s2]. cbn [fst snd] in *.
    rewrite H2 at 1. rewrite H1 at 1.
    now rewrite blind_deliver, set_buffer_twice, parsed_app, deliver_app.
Qed.

(** C2, as the code has it.  Take byte chunks whose concatenation is N
    frames, each followed by CR LF, the text of no frame holding a
    terminator, and of which none begins or ends inside a multi-byte
    character (decoded one by one, as the handler does, they give the text
    of the whole stream).  Feeding them one at a time from an empty buffer
    cuts off exactly the texts of the N frames, in order, and hands each of
    them whole to [JSON.parse] and, when it parses, to the router: the
    state afterwards is that of delivering the messages of the frames, one
    after the other, and nothing is retained, wherever the chunk
    boundaries fall, between CR and LF included.  An ingestion after
    which the retained text holds no terminator cuts off no frame and only
    appends to the buffer. *)
Theorem frame_decoder_roundtrip cfg parse chunks frames s :
  buffer s = [] ->
  Forall (fun f => no_crlf (Js.toString f)) frames ->
  List.concat chunks = framed_bytes frames ->
  List.concat (map Js.toString chunks) = Js.toString (List.concat chunks) ->
  fst (ingest cfg parse chunks s) = map Js.toString frames
  /\ snd (ingest cfg parse chunks s)
     = deliver cfg (parsed parse (map Js.toString frames)) s
  /\ buffer (snd (ingest cfg parse chunks s)) = []
  /\ (forall data s0,
        no_crlf (buffer s0 ++ Js.toString data) ->
        on_data cfg parse data s0 = ([], set_buffer (buffer s0 ++ Js.toString data) s0)).
Proof.
  intros Hb Hf Hc Hd.
  destruct (ingest_spec cfg parse chunks s) as [A [B C]].
  { rewrite Hb. reflexivity. }
  rewrite Hb, Hd, Hc, toString_framed in A. cbn [app] in A.
  assert (Hf' : Forall no_crlf (map Js.toString frames)) by (apply Forall_map; exact Hf).
  destruct (framed_unique _ _ _ B C Hf' A) as [E1 E2].
  split; [exact E1|]. split; [|split; [exact E2|]].
  - rewrite ingest_delivers, E1, E2.
    rewrite <- (buffer_deliver cfg (parsed parse (map Js.toString frames)) s) in Hb.
    rewrite <- Hb. apply set_buffer_same.
  - intros data s0. apply on_data_no_terminator.
Qed.

(** C2 at a concrete input: the authentication success and a text that is
    no JSON, in three chunks that split both terminators between CR and
    LF.  Both frames are cut off, the first is parsed and handled (the bot
    subscribes on its socket), the second is skipped, nothing is
    retained. *)
Lemma frame_decoder_roundtrip_witness :
  let s := run bot_config reads_status [SocketConnect] (started Scenario.one_market) in
  let status := Scenario.json "{'op':'status','statusCode':'SUCCESS'}" in
  let chunks := [status ++ [Byte.x0d];
                 [Byte.x0a; Byte.x6f; Byte.x6f; Byte.x70; Byte.x73; Byte.x0d];
                 [Byte.x0a]] in
  let r := ingest bot_config reads_status chunks s in
  fst r = [Js.toString status; Js.toString (Scenario.json "oops")]
  /\ buffer (snd r) = []
  /\ isSubscribed s = false
  /\ isSubscribed (snd r) = true
  /\ map Scenario.shape (written (snd r))
     = [("authentication", 0, 0); ("marketSubscription", 1, 1);
        ("orderSubscription", 999, 0)]%string.
Proof.
  intros s status chunks r.
  destruct (frame_decoder_roundtrip bot_config reads_status chunks
              [status; Scenario.json "oops"] s) as [A [B [C _]]].
  - reflexivity.
  - repeat (constructor; [vm_compute; reflexivity|]). constructor.
  - vm_compute. reflexivity.
  - vm_compute. reflexivity.
  - fold r in A, B, C. split; [exact A|]. split; [exact C|].
    split; [reflexivity|]. rewrite B. vm_compute. split; reflexivity.
Defined.

(** C2 as stated fails: an ingestion that contains no terminator can
    complete one.  The buffer holds the authentication success followed by
    CR, and the chunk is the single byte LF: the frame is cut off and
    handled (the bot subscribes), and the buffer shrinks to nothing. *)
Lemma frame_decoder_counterexample :
  let status := Scenario.json "{'op':'status','statusCode':'SUCCESS'}" in
  let s := run bot_config reads_status
             [SocketConnect; SocketData (status ++ [Byte.x0d])]
             (started Scenario.one_market) in
  let r := on_data bot_config reads_status [Byte.x0a] s in
  no_crlf (Js.toString [Byte.x0a])
  /\ buffer s = Js.toString status ++ [Js.CR]
  /\ isSubscribed s = false
  /\ fst r = [Js.toString status]
  /\ buffer (snd r) = []
  /\ isSubscribed (snd r) = true
  /\ r <> ([], set_buffer (buffer s ++ Js.toString [Byte.x0a]) s).
Proof.
  cbv zeta. repeat split; try (vm_compute; reflexivity).
  intros H. apply (f_equal fst) in H. vm_compute in H. discriminate H.
Qed.

(** Outside the round trip of C2: a chunk boundary inside a multi-byte
    character.  The frame is the two bytes C3 A9 (U+00E9) and
    the boundary falls between them; [data.toString()] decodes each half
    on its own, to U+FFFD, and the frame cut off is not the text of the
    frame sent. *)
Example split_character_spoiled :
  let chunks := [[Byte.xc3]; [Byte.xa9; Byte.x0d; Byte.x0a]] in
  let frames := [[Byte.xc3; Byte.xa9]] in
  List.concat chunks = framed_bytes frames
  /\ List.concat (map Js.toString chunks) <> Js.toString (List.concat chunks)
  /\ fst (ingest bot_config Scenario.not_json chunks (started Scenario.one_market))
     = [[Js.REPLACEMENT; Js.REPLACEMENT]]
  /\ map Js.toString frames = [[233%N]].
Proof.
  cbv zeta. split; [reflexivity|]. split; [vm_compute; discriminate|].
  split; vm_compute; reflexivity.
Qed.

(** On an ASCII stream decoding commutes with chunking, and the round trip
    holds for the bytes as they are sent. *)
Lemma toString_ascii data : ascii_bytes data -> Js.toString data = map Byte.to_N data.
Proof.
  unfold Js.toString. induction 1 as [|b data Hb _ IH]; [reflexivity|].
  cbn [map Js.decode Js.feed]. unfold Js.lead.
  apply N.leb_le in Hb. rewrite Hb. cbn [app flat_map]. rewrite IH.
  unfold Js.utf16. replace (N.ltb (Byte.to_N b) 65536) with true; [reflexivity|].
  symmetry. apply N.ltb_lt. apply N.leb_le in Hb. lia.
Qed.

Lemma toString_chunks chunks :
  ascii_bytes (List.concat chunks) ->
  List.concat (map Js.toString chunks) = map Byte.to_N (List.concat chunks).
Proof.
  unfold ascii_bytes. induction chunks as [|c chunks IH]; intros H; [reflexivity|].
  cbn [List.concat map] in *. apply Forall_app in H. destruct H as [Hc H].
  rewrite map_app, IH by exact H. now rewrite toString_ascii.
Qed.

Lemma framed_bytes_text frames :
  map Byte.to_N (framed_bytes frames) = framed (map (map Byte.to_N) frames).
Proof.
  unfold framed_bytes, framed. induction frames as [|f frames IH]; [reflexivity|].
  cbn [map List.concat]. rewrite !map_app, IH. reflexivity.
Qed.

Lemma ascii_framed_bytes frames :
  ascii_bytes (framed_bytes frames) -> Forall ascii_bytes frames.
Proof.
  unfold ascii_bytes, framed_bytes. induction frames as [|f frames IH]; intros H; [constructor|].
  cbn [map List.concat] in H. apply Forall_app in H. destruct H as [Hf H].
  apply Forall_app in Hf. destruct Hf as [Hf _]. constructor; [exact Hf | now apply IH].
Qed.

Lemma ascii_roundtrip cfg parse chunks frames s :
  buffer s = [] ->
  ascii_bytes (List.concat chunks) ->
  Forall (fun f => no_crlf (Js.toString f)) frames ->
  List.concat chunks = framed_bytes frames ->
  fst (ingest cfg parse chunks s) = map Js.toString frames
  /\ buffer (snd (ingest cfg parse chunks s)) = [].
Proof.
  intros Hb Ha Hf Hc.
  destruct (ingest_spec cfg parse chunks s) as [A [B C]].
  { rewrite Hb. reflexivity. }
  rewrite Hb, toString_chunks, Hc, framed_bytes_text in A by exact Ha. cbn [app] in A.
  rewrite Hc in Ha. apply ascii_framed_bytes in Ha.
  assert (E : map (map Byte.to_N) frames = map Js.toString frames).
  { clear -Ha. induction Ha as [|f frames Hf _ IH]; [reflexivity|].
    cbn [map]. now rewrite IH, toString_ascii. }
  rewrite E in A. apply (framed_unique _ _ _ B C); [|exact A].
  apply Forall_map. exact Hf.
Qed.

(** *** C3: reconnecting *)

Lemma connectStreamAPI_spec s :
  isSubscribed (connectStreamAPI s) = false
  /\ isAuthenticated (connectStreamAPI s) = false
  /\ ws (connectStreamAPI s) = Some (sockets s)
  /\ buffer (connectStreamAPI s) = buffer s.
Proof. unfold connectStreamAPI. destruct (ws s); repeat split. Qed.

(** C3 on the code.  [connectStreamAPI] resets [isSubscribed] and
    [isAuthenticated] and opens a new socket, but leaves [buffer] as it
    is.  So when a connection closes after half a frame, the reconnect
    scheduled by the close handler starts the new connection with that
    half in the buffer, and the first frame of the new connection, here
    the authentication success, is cut off glued to it: one frame spans
    two connections, it is no JSON, and the bot stays unauthenticated. *)
Theorem reconnect_keeps_partial_frame :
  (forall s,
     isSubscribed (connectStreamAPI s) = false
     /\ isAuthenticated (connectStreamAPI s) = false
     /\ buffer (connectStreamAPI s) = buffer s)
  /\ (let partial := Scenario.json "{'op':'mcm','mc':[" in
      let status := Scenario.json "{'op':'status','statusCode':'SUCCESS'}" in
      let s1 := run bot_config Scenario.not_json
                  [SocketConnect; SocketData partial; SocketClose; ReconnectTimer;
                   SocketConnect]
                  (started Scenario.one_market) in
      let r := on_data bot_config Scenario.not_json (status ++ Scenario.CRLF) s1 in
      ws s1 = Some 1
      /\ buffer s1 = Js.toString partial
      /\ fst r = [Js.toString (partial ++ status)]
      /\ isAuthenticated (snd r) = false
      /\ isSubscribed (snd r) = false).
Proof.
  split.
  - intros s. destruct (connectStreamAPI_spec s) as [A [B [_ C]]]. now repeat split.
  - vm_compute. repeat split.
Qed.

(** *** C1: one outstanding bet *)

(** What the code does for the invariant: no trigger fires while
    [hasOpenBet] is set, and in simulation [placeBet] sets it before it
    returns ([placeBet_simulated]). *)
Lemma update_runner_calm k runner s :
  placeBetCalls (update_runner k runner s) = placeBetCalls s
  /\ hasOpenBet (update_runner k runner s) = hasOpenBet s.
Proof. unfold update_runner. repeat split_test; now split. Qed.

Lemma price_phase_guarded cfg mc s :
  hasOpenBet s = true ->
  placeBetCalls (price_phase cfg mc s) = placeBetCalls s
  /\ hasOpenBet (price_phase cfg mc s) = true.
Proof.
  intros H. unfold price_phase.
  destruct (rc mc) as [rcs|]; [|now split].
  destruct (isInPlay_of mc); [|now split].
  unfold odds_phase. cbv zeta.
  assert (F : placeBetCalls (fold_left (fun s runner => update_runner (mc_id mc) runner s) rcs s)
              = placeBetCalls s
              /\ hasOpenBet (fold_left (fun s runner => update_runner (mc_id mc) runner s) rcs s)
                 = true).
  { revert s H. induction rcs as [|runner rcs IH]; intros s H; cbn [fold_left]; [now split|].
    destruct (update_runner_calm (mc_id mc) runner s) as [A B].
    destruct (IH (update_runner (mc_id mc) runner s)) as [C D]; [congruence|].
    split; congruence. }
  revert F. generalize (fold_left (fun s runner => update_runner (mc_id mc) runner s) rcs s).
  intros s1 [F1 F2]. unfold test_bet. rewrite F2. cbn [negb]. rewrite andb_false_r.
  destruct (Dict.get (mc_id mc) (gameHistoricalData s1)); autorewrite with fields; now split.
Qed.

Lemma score_phase_guarded cfg k mc s :
  hasOpenBet s = true ->
  placeBetCalls (score_phase cfg k mc s) = placeBetCalls s
  /\ hasOpenBet (score_phase cfg k mc s) = true.
Proof.
  intros H. unfold score_phase. cbv zeta.
  repeat split_test; autorewrite with fields in *; try (now split).
  all: rewrite H in *; discriminate.
Qed.

Lemma triggers_guarded cfg mc s :
  hasOpenBet s = true ->
  placeBetCalls (market_change cfg mc s) = placeBetCalls s.
Proof.
  intros H. unfold market_change. cbv zeta.
  destruct (Dict.get (mc_id mc) (gameHistoricalData s)) as [game|]; [|reflexivity].
  destruct (negb (isOpen game)); [reflexivity|].
  destruct (excluded cfg mc); [reflexivity|].
  rewrite status_phase_calls.
  destruct (price_phase_guarded cfg mc s H) as [A B].
  destruct (score_phase_guarded cfg (mc_id mc) mc (price_phase cfg mc s) B) as [C _].
  congruence.
Qed.

(** C1 on the code, at two inputs.  With the switches of the script: a test
    bet is placed on market 1.1; market 1.3, which holds no bet, closes and
    clears [hasOpenBet]; the next price for market 1.2 places a second
    bet while the first is unsettled.  In live mode: [placeBet] suspends on
    the gateway with [hasOpenBet] still false, a second message is
    processed meanwhile and triggers a second placement; once the gateway
    has answered both, two markets hold a bet. *)
Theorem single_bet_invariant_broken :
  (let s := deliver bot_config
              [Scenario.mcm [Scenario.price_delta "1.1" 11 (Js.Number (Js.dec 15 10))];
               Scenario.mcm [Scenario.closed_delta "1.3" None];
               Scenario.mcm [Scenario.price_delta "1.2" 21 (Js.Number (Js.of_Z 2))]]
              (started Scenario.three_markets) in
   reaches bot_config (started Scenario.three_markets) s
   /\ Scenario.markets_with_bet s = ["1.1"; "1.2"]%string
   /\ List.length (placeBetCalls s) = 2)
  /\ (let s := deliver Scenario.live_config
                 [Scenario.mcm [Scenario.price_delta "1.1" 11 (Js.Number (Js.of_Z 2))];
                  Scenario.mcm [Scenario.price_delta "1.2" 21 (Js.Number (Js.of_Z 2))]]
                 (started Scenario.three_markets) in
      let s' := gateway_reply Scenario.live_config 0 (Succeeded (Some "b2"%string))
                  (gateway_reply Scenario.live_config 0 (Succeeded (Some "b1"%string)) s) in
      reaches Scenario.live_config (started Scenario.three_markets) s'
      /\ hasOpenBet s = false
      /\ List.length (pending s) = 2
      /\ List.length (placeBetCalls s) = 2
      /\ Scenario.markets_with_bet s' = ["1.1"; "1.2"]%string).
Proof.
  split.
  - split; [apply reaches_deliver|]. vm_compute. now split.
  - split; [|vm_compute; now repeat split].
    eapply reaches_trans; [|apply reaches_gateway_reply].
    eapply reaches_trans; [|apply reaches_gateway_reply].
    apply reaches_deliver.
Qed.

(** ** Further properties of the code *)

(** *** The data handler on arbitrary input (lines 400-417) *)

(** A text has one decomposition into terminator-free frames followed by
    a terminator-free remainder. *)
Lemma framed_decomposition_unique fs r gs r' :
  Forall no_crlf fs -> no_crlf r -> Forall no_crlf gs -> no_crlf r' ->
  framed fs ++ r = framed gs ++ r' ->
  fs = gs /\ r = r'.
Proof.
  revert gs. induction fs as [|f fs IH]; intros gs Hfs Hr Hgs Hr' E.
  - destruct gs as [|g gs]; [now split|]. exfalso.
    inversion Hgs; subst. rewrite framed_cons, <- app_assoc in E.
    cbn [app framed map List.concat] in E. subst r.
    unfold no_crlf in Hr. rewrite indexOf_framed in Hr by assumption. discriminate.
  - inversion Hfs; subst. destruct gs as [|g gs].
    + exfalso. rewrite framed_cons, <- app_assoc in E. cbn [app framed map List.concat] in E.
      subst r'. unfold no_crlf in Hr'. rewrite indexOf_framed in Hr' by assumption.
      discriminate.
    + inversion Hgs; subst. rewrite !framed_cons, <- !app_assoc in E. cbn [app] in E.
      assert (L : List.length f = List.length g).
      { pose proof (indexOf_framed f (framed fs ++ r) H1) as I1.
        pose proof (indexOf_framed g (framed gs ++ r') H3) as I2.
        rewrite E in I1. congruence. }
      apply app_same_length in E; [|exact L].
      destruct E as [-> E]. injection E as E.
      destruct (IH gs H2 Hr H4 Hr' E) as [-> ->]. now split.
Qed.

(** The handlers reached from a gateway reply and from the socket events
    leave the receive buffer alone. *)
Lemma keeps_placeBet_end t s : keeps_buffer s (placeBet_end t s).
Proof. unfold placeBet_end. cbv zeta. keep_chain. Qed.

#[global] Hint Extern 1 (keeps_buffer _ (placeBet_end _ _)) => apply keeps_placeBet_end : keep.

Lemma keeps_editBet cfg k b n p t s : keeps_buffer s (editBet cfg k b n p t s).
Proof. unfold editBet. keep_chain. Qed.

#[global] Hint Extern 1 (keeps_buffer _ (editBet _ _ _ _ _ _ _)) => apply keeps_editBet : keep.

Lemma keeps_placeBet_resume cfg e k sel price size t r s :
  keeps_buffer s (placeBet_resume cfg e k sel price size t r s).
Proof. unfold placeBet_resume. cbv zeta. keep_chain. Qed.

Lemma keeps_editBet_resume k b n p t r s :
  keeps_buffer s (editBet_resume k b n p t r s).
Proof. unfold editBet_resume. cbv zeta. keep_chain. Qed.

Lemma keeps_gateway_reply cfg n reply s : keeps_buffer s (gateway_reply cfg n reply s).
Proof.
  unfold gateway_reply.
  destruct (take_task n (pending s)) as [[t rest]|]; [|apply keeps_refl].
  eapply keeps_then; [|apply keeps_set_pending].
  destruct t; cbn [resume]; [apply keeps_placeBet_resume | apply keeps_editBet_resume].
Qed.

Lemma no_crlf_step cfg parse e s : no_crlf (buffer s) -> no_crlf (buffer (step cfg parse e s)).
Proof.
  intros H. destruct e; cbn [step].
  - unfold on_connect. now rewrite (keeps_ws_write Authentication s : buffer _ = _).
  - apply on_data_spec.
  - exact H.
  - exact H.
  - destruct (timers s); [exact H|].
    destruct (connectStreamAPI_spec (set_timers l s)) as [_ [_ [_ E]]]. now rewrite E.
  - now rewrite (keeps_gateway_reply cfg task reply s : buffer _ = _).
Qed.

(** X2.  Between two events the receive buffer never holds a complete frame:
    whatever has been received, what is retained contains no terminator. *)
Theorem buffer_holds_no_frame cfg store s :
  reaches cfg (started store) s -> no_crlf (buffer s).
Proof.
  induction 1 as [|parse e s' _ IH|m s' _ IH].
  - reflexivity.
  - now apply no_crlf_step.
  - now rewrite (keeps_handleStreamMessage cfg m s' : buffer _ = _).
Qed.

(** Two chunks, the second ending in the middle of a frame. *)
Lemma buffer_holds_no_frame_witness :
  no_crlf (buffer (run bot_config Scenario.not_json
                     [SocketConnect; SocketData [Byte.x61; Byte.x0d];
                      SocketData [Byte.x0a; Byte.x62]]
                     (started Scenario.one_market))).
Proof.
  apply (buffer_holds_no_frame bot_config Scenario.one_market). apply reaches_run.
Defined.

(** *** Subscription (lines 181-218) *)

Lemma concat_batches_from ids n j :
  (List.length ids + 9) / 10 - j = n ->
  List.concat (map (fun k => batch k ids) (seq j n)) = skipn (j * 10) ids.
Proof.
  revert j. induction n as [|n IH]; intros j Hn; cbn [seq map List.concat].
  - symmetry. apply skipn_all2.
    pose proof (Nat.div_mod_eq (List.length ids + 9) 10) as D.
    pose proof (Nat.mod_upper_bound (List.length ids + 9) 10) as M. lia.
  - rewrite (IH (S j)) by lia. unfold batch, maxMarketsPerSubscription.
    replace (S j * 10) with (10 + j * 10) by lia.
    rewrite <- skipn_skipn. apply firstn_skipn.
Qed.

Lemma concat_batches ids : List.concat (batches ids) = ids.
Proof.
  unfold batches. change (maxMarketsPerSubscription - 1) with 9.
  change maxMarketsPerSubscription with 10.
  rewrite (concat_batches_from ids _ 0) by lia. reflexivity.
Qed.

Lemma subscribed_requests socket ids :
  subscribed (map (pair socket) (subscription_requests ids)) = ids.
Proof.
  unfold subscribed, subscription_requests. rewrite map_app, flat_map_app.
  cbn [map flat_map snd app]. rewrite app_nil_r, batches_length.
  transitivity (List.concat (batches ids)); [|apply concat_batches]. unfold batches.
  change (maxMarketsPerSubscription - 1) with 9.
  change maxMarketsPerSubscription with 10.
  generalize (seq 0 ((List.length ids + 9) / 10)) as l.
  induction l as [|k l IH]; [reflexivity|].
  cbn [map flat_map snd List.concat]. now rewrite IH.
Qed.

(** X3.  An authentication success on a connection not yet subscribed: what is
    written goes to the current socket and names each open market of the
    store once, in store order, and no other market.  Without any open
    market nothing is written, not even the order subscription, and the
    connection stays unsubscribed. *)
Theorem subscription_covers_open_markets cfg message s socket :
  op message = "status"%string ->
  statusCode message = "SUCCESS"%string ->
  ws s = Some socket ->
  isSubscribed s = false ->
  let s' := state_of (handleStreamMessage cfg message s) in
  (exists l,
     written s' = written s ++ l
     /\ Forall (fun m => fst m = socket) l
     /\ subscribed l = openMarketIds_of s
     /\ (openMarketIds_of s = [] -> l = [] /\ isSubscribed s' = false)
     /\ (openMarketIds_of s <> [] ->
         isSubscribed s' = true /\ last l (socket, Authentication) = (socket, OrderSubscription 999)))
  /\ (forall k, In k (openMarketIds_of s) <->
        exists kg, In kg (gameHistoricalData s) /\ isOpen (snd kg) = true
                   /\ marketId (snd kg) = k).
Proof.
  intros Hop Hcode Hws Hsub s'. split.
  - assert (E : s' = subscribeToOpenMarkets
                       (if negb (isAuthenticated s) then set_isAuthenticated true s else s)).
    { subst s'. unfold handleStreamMessage. rewrite Hop, Hcode. reflexivity. }
    set (s0 := if negb (isAuthenticated s) then set_isAuthenticated true s else s) in E.
    assert (H0 : ws s0 = Some socket /\ isSubscribed s0 = false
                 /\ openMarketIds_of s0 = openMarketIds_of s /\ written s0 = written s).
    { subst s0. destruct (negb (isAuthenticated s)); now repeat split. }
    destruct H0 as [W0 [S0 [I0 R0]]]. clearbody s0. rewrite E. clear E s'.
    destruct (openMarketIds_of s) as [|id ids] eqn:Hids.
    + exists []. unfold subscribeToOpenMarkets. rewrite S0, W0, I0, app_nil_r.
      split; [exact R0|]. split; [constructor|]. split; [reflexivity|].
      split; [intros _; now split | intros H; now contradiction H].
    + destruct (subscribe_written s0 socket W0 S0) as [A B]; [congruence|].
      exists (map (pair socket) (subscription_requests (openMarketIds_of s0))).
      rewrite A, R0, I0. repeat split.
      * apply Forall_forall. intros m Hm. apply in_map_iff in Hm.
        destruct Hm as [x [<- _]]. reflexivity.
      * apply subscribed_requests.
      * discriminate.
      * discriminate.
      * exact B.
      * unfold subscription_requests. rewrite map_app. apply last_last.
  - intros k. unfold openMarketIds_of, Dict.values. rewrite in_map_iff. split.
    + intros [g [Hk Hg]]. apply filter_In in Hg. destruct Hg as [Hg Ho].
      apply in_map_iff in Hg. destruct Hg as [kg [<- Hin]]. now exists kg.
    + intros [kg [Hin [Ho Hk]]]. exists (snd kg). split; [exact Hk|].
      apply filter_In. split; [|exact Ho]. now apply in_map.
Qed.

(** Three markets of which the second is no longer open. *)
Lemma subscription_covers_open_markets_witness :
  let s := ws_write Authentication
             (modify_game "1.2" (set_isOpen false) (started Scenario.three_markets)) in
  let s' := state_of (handleStreamMessage bot_config Scenario.status_success s) in
  exists l, written s' = written s ++ l /\ subscribed l = ["1.1"; "1.3"]%string.
Proof.
  intros s s'.
  destruct (subscription_covers_open_markets bot_config Scenario.status_success s 0
              eq_refl eq_refl eq_refl eq_refl) as [[l [A [_ [B _]]]] _].
  exists l. split; [exact A | exact B].
Defined.

(** *** Closures that settle nothing (lines 583-630) *)

Lemma settle_nothing cfg k game mc s :
  bet game = None \/ winner_of mc = None ->
  settle cfg k game mc s = (no_bet, Js.of_Z 0, s).
Proof.
  unfold settle, winner_of. intros [H|H].
  - rewrite H. reflexivity.
  - destruct (bet game); [|reflexivity].
    destruct (marketDefinition mc) as [md|]; [|reflexivity].
    destruct (runners md); [|reflexivity]. rewrite H. reflexivity.
Qed.

(** X15.  When a tracked market closes and it holds no bet, or the closing delta
    marks no runner as winner (a void market, or a definition without
    runner list), nothing is settled even if a bet is recorded: one
    [market_closed] record with outcome no_bet and profit 0 is logged, the
    multiplier and the simulated balance stay as they are (a stake debited
    at placement is not returned), and the market, its bet and its order
    identifier are dropped and both flags cleared. *)
Theorem closure_without_winner cfg k mc s game :
  Dict.get k (gameHistoricalData s) = Some game ->
  is_closed mc = true ->
  bet game = None \/ winner_of mc = None ->
  let s' := status_phase cfg k mc s in
  ndjson s' = ndjson s ++ [(eventId_or game k, market_closed no_bet (Js.of_Z 0))]
  /\ multiplier s' = multiplier s
  /\ simBalance s' = simBalance s
  /\ Dict.get k (gameHistoricalData s') = None
  /\ Dict.get k (orderIds s') = None
  /\ hasOpenBet s' = false
  /\ testBetPlaced s' = false.
Proof.
  intros Hg Hc Hn s'. subst s'. unfold status_phase. rewrite Hc. cbv zeta. proj.
  rewrite get_alter_same, Hg. cbn [option_map].
  rewrite settle_nothing by exact Hn. proj.
  repeat split; apply get_delete_same.
Qed.

(** A simulated stake of 10 is placed on market 1.1 (balance 90); the
    market closes without winner: the balance stays 90. *)
Lemma closure_without_winner_witness :
  let s := deliver Scenario.staking_config
             [Scenario.mcm [Scenario.first_set_delta "1.1" 6 4 12 (Js.of_Z 3)]]
             (started Scenario.one_market) in
  let s' := status_phase Scenario.staking_config "1.1"
              (Scenario.closed_delta "1.1" None) s in
  option_map bet_size (bet_on "1.1" s) = Some (Js.of_Z 10)
  /\ simBalance s = Js.of_Z 90
  /\ simBalance s' = Js.of_Z 90
  /\ multiplier s' = Js.of_Z 1
  /\ bet_on "1.1" s' = None
  /\ hasOpenBet s' = false.
Proof.
  intros s s'.
  assert (Hg : exists game, Dict.get "1.1" (gameHistoricalData s) = Some game)
    by (vm_compute; eexists; reflexivity).
  destruct Hg as [game Hg].
  destruct (closure_without_winner Scenario.staking_config "1.1"
              (Scenario.closed_delta "1.1" None) s game Hg eq_refl (or_intror eq_refl))
    as [_ [M [B [G [_ [O _]]]]]].
  fold s' in M, B, G, O.
  split; [vm_compute; reflexivity|]. split; [vm_compute; reflexivity|].
  split; [rewrite B; vm_compute; reflexivity|].
  split; [rewrite M; vm_compute; reflexivity|].
  split; [unfold bet_on; now rewrite G | exact O].
Defined.

(** *** Deltas without market definition (lines 444, 465, 583-635) *)

(** X9.  A delta that carries no market definition counts as not in play: for a
    tracked open market its prices are not stored, no bet is triggered,
    nothing is logged, and the only effect is that the market's status
    becomes UPCOMING. *)
Theorem delta_without_definition cfg mc s game :
  Dict.get (mc_id mc) (gameHistoricalData s) = Some game ->
  isOpen game = true ->
  marketDefinition mc = None ->
  market_change cfg mc s = modify_game (mc_id mc) (set_status "UPCOMING") s.
Proof.
  intros Hg Ho Hd.
  assert (Hp : isInPlay_of mc = false) by (unfold isInPlay_of; now rewrite Hd).
  assert (Hs : score_of mc = None) by (unfold score_of; now rewrite Hd).
  assert (Hc : is_closed mc = false) by (unfold is_closed; now rewrite Hd).
  unfold market_change. cbv zeta. rewrite Hg, Ho. cbn [negb].
  unfold excluded. rewrite Hp, andb_false_r. cbn [andb].
  unfold price_phase. rewrite Hp.
  replace (match rc mc with Some _ => s | None => s end) with s by now destruct (rc mc).
  unfold score_phase. rewrite Hs.
  unfold status_phase. now rewrite Hc, Hp.
Qed.

(** Market 1.1 is in play at a price of 5 for selection 11; a delta with a
    price of 3 and no definition leaves the price at 5 and marks the
    market UPCOMING. *)
Lemma delta_without_definition_witness :
  let s := deliver bot_config
             [Scenario.mcm [Scenario.price_delta "1.1" 11 (Js.Number (Js.of_Z 5))]]
             (started Scenario.one_market) in
  let mc := {| mc_id := "1.1"; marketDefinition := None;
               rc := Some [{| rc_id := 11; batb := Some [[Js.Number (Js.of_Z 3)]] |}] |} in
  option_map status (Dict.get "1.1" (gameHistoricalData s)) = Some "IN_PLAY"%string
  /\ market_change bot_config mc s = modify_game "1.1" (set_status "UPCOMING") s
  /\ option_map (fun g => pA (currentOdds g))
       (Dict.get "1.1" (gameHistoricalData (market_change bot_config mc s)))
     = Some (Some (Js.of_Z 5)).
Proof.
  intros s mc.
  assert (Hg : exists game, Dict.get "1.1" (gameHistoricalData s) = Some game
                            /\ isOpen game = true)
    by (vm_compute; eexists; split; reflexivity).
  destruct Hg as [game [Hg Ho]].
  pose proof (delta_without_definition bot_config mc s game Hg Ho eq_refl) as E.
  split; [vm_compute; reflexivity|]. split; [exact E|].
  rewrite E. vm_compute. reflexivity.
Defined.

(** *** Settlement by the order stream (lines 637-672) *)

(** Once the order identifier of a market is gone, reports that carry a
    bet identifier match nothing. *)
Lemma order_reports_spent k game orders s :
  Dict.get k (orderIds s) = None ->
  Forall (fun o => or_betId o <> None) orders ->
  order_reports k game orders s = Normal s.
Proof.
  intros Hk. induction 1 as [|order rest Ho _ IH]; [reflexivity|].
  cbn [order_reports]. rewrite Hk.
  destruct (or_profit order); [|exact IH].
  destruct (or_betId order); [|congruence].
  cbn [same_betId]. rewrite andb_false_r. exact IH.
Qed.

Lemma order_change_settles cfg oc s game b betId order profit rest :
  enableSimulation cfg = false ->
  Dict.get (oc_marketId oc) (gameHistoricalData s) = Some game ->
  bet game = Some b ->
  Dict.get (oc_marketId oc) (orderIds s) = Some betId ->
  betId <> ""%string ->
  oc_or oc = Some (order :: rest) ->
  or_status order = "EXECUTION_COMPLETE"%string ->
  or_profit order = Some profit ->
  or_betId order = Some betId ->
  Forall (fun o => or_betId o <> None) rest ->
  exists s',
    order_change cfg oc s = Normal s'
    /\ ndjson s' = ndjson s ++
         [(eventId_or game (oc_marketId oc),
           bet_outcome false (oc_marketId oc) (bet_selectionId b)
             (if Js.gt profit (Js.of_Z 0) then win else lose) profit)]
    /\ multiplier s' = (if Js.gt profit (Js.of_Z 0) then Js.of_Z 1
                        else Js.mul (multiplier s) (Js.of_Z 2))
    /\ hasOpenBet s' = false
    /\ testBetPlaced s' = false
    /\ Dict.get (oc_marketId oc) (orderIds s') = None
    /\ gameHistoricalData s' = gameHistoricalData s
    /\ simBalance s' = simBalance s.
Proof.
  intros Hsim Hg Hb Hid Hne Hor Hst Hp Hbid Hrest.
  unfold order_change. cbv zeta. rewrite Hg, Hsim, Hor.
  unfold has_orderId. rewrite Hid.
  replace (String.eqb betId "") with false
    by (symmetry; now apply String.eqb_neq).
  cbn [negb andb order_reports]. rewrite Hp, Hst, Hbid, Hid, Hb.
  cbn [same_betId]. rewrite !String.eqb_refl. cbn [andb].
  eexists. split.
  - apply order_reports_spent; [|exact Hrest]. proj. apply get_delete_same.
  - proj. destruct (Js.gt profit (Js.of_Z 0)); repeat split; apply get_delete_same.
Qed.

(** X16.  Outside simulation, a report EXECUTION_COMPLETE with a profit for the
    bet identifier recorded for a tracked market settles that bet: the
    outcome is a win when the profit is positive and a loss otherwise (a
    profit of zero counts as a loss), one [bet_outcome] record carrying
    the reported profit is logged, the multiplier is reset or doubled,
    both flags are cleared and the order identifier is dropped.  The
    market stays tracked with its bet record, the simulated balance is not
    touched, and further reports that name a bet are ignored. *)
Theorem order_settlement cfg oc s game b betId order profit rest :
  enableSimulation cfg = false ->
  Dict.get (oc_marketId oc) (gameHistoricalData s) = Some game ->
  bet game = Some b ->
  Dict.get (oc_marketId oc) (orderIds s) = Some betId ->
  betId <> ""%string ->
  oc_or oc = Some (order :: rest) ->
  or_status order = "EXECUTION_COMPLETE"%string ->
  or_profit order = Some profit ->
  or_betId order = Some betId ->
  Forall (fun o => or_betId o <> None) rest ->
  let k := oc_marketId oc in
  let won := Js.gt profit (Js.of_Z 0) in
  exists s',
    order_change cfg oc s = Normal s'
    /\ ndjson s' = ndjson s ++
         [(eventId_or game k,
           bet_outcome false k (bet_selectionId b) (if won then win else lose) profit)]
    /\ multiplier s' = (if won then Js.of_Z 1 else Js.mul (multiplier s) (Js.of_Z 2))
    /\ hasOpenBet s' = false
    /\ testBetPlaced s' = false
    /\ Dict.get k (orderIds s') = None
    /\ gameHistoricalData s' = gameHistoricalData s
    /\ simBalance s' = simBalance s.
Proof.
  intros Hsim Hg Hb Hid Hne Hor Hst Hp Hbid Hrest k won. subst k won.
  destruct (order_change_settles cfg oc s game b betId order profit rest
              Hsim Hg Hb Hid Hne Hor Hst Hp Hbid Hrest) as [s' H].
  exists s'. exact H.
Qed.

(** In live mode the bet "b" on market 1.1 is reported complete with a
    profit of zero: it counts as a loss and the multiplier goes to 2. *)
Lemma order_settlement_witness :
  let s := gateway_reply Scenario.live_config 0 (Succeeded (Some "b"%string))
             (deliver Scenario.live_config
                [Scenario.mcm [Scenario.price_delta "1.1" 11 (Js.Number (Js.of_Z 2))]]
                (started Scenario.one_market)) in
  let order := {| or_status := "EXECUTION_COMPLETE"; or_profit := Some (Js.of_Z 0);
                  or_betId := Some "b"%string |} in
  let oc := {| oc_marketId := "1.1"; oc_or := Some [order] |} in
  exists s',
    order_change Scenario.live_config oc s = Normal s'
    /\ multiplier s' = Js.of_Z 2
    /\ hasOpenBet s' = false
    /\ option_map bet_size (bet_on "1.1" s') = Some (Js.of_Z 10).
Proof.
  intros s order oc.
  assert (Hg : exists game b,
             Dict.get "1.1" (gameHistoricalData s) = Some game /\ bet game = Some b)
    by (vm_compute; do 2 eexists; split; reflexivity).
  destruct Hg as [game [b [Hg Hb]]].
  destruct (order_settlement Scenario.live_config oc s game b "b" order (Js.of_Z 0) []
              eq_refl Hg Hb eq_refl ltac:(discriminate) eq_refl eq_refl eq_refl eq_refl
              (Forall_nil _))
    as [s' [E [_ [M [O [_ [_ [G _]]]]]]]].
  exists s'. split; [exact E|]. split; [rewrite M; vm_compute; reflexivity|].
  split; [exact O|]. unfold bet_on. rewrite G. vm_compute. reflexivity.
Defined.

(** What the status block does to the multiplier and the log when it
    settles a bet against a winner. *)
Lemma status_phase_settles cfg k mc s game b winner :
  Dict.get k (gameHistoricalData s) = Some game ->
  bet game = Some b ->
  is_closed mc = true ->
  winner_of mc = Some winner ->
  multiplier (status_phase cfg k mc s) =
    (if Z.eqb (runner_id winner) (bet_selectionId b) then Js.of_Z 1
     else Js.mul (multiplier s) (Js.of_Z 2))
  /\ settlements (ndjson (status_phase cfg k mc s)) = S (settlements (ndjson s)).
Proof.
  intros Hg Hb Hc Hw. unfold status_phase. rewrite Hc. cbv zeta. proj.
  rewrite get_alter_same, Hg. cbn [option_map].
  unfold settle. cbn [bet set_status set_isOpen]. rewrite Hb.
  unfold winner_of in Hw. destruct (marketDefinition mc) as [md|]; [|discriminate].
  destruct (runners md) as [rs|]; [|discriminate]. rewrite Hw.
  destruct (Z.eqb _ _); destruct (enableSimulation cfg); proj;
    rewrite !settlements_app; cbn; split; (reflexivity || lia).
Qed.

(** X17.  Outside simulation a bet can be settled twice.  The order stream
    reports it lost: the multiplier is doubled and the order identifier
    dropped, but the bet stays recorded on its market.  When that market
    closes with another runner as winner, the status block settles the
    same bet again: the multiplier has been doubled twice and two
    settlements are logged for the one bet. *)
Theorem bet_settled_twice cfg oc mc s game b betId order profit winner :
  enableSimulation cfg = false ->
  Dict.get (oc_marketId oc) (gameHistoricalData s) = Some game ->
  isOpen game = true ->
  bet game = Some b ->
  Dict.get (oc_marketId oc) (orderIds s) = Some betId ->
  betId <> ""%string ->
  oc_or oc = Some [order] ->
  or_status order = "EXECUTION_COMPLETE"%string ->
  or_profit order = Some profit ->
  or_betId order = Some betId ->
  Js.gt profit (Js.of_Z 0) = false ->
  mc_id mc = oc_marketId oc ->
  excluded cfg mc = false ->
  rc mc = None ->
  score_of mc = None ->
  is_closed mc = true ->
  winner_of mc = Some winner ->
  runner_id winner <> bet_selectionId b ->
  let s1 := state_of (order_change cfg oc s) in
  let s2 := market_change cfg mc s1 in
  multiplier s1 = Js.mul (multiplier s) (Js.of_Z 2)
  /\ multiplier s2 = Js.mul (Js.mul (multiplier s) (Js.of_Z 2)) (Js.of_Z 2)
  /\ settlements (ndjson s2) = settlements (ndjson s) + 2.
Proof.
  intros Hsim Hg Ho Hb Hid Hne Hor Hst Hp Hbid Hlost Hk He Hrc Hsc Hc Hw Hsel s1 s2.
  destruct (order_change_settles cfg oc s game b betId order profit []
              Hsim Hg Hb Hid Hne Hor Hst Hp Hbid (Forall_nil _))
    as [s' [E [L [M [_ [_ [_ [G _]]]]]]]].
  subst s1 s2. rewrite E. cbn [state_of]. rewrite Hlost in M, L.
  assert (Hg' : Dict.get (mc_id mc) (gameHistoricalData s') = Some game)
    by (rewrite G, Hk; exact Hg).
  rewrite (market_change_status_only cfg mc s' game Hg' Ho He Hrc Hsc).
  destruct (status_phase_settles cfg (mc_id mc) mc s' game b winner Hg' Hb Hc Hw) as [A B].
  apply Z.eqb_neq in Hsel. rewrite Hsel in A.
  split; [exact M|]. split; [now rewrite A, M|].
  rewrite B, L, settlements_app. cbn. lia.
Qed.

(** In live mode the bet "b" on selection 11 of market 1.1 is reported
    lost, then the market closes with selection 12 as winner: the
    multiplier is 4. *)
Lemma bet_settled_twice_witness :
  let s := gateway_reply Scenario.live_config 0 (Succeeded (Some "b"%string))
             (deliver Scenario.live_config
                [Scenario.mcm [Scenario.price_delta "1.1" 11 (Js.Number (Js.of_Z 2))]]
                (started Scenario.one_market)) in
  let s2 := market_change Scenario.live_config (Scenario.closed_delta "1.1" (Some 12%Z))
              (state_of (order_change Scenario.live_config
                           (Scenario.lost_order "1.1" "b") s)) in
  multiplier s = Js.of_Z 1
  /\ multiplier s2 = Js.of_Z 4
  /\ settlements (ndjson s2) = 2.
Proof.
  intros s s2.
  assert (Hg : exists game b,
             Dict.get "1.1" (gameHistoricalData s) = Some game
             /\ isOpen game = true /\ bet game = Some b /\ bet_selectionId b = 11%Z)
    by (vm_compute; do 2 eexists; repeat split).
  destruct Hg as [game [b [Hg [Ho [Hb Hsel]]]]].
  destruct (bet_settled_twice Scenario.live_config (Scenario.lost_order "1.1" "b")
              (Scenario.closed_delta "1.1" (Some 12%Z)) s game b "b" _ _ _
              eq_refl Hg Ho Hb eq_refl ltac:(discriminate) eq_refl eq_refl eq_refl eq_refl
              eq_refl eq_refl eq_refl eq_refl eq_refl eq_refl eq_refl
              ltac:(rewrite Hsel; discriminate))
    as [_ [A B]].
  fold s2 in A, B.
  split; [vm_compute; reflexivity|]. split; [rewrite A; vm_compute; reflexivity|].
  rewrite B. vm_compute. reflexivity.
Defined.

(** *** Live placement at impossible odds (lines 258-326 and 331-373) *)

(** The answer to [placeOrders] when the edit follows. *)
Lemma place_reply cfg e k sel price size t betId s game :
  enableSimulation cfg = false ->
  useImpossibleOdds cfg = true ->
  pending s = [AwaitPlaceOrders e k sel price size t] ->
  Dict.get k (gameHistoricalData s) = Some game ->
  let s' := gateway_reply cfg 0 (Succeeded betId) s in
  let placed := {| bet_selectionId := sel; bet_size := size;
                   bet_price := Js.of_Z 1000 |} in
  pending s' = [AwaitReplaceOrders k betId (Js.dec 5 100) price t]
  /\ Dict.get k (gameHistoricalData s') = Some (set_bet (Some placed) game)
  /\ ndjson s' = ndjson s ++ [(e, bet_placed false k sel size (Js.of_Z 1000) betId t)]
  /\ hasOpenBet s' = hasOpenBet s
  /\ hasPlacedBet s' = hasPlacedBet s
  /\ testBetPlaced s' = testBetPlaced s.
Proof.
  intros Hsim Himp Hp Hg s' placed. subst s' placed.
  unfold gateway_reply. rewrite Hp. cbn [take_task resume].
  unfold placeBet_resume. cbv zeta. proj. rewrite Himp, Hg.
  unfold editBet. rewrite Hsim. cbn [negb]. proj.
  rewrite get_alter_same, Hg. repeat split.
Qed.

(** The answer to [replaceOrders]. *)
Lemma edit_reply cfg k betId newSize price t reply s game b :
  pending s = [AwaitReplaceOrders k betId newSize price t] ->
  Dict.get k (gameHistoricalData s) = Some game ->
  bet game = Some b ->
  let s' := gateway_reply cfg 0 reply s in
  pending s' = []
  /\ hasPlacedBet s' = true
  /\ testBetPlaced s' = (t || testBetPlaced s)
  /\ match reply with
     | Failed =>
         bet_on k s' = Some b /\ hasOpenBet s' = hasOpenBet s /\ ndjson s' = ndjson s
     | Succeeded _ =>
         bet_on k s' = Some {| bet_selectionId := bet_selectionId b;
                               bet_size := newSize; bet_price := price |}
         /\ hasOpenBet s' = true
         /\ ndjson s' = ndjson s ++ [(eventId_or game k, bet_edited betId newSize price)]
     end.
Proof.
  intros Hp Hg Hb s'. subst s'.
  unfold gateway_reply, bet_on. rewrite Hp. cbn [take_task resume].
  unfold editBet_resume, placeBet_end. cbv zeta.
  destruct reply as [|answer]; proj.
  - destruct t; proj; rewrite Hg, Hb; repeat split.
  - rewrite Hg, Hb.
    destruct t; proj; rewrite get_alter_same, Hg; repeat split.
Qed.

(** X18.  Outside simulation with [useImpossibleOdds], a placement goes through
    the gateway twice.  [placeBet] requests a stake of 2 and suspends; the
    answer records the bet at the price 1000 and requests the edit to a
    stake of 0.05 at the observed price, with [hasOpenBet] still as it
    was.  If the edit fails, the bet stays recorded with stake 2 at price
    1000 and [hasOpenBet] is not set, although [hasPlacedBet] is set (and
    [testBetPlaced] for a test bet); if it succeeds, the record is
    rewritten to 0.05 at the observed price, a [bet_edited] record is
    logged and [hasOpenBet] is set. *)
Theorem impossible_odds_placement cfg k sel price t s game betId :
  enableSimulation cfg = false ->
  useImpossibleOdds cfg = true ->
  Dict.get k (gameHistoricalData s) = Some game ->
  pending s = [] ->
  let s1 := placeBet cfg k sel price t s in
  let s2 := gateway_reply cfg 0 (Succeeded betId) s1 in
  let placed := {| bet_selectionId := sel; bet_size := Js.of_Z 2;
                   bet_price := Js.of_Z 1000 |} in
  let logged := (eventId_or game k,
                 bet_placed false k sel (Js.of_Z 2) (Js.of_Z 1000) betId t) in
  pending s1 = [AwaitPlaceOrders (eventId_or game k) k sel price (Js.of_Z 2) t]
  /\ bet_on k s1 = bet game
  /\ pending s2 = [AwaitReplaceOrders k betId (Js.dec 5 100) price t]
  /\ bet_on k s2 = Some placed
  /\ hasOpenBet s2 = hasOpenBet s
  /\ (let s3 := gateway_reply cfg 0 Failed s2 in
      bet_on k s3 = Some placed
      /\ hasOpenBet s3 = hasOpenBet s
      /\ hasPlacedBet s3 = true
      /\ testBetPlaced s3 = (t || testBetPlaced s)
      /\ ndjson s3 = ndjson s ++ [logged]
      /\ pending s3 = [])
  /\ (forall answer,
      let s3 := gateway_reply cfg 0 (Succeeded answer) s2 in
      bet_on k s3 = Some {| bet_selectionId := sel; bet_size := Js.dec 5 100;
                            bet_price := price |}
      /\ hasOpenBet s3 = true
      /\ hasPlacedBet s3 = true
      /\ ndjson s3 = ndjson s ++
           [logged; (eventId_or game k, bet_edited betId (Js.dec 5 100) price)]
      /\ pending s3 = []).
Proof.
  intros Hsim Himp Hg Hp s1 s2 placed logged.
  destruct (placeBet_live cfg k sel price t s game Hsim Hg) as [O1 [G1 P1]].
  fold s1 in O1, G1, P1. rewrite Hp in P1. cbn [app] in P1.
  replace (betSize_of cfg s) with (Js.of_Z 2) in P1
    by (unfold betSize_of; now rewrite Hsim, Himp).
  assert (Hg1 : Dict.get k (gameHistoricalData s1) = Some game) by now rewrite G1.
  assert (L1 : ndjson s1 = ndjson s /\ testBetPlaced s1 = testBetPlaced s).
  { subst s1. unfold placeBet. cbv zeta. proj. now rewrite Hg, Hsim. }
  destruct L1 as [L1 T1].
  destruct (place_reply cfg (eventId_or game k) k sel price (Js.of_Z 2) t betId s1 game
              Hsim Himp P1 Hg1) as [P2 [G2 [L2 [O2 [_ T2]]]]].
  fold s2 in P2, G2, L2, O2, T2. fold placed in G2. clearbody s1 s2.
  split; [exact P1|]. split; [unfold bet_on; now rewrite Hg1|].
  split; [exact P2|]. split; [unfold bet_on; now rewrite G2|].
  split; [congruence|]. split.
  - destruct (edit_reply cfg k betId (Js.dec 5 100) price t Failed s2 _ placed P2 G2 eq_refl)
      as [A [B [C [D [E F]]]]].
    cbv zeta. repeat split; try assumption; try congruence.
    rewrite F, L2, L1. reflexivity.
  - intros answer.
    destruct (edit_reply cfg k betId (Js.dec 5 100) price t (Succeeded answer) s2 _ placed
                P2 G2 eq_refl) as [A [B [C [D [E F]]]]].
    cbv zeta. repeat split; try assumption.
    rewrite F, L2, L1, <- app_assoc. reflexivity.
Qed.

(** A live test bet at the observed price 2: while the edit is pending the
    recorded bet is 2 at 1000; after a failed edit it still is, and no bet
    counts as open. *)
Lemma impossible_odds_placement_witness :
  let cfg := {| enableSimulation := false; useImpossibleOdds := true;
                testBetEnabled := true |} in
  let s := started Scenario.one_market in
  let s3 := gateway_reply cfg 0 Failed
              (gateway_reply cfg 0 (Succeeded (Some "b"%string))
                 (placeBet cfg "1.1" 11 (Js.of_Z 2) true s)) in
  bet_on "1.1" s3 = Some {| bet_selectionId := 11; bet_size := Js.of_Z 2;
                            bet_price := Js.of_Z 1000 |}
  /\ hasOpenBet s3 = false
  /\ testBetPlaced s3 = true.
Proof.
  intros cfg s s3.
  destruct (impossible_odds_placement cfg "1.1" 11 (Js.of_Z 2) true s
              (snd (Scenario.market "1.1" 11 12)) (Some "b"%string)
              eq_refl eq_refl eq_refl eq_refl)
    as [_ [_ [_ [_ [_ [[A [B [_ [C _]]]] _]]]]]].
  fold s3 in A, B, C. split; [exact A|]. split; [exact B | exact C].
Defined.

(** *** The test-bet trigger (lines 507-529) *)

Lemma update_runner_quiet k runner s :
  placeBetCalls (update_runner k runner s) = placeBetCalls s
  /\ hasOpenBet (update_runner k runner s) = hasOpenBet s
  /\ testBetPlaced (update_runner k runner s) = testBetPlaced s.
Proof. unfold update_runner. repeat split_test; now repeat split. Qed.

(** The price updates of one delta rewrite the odds of its market and
    nothing else the triggers read. *)
Lemma runner_updates k rcs s game :
  Dict.get k (gameHistoricalData s) = Some game ->
  let s1 := fold_left (fun s runner => update_runner k runner s) rcs s in
  (exists odds, Dict.get k (gameHistoricalData s1) = Some (set_currentOdds odds game))
  /\ placeBetCalls s1 = placeBetCalls s
  /\ hasOpenBet s1 = hasOpenBet s
  /\ testBetPlaced s1 = testBetPlaced s.
Proof.
  intros Hg. rewrite <- (set_currentOdds_id game) in Hg. revert Hg.
  generalize (currentOdds game) as odds. revert s.
  induction rcs as [|runner rcs IH]; intros s odds Hg; cbn [fold_left].
  - split; [now exists odds | now repeat split].
  - destruct (update_runner_odds_only k runner s game odds Hg) as [odds1 [H1 _]].
    destruct (update_runner_quiet k runner s) as [A [B C]].
    destruct (IH _ _ H1) as [D [E [F G]]]. cbv zeta in *.
    split; [exact D|]. repeat split; congruence.
Qed.

Lemma score_phase_test_mode cfg k mc s :
  testBetEnabled cfg = true -> score_phase cfg k mc s = s.
Proof. intros H. unfold score_phase. rewrite H. now destruct (score_of mc). Qed.

(** X10.  With test betting enabled, an in-play delta with runner changes for a
    tracked open market calls [placeBet] exactly when no test bet has been
    placed, [hasOpenBet] is false and, after the delta's own price
    updates, the price of player A or else of player B is within 1 of the
    target 1.5; the call is a test bet on that side at that price, on A
    when both sides qualify.  A delta without runner changes or not in
    play calls nothing. *)
Theorem test_bet_condition cfg mc s game rcs :
  testBetEnabled cfg = true ->
  Dict.get (mc_id mc) (gameHistoricalData s) = Some game ->
  isOpen game = true ->
  rc mc = Some rcs ->
  isInPlay_of mc = true ->
  (exists odds,
     Dict.get (mc_id mc)
       (gameHistoricalData
          (fold_left (fun s runner => update_runner (mc_id mc) runner s) rcs s))
     = Some (set_currentOdds odds game)
     /\ placeBetCalls (market_change cfg mc s) =
        placeBetCalls s ++
        (if negb (testBetPlaced s) && negb (hasOpenBet s)
         then test_bet_calls (mc_id mc) (set_currentOdds odds game)
         else []))
  /\ (forall mc', rc mc' = None \/ isInPlay_of mc' = false ->
        placeBetCalls (market_change cfg mc' s) = placeBetCalls s).
Proof.
  intros Ht Hg Ho Hrc Hp. split.
  - destruct (runner_updates (mc_id mc) rcs s game Hg) as [[odds G1] [C1 [O1 T1]]].
    exists odds. split; [exact G1|].
    unfold market_change. cbv zeta. rewrite Hg, Ho. cbn [negb].
    unfold excluded. rewrite Ht. cbn [negb andb].
    rewrite status_phase_calls, score_phase_test_mode by exact Ht.
    unfold price_phase. rewrite Hrc, Hp. unfold odds_phase. cbv zeta.
    revert G1 C1 O1 T1.
    generalize (fold_left (fun s runner => update_runner (mc_id mc) runner s) rcs s).
    intros s1 G1 C1 O1 T1.
    assert (E : placeBetCalls (test_bet cfg (mc_id mc) true s1) =
                placeBetCalls s ++
                (if negb (testBetPlaced s) && negb (hasOpenBet s)
                 then test_bet_calls (mc_id mc) (set_currentOdds odds game) else [])).
    { unfold test_bet. rewrite Ht, T1, O1. cbn [andb].
      destruct (negb (testBetPlaced s) && negb (hasOpenBet s));
        [|now rewrite C1, app_nil_r].
      rewrite G1. unfold test_bet_calls. cbv zeta.
      cbn [currentOdds set_currentOdds selectionIdA selectionIdB pA pB].
      destruct (pA odds) as [oddsA|]; [destruct (near_testBetOdds oddsA)|];
        try (rewrite placeBet_calls, C1; reflexivity);
        (destruct (pB odds) as [oddsB|]; [destruct (near_testBetOdds oddsB)|]);
        try (rewrite placeBet_calls, C1; reflexivity);
        now rewrite C1, app_nil_r. }
    revert E. generalize (test_bet cfg (mc_id mc) true s1). intros s2 E.
    destruct (Dict.get (mc_id mc) (gameHistoricalData s2)); exact E.
  - intros mc' Hq. unfold market_change. cbv zeta.
    destruct (Dict.get (mc_id mc') (gameHistoricalData s)) as [game'|]; [|reflexivity].
    destruct (negb (isOpen game')); [reflexivity|].
    unfold excluded. rewrite Ht. cbn [negb andb].
    rewrite status_phase_calls, score_phase_test_mode by exact Ht.
    unfold price_phase. destruct Hq as [H|H]; rewrite H; [reflexivity|].
    now destruct (rc mc').
Qed.

(** With the switches of the script: a delta prices both players of market
    1.1 at 2 and 1.8; both are near the target and the bet goes on player
    A at 2. *)
Lemma test_bet_condition_witness :
  let mc := {| mc_id := "1.1";
               marketDefinition :=
                 Some {| inPlay := true; md_status := "OPEN"; score := None;
                         runners := None |};
               rc := Some [{| rc_id := 12; batb := Some [[Js.Number (Js.dec 18 10)]] |};
                           {| rc_id := 11; batb := Some [[Js.Number (Js.of_Z 2)]] |}] |} in
  placeBetCalls (market_change bot_config mc (started Scenario.one_market)) =
  [{| call_market := "1.1"; call_selectionId := 11; call_price := Js.of_Z 2;
      call_isTestBet := true |}].
Proof.
  intros mc.
  destruct (test_bet_condition bot_config mc (started Scenario.one_market)
              (snd (Scenario.market "1.1" 11 12)) _ eq_refl eq_refl eq_refl eq_refl eq_refl)
    as [[odds [G E]] _].
  vm_compute in G. injection G as <-. rewrite E. vm_compute. reflexivity.
Defined.

(** *** Markets only advance *)

Lemma In_alter_same V (k : string) (f : V -> V) (d : Dict.t V) v' :
  In (k, v') (Dict.alter k f d) -> exists v, In (k, v) d /\ v' = f v.
Proof.
  unfold Dict.alter. rewrite in_map_iff. intros [[k0 v0] [E Hin]]. cbn in E.
  destruct (String.eqb k0 k) eqn:Hk.
  - inversion E; subst. now exists v0.
  - inversion E; subst. now rewrite String.eqb_refl in Hk.
Qed.

Lemma In_alter_other V (k k' : string) (f : V -> V) (d : Dict.t V) v' :
  k' <> k -> In (k', v') (Dict.alter k f d) -> In (k', v') d.
Proof.
  intros Hk Hin. apply In_alter in Hin. destruct Hin as [v [Hin [->|[-> _]]]];
    [exact Hin | congruence].
Qed.

Lemma In_set V (k : string) (v : V) (d : Dict.t V) k' v' :
  In (k', v') (Dict.set k v d) -> In (k', v') d \/ (k' = k /\ v' = v).
Proof.
  unfold Dict.set. destruct (Dict.get k d) as [old|].
  - intros Hin. apply In_alter in Hin. destruct Hin as [w [Hin [->|[-> ->]]]]; auto.
  - intros Hin. apply in_app_or in Hin. destruct Hin as [Hin|[[= <- <-]|[]]]; auto.
Qed.

Lemma game_advances_refl g : game_advances g g.
Proof. unfold game_advances. repeat split; auto. Qed.

Lemma game_advances_trans g1 g2 g3 :
  game_advances g1 g2 -> game_advances g2 g3 -> game_advances g1 g3.
Proof.
  unfold game_advances.
  intros [A1 [B1 [C1 [D1 [E1 [F1 [G1 [H1 [I1 J1]]]]]]]]]
         [A2 [B2 [C2 [D2 [E2 [F2 [G2 [H2 [I2 J2]]]]]]]]].
  repeat split; try congruence; auto.
  destruct J2 as [J2|J2]; [rewrite J2; exact J1 | now right].
Qed.

Lemma store_advances_refl d : store_advances d d.
Proof. intros k g Hin. exists g. split; [assumption | apply game_advances_refl]. Qed.

Lemma store_advances_trans d1 d2 d3 :
  store_advances d1 d2 -> store_advances d2 d3 -> store_advances d1 d3.
Proof.
  intros H12 H23 k g3 Hin. destruct (H23 _ _ Hin) as [g2 [Hin2 S23]].
  destruct (H12 _ _ Hin2) as [g1 [Hin1 S12]]. exists g1. split; [assumption|].
  eapply game_advances_trans; eassumption.
Qed.

Lemma store_advances_alter k f d :
  (forall g, game_advances g (f g)) -> store_advances d (Dict.alter k f d).
Proof.
  intros Hf k' g' Hin. apply In_alter in Hin. destruct Hin as [g [Hin [->|[-> ->]]]].
  - exists g. split; [assumption | apply game_advances_refl].
  - exists g. split; [assumption | apply Hf].
Qed.

Lemma store_advances_delete k (d : Dict.t Game) : store_advances d (Dict.delete k d).
Proof.
  intros k' g' Hin. apply In_delete in Hin. exists g'.
  split; [tauto | apply game_advances_refl].
Qed.

(** A market that holds a bet holds one as long as it is tracked. *)
Lemma holds_bet_advances k s s' :
  store_advances (gameHistoricalData s) (gameHistoricalData s') ->
  holds_bet k s -> holds_bet k s'.
Proof.
  intros Hs Hb g' Hin. destruct (Hs _ _ Hin) as [g [Hin' Hg]].
  apply Hg. now apply Hb.
Qed.

Lemma keys_alter V (k : string) (f : V -> V) (d : Dict.t V) :
  map fst (Dict.alter k f d) = map fst d.
Proof.
  unfold Dict.alter. rewrite map_map. apply map_ext. intros [k0 v0]. cbn.
  now destruct (String.eqb k0 k).
Qed.

Lemma keys_delete V (k : string) (d : Dict.t V) :
  map fst (Dict.delete k d) = filter (fun k' => negb (String.eqb k' k)) (map fst d).
Proof.
  unfold Dict.delete. induction d as [|[k0 v0] d IH]; [reflexivity|]. cbn.
  destruct (String.eqb k0 k); cbn; now rewrite IH.
Qed.

Lemma filter_true A (l : list A) : filter (fun _ => true) l = l.
Proof. induction l as [|a l IH]; [reflexivity|]. cbn. now rewrite IH. Qed.

Lemma filter_filter A (p q : A -> bool) (l : list A) :
  filter q (filter p l) = filter (fun a => p a && q a) l.
Proof.
  induction l as [|a l IH]; [reflexivity|]. cbn.
  destruct (p a); cbn; [destruct (q a)|]; now rewrite IH.
Qed.

Lemma keys_shrink_refl d : keys_shrink d d.
Proof. exists (fun _ => true). now rewrite filter_true. Qed.

Lemma keys_shrink_trans d1 d2 d3 :
  keys_shrink d1 d2 -> keys_shrink d2 d3 -> keys_shrink d1 d3.
Proof.
  intros [p E1] [q E2]. exists (fun k => p k && q k).
  now rewrite E2, E1, filter_filter.
Qed.

Lemma keys_shrink_alter k f d : keys_shrink d (Dict.alter k f d).
Proof. exists (fun _ => true). now rewrite keys_alter, filter_true. Qed.

Lemma keys_shrink_delete k (d : Dict.t Game) : keys_shrink d (Dict.delete k d).
Proof. eexists. apply keys_delete. Qed.

Lemma advances_refl s : advances s s.
Proof. split; [apply store_advances_refl | split; [auto | apply keys_shrink_refl]]. Qed.

Lemma advances_then s s' s'' : advances s' s'' -> advances s s' -> advances s s''.
Proof.
  intros [A2 [B2 C2]] [A1 [B1 C1]]. split; [|split].
  - eapply store_advances_trans; eassumption.
  - intros k betId Hin. destruct (B2 _ _ Hin) as [H|H]; [|now right].
    destruct (B1 _ _ H) as [H'|H']; [now left | right].
    eapply holds_bet_advances; eassumption.
  - eapply keys_shrink_trans; eassumption.
Qed.

Lemma advances_same s s' :
  gameHistoricalData s' = gameHistoricalData s ->
  orderIds s' = orderIds s ->
  advances s s'.
Proof.
  intros E1 E2. split; [|split].
  - rewrite E1. apply store_advances_refl.
  - rewrite E2. auto.
  - rewrite E1. apply keys_shrink_refl.
Qed.

Lemma advances_modify_game k f s :
  (forall g, game_advances g (f g)) -> advances s (modify_game k f s).
Proof.
  intros Hf. split; [|split]; proj;
    [now apply store_advances_alter | auto | apply keys_shrink_alter].
Qed.

Lemma advances_delete_game k s :
  advances s (set_gameHistoricalData (Dict.delete k (gameHistoricalData s)) s).
Proof.
  split; [|split]; proj; [apply store_advances_delete | auto | apply keys_shrink_delete].
Qed.

Lemma advances_delete_order k s :
  advances s (set_orderIds (Dict.delete k (orderIds s)) s).
Proof.
  split; [|split]; proj; [apply store_advances_refl | | apply keys_shrink_refl].
  intros k' betId Hin. apply In_delete in Hin. now left.
Qed.

(** Recording a bet together with its order identifier. *)
Lemma advances_record_bet k b x v s :
  advances s (modify_game k (set_bet (Some b))
                (set_simBalance x (set_orderIds (Dict.set k v (orderIds s)) s))).
Proof.
  split; [|split]; proj.
  - apply store_advances_alter. intros g. unfold game_advances. cbn.
    repeat split; auto. discriminate.
  - intros k' betId Hin. apply In_set in Hin. destruct Hin as [Hin|[-> _]]; [now left|].
    right. intros g Hg. proj. apply In_alter_same in Hg. destruct Hg as [g0 [_ ->]].
    discriminate.
  - apply keys_shrink_alter.
Qed.

Lemma advances_record_order k b betId s :
  advances s (modify_game k (set_bet (Some b))
                (set_orderIds (assign_orderId k betId (orderIds s)) s)).
Proof.
  split; [|split]; proj.
  - apply store_advances_alter. intros g. unfold game_advances. cbn.
    repeat split; auto. discriminate.
  - intros k' betId' Hin.
    assert (H : In (k', betId') (orderIds s) \/ k' = k).
    { unfold assign_orderId in Hin. destruct betId.
      - apply In_set in Hin. tauto.
      - apply In_delete in Hin. tauto. }
    destruct H as [H| ->]; [now left|].
    right. intros g Hg. proj. apply In_alter_same in Hg. destruct Hg as [g0 [_ ->]].
    discriminate.
  - apply keys_shrink_alter.
Qed.

(** An order identifier recorded for a market that is gone. *)
Lemma advances_orphan_order k betId s :
  Dict.get k (gameHistoricalData s) = None ->
  advances s (set_orderIds (assign_orderId k betId (orderIds s)) s).
Proof.
  intros Hk. split; [|split]; proj; [apply store_advances_refl | | apply keys_shrink_refl].
  intros k' betId' Hin.
  assert (H : In (k', betId') (orderIds s) \/ k' = k).
  { unfold assign_orderId in Hin. destruct betId.
    - apply In_set in Hin. tauto.
    - apply In_delete in Hin. tauto. }
  destruct H as [H| ->]; [now left|].
  right. intros g Hg. proj. rewrite get_None in Hk. now apply Hk in Hg.
Qed.

(** The state after a closure: the market is deleted, whatever was done to
    it before, and no order identifier is new. *)
Lemma advances_closed k f s s' :
  gameHistoricalData s' = Dict.delete k (Dict.alter k f (gameHistoricalData s)) ->
  orderIds s' = Dict.delete k (orderIds s) ->
  advances s s'.
Proof.
  intros E1 E2. split; [|split].
  - rewrite E1. intros k' g' Hin. apply In_delete in Hin. destruct Hin as [Hin Hk].
    apply In_alter_other in Hin; [|exact Hk].
    exists g'. split; [exact Hin | apply game_advances_refl].
  - rewrite E2. intros k' betId Hin. apply In_delete in Hin. now left.
  - rewrite E1. eapply keys_shrink_trans; [apply keys_shrink_alter | apply keys_shrink_delete].
Qed.

Ltac game_advance :=
  intros; unfold game_advances; cbn;
  repeat split; auto; try discriminate;
  first [left; reflexivity | right; left; reflexivity | right; right; reflexivity].

Lemma advances_set_hasOpenBet v s : advances s (set_hasOpenBet v s).
Proof. now apply advances_same. Qed.

Lemma advances_set_testBetPlaced v s : advances s (set_testBetPlaced v s).
Proof. now apply advances_same. Qed.

Lemma advances_set_hasPlacedBet v s : advances s (set_hasPlacedBet v s).
Proof. now apply advances_same. Qed.

Lemma advances_set_simBalance v s : advances s (set_simBalance v s).
Proof. now apply advances_same. Qed.

Lemma advances_set_multiplier v s : advances s (set_multiplier v s).
Proof. now apply advances_same. Qed.

Lemma advances_set_ws v s : advances s (set_ws v s).
Proof. now apply advances_same. Qed.

Lemma advances_set_isSubscribed v s : advances s (set_isSubscribed v s).
Proof. now apply advances_same. Qed.

Lemma advances_set_isAuthenticated v s : advances s (set_isAuthenticated v s).
Proof. now apply advances_same. Qed.

Lemma advances_set_buffer v s : advances s (set_buffer v s).
Proof. now apply advances_same. Qed.

Lemma advances_set_totalSetsCompleted v s : advances s (set_totalSetsCompleted v s).
Proof. now apply advances_same. Qed.

Lemma advances_set_totalConditionsMet v s : advances s (set_totalConditionsMet v s).
Proof. now apply advances_same. Qed.

Lemma advances_set_totalBetsPlaced v s : advances s (set_totalBetsPlaced v s).
Proof. now apply advances_same. Qed.

Lemma advances_set_sockets v s : advances s (set_sockets v s).
Proof. now apply advances_same. Qed.

Lemma advances_set_timers v s : advances s (set_timers v s).
Proof. now apply advances_same. Qed.

Lemma advances_set_written v s : advances s (set_written v s).
Proof. now apply advances_same. Qed.

Lemma advances_set_ndjson v s : advances s (set_ndjson v s).
Proof. now apply advances_same. Qed.

Lemma advances_set_pending v s : advances s (set_pending v s).
Proof. now apply advances_same. Qed.

Lemma advances_set_placeBetCalls v s : advances s (set_placeBetCalls v s).
Proof. now apply advances_same. Qed.

Lemma advances_incr_totalSetsCompleted s : advances s (incr_totalSetsCompleted s).
Proof. now apply advances_same. Qed.

Lemma advances_incr_totalConditionsMet s : advances s (incr_totalConditionsMet s).
Proof. now apply advances_same. Qed.

Lemma advances_incr_totalBetsPlaced s : advances s (incr_totalBetsPlaced s).
Proof. now apply advances_same. Qed.

Lemma advances_appendToNdjson e r s : advances s (appendToNdjson e r s).
Proof. now apply advances_same. Qed.

Create HintDb advance.

#[global] Hint Extern 1 (advances _ (set_hasOpenBet _ _)) => apply advances_set_hasOpenBet : advance.
#[global] Hint Extern 1 (advances _ (set_testBetPlaced _ _)) => apply advances_set_testBetPlaced : advance.
#[global] Hint Extern 1 (advances _ (set_hasPlacedBet _ _)) => apply advances_set_hasPlacedBet : advance.
#[global] Hint Extern 1 (advances _ (set_simBalance _ _)) => apply advances_set_simBalance : advance.
#[global] Hint Extern 1 (advances _ (set_multiplier _ _)) => apply advances_set_multiplier : advance.
#[global] Hint Extern 1 (advances _ (set_ws _ _)) => apply advances_set_ws : advance.
#[global] Hint Extern 1 (advances _ (set_isSubscribed _ _)) => apply advances_set_isSubscribed : advance.
#[global] Hint Extern 1 (advances _ (set_isAuthenticated _ _)) => apply advances_set_isAuthenticated : advance.
#[global] Hint Extern 1 (advances _ (set_buffer _ _)) => apply advances_set_buffer : advance.
#[global] Hint Extern 1 (advances _ (set_totalSetsCompleted _ _)) => apply advances_set_totalSetsCompleted : advance.
#[global] Hint Extern 1 (advances _ (set_totalConditionsMet _ _)) => apply advances_set_totalConditionsMet : advance.
#[global] Hint Extern 1 (advances _ (set_totalBetsPlaced _ _)) => apply advances_set_totalBetsPlaced : advance.
#[global] Hint Extern 1 (advances _ (set_sockets _ _)) => apply advances_set_sockets : advance.
#[global] Hint Extern 1 (advances _ (set_timers _ _)) => apply advances_set_timers : advance.
#[global] Hint Extern 1 (advances _ (set_written _ _)) => apply advances_set_written : advance.
#[global] Hint Extern 1 (advances _ (set_ndjson _ _)) => apply advances_set_ndjson : advance.
#[global] Hint Extern 1 (advances _ (set_pending _ _)) => apply advances_set_pending : advance.
#[global] Hint Extern 1 (advances _ (set_placeBetCalls _ _)) => apply advances_set_placeBetCalls : advance.
#[global] Hint Extern 1 (advances _ (incr_totalSetsCompleted _)) => apply advances_incr_totalSetsCompleted : advance.
#[global] Hint Extern 1 (advances _ (incr_totalConditionsMet _)) => apply advances_incr_totalConditionsMet : advance.
#[global] Hint Extern 1 (advances _ (incr_totalBetsPlaced _)) => apply advances_incr_totalBetsPlaced : advance.
#[global] Hint Extern 1 (advances _ (appendToNdjson _ _ _)) => apply advances_appendToNdjson : advance.

#[global] Hint Extern 1 (advances _ (modify_game _ _ _)) =>
  apply advances_modify_game; game_advance : advance.
#[global] Hint Extern 1 (advances _ (set_gameHistoricalData (Dict.delete _ _) _)) =>
  apply advances_delete_game : advance.
#[global] Hint Extern 1 (advances _ (set_orderIds (Dict.delete _ _) _)) =>
  apply advances_delete_order : advance.
#[global] Hint Extern 1
  (advances _ (modify_game _ (set_bet _) (set_simBalance _ (set_orderIds (Dict.set _ _ _) _)))) =>
  apply advances_record_bet : advance.
#[global] Hint Extern 1
  (advances _ (modify_game _ (set_bet _) (set_orderIds (assign_orderId _ _ _) _))) =>
  apply advances_record_order : advance.
#[global] Hint Extern 1 (advances _ (set_orderIds (assign_orderId _ _ _) _)) =>
  apply advances_orphan_order; assumption : advance.

(** Walking through a handler some of whose assignments only make a step
    of the relation together: the steps are tried on three and two
    assignments at once before they are tried on one. *)
Ltac chain_grouped refl_lemma then_lemma solver :=
  repeat first
    [ match goal with
      | H : ?R ?a ?b |- ?R ?a ?b => exact H
      | |- ?R ?a ?a => apply refl_lemma
      end
    | chain_let
    | match goal with
      | |- ?R ?s (?F (?G (?H ?t))) =>
          apply (then_lemma s t (F (G (H t)))); [solve [solver]|]
      end
    | match goal with
      | |- ?R ?s (?F (?G ?t)) => apply (then_lemma s t (F (G t))); [solve [solver]|]
      end
    | match goal with
      | |- ?R ?s (?F ?t) => apply (then_lemma s t (F t)); [solve [solver]|]
      end
    | split_test ].

Ltac advance_chain :=
  chain_grouped advances_refl advances_then ltac:(auto with advance nocore).

Lemma advances_ws_write m s : advances s (ws_write m s).
Proof. unfold ws_write. advance_chain. Qed.

Lemma advances_subscription_loop fuel i ids s :
  advances s (subscription_loop fuel i ids s).
Proof.
  revert i s. induction fuel as [|fuel IH]; intros i s; cbn [subscription_loop];
    [apply advances_refl|].
  destruct (i <? List.length ids); [|apply advances_refl].
  eapply advances_then; [apply IH | apply advances_ws_write].
Qed.

#[global] Hint Extern 1 (advances _ (ws_write _ _)) => apply advances_ws_write : advance.
#[global] Hint Extern 1 (advances _ (subscription_loop _ _ _ _)) =>
  apply advances_subscription_loop : advance.

Lemma advances_subscribeToOpenMarkets s : advances s (subscribeToOpenMarkets s).
Proof. unfold subscribeToOpenMarkets. advance_chain. Qed.

Lemma advances_placeBet cfg k sel price t s : advances s (placeBet cfg k sel price t s).
Proof. unfold placeBet. cbv zeta. advance_chain. Qed.

Lemma advances_placeBet_end t s : advances s (placeBet_end t s).
Proof. unfold placeBet_end. cbv zeta. advance_chain. Qed.

#[global] Hint Extern 1 (advances _ (subscribeToOpenMarkets _)) =>
  apply advances_subscribeToOpenMarkets : advance.
#[global] Hint Extern 1 (advances _ (placeBet _ _ _ _ _ _)) => apply advances_placeBet : advance.
#[global] Hint Extern 1 (advances _ (placeBet_end _ _)) => apply advances_placeBet_end : advance.

Lemma advances_editBet cfg k b n p t s : advances s (editBet cfg k b n p t s).
Proof. unfold editBet. advance_chain. Qed.

#[global] Hint Extern 1 (advances _ (editBet _ _ _ _ _ _ _)) => apply advances_editBet : advance.

Lemma advances_placeBet_resume cfg e k sel price size t r s :
  advances s (placeBet_resume cfg e k sel price size t r s).
Proof. unfold placeBet_resume. cbv zeta. advance_chain. Qed.

Lemma advances_editBet_resume k b n p t r s :
  advances s (editBet_resume k b n p t r s).
Proof. unfold editBet_resume. cbv zeta. advance_chain. Qed.

Lemma advances_update_runner k runner s : advances s (update_runner k runner s).
Proof. unfold update_runner. advance_chain. Qed.

Lemma advances_fold A (f : A -> State -> State) (l : list A) s :
  (forall a s, advances s (f a s)) ->
  advances s (fold_left (fun s a => f a s) l s).
Proof.
  intros Hf. revert s. induction l as [|a l IH]; intros s; cbn [fold_left].
  - apply advances_refl.
  - eapply advances_then; [apply IH | apply Hf].
Qed.

Lemma advances_test_bet cfg k inplay s : advances s (test_bet cfg k inplay s).
Proof. unfold test_bet. cbv zeta. advance_chain. Qed.

Lemma advances_odds_phase cfg k rcs inplay s : advances s (odds_phase cfg k rcs inplay s).
Proof.
  unfold odds_phase. cbv zeta.
  assert (H : advances s (test_bet cfg k inplay
                (fold_left (fun s runner => update_runner k runner s) rcs s))).
  { eapply advances_then; [apply advances_test_bet|].
    apply advances_fold. intros. apply advances_update_runner. }
  revert H. generalize (test_bet cfg k inplay
                (fold_left (fun s runner => update_runner k runner s) rcs s)).
  intros s' H. advance_chain.
Qed.

Lemma advances_score_phase cfg k mc s : advances s (score_phase cfg k mc s).
Proof. unfold score_phase. advance_chain. Qed.

#[global] Hint Extern 1 (advances _ (odds_phase _ _ _ _ _)) => apply advances_odds_phase : advance.
#[global] Hint Extern 1 (advances _ (score_phase _ _ _ _)) => apply advances_score_phase : advance.

Lemma settle_orderIds cfg k game mc s :
  orderIds (snd (settle cfg k game mc s)) = orderIds s.
Proof.
  unfold settle.
  destruct (bet game) as [b|]; [|reflexivity].
  destruct (match marketDefinition mc with Some md => runners md | None => None end)
    as [rs|]; [|reflexivity].
  destruct (find _ rs) as [winner|]; [|reflexivity].
  destruct (enableSimulation cfg); destruct (Z.eqb _ _); reflexivity.
Qed.

Lemma advances_status_phase cfg k mc s : advances s (status_phase cfg k mc s).
Proof.
  unfold status_phase.
  destruct (is_closed mc); [|advance_chain]. cbv zeta.
  destruct (Dict.get k (gameHistoricalData (modify_game k _ s))) as [game|] eqn:Hg.
  - pose proof (settle_store cfg k game mc
                  (modify_game k (fun g => set_status "ENDED" (set_isOpen false g)) s)) as H1.
    pose proof (settle_orderIds cfg k game mc
                  (modify_game k (fun g => set_status "ENDED" (set_isOpen false g)) s)) as H2.
    destruct (settle cfg k game mc _) as [[outcome pnl] s1]. cbn [snd] in H1, H2.
    apply (advances_closed k (fun g => set_status "ENDED" (set_isOpen false g))); proj.
    + now rewrite H1.
    + now rewrite H2.
  - (* the market is not tracked: the mutation found nothing *)
    apply advances_same; [|reflexivity]. proj. proj.
    rewrite get_alter_same in Hg.
    destruct (Dict.get k (gameHistoricalData s)) eqn:E; [discriminate|].
    clear Hg. rewrite get_None in E. unfold Dict.alter.
    rewrite <- (map_id (gameHistoricalData s)) at 2. apply map_ext_in.
    intros [k0 g0] Hin. cbn. destruct (String.eqb k0 k) eqn:Hk; [|reflexivity].
    apply String.eqb_eq in Hk. subst. now apply E in Hin.
Qed.

#[global] Hint Extern 1 (advances _ (status_phase _ _ _ _)) => apply advances_status_phase : advance.

Lemma advances_price_phase cfg mc s : advances s (price_phase cfg mc s).
Proof. unfold price_phase. advance_chain. Qed.

#[global] Hint Extern 1 (advances _ (price_phase _ _ _)) => apply advances_price_phase : advance.

Lemma advances_market_change cfg mc s : advances s (market_change cfg mc s).
Proof. unfold market_change. advance_chain. Qed.

Lemma advances_order_reports k game orders s :
  advances s (state_of (order_reports k game orders s)).
Proof.
  revert s. induction orders as [|order rest IH]; intros s; cbn [order_reports];
    [apply advances_refl|].
  destruct (or_profit order) as [profit|]; [|apply IH].
  destruct (_ && _); [|apply IH].
  destruct (bet game) as [b|]; [|apply advances_refl].
  eapply advances_then; [apply IH|]. advance_chain.
Qed.

Lemma advances_order_change cfg oc s : advances s (state_of (order_change cfg oc s)).
Proof.
  unfold order_change.
  destruct (Dict.get _ _) as [game|]; [|apply advances_refl].
  destruct (_ && _); [|apply advances_refl].
  destruct (oc_or oc); [apply advances_order_reports | apply advances_refl].
Qed.

Lemma advances_order_changes cfg ocs s : advances s (state_of (order_changes cfg ocs s)).
Proof.
  revert s. induction ocs as [|oc rest IH]; intros s; cbn [order_changes];
    [apply advances_refl|].
  pose proof (advances_order_change cfg oc s) as H.
  destruct (order_change cfg oc s) as [s'|s']; cbn [state_of] in *.
  - eapply advances_then; [apply IH | exact H].
  - exact H.
Qed.

Lemma advances_handleStreamMessage cfg m s :
  advances s (state_of (handleStreamMessage cfg m s)).
Proof.
  unfold handleStreamMessage.
  destruct (_ && _).
  - cbn [state_of]. advance_chain.
  - destruct (String.eqb (op m) "mcm").
    + destruct (mc m); cbn [state_of]; [|apply advances_refl].
      apply advances_fold. intros. apply advances_market_change.
    + destruct (String.eqb (op m) "ocm"); [|apply advances_refl].
      destruct (oc m); [apply advances_order_changes | apply advances_refl].
Qed.

Lemma advances_dispatch cfg parse f s : advances s (dispatch cfg parse f s).
Proof.
  unfold dispatch. destruct (parse f); [apply advances_handleStreamMessage | apply advances_refl].
Qed.

Lemma advances_drain cfg parse fuel s : advances s (snd (drain cfg parse fuel s)).
Proof.
  revert s. induction fuel as [|fuel IH]; intros s; cbn [drain]; [apply advances_refl|].
  destruct (Js.indexOf_crlf (buffer s)) as [index|]; [|apply advances_refl].
  match goal with |- context [drain cfg parse fuel ?t] =>
    pose proof (IH t) as H; destruct (drain cfg parse fuel t) as [frames s'] end.
  cbn [snd] in *. eapply advances_then; [exact H|].
  eapply advances_then; [apply advances_dispatch | apply advances_set_buffer].
Qed.

Lemma advances_on_data cfg parse data s : advances s (snd (on_data cfg parse data s)).
Proof.
  unfold on_data. eapply advances_then; [apply advances_drain | apply advances_set_buffer].
Qed.

Lemma advances_connectStreamAPI s : advances s (connectStreamAPI s).
Proof. unfold connectStreamAPI. advance_chain. Qed.

#[global] Hint Extern 1 (advances _ (connectStreamAPI _)) => apply advances_connectStreamAPI : advance.

Lemma advances_gateway_reply cfg n reply s : advances s (gateway_reply cfg n reply s).
Proof.
  unfold gateway_reply.
  destruct (take_task n (pending s)) as [[t rest]|]; [|apply advances_refl].
  eapply advances_then; [|apply advances_set_pending].
  destruct t; cbn [resume]; [apply advances_placeBet_resume | apply advances_editBet_resume].
Qed.

Lemma advances_step cfg parse e s : advances s (step cfg parse e s).
Proof.
  destruct e; cbn [step].
  - apply advances_ws_write.
  - apply advances_on_data.
  - unfold on_error, schedule_reconnect. advance_chain.
  - unfold on_close, schedule_reconnect. advance_chain.
  - destruct (timers s); advance_chain.
  - apply advances_gateway_reply.
Qed.

Lemma reaches_advances cfg s s' : reaches cfg s s' -> advances s s'.
Proof.
  induction 1 as [|parse e s' _ IH|m s' _ IH].
  - apply advances_refl.
  - eapply advances_then; [apply advances_step | exact IH].
  - eapply advances_then; [apply advances_handleStreamMessage | exact IH].
Qed.

(** *** Order identifiers are backed by bets (lines 293-300 and 641-660) *)

Lemma orders_backed_advances s s' :
  orders_backed s -> advances s s' -> orders_backed s'.
Proof.
  intros Hb [Hs [Ho _]] k betId Hin. destruct (Ho _ _ Hin) as [H|H]; [|exact H].
  eapply holds_bet_advances; [exact Hs|]. eapply Hb. exact H.
Qed.

Lemma orders_backed_started store : orders_backed (started store).
Proof. intros k betId []. Qed.

(** X20.  In every state the process reaches, an order identifier is
    recorded only for a market that holds a bet, or that is no longer
    tracked: [placeBet] records the two together, nothing removes the bet
    of a tracked market, and a closure drops both.  So the order loop,
    which runs for a tracked market with a recorded order identifier, never
    reads [game.bet.selectionId] of a game without bet. *)
Theorem order_identifiers_backed cfg store s :
  reaches cfg (started store) s ->
  orders_backed s
  /\ (forall oc game,
        Dict.get (oc_marketId oc) (gameHistoricalData s) = Some game ->
        has_orderId (oc_marketId oc) s = true ->
        bet game <> None).
Proof.
  intros R.
  assert (Hb : orders_backed s).
  { apply (orders_backed_advances (started store)); [apply orders_backed_started|].
    exact (reaches_advances cfg _ _ R). }
  split; [exact Hb|]. intros oc game Hg Ho. unfold has_orderId in Ho.
  destruct (Dict.get (oc_marketId oc) (orderIds s)) as [betId|] eqn:Hid; [|discriminate].
  apply get_In in Hid, Hg. exact (Hb _ _ Hid _ Hg).
Qed.

(** In live mode the gateway accepts a bet on market 1.1 as "b" after the
    market has closed: the identifier is recorded for a market that is
    gone.  A bet accepted on market 1.2 is recorded with its
    identifier. *)
Lemma order_identifiers_backed_witness :
  let s := gateway_reply Scenario.live_config 0 (Succeeded (Some "c"%string))
             (deliver Scenario.live_config
                [Scenario.mcm [Scenario.price_delta "1.2" 21 (Js.Number (Js.of_Z 2))]]
                (gateway_reply Scenario.live_config 0 (Succeeded (Some "b"%string))
                   (deliver Scenario.live_config
                      [Scenario.mcm [Scenario.price_delta "1.1" 11 (Js.Number (Js.of_Z 2))];
                       Scenario.mcm [Scenario.closed_delta "1.1" None]]
                      (started Scenario.three_markets)))) in
  orderIds s = [("1.1", "b"); ("1.2", "c")]%string
  /\ Scenario.markets_with_bet s = ["1.2"%string]
  /\ orders_backed s.
Proof.
  intros s. split; [vm_compute; reflexivity|]. split; [vm_compute; reflexivity|].
  apply (order_identifiers_backed Scenario.live_config Scenario.three_markets s).
  eapply reaches_trans; [|apply reaches_gateway_reply].
  eapply reaches_trans; [|apply reaches_deliver].
  eapply reaches_trans; [|apply reaches_gateway_reply].
  apply reaches_deliver.
Defined.

(** Without the invariant the read does throw: an order identifier
    recorded for a market without bet. *)
Example order_without_bet_throws :
  let s := set_orderIds [("1.1", "b")]%string (started Scenario.one_market) in
  handleStreamMessage Scenario.live_config
    (Scenario.ocm [Scenario.lost_order "1.1" "b"]) s = Thrown s.
Proof. vm_compute. reflexivity. Qed.

(** *** Exclusion (lines 447-462) *)

(** X11.  Without test betting, an in-play delta without score for a tracked open
    market excludes the market: it is marked not open, one
    [market_excluded] record is logged, and nothing else of the delta is
    processed.  The market stays in the store, and it is never reopened:
    in every state reached afterwards it is not open, and every delta for
    it, a closure included, leaves the state untouched. *)
Theorem exclusion_is_permanent cfg mc s game s1 :
  testBetEnabled cfg = false ->
  Dict.get (mc_id mc) (gameHistoricalData s) = Some game ->
  isOpen game = true ->
  isInPlay_of mc = true ->
  score_of mc = None ->
  reaches cfg (market_change cfg mc s) s1 ->
  market_change cfg mc s =
    appendToNdjson (eventId_or game (mc_id mc)) (market_excluded (mc_id mc))
      (modify_game (mc_id mc) (set_isOpen false) s)
  /\ (forall g, In (mc_id mc, g) (gameHistoricalData s1) -> isOpen g = false)
  /\ (forall mc', mc_id mc' = mc_id mc -> market_change cfg mc' s1 = s1).
Proof.
  intros Ht Hg Ho Hp Hsc R.
  assert (E : market_change cfg mc s =
              appendToNdjson (eventId_or game (mc_id mc)) (market_excluded (mc_id mc))
                (modify_game (mc_id mc) (set_isOpen false) s)).
  { unfold market_change. cbv zeta. rewrite Hg, Ho. unfold excluded.
    now rewrite Ht, Hp, Hsc. }
  split; [exact E|].
  assert (Hclosed : forall g, In (mc_id mc, g) (gameHistoricalData s1) -> isOpen g = false).
  { intros g1 Hin. apply (reaches_advances cfg) in R. destruct R as [Hs _].
    destruct (Hs _ _ Hin) as [g0 [Hin0 Hadv]].
    rewrite E in Hin0. proj. apply In_alter_same in Hin0. destruct Hin0 as [g [_ ->]].
    destruct Hadv as [_ [_ [_ [_ [_ [_ [Hopen _]]]]]]].
    destruct (isOpen g1); [|reflexivity]. specialize (Hopen eq_refl). discriminate Hopen. }
  split; [exact Hclosed|].
  intros mc' Hk. unfold market_change. cbv zeta. rewrite Hk.
  destruct (Dict.get (mc_id mc) (gameHistoricalData s1)) as [g1|] eqn:Hg1; [|reflexivity].
  apply get_In in Hg1. now rewrite (Hclosed g1 Hg1).
Qed.

(** In staking mode market 1.1 goes in play without score and is excluded;
    after a price for market 1.2, its closure changes nothing. *)
Lemma exclusion_is_permanent_witness :
  let mc := Scenario.price_delta "1.1" 11 (Js.Number (Js.of_Z 2)) in
  let s1 := deliver Scenario.staking_config
              [Scenario.mcm [{| mc_id := "1.2";
                                marketDefinition := None; rc := None |}]]
              (market_change Scenario.staking_config mc (started Scenario.three_markets)) in
  option_map isOpen (Dict.get "1.1" (gameHistoricalData s1)) = Some false
  /\ market_change Scenario.staking_config (Scenario.closed_delta "1.1" (Some 11%Z)) s1 = s1.
Proof.
  intros mc s1.
  destruct (exclusion_is_permanent Scenario.staking_config mc (started Scenario.three_markets)
              (snd (Scenario.market "1.1" 11 12)) s1
              eq_refl eq_refl eq_refl eq_refl eq_refl (reaches_deliver _ _ _))
    as [_ [_ H]].
  split; [vm_compute; reflexivity|]. now apply H.
Defined.

(** *** Start-up (lines 138-178 and 676-729) *)

(** X6.  [fetchOpenTennisMarkets] sends at least one and at most three
    requests, waits 5 seconds before each retry and after nothing else,
    and returns the first answer it obtains, or the empty list when the
    third request has failed too; it never returns [undefined]. *)
Theorem fetch_retry_contract (answers : nat -> option (list CatalogueMarket)) :
  let r := fetchOpenTennisMarkets answers in
  1 <= requests r <= 3
  /\ waits r = repeat 5000%N (requests r - 1)
  /\ (forall n, n < requests r - 1 -> answers n = None)
  /\ fetched r = Some (match answers (requests r - 1) with
                       | Some data => data
                       | None => []
                       end)
  /\ (answers (requests r - 1) = None -> requests r = 3).
Proof.
  unfold fetchOpenTennisMarkets. cbn [fetch_loop].
  destruct (answers 0) as [d0|] eqn:E0; cbn [fetched requests waits Nat.sub Nat.ltb Nat.leb].
  - rewrite E0. repeat split; try lia. discriminate.
  - destruct (answers 1) as [d1|] eqn:E1; cbn [fetched requests waits Nat.sub Nat.ltb Nat.leb app].
    + rewrite E1. repeat split; try lia; try discriminate.
      intros n Hn. now replace n with 0 by lia.
    + destruct (answers 2) as [d2|] eqn:E2; cbn [fetched requests waits Nat.sub app];
        rewrite E2; repeat split; try lia; try discriminate;
        intros n Hn; destruct n as [|[|n]]; (assumption || lia).
Qed.

Lemma get_app_Some V (k : string) (d e : Dict.t V) v :
  Dict.get k d = Some v -> Dict.get k (d ++ e) = Some v.
Proof.
  unfold Dict.get. induction d as [|[k0 v0] d IH]; [discriminate|]. cbn.
  destruct (String.eqb k0 k); [trivial | exact IH].
Qed.

Lemma get_app_None V (k : string) (d e : Dict.t V) :
  Dict.get k d = None -> Dict.get k (d ++ e) = Dict.get k e.
Proof.
  unfold Dict.get. induction d as [|[k0 v0] d IH]; [reflexivity|]. cbn.
  destruct (String.eqb k0 k); [discriminate | exact IH].
Qed.

Lemma get_keys V (k : string) (d : Dict.t V) :
  Dict.get k d = None <-> ~ In k (map fst d).
Proof.
  rewrite get_None, in_map_iff. split.
  - intros H [[k0 v0] [E Hin]]. cbn in E. subst. now apply (H v0).
  - intros H v Hin. apply H. now exists (k, v).
Qed.

(** One catalogue entry either leaves the store as it is or appends one
    fresh entry under an identifier that was not tracked. *)
Lemma track_market_step Date_parse clock market st :
  let st' := track_market Date_parse clock market st in
  let k := cat_marketId market in
  (tracked st' = tracked st
   /\ totalMarketsTracked st' = totalMarketsTracked st
   /\ (trackable market = false \/ Dict.get k (tracked st) <> None))
  \/ (exists g,
        tracked st' = tracked st ++ [(k, g)]
        /\ totalMarketsTracked st' = S (totalMarketsTracked st)
        /\ trackable market = true
        /\ Dict.get k (tracked st) = None
        /\ fresh_game k g
        /\ built_from market g).
Proof.
  cbv zeta. unfold track_market, trackable, two_runners, built_from.
  destruct (eventOpenDate_of Date_parse clock market (readings st)) as [date n].
  destruct (cat_runners market) as [[|a [|b rest]]|]; cbn [andb];
    try (left; repeat split; now left).
  destruct (Dict.get (cat_marketId market) (tracked st)) as [old|] eqn:Hg; cbn [negb].
  - left. repeat split. right. discriminate.
  - destruct (inherited (cat_marketId market)); cbn [negb].
    + left. repeat split. now left.
    + right. eexists. cbn [tracked totalMarketsTracked]. unfold Dict.set. rewrite Hg.
      split; [reflexivity|]. repeat split.
      * destruct (later_than _ _); [now left | now right].
      * unfold eventId_or, new_game. cbn [eventId].
        destruct (String.eqb (or_string _ (cat_marketId market)) "") eqn:E; [|reflexivity].
        apply String.eqb_eq in E. rewrite E. unfold or_string in E.
        destruct (match cat_event market with Some e => cat_eventId e | None => None end)
          as [x|]; [|exact E].
        destruct (String.eqb x "") eqn:Ex; [exact E|].
        apply String.eqb_neq in Ex. congruence.
Qed.

(** What the loop over the catalogue keeps true of the store. *)
Lemma track_markets_invariant Date_parse clock markets st :
  NoDup (map fst (tracked st)) ->
  totalMarketsTracked st = List.length (tracked st) ->
  (forall k g, In (k, g) (tracked st) -> fresh_game k g) ->
  let st' := fold_left (fun st market => track_market Date_parse clock market st) markets st in
  NoDup (map fst (tracked st'))
  /\ totalMarketsTracked st' = List.length (tracked st')
  /\ (forall k g, In (k, g) (tracked st') -> fresh_game k g)
  /\ (forall k g, Dict.get k (tracked st) = Some g -> Dict.get k (tracked st') = Some g)
  /\ (forall k, Dict.get k (tracked st') <> None <->
        Dict.get k (tracked st) <> None
        \/ exists market, In market markets /\ cat_marketId market = k
                          /\ trackable market = true).
Proof.
  revert st. induction markets as [|market markets IH]; intros st Hn Ht Hf; cbn [fold_left].
  - split; [exact Hn|]. split; [exact Ht|]. split; [exact Hf|]. split; [auto|].
    intros k. split; [now left|]. intros [H|[m [[] _]]]. exact H.
  - pose proof (track_market_step Date_parse clock market st) as Hstep. cbv zeta in Hstep.
    set (st1 := track_market Date_parse clock market st) in *.
    assert (H1 : NoDup (map fst (tracked st1))
                 /\ totalMarketsTracked st1 = List.length (tracked st1)
                 /\ (forall k g, In (k, g) (tracked st1) -> fresh_game k g)
                 /\ (forall k g, Dict.get k (tracked st) = Some g ->
                                 Dict.get k (tracked st1) = Some g)
                 /\ (forall k, Dict.get k (tracked st1) <> None <->
                       Dict.get k (tracked st) <> None
                       \/ (cat_marketId market = k /\ trackable market = true))).
    { destruct Hstep as [[E1 [E2 E3]]|[g [E1 [E2 [E3 [E4 [E5 E6]]]]]]].
      - rewrite E1, E2. split; [exact Hn|]. split; [exact Ht|]. split; [exact Hf|].
        split; [auto|]. intros k. split; [now left|].
        intros [H|[<- H]]; [exact H|].
        destruct E3 as [E3|E3]; [congruence | exact E3].
      - rewrite E1, E2. split; [|split; [|split; [|split]]].
        + rewrite map_app. apply NoDup_app; [exact Hn | repeat constructor; intros [] |].
          intros k Hin [<-|[]]. now apply get_keys in E4.
        + rewrite length_app, Ht. cbn. lia.
        + intros k g0 Hin. apply in_app_or in Hin.
          destruct Hin as [Hin|[[= <- <-]|[]]]; [now apply Hf | exact E5].
        + intros k g0 Hk. now apply get_app_Some.
        + intros k. destruct (Dict.get k (tracked st)) as [g0|] eqn:Hk.
          * rewrite (get_app_Some _ k (tracked st) _ g0 Hk). split; [now left | discriminate].
          * rewrite (get_app_None _ k (tracked st) _ Hk). unfold Dict.get. cbn.
            destruct (String.eqb (cat_marketId market) k) eqn:Ek.
            -- apply String.eqb_eq in Ek. cbn [option_map]. split; [now right | discriminate].
            -- apply String.eqb_neq in Ek. cbn [option_map]. split.
               ++ intros H. now contradiction H.
               ++ intros [H|[H _]]; [exact H | congruence]. }
    destruct H1 as [A1 [B1 [C1 [D1 F1]]]].
    destruct (IH st1 A1 B1 C1) as [A2 [B2 [C2 [D2 F2]]]]. cbv zeta in *.
    split; [exact A2|]. split; [exact B2|]. split; [exact C2|]. split; [auto|].
    intros k. split.
    + rewrite F2, F1. intros [[H|[Hid Hm]]|[m [Hin Hm]]]; [now left | |].
      * right. exists market. split; [now left | now split].
      * right. exists m. split; [now right | exact Hm].
    + rewrite F2, F1. intros [H|[m [[<-|Hin] [Hid Hm]]]]; [now left; left | |].
      * left. right. now split.
      * right. now exists m.
Qed.

(** X7.  From any catalogue [runBot] builds a store with one entry per market
    identifier: every entry is a fresh open game stored under its own
    market identifier, and the counter of tracked markets is the size of
    the store.  A market is tracked exactly when some catalogue entry for
    it has two runners at least (and its identifier is no inherited
    property name); the first such entry is the one the game is built
    from, later ones are ignored. *)
Theorem tracked_markets_wellformed Date_parse clock initialMarkets :
  let st := track_markets Date_parse clock initialMarkets in
  NoDup (map fst (tracked st))
  /\ totalMarketsTracked st = List.length (tracked st)
  /\ (forall k g, In (k, g) (tracked st) -> fresh_game k g)
  /\ (forall k, Dict.get k (tracked st) <> None <->
        exists market, In market initialMarkets /\ cat_marketId market = k
                       /\ trackable market = true)
  /\ (forall pre market post,
        initialMarkets = pre ++ market :: post ->
        trackable market = true ->
        (forall m, In m pre -> trackable m = true ->
                   cat_marketId m <> cat_marketId market) ->
        exists g, Dict.get (cat_marketId market) (tracked st) = Some g
                  /\ built_from market g).
Proof.
  intros st. subst st. unfold track_markets.
  set (st0 := {| tracked := []; totalMarketsTracked := 0; readings := 0 |}).
  destruct (track_markets_invariant Date_parse clock initialMarkets st0)
    as [A [B [C [_ F]]]]; [constructor | reflexivity | intros k g [] |].
  cbv zeta in *. split; [exact A|]. split; [exact B|]. split; [exact C|]. split.
  - intros k. rewrite F. split; [|now right].
    intros [H|H]; [now contradiction H | exact H].
  - intros pre market post -> Ht Hpre. rewrite fold_left_app. cbn [fold_left].
    destruct (track_markets_invariant Date_parse clock pre st0)
      as [A1 [B1 [C1 [_ F1]]]]; [constructor | reflexivity | intros k g [] |].
    cbv zeta in *.
    set (st1 := fold_left (fun st m => track_market Date_parse clock m st) pre st0) in *.
    assert (Hk : Dict.get (cat_marketId market) (tracked st1) = None).
    { destruct (Dict.get (cat_marketId market) (tracked st1)) eqn:E; [|reflexivity].
      exfalso. assert (H : Dict.get (cat_marketId market) (tracked st1) <> None) by congruence.
      apply F1 in H. destruct H as [H|[m [Hin [Hid Hm]]]]; [now apply H|].
      now apply (Hpre m Hin Hm). }
    destruct (track_market_step Date_parse clock market st1)
      as [[_ [_ [E|E]]]|[g [E1 [E2 [_ [_ [E5 E6]]]]]]]; [congruence | congruence |].
    cbv zeta in *.
    set (st2 := track_market Date_parse clock market st1) in *.
    assert (A2 : NoDup (map fst (tracked st2))
                 /\ totalMarketsTracked st2 = List.length (tracked st2)
                 /\ (forall k g, In (k, g) (tracked st2) -> fresh_game k g)).
    { destruct (track_markets_invariant Date_parse clock [market] st1 A1 B1 C1)
        as [X [Y [Z _]]]. split; [exact X|]. split; [exact Y | exact Z]. }
    destruct A2 as [A2 [B2 C2]].
    destruct (track_markets_invariant Date_parse clock post st2 A2 B2 C2)
      as [_ [_ [_ [D3 _]]]]. cbv zeta in D3.
    exists g. split; [|exact E6]. apply D3. rewrite E1, (get_app_None _ _ (tracked st1) _ Hk).
    unfold Dict.get. cbn. now rewrite String.eqb_refl.
Qed.

(** *** Test mode: the first-set strategy is idle (lines 549-581) *)

Lemma idle_refl s : strategy_idle s s.
Proof.
  split; [exists []; rewrite app_nil_r; split; [reflexivity | constructor]|].
  split; [reflexivity|]. split; [reflexivity|]. split; [reflexivity|].
  intros k g Hin. exists g. now repeat split.
Qed.

Lemma idle_then s s' s'' : strategy_idle s' s'' -> strategy_idle s s' -> strategy_idle s s''.
Proof.
  intros [[l2 [C2 F2]] [S2 [M2 [B2 G2]]]] [[l1 [C1 F1]] [S1 [M1 [B1 G1]]]].
  split; [|split; [congruence|split; [congruence|split; [congruence|]]]].
  - exists (l1 ++ l2). rewrite C2, C1, app_assoc. split; [reflexivity|].
    apply Forall_app. now split.
  - intros k g'' Hin. destruct (G2 _ _ Hin) as [g' [Hin' [X2 Y2]]].
    destruct (G1 _ _ Hin') as [g [Hin0 [X1 Y1]]]. exists g.
    split; [exact Hin0|]. split; congruence.
Qed.

Lemma idle_same s s' :
  gameHistoricalData s' = gameHistoricalData s ->
  placeBetCalls s' = placeBetCalls s ->
  totalSetsCompleted s' = totalSetsCompleted s ->
  totalConditionsMet s' = totalConditionsMet s ->
  totalBetsPlaced s' = totalBetsPlaced s ->
  strategy_idle s s'.
Proof.
  intros E1 E2 E3 E4 E5.
  split; [exists []; rewrite app_nil_r; split; [exact E2 | constructor]|].
  split; [exact E3|]. split; [exact E4|]. split; [exact E5|].
  rewrite E1. intros k g Hin. exists g. now repeat split.
Qed.

Lemma idle_modify_game k f s :
  (forall g, sets (f g) = sets g /\ hasFirstSetEnded (f g) = hasFirstSetEnded g) ->
  strategy_idle s (modify_game k f s).
Proof.
  intros Hf.
  split; [exists []; rewrite app_nil_r; split; [reflexivity | constructor]|].
  split; [reflexivity|]. split; [reflexivity|]. split; [reflexivity|]. proj.
  intros k' g' Hin. apply In_alter in Hin. destruct Hin as [g [Hin [->|[-> ->]]]];
    exists g; (split; [exact Hin|]); [now split | apply Hf].
Qed.

Lemma idle_delete_game k s :
  strategy_idle s (set_gameHistoricalData (Dict.delete k (gameHistoricalData s)) s).
Proof.
  split; [exists []; rewrite app_nil_r; split; [reflexivity | constructor]|].
  split; [reflexivity|]. split; [reflexivity|]. split; [reflexivity|]. proj.
  intros k' g' Hin. apply In_delete in Hin. exists g'. now repeat split.
Qed.

Lemma idle_test_call k sel price s :
  strategy_idle s
    (set_placeBetCalls
       (placeBetCalls s ++
          [{| call_market := k; call_selectionId := sel; call_price := price;
              call_isTestBet := true |}]) s).
Proof.
  split; [eexists; split; [reflexivity | now repeat constructor]|].
  split; [reflexivity|]. split; [reflexivity|]. split; [reflexivity|].
  intros k' g Hin. exists g. now repeat split.
Qed.

Lemma idle_set_orderIds v s : strategy_idle s (set_orderIds v s).
Proof. now apply idle_same. Qed.

Lemma idle_set_hasOpenBet v s : strategy_idle s (set_hasOpenBet v s).
Proof. now apply idle_same. Qed.

Lemma idle_set_testBetPlaced v s : strategy_idle s (set_testBetPlaced v s).
Proof. now apply idle_same. Qed.

Lemma idle_set_hasPlacedBet v s : strategy_idle s (set_hasPlacedBet v s).
Proof. now apply idle_same. Qed.

Lemma idle_set_simBalance v s : strategy_idle s (set_simBalance v s).
Proof. now apply idle_same. Qed.

Lemma idle_set_multiplier v s : strategy_idle s (set_multiplier v s).
Proof. now apply idle_same. Qed.

Lemma idle_set_ws v s : strategy_idle s (set_ws v s).
Proof. now apply idle_same. Qed.

Lemma idle_set_isSubscribed v s : strategy_idle s (set_isSubscribed v s).
Proof. now apply idle_same. Qed.

Lemma idle_set_isAuthenticated v s : strategy_idle s (set_isAuthenticated v s).
Proof. now apply idle_same. Qed.

Lemma idle_set_buffer v s : strategy_idle s (set_buffer v s).
Proof. now apply idle_same. Qed.

Lemma idle_set_sockets v s : strategy_idle s (set_sockets v s).
Proof. now apply idle_same. Qed.

Lemma idle_set_timers v s : strategy_idle s (set_timers v s).
Proof. now apply idle_same. Qed.

Lemma idle_set_written v s : strategy_idle s (set_written v s).
Proof. now apply idle_same. Qed.

Lemma idle_set_ndjson v s : strategy_idle s (set_ndjson v s).
Proof. now apply idle_same. Qed.

Lemma idle_set_pending v s : strategy_idle s (set_pending v s).
Proof. now apply idle_same. Qed.

Lemma idle_appendToNdjson e r s : strategy_idle s (appendToNdjson e r s).
Proof. now apply idle_same. Qed.

Create HintDb idle.

#[global] Hint Extern 1 (strategy_idle _ (set_orderIds _ _)) => apply idle_set_orderIds : idle.
#[global] Hint Extern 1 (strategy_idle _ (set_hasOpenBet _ _)) => apply idle_set_hasOpenBet : idle.
#[global] Hint Extern 1 (strategy_idle _ (set_testBetPlaced _ _)) => apply idle_set_testBetPlaced : idle.
#[global] Hint Extern 1 (strategy_idle _ (set_hasPlacedBet _ _)) => apply idle_set_hasPlacedBet : idle.
#[global] Hint Extern 1 (strategy_idle _ (set_simBalance _ _)) => apply idle_set_simBalance : idle.
#[global] Hint Extern 1 (strategy_idle _ (set_multiplier _ _)) => apply idle_set_multiplier : idle.
#[global] Hint Extern 1 (strategy_idle _ (set_ws _ _)) => apply idle_set_ws : idle.
#[global] Hint Extern 1 (strategy_idle _ (set_isSubscribed _ _)) => apply idle_set_isSubscribed : idle.
#[global] Hint Extern 1 (strategy_idle _ (set_isAuthenticated _ _)) => apply idle_set_isAuthenticated : idle.
#[global] Hint Extern 1 (strategy_idle _ (set_buffer _ _)) => apply idle_set_buffer : idle.
#[global] Hint Extern 1 (strategy_idle _ (set_sockets _ _)) => apply idle_set_sockets : idle.
#[global] Hint Extern 1 (strategy_idle _ (set_timers _ _)) => apply idle_set_timers : idle.
#[global] Hint Extern 1 (strategy_idle _ (set_written _ _)) => apply idle_set_written : idle.
#[global] Hint Extern 1 (strategy_idle _ (set_ndjson _ _)) => apply idle_set_ndjson : idle.
#[global] Hint Extern 1 (strategy_idle _ (set_pending _ _)) => apply idle_set_pending : idle.
#[global] Hint Extern 1 (strategy_idle _ (appendToNdjson _ _ _)) => apply idle_appendToNdjson : idle.

#[global] Hint Extern 1 (strategy_idle _ (modify_game _ _ _)) =>
  apply idle_modify_game; intros; split; reflexivity : idle.
#[global] Hint Extern 1 (strategy_idle _ (set_gameHistoricalData (Dict.delete _ _) _)) =>
  apply idle_delete_game : idle.
#[global] Hint Extern 1 (strategy_idle _ (set_placeBetCalls (placeBetCalls _ ++ [_]) _)) =>
  apply idle_test_call : idle.

Ltac idle_chain := chain idle_refl idle_then ltac:(auto with idle nocore).

Lemma idle_ws_write m s : strategy_idle s (ws_write m s).
Proof. unfold ws_write. idle_chain. Qed.

Lemma idle_subscription_loop fuel i ids s :
  strategy_idle s (subscription_loop fuel i ids s).
Proof.
  revert i s. induction fuel as [|fuel IH]; intros i s; cbn [subscription_loop];
    [apply idle_refl|].
  destruct (i <? List.length ids); [|apply idle_refl].
  eapply idle_then; [apply IH | apply idle_ws_write].
Qed.

#[global] Hint Extern 1 (strategy_idle _ (ws_write _ _)) => apply idle_ws_write : idle.
#[global] Hint Extern 1 (strategy_idle _ (subscription_loop _ _ _ _)) =>
  apply idle_subscription_loop : idle.

Lemma idle_subscribeToOpenMarkets s : strategy_idle s (subscribeToOpenMarkets s).
Proof. unfold subscribeToOpenMarkets. idle_chain. Qed.

(** A test bet. *)
Lemma idle_placeBet cfg k sel price s : strategy_idle s (placeBet cfg k sel price true s).
Proof. unfold placeBet. cbv beta iota zeta. idle_chain. Qed.

Lemma idle_placeBet_end t s : strategy_idle s (placeBet_end t s).
Proof. unfold placeBet_end. cbv zeta. idle_chain. Qed.

#[global] Hint Extern 1 (strategy_idle _ (subscribeToOpenMarkets _)) =>
  apply idle_subscribeToOpenMarkets : idle.
#[global] Hint Extern 1 (strategy_idle _ (placeBet _ _ _ _ true _)) => apply idle_placeBet : idle.
#[global] Hint Extern 1 (strategy_idle _ (placeBet_end _ _)) => apply idle_placeBet_end : idle.

Lemma idle_editBet cfg k b n p t s : strategy_idle s (editBet cfg k b n p t s).
Proof. unfold editBet. idle_chain. Qed.

#[global] Hint Extern 1 (strategy_idle _ (editBet _ _ _ _ _ _ _)) => apply idle_editBet : idle.

Lemma idle_placeBet_resume cfg e k sel price size t r s :
  strategy_idle s (placeBet_resume cfg e k sel price size t r s).
Proof. unfold placeBet_resume. cbv zeta. idle_chain. Qed.

Lemma idle_editBet_resume k b n p t r s :
  strategy_idle s (editBet_resume k b n p t r s).
Proof. unfold editBet_resume. cbv zeta. idle_chain. Qed.

Lemma idle_update_runner k runner s : strategy_idle s (update_runner k runner s).
Proof. unfold update_runner. idle_chain. Qed.

Lemma idle_fold A (f : A -> State -> State) (l : list A) s :
  (forall a s, strategy_idle s (f a s)) ->
  strategy_idle s (fold_left (fun s a => f a s) l s).
Proof.
  intros Hf. revert s. induction l as [|a l IH]; intros s; cbn [fold_left].
  - apply idle_refl.
  - eapply idle_then; [apply IH | apply Hf].
Qed.

Lemma idle_test_bet cfg k inplay s : strategy_idle s (test_bet cfg k inplay s).
Proof. unfold test_bet. cbv zeta. idle_chain. Qed.

Lemma idle_odds_phase cfg k rcs inplay s : strategy_idle s (odds_phase cfg k rcs inplay s).
Proof.
  unfold odds_phase. cbv zeta.
  assert (H : strategy_idle s (test_bet cfg k inplay
                (fold_left (fun s runner => update_runner k runner s) rcs s))).
  { eapply idle_then; [apply idle_test_bet|].
    apply idle_fold. intros. apply idle_update_runner. }
  revert H. generalize (test_bet cfg k inplay
                (fold_left (fun s runner => update_runner k runner s) rcs s)).
  intros s' H. idle_chain.
Qed.

#[global] Hint Extern 1 (strategy_idle _ (odds_phase _ _ _ _ _)) => apply idle_odds_phase : idle.

Lemma idle_settle cfg k game mc s : strategy_idle s (snd (settle cfg k game mc s)).
Proof.
  unfold settle.
  destruct (bet game) as [b|]; [|apply idle_refl].
  destruct (match marketDefinition mc with Some md => runners md | None => None end)
    as [rs|]; [|apply idle_refl].
  destruct (find _ rs) as [winner|]; [|apply idle_refl].
  destruct (enableSimulation cfg); destruct (Z.eqb _ _); cbn [snd]; now apply idle_same.
Qed.

Lemma idle_status_phase cfg k mc s : strategy_idle s (status_phase cfg k mc s).
Proof.
  unfold status_phase.
  destruct (is_closed mc); [|idle_chain]. cbv zeta.
  assert (H : strategy_idle s
                (modify_game k (fun g => set_status "ENDED" (set_isOpen false g)) s))
    by idle_chain.
  revert H. generalize (modify_game k (fun g => set_status "ENDED" (set_isOpen false g)) s).
  intros s0 H.
  destruct (Dict.get k (gameHistoricalData s0)) as [game|]; [|assumption].
  pose proof (idle_settle cfg k game mc s0) as Hs.
  destruct (settle cfg k game mc s0) as [[outcome pnl] s1]. cbn [snd] in Hs.
  assert (H1 : strategy_idle s s1) by (eapply idle_then; eassumption).
  clear Hs H. idle_chain.
Qed.

Lemma idle_price_phase cfg mc s : strategy_idle s (price_phase cfg mc s).
Proof. unfold price_phase. idle_chain. Qed.

Lemma idle_market_change cfg mc s :
  testBetEnabled cfg = true -> strategy_idle s (market_change cfg mc s).
Proof.
  intros Ht. unfold market_change. cbv zeta.
  destruct (Dict.get (mc_id mc) (gameHistoricalData s)) as [game|]; [|apply idle_refl].
  destruct (negb (isOpen game)); [apply idle_refl|].
  unfold excluded. rewrite Ht. cbn [negb andb].
  rewrite score_phase_test_mode by exact Ht.
  eapply idle_then; [apply idle_status_phase | apply idle_price_phase].
Qed.

Lemma idle_order_reports k game orders s :
  strategy_idle s (state_of (order_reports k game orders s)).
Proof.
  revert s. induction orders as [|order rest IH]; intros s; cbn [order_reports];
    [apply idle_refl|].
  destruct (or_profit order) as [profit|]; [|apply IH].
  destruct (_ && _); [|apply IH].
  destruct (bet game) as [b|]; [|apply idle_refl].
  eapply idle_then; [apply IH|]. idle_chain.
Qed.

Lemma idle_order_change cfg oc s : strategy_idle s (state_of (order_change cfg oc s)).
Proof.
  unfold order_change.
  destruct (Dict.get _ _) as [game|]; [|apply idle_refl].
  destruct (_ && _); [|apply idle_refl].
  destruct (oc_or oc); [apply idle_order_reports | apply idle_refl].
Qed.

Lemma idle_order_changes cfg ocs s : strategy_idle s (state_of (order_changes cfg ocs s)).
Proof.
  revert s. induction ocs as [|oc rest IH]; intros s; cbn [order_changes];
    [apply idle_refl|].
  pose proof (idle_order_change cfg oc s) as H.
  destruct (order_change cfg oc s) as [s'|s']; cbn [state_of] in *.
  - eapply idle_then; [apply IH | exact H].
  - exact H.
Qed.

Lemma idle_handleStreamMessage cfg m s :
  testBetEnabled cfg = true -> strategy_idle s (state_of (handleStreamMessage cfg m s)).
Proof.
  intros Ht. unfold handleStreamMessage.
  destruct (_ && _).
  - cbn [state_of]. idle_chain.
  - destruct (String.eqb (op m) "mcm").
    + destruct (mc m); cbn [state_of]; [|apply idle_refl].
      apply idle_fold. intros. now apply idle_market_change.
    + destruct (String.eqb (op m) "ocm"); [|apply idle_refl].
      destruct (oc m); [apply idle_order_changes | apply idle_refl].
Qed.

Lemma idle_drain cfg parse fuel s :
  testBetEnabled cfg = true -> strategy_idle s (snd (drain cfg parse fuel s)).
Proof.
  intros Ht. revert s. induction fuel as [|fuel IH]; intros s; cbn [drain]; [apply idle_refl|].
  destruct (Js.indexOf_crlf (buffer s)) as [index|]; [|apply idle_refl].
  match goal with |- context [drain cfg parse fuel ?t] =>
    pose proof (IH t) as H; destruct (drain cfg parse fuel t) as [frames s'] end.
  cbn [snd] in *. eapply idle_then; [exact H|].
  eapply idle_then; [|apply idle_set_buffer].
  unfold dispatch. destruct (parse _); [now apply idle_handleStreamMessage | apply idle_refl].
Qed.

Lemma idle_connectStreamAPI s : strategy_idle s (connectStreamAPI s).
Proof. unfold connectStreamAPI. idle_chain. Qed.

#[global] Hint Extern 1 (strategy_idle _ (connectStreamAPI _)) => apply idle_connectStreamAPI : idle.

Lemma idle_step cfg parse e s :
  testBetEnabled cfg = true -> strategy_idle s (step cfg parse e s).
Proof.
  intros Ht. destruct e; cbn [step].
  - apply idle_ws_write.
  - unfold on_data. eapply idle_then; [now apply idle_drain | apply idle_set_buffer].
  - unfold on_error, schedule_reconnect. idle_chain.
  - unfold on_close, schedule_reconnect. idle_chain.
  - destruct (timers s); idle_chain.
  - unfold gateway_reply.
    destruct (take_task task (pending s)) as [[t rest]|]; [|apply idle_refl].
    eapply idle_then; [|apply idle_set_pending].
    destruct t; cbn [resume]; [apply idle_placeBet_resume | apply idle_editBet_resume].
Qed.

Lemma reaches_idle cfg s s' :
  testBetEnabled cfg = true -> reaches cfg s s' -> strategy_idle s s'.
Proof.
  intros Ht. induction 1 as [|parse e s' _ IH|m s' _ IH].
  - apply idle_refl.
  - eapply idle_then; [now apply idle_step | exact IH].
  - eapply idle_then; [now apply idle_handleStreamMessage | exact IH].
Qed.

(** *** The status report (lines 731-806) *)

Lemma sort_insert_In compare x sorted g :
  In g (sort_insert compare x sorted) <-> g = x \/ In g sorted.
Proof.
  induction sorted as [|y rest IH]; cbn [sort_insert].
  - cbn. intuition.
  - destruct (Js.lt _ _); cbn [In]; [intuition | rewrite IH; intuition].
Qed.

Lemma sort_insert_length compare x sorted :
  List.length (sort_insert compare x sorted) = S (List.length sorted).
Proof.
  induction sorted as [|y rest IH]; cbn [sort_insert]; [reflexivity|].
  destruct (Js.lt _ _); cbn [List.length]; [reflexivity | now rewrite IH].
Qed.

Lemma sort_spec compare l :
  List.length (sort compare l) = List.length l
  /\ forall g, In g (sort compare l) <-> In g l.
Proof.
  unfold sort.
  assert (H : forall acc,
            List.length (fold_left (fun sorted x => sort_insert compare x sorted) l acc)
              = List.length l + List.length acc
            /\ forall g, In g (fold_left (fun sorted x => sort_insert compare x sorted) l acc)
                         <-> In g l \/ In g acc).
  { induction l as [|x l IH]; intros acc; cbn [fold_left].
    - split; [reflexivity | intros g; cbn; intuition].
    - destruct (IH (sort_insert compare x acc)) as [A B]. split.
      + rewrite A, sort_insert_length. cbn. lia.
      + intros g. rewrite B, sort_insert_In. cbn. intuition. }
  destruct (H []) as [A B]. split; [rewrite A; cbn; lia|].
  intros g. rewrite B. cbn. intuition.
Qed.

Lemma In_firstn A n (l : list A) x : In x (firstn n l) -> In x l.
Proof. intros H. rewrite <- (firstn_skipn n l). apply in_or_app. now left. Qed.

Lemma filter_nil A (p : A -> bool) (l : list A) :
  (forall x, In x l -> p x = false) -> filter p l = [].
Proof.
  induction l as [|a l IH]; intros H; [reflexivity|]. cbn.
  rewrite (H a) by now left. apply IH. intros x Hx. apply H. now right.
Qed.

Lemma count_statuses (games : list Game) :
  Forall (fun g => status g = "UPCOMING"%string \/ status g = "IN_PLAY"%string) games ->
  List.length (filter (fun g => String.eqb (status g) "ENDED") games) = 0
  /\ List.length (filter (fun g => String.eqb (status g) "UPCOMING") games)
     + List.length (filter (fun g => String.eqb (status g) "IN_PLAY") games)
     = List.length games.
Proof.
  induction 1 as [|g games Hg _ [IH1 IH2]]; [now split|]. cbn [filter].
  destruct Hg as [E|E]; rewrite E; cbn [String.eqb Ascii.eqb Bool.eqb andb List.length];
    split; (assumption || lia).
Qed.

(** X21.  The report never counts an ended market: when every market starts as
    UPCOMING or IN_PLAY, as [runBot] creates them, then in every state
    reached the count of ENDED markets is 0 (a closing market is deleted
    in the handler that marks it ENDED), upcoming and in-play markets add
    up to the size of the store, which never grows, and the markets
    listed as close to the end of their first set are at most three, each
    a tracked market that passes the filter. *)
Theorem report_counts cfg store s :
  (forall k g, In (k, g) store ->
     status g = "UPCOMING"%string \/ status g = "IN_PLAY"%string) ->
  reaches cfg (started store) s ->
  endedMarkets (report s) = 0
  /\ upcomingMarkets (report s) + inPlayMarkets (report s) = total (report s)
  /\ total (report s) <= List.length store
  /\ List.length (top3 (report s)) = Nat.min 3 (List.length (closeMarkets (report s)))
  /\ (forall g, In g (top3 (report s)) ->
        close_to_ending g = true /\ exists k, In (k, g) (gameHistoricalData s)).
Proof.
  intros Hst R. apply (reaches_advances cfg) in R. destruct R as [Hs [_ [keep Hk]]].
  cbn [started gameHistoricalData connectStreamAPI globals] in Hs, Hk.
  change (gameHistoricalData (started store)) with store in Hs, Hk.
  assert (Hall : Forall (fun g => status g = "UPCOMING"%string \/ status g = "IN_PLAY"%string)
                   (Dict.values (gameHistoricalData s))).
  { apply Forall_forall. intros g Hin. unfold Dict.values in Hin. apply in_map_iff in Hin.
    destruct Hin as [[k g'] [<- Hin]]. cbn [snd].
    destruct (Hs _ _ Hin) as [g0 [Hin0 Hadv]].
    destruct Hadv as [_ [_ [_ [_ [_ [_ [_ [_ [_ [E|E]]]]]]]]]]; [|exact E].
    rewrite E. exact (Hst _ _ Hin0). }
  destruct (count_statuses _ Hall) as [C1 C2].
  unfold report, with_status.
  cbn [endedMarkets upcomingMarkets inPlayMarkets total top3 closeMarkets].
  split; [exact C1|]. split; [rewrite C2; unfold Dict.values; apply length_map|].
  split.
  { rewrite <- (length_map fst (gameHistoricalData s)), Hk, <- (length_map fst store).
    apply filter_length_le. }
  destruct (sort_spec by_closeness
              (filter close_to_ending (Dict.values (gameHistoricalData s)))) as [L I].
  split; [now rewrite length_firstn, L|].
  intros g Hin. apply In_firstn in Hin. apply I in Hin. apply filter_In in Hin.
  destruct Hin as [Hin Hc]. split; [exact Hc|].
  unfold Dict.values in Hin. apply in_map_iff in Hin. destruct Hin as [[k g'] [<- Hin]].
  now exists k.
Qed.

(** Market 1.1 closes, market 1.2 goes in play: the report counts one
    upcoming and one in-play market, and none as ended. *)
Lemma report_counts_witness :
  let s := deliver bot_config
             [Scenario.mcm [Scenario.closed_delta "1.1" (Some 11%Z);
                            Scenario.price_delta "1.2" 21 (Js.Number (Js.of_Z 5))]]
             (started Scenario.three_markets) in
  endedMarkets (report s) = 0
  /\ upcomingMarkets (report s) = 1
  /\ inPlayMarkets (report s) = 1
  /\ total (report s) = 2.
Proof.
  intros s.
  assert (Hst : forall k g, In (k, g) Scenario.three_markets ->
                  status g = "UPCOMING"%string \/ status g = "IN_PLAY"%string).
  { intros k g [H|[H|[H|[]]]]; inversion H; now left. }
  destruct (report_counts bot_config Scenario.three_markets s Hst (reaches_deliver _ _ _))
    as [A _].
  split; [exact A|]. vm_compute. repeat split.
Defined.

(** X13.  With test betting enabled, as the script has it, the first-set
    strategy never runs: in every state reached every call of [placeBet]
    made is a test bet, the three counters of the strategy are 0, and no
    game has its sets or its first-set mark changed; so, the games being
    created without sets, the report never lists a market as close to the
    end of its first set. *)
Theorem strategy_idle_in_test_mode cfg store s :
  testBetEnabled cfg = true ->
  reaches cfg (started store) s ->
  Forall (fun c => call_isTestBet c = true) (placeBetCalls s)
  /\ totalSetsCompleted s = 0
  /\ totalConditionsMet s = 0
  /\ totalBetsPlaced s = 0
  /\ (forall k g, In (k, g) (gameHistoricalData s) ->
        exists g0, In (k, g0) store /\ sets g = sets g0
                   /\ hasFirstSetEnded g = hasFirstSetEnded g0)
  /\ ((forall k g, In (k, g) store -> sets g = []) ->
      closeMarkets (report s) = [] /\ top3 (report s) = []).
Proof.
  intros Ht R. destruct (reaches_idle cfg _ _ Ht R) as [[l [C F]] [S0 [M0 [B0 G0]]]].
  change (gameHistoricalData (started store)) with store in G0.
  split; [rewrite C; exact F|]. split; [exact S0|]. split; [exact M0|]. split; [exact B0|].
  split; [exact G0|]. intros Hsets.
  assert (E : filter close_to_ending (Dict.values (gameHistoricalData s)) = []).
  { apply filter_nil. intros g Hin.
    unfold Dict.values in Hin. apply in_map_iff in Hin. destruct Hin as [[k g'] [<- Hin]].
    destruct (G0 _ _ Hin) as [g0 [Hin0 [Es _]]]. cbn [snd].
    unfold close_to_ending. rewrite Es, (Hsets _ _ Hin0). cbn. now rewrite !andb_false_r. }
  unfold report. cbn [closeMarkets top3]. rewrite E. now split.
Qed.

(** With the switches of the script a first set reported as ended 6-4
    places no bet and counts nothing. *)
Lemma strategy_idle_in_test_mode_witness :
  let s := deliver bot_config
             [Scenario.mcm [Scenario.first_set_delta "1.1" 6 4 12 (Js.of_Z 3)]]
             (started Scenario.one_market) in
  placeBetCalls s = [] /\ totalSetsCompleted s = 0 /\ closeMarkets (report s) = [].
Proof.
  intros s.
  destruct (strategy_idle_in_test_mode bot_config Scenario.one_market s eq_refl
              (reaches_deliver _ _ _)) as [_ [A [_ [_ [_ B]]]]].
  split; [vm_compute; reflexivity|]. split; [exact A|]. apply B.
  intros k g [H|[]]. now inversion H.
Defined.

(** *** Every bet is placed at a price the triggers accept *)

Lemma two_repr : Js.of_Z 2 = S754_finite false 4503599627370496 (-51).
Proof. reflexivity. Qed.

(** A number that is at least 2 is above 1. *)
Lemma ge_two_above_one x : Js.ge x (Js.of_Z 2) = true -> above_one x.
Proof.
  unfold above_one, Js.ge, Js.gt, SFleb, SFltb. rewrite two_repr, one_repr.
  destruct x as [s|s| |s m e]; cbn [SFcompare]; try discriminate.
  - destruct s; [discriminate | reflexivity].
  - destruct s; [discriminate|].
    destruct (Z.compare (-51) e) eqn:E; try discriminate; intros _.
    + apply Z.compare_eq in E. subst e. reflexivity.
    + rewrite Z.compare_lt_iff in E.
      replace (Z.compare (-52) e) with Lt; [reflexivity|].
      symmetry. apply Z.compare_lt_iff. lia.
Qed.

Lemma sound_refl s : keeps_bets_sound s s.
Proof. intros H. exact H. Qed.

Lemma sound_then s s' s'' :
  keeps_bets_sound s' s'' -> keeps_bets_sound s s' -> keeps_bets_sound s s''.
Proof. unfold keeps_bets_sound. auto. Qed.

Lemma sound_same s s' :
  gameHistoricalData s' = gameHistoricalData s ->
  placeBetCalls s' = placeBetCalls s ->
  keeps_bets_sound s s'.
Proof. intros E1 E2 [V F]. split; [now rewrite E1 | now rewrite E2]. Qed.

(** A handler that calls nothing keeps the bets sound, since every handler
    keeps the stored odds valid. *)
Lemma sound_quiet s s' :
  evolves s s' -> placeBetCalls s' = placeBetCalls s -> keeps_bets_sound s s'.
Proof.
  intros [Hs _] E [V F]. split; [eapply store_step_valid; eassumption | now rewrite E].
Qed.

Lemma sound_modify_game k f s : keeps_bets_sound s (modify_game k f s) <->
  (bets_sound s -> store_odds_valid (Dict.alter k f (gameHistoricalData s))).
Proof.
  split.
  - intros H Hs. exact (proj1 (H Hs)).
  - intros H Hs. split; [exact (H Hs) | exact (proj2 Hs)].
Qed.

Lemma sound_modify_same_odds k f s :
  (forall g, currentOdds (f g) = currentOdds g) -> keeps_bets_sound s (modify_game k f s).
Proof.
  intros Hf. apply sound_quiet; [|reflexivity].
  apply evolves_modify_game. intros g. apply game_step_same_odds. apply Hf.
Qed.

Lemma sound_delete_game k s :
  keeps_bets_sound s (set_gameHistoricalData (Dict.delete k (gameHistoricalData s)) s).
Proof. apply sound_quiet; [apply evolves_delete_game | reflexivity]. Qed.

(** A call of [placeBet] at a sound price. *)
Lemma sound_placeBet cfg k sel price t s :
  (bets_sound s ->
   sound_call {| call_market := k; call_selectionId := sel; call_price := price;
                 call_isTestBet := t |}) ->
  keeps_bets_sound s (placeBet cfg k sel price t s).
Proof.
  intros Hc Hs. specialize (Hc Hs). destruct Hs as [V F]. split.
  - eapply store_step_valid; [|exact V]. apply (evolves_placeBet cfg).
  - rewrite placeBet_calls. apply Forall_app. split; [exact F | now constructor].
Qed.

Lemma sound_placeBet_A cfg k game odds s :
  Dict.get k (gameHistoricalData s) = Some game ->
  pA (currentOdds game) = Some odds ->
  near_testBetOdds odds = true ->
  keeps_bets_sound s (placeBet cfg k (selectionIdA game) odds true s).
Proof.
  intros Hg Ho Hn. apply sound_placeBet. intros [V _]. split; [|exact Hn].
  apply get_In in Hg. destruct (V _ _ Hg) as [VA _]. cbn [call_price].
  rewrite Ho in VA. exact VA.
Qed.

Lemma sound_placeBet_B cfg k game odds s :
  Dict.get k (gameHistoricalData s) = Some game ->
  pB (currentOdds game) = Some odds ->
  near_testBetOdds odds = true ->
  keeps_bets_sound s (placeBet cfg k (selectionIdB game) odds true s).
Proof.
  intros Hg Ho Hn. apply sound_placeBet. intros [V _]. split; [|exact Hn].
  apply get_In in Hg. destruct (V _ _ Hg) as [_ VB]. cbn [call_price].
  rewrite Ho in VB. exact VB.
Qed.

Lemma sound_placeBet_staking cfg k sel odds x s :
  x && Js.ge odds (Js.of_Z 2) = true ->
  keeps_bets_sound s (placeBet cfg k sel odds false s).
Proof.
  intros H. apply andb_prop in H. destruct H as [_ H].
  apply sound_placeBet. intros _. split; [now apply ge_two_above_one | exact H].
Qed.

Lemma sound_set_orderIds v s : keeps_bets_sound s (set_orderIds v s).
Proof. now apply sound_same. Qed.

Lemma sound_set_hasOpenBet v s : keeps_bets_sound s (set_hasOpenBet v s).
Proof. now apply sound_same. Qed.

Lemma sound_set_testBetPlaced v s : keeps_bets_sound s (set_testBetPlaced v s).
Proof. now apply sound_same. Qed.

Lemma sound_set_hasPlacedBet v s : keeps_bets_sound s (set_hasPlacedBet v s).
Proof. now apply sound_same. Qed.

Lemma sound_set_simBalance v s : keeps_bets_sound s (set_simBalance v s).
Proof. now apply sound_same. Qed.

Lemma sound_set_multiplier v s : keeps_bets_sound s (set_multiplier v s).
Proof. now apply sound_same. Qed.

Lemma sound_set_ws v s : keeps_bets_sound s (set_ws v s).
Proof. now apply sound_same. Qed.

Lemma sound_set_isSubscribed v s : keeps_bets_sound s (set_isSubscribed v s).
Proof. now apply sound_same. Qed.

Lemma sound_set_isAuthenticated v s : keeps_bets_sound s (set_isAuthenticated v s).
Proof. now apply sound_same. Qed.

Lemma sound_set_buffer v s : keeps_bets_sound s (set_buffer v s).
Proof. now apply sound_same. Qed.

Lemma sound_set_totalSetsCompleted v s : keeps_bets_sound s (set_totalSetsCompleted v s).
Proof. now apply sound_same. Qed.

Lemma sound_set_totalConditionsMet v s : keeps_bets_sound s (set_totalConditionsMet v s).
Proof. now apply sound_same. Qed.

Lemma sound_set_totalBetsPlaced v s : keeps_bets_sound s (set_totalBetsPlaced v s).
Proof. now apply sound_same. Qed.

Lemma sound_set_sockets v s : keeps_bets_sound s (set_sockets v s).
Proof. now apply sound_same. Qed.

Lemma sound_set_timers v s : keeps_bets_sound s (set_timers v s).
Proof. now apply sound_same. Qed.

Lemma sound_set_written v s : keeps_bets_sound s (set_written v s).
Proof. now apply sound_same. Qed.

Lemma sound_set_ndjson v s : keeps_bets_sound s (set_ndjson v s).
Proof. now apply sound_same. Qed.

Lemma sound_set_pending v s : keeps_bets_sound s (set_pending v s).
Proof. now apply sound_same. Qed.

Lemma sound_incr_totalSetsCompleted s : keeps_bets_sound s (incr_totalSetsCompleted s).
Proof. now apply sound_same. Qed.

Lemma sound_incr_totalConditionsMet s : keeps_bets_sound s (incr_totalConditionsMet s).
Proof. now apply sound_same. Qed.

Lemma sound_incr_totalBetsPlaced s : keeps_bets_sound s (incr_totalBetsPlaced s).
Proof. now apply sound_same. Qed.

Lemma sound_appendToNdjson e r s : keeps_bets_sound s (appendToNdjson e r s).
Proof. now apply sound_same. Qed.

Create HintDb sound.

#[global] Hint Extern 1 (keeps_bets_sound _ (set_orderIds _ _)) => apply sound_set_orderIds : sound.
#[global] Hint Extern 1 (keeps_bets_sound _ (set_hasOpenBet _ _)) => apply sound_set_hasOpenBet : sound.
#[global] Hint Extern 1 (keeps_bets_sound _ (set_testBetPlaced _ _)) => apply sound_set_testBetPlaced : sound.
#[global] Hint Extern 1 (keeps_bets_sound _ (set_hasPlacedBet _ _)) => apply sound_set_hasPlacedBet : sound.
#[global] Hint Extern 1 (keeps_bets_sound _ (set_simBalance _ _)) => apply sound_set_simBalance : sound.
#[global] Hint Extern 1 (keeps_bets_sound _ (set_multiplier _ _)) => apply sound_set_multiplier : sound.
#[global] Hint Extern 1 (keeps_bets_sound _ (set_ws _ _)) => apply sound_set_ws : sound.
#[global] Hint Extern 1 (keeps_bets_sound _ (set_isSubscribed _ _)) => apply sound_set_isSubscribed : sound.
#[global] Hint Extern 1 (keeps_bets_sound _ (set_isAuthenticated _ _)) => apply sound_set_isAuthenticated : sound.
#[global] Hint Extern 1 (keeps_bets_sound _ (set_buffer _ _)) => apply sound_set_buffer : sound.
#[global] Hint Extern 1 (keeps_bets_sound _ (set_totalSetsCompleted _ _)) => apply sound_set_totalSetsCompleted : sound.
#[global] Hint Extern 1 (keeps_bets_sound _ (set_totalConditionsMet _ _)) => apply sound_set_totalConditionsMet : sound.
#[global] Hint Extern 1 (keeps_bets_sound _ (set_totalBetsPlaced _ _)) => apply sound_set_totalBetsPlaced : sound.
#[global] Hint Extern 1 (keeps_bets_sound _ (set_sockets _ _)) => apply sound_set_sockets : sound.
#[global] Hint Extern 1 (keeps_bets_sound _ (set_timers _ _)) => apply sound_set_timers : sound.
#[global] Hint Extern 1 (keeps_bets_sound _ (set_written _ _)) => apply sound_set_written : sound.
#[global] Hint Extern 1 (keeps_bets_sound _ (set_ndjson _ _)) => apply sound_set_ndjson : sound.
#[global] Hint Extern 1 (keeps_bets_sound _ (set_pending _ _)) => apply sound_set_pending : sound.
#[global] Hint Extern 1 (keeps_bets_sound _ (incr_totalSetsCompleted _)) => apply sound_incr_totalSetsCompleted : sound.
#[global] Hint Extern 1 (keeps_bets_sound _ (incr_totalConditionsMet _)) => apply sound_incr_totalConditionsMet : sound.
#[global] Hint Extern 1 (keeps_bets_sound _ (incr_totalBetsPlaced _)) => apply sound_incr_totalBetsPlaced : sound.
#[global] Hint Extern 1 (keeps_bets_sound _ (appendToNdjson _ _ _)) => apply sound_appendToNdjson : sound.

#[global] Hint Extern 1 (keeps_bets_sound _ (modify_game _ _ _)) =>
  apply sound_modify_same_odds; reflexivity : sound.
#[global] Hint Extern 1 (keeps_bets_sound _ (set_gameHistoricalData (Dict.delete _ _) _)) =>
  apply sound_delete_game : sound.
#[global] Hint Extern 1 (keeps_bets_sound _ (placeBet _ _ (selectionIdA _) _ true _)) =>
  eapply sound_placeBet_A; eassumption : sound.
#[global] Hint Extern 1 (keeps_bets_sound _ (placeBet _ _ (selectionIdB _) _ true _)) =>
  eapply sound_placeBet_B; eassumption : sound.
#[global] Hint Extern 1 (keeps_bets_sound _ (placeBet _ _ _ _ false _)) =>
  eapply sound_placeBet_staking; eassumption : sound.

Ltac sound_chain := chain sound_refl sound_then ltac:(auto with sound nocore).

Lemma sound_ws_write m s : keeps_bets_sound s (ws_write m s).
Proof. unfold ws_write. sound_chain. Qed.

Lemma sound_subscription_loop fuel i ids s :
  keeps_bets_sound s (subscription_loop fuel i ids s).
Proof.
  revert i s. induction fuel as [|fuel IH]; intros i s; cbn [subscription_loop];
    [apply sound_refl|].
  destruct (i <? List.length ids); [|apply sound_refl].
  eapply sound_then; [apply IH | apply sound_ws_write].
Qed.

#[global] Hint Extern 1 (keeps_bets_sound _ (ws_write _ _)) => apply sound_ws_write : sound.
#[global] Hint Extern 1 (keeps_bets_sound _ (subscription_loop _ _ _ _)) =>
  apply sound_subscription_loop : sound.

Lemma sound_subscribeToOpenMarkets s : keeps_bets_sound s (subscribeToOpenMarkets s).
Proof. unfold subscribeToOpenMarkets. sound_chain. Qed.

Lemma sound_placeBet_end t s : keeps_bets_sound s (placeBet_end t s).
Proof. unfold placeBet_end. cbv zeta. sound_chain. Qed.

#[global] Hint Extern 1 (keeps_bets_sound _ (subscribeToOpenMarkets _)) =>
  apply sound_subscribeToOpenMarkets : sound.
#[global] Hint Extern 1 (keeps_bets_sound _ (placeBet_end _ _)) => apply sound_placeBet_end : sound.

Lemma sound_editBet cfg k b n p t s : keeps_bets_sound s (editBet cfg k b n p t s).
Proof. unfold editBet. sound_chain. Qed.

#[global] Hint Extern 1 (keeps_bets_sound _ (editBet _ _ _ _ _ _ _)) => apply sound_editBet : sound.

Lemma sound_placeBet_resume cfg e k sel price size t r s :
  keeps_bets_sound s (placeBet_resume cfg e k sel price size t r s).
Proof. unfold placeBet_resume. cbv zeta. sound_chain. Qed.

Lemma sound_editBet_resume k b n p t r s :
  keeps_bets_sound s (editBet_resume k b n p t r s).
Proof. unfold editBet_resume. cbv zeta. sound_chain. Qed.

Lemma sound_update_runner k runner s : keeps_bets_sound s (update_runner k runner s).
Proof.
  apply sound_quiet; [apply evolves_update_runner | apply update_runner_quiet].
Qed.

Lemma sound_fold A (f : A -> State -> State) (l : list A) s :
  (forall a s, keeps_bets_sound s (f a s)) ->
  keeps_bets_sound s (fold_left (fun s a => f a s) l s).
Proof.
  intros Hf. revert s. induction l as [|a l IH]; intros s; cbn [fold_left].
  - apply sound_refl.
  - eapply sound_then; [apply IH | apply Hf].
Qed.

Lemma sound_test_bet cfg k inplay s : keeps_bets_sound s (test_bet cfg k inplay s).
Proof. unfold test_bet. cbv zeta. sound_chain. Qed.

Lemma sound_odds_phase cfg k rcs inplay s : keeps_bets_sound s (odds_phase cfg k rcs inplay s).
Proof.
  unfold odds_phase. cbv zeta.
  assert (H : keeps_bets_sound s (test_bet cfg k inplay
                (fold_left (fun s runner => update_runner k runner s) rcs s))).
  { eapply sound_then; [apply sound_test_bet|].
    apply sound_fold. intros. apply sound_update_runner. }
  revert H. generalize (test_bet cfg k inplay
                (fold_left (fun s runner => update_runner k runner s) rcs s)).
  intros s' H. sound_chain.
Qed.

Lemma sound_score_phase cfg k mc s : keeps_bets_sound s (score_phase cfg k mc s).
Proof. unfold score_phase. sound_chain. Qed.

#[global] Hint Extern 1 (keeps_bets_sound _ (odds_phase _ _ _ _ _)) => apply sound_odds_phase : sound.
#[global] Hint Extern 1 (keeps_bets_sound _ (score_phase _ _ _ _)) => apply sound_score_phase : sound.

Lemma sound_status_phase cfg k mc s : keeps_bets_sound s (status_phase cfg k mc s).
Proof. apply sound_quiet; [apply evolves_status_phase | apply status_phase_calls]. Qed.

#[global] Hint Extern 1 (keeps_bets_sound _ (status_phase _ _ _ _)) => apply sound_status_phase : sound.

Lemma sound_price_phase cfg mc s : keeps_bets_sound s (price_phase cfg mc s).
Proof. unfold price_phase. sound_chain. Qed.

#[global] Hint Extern 1 (keeps_bets_sound _ (price_phase _ _ _)) => apply sound_price_phase : sound.

Lemma sound_market_change cfg mc s : keeps_bets_sound s (market_change cfg mc s).
Proof. unfold market_change. sound_chain. Qed.

Lemma order_reports_calls k game orders s :
  placeBetCalls (state_of (order_reports k game orders s)) = placeBetCalls s.
Proof.
  revert s. induction orders as [|order rest IH]; intros s; cbn [order_reports];
    [reflexivity|].
  destruct (or_profit order) as [profit|]; [|apply IH].
  destruct (_ && _); [|apply IH].
  destruct (bet game) as [b|]; [|reflexivity].
  rewrite IH. reflexivity.
Qed.

Lemma sound_order_change cfg oc s : keeps_bets_sound s (state_of (order_change cfg oc s)).
Proof.
  apply sound_quiet; [apply evolves_order_change|].
  unfold order_change.
  destruct (Dict.get _ _) as [game|]; [|reflexivity].
  destruct (_ && _); [|reflexivity].
  destruct (oc_or oc); [apply order_reports_calls | reflexivity].
Qed.

Lemma sound_order_changes cfg ocs s : keeps_bets_sound s (state_of (order_changes cfg ocs s)).
Proof.
  revert s. induction ocs as [|oc rest IH]; intros s; cbn [order_changes];
    [apply sound_refl|].
  pose proof (sound_order_change cfg oc s) as H.
  destruct (order_change cfg oc s) as [s'|s']; cbn [state_of] in *.
  - eapply sound_then; [apply IH | exact H].
  - exact H.
Qed.

Lemma sound_handleStreamMessage cfg m s :
  keeps_bets_sound s (state_of (handleStreamMessage cfg m s)).
Proof.
  unfold handleStreamMessage.
  destruct (_ && _).
  - cbn [state_of]. sound_chain.
  - destruct (String.eqb (op m) "mcm").
    + destruct (mc m); cbn [state_of]; [|apply sound_refl].
      apply sound_fold. intros. apply sound_market_change.
    + destruct (String.eqb (op m) "ocm"); [|apply sound_refl].
      destruct (oc m); [apply sound_order_changes | apply sound_refl].
Qed.

Lemma sound_drain cfg parse fuel s : keeps_bets_sound s (snd (drain cfg parse fuel s)).
Proof.
  revert s. induction fuel as [|fuel IH]; intros s; cbn [drain]; [apply sound_refl|].
  destruct (Js.indexOf_crlf (buffer s)) as [index|]; [|apply sound_refl].
  match goal with |- context [drain cfg parse fuel ?t] =>
    pose proof (IH t) as H; destruct (drain cfg parse fuel t) as [frames s'] end.
  cbn [snd] in *. eapply sound_then; [exact H|].
  eapply sound_then; [|apply sound_set_buffer].
  unfold dispatch. destruct (parse _); [apply sound_handleStreamMessage | apply sound_refl].
Qed.

Lemma sound_connectStreamAPI s : keeps_bets_sound s (connectStreamAPI s).
Proof. unfold connectStreamAPI. sound_chain. Qed.

#[global] Hint Extern 1 (keeps_bets_sound _ (connectStreamAPI _)) => apply sound_connectStreamAPI : sound.

Lemma sound_step cfg parse e s : keeps_bets_sound s (step cfg parse e s).
Proof.
  destruct e; cbn [step].
  - apply sound_ws_write.
  - unfold on_data. eapply sound_then; [apply sound_drain | apply sound_set_buffer].
  - unfold on_error, schedule_reconnect. sound_chain.
  - unfold on_close, schedule_reconnect. sound_chain.
  - destruct (timers s); sound_chain.
  - unfold gateway_reply.
    destruct (take_task task (pending s)) as [[t rest]|]; [|apply sound_refl].
    eapply sound_then; [|apply sound_set_pending].
    destruct t; cbn [resume]; [apply sound_placeBet_resume | apply sound_editBet_resume].
Qed.

(** X14.  Whatever the mode, every call of [placeBet] the process ever makes is
    at a price above 1 (so never NaN, zero or negative): a test bet at a
    price within 1 of the target 1.5, a bet of the first-set strategy at
    a price of at least 2. *)
Theorem bets_are_sound cfg store s :
  store_odds_valid store ->
  reaches cfg (started store) s ->
  Forall sound_call (placeBetCalls s).
Proof.
  intros Hv R.
  assert (H : keeps_bets_sound (started store) s).
  { induction R as [|parse e s' _ IH|m s' _ IH].
    - apply sound_refl.
    - eapply sound_then; [apply sound_step | exact IH].
    - eapply sound_then; [apply sound_handleStreamMessage | exact IH]. }
  apply H. split; [exact Hv | constructor].
Qed.

(** With the switches of the script, prices of 0.7 and then 2.5 for
    selection 11: the first is not stored and triggers nothing although it
    is within 1 of the target; the second triggers the test bet. *)
Lemma bets_are_sound_witness :
  let s := deliver bot_config
             [Scenario.mcm [Scenario.price_delta "1.1" 11 (Js.Number (Js.dec 7 10))];
              Scenario.mcm [Scenario.price_delta "1.1" 11 (Js.Number (Js.dec 25 10))]]
             (started Scenario.one_market) in
  near_testBetOdds (Js.dec 7 10) = true
  /\ map call_price (placeBetCalls s) = [Js.dec 25 10]
  /\ Forall sound_call (placeBetCalls s).
Proof.
  intros s. split; [vm_compute; reflexivity|]. split; [vm_compute; reflexivity|].
  apply (bets_are_sound bot_config Scenario.one_market s).
  - intros k g [H|[]]. inversion H; subst. split; exact I.
  - apply reaches_deliver.
Defined.

(** *** The store after start-up *)

Lemma openMarketIds_keys (d : Dict.t Game) :
  (forall k g, In (k, g) d -> marketId g = k) ->
  map marketId (filter isOpen (Dict.values d))
  = map fst (filter (fun kg => isOpen (snd kg)) d).
Proof.
  unfold Dict.values. induction d as [|[k g] d IH]; intros H; [reflexivity|]. cbn.
  assert (IH' : map marketId (filter isOpen (map snd d))
                = map fst (filter (fun kg => isOpen (snd kg)) d)).
  { apply IH. intros k' g' Hin. apply H. now right. }
  destruct (isOpen g); cbn; [|exact IH'].
  rewrite IH'. f_equal. apply H. now left.
Qed.

Lemma fresh_store_valid (d : Dict.t Game) :
  (forall k g, In (k, g) d -> fresh_game k g) -> store_odds_valid d.
Proof.
  intros H k g Hin. destruct (H _ _ Hin) as [_ [_ [E _]]].
  unfold game_odds_valid. rewrite E. split; exact I.
Qed.

(** X8.  Once [runBot] has connected, in every state the process reaches the
    store is a well-formed dictionary of the markets tracked at start-up:
    no identifier occurs twice, no market is ever added (the store is
    never larger than the counter of tracked markets), every game is
    stored under its own market identifier and keeps its event
    identifier, the stored odds are valid, and the identifiers the bot
    subscribes to are the keys of the open entries, in order. *)
Theorem store_stays_wellformed answers Date_parse clock cfg s n s' :
  runBot answers Date_parse clock true = Some (s, n) ->
  reaches cfg s s' ->
  NoDup (map fst (gameHistoricalData s'))
  /\ List.length (gameHistoricalData s') <= n
  /\ (forall k g, In (k, g) (gameHistoricalData s') ->
        marketId g = k /\ eventId_or g k = eventId g)
  /\ store_odds_valid (gameHistoricalData s')
  /\ openMarketIds_of s'
     = map fst (filter (fun kg => isOpen (snd kg)) (gameHistoricalData s')).
Proof.
  intros Hrun R. unfold runBot in Hrun. cbn [negb] in Hrun.
  destruct (fetched (fetchOpenTennisMarkets answers)) as [[|m ms]|]; try discriminate.
  injection Hrun as <- <-.
  pose proof (track_markets_invariant Date_parse clock (m :: ms)
                {| tracked := []; totalMarketsTracked := 0; readings := 0 |}) as Inv.
  cbv zeta in Inv. fold (track_markets Date_parse clock (m :: ms)) in Inv.
  destruct Inv as [A [B [C _]]]; [constructor | reflexivity | intros k g [] |].
  set (st := track_markets Date_parse clock (m :: ms)) in *.
  destruct (reaches_advances cfg _ _ R) as [Hs [_ [keep Hk]]].
  change (gameHistoricalData (started (tracked st))) with (tracked st) in Hs, Hk.
  assert (Hid : forall k g, In (k, g) (gameHistoricalData s') ->
                  marketId g = k /\ eventId_or g k = eventId g).
  { intros k g Hin. destruct (Hs _ _ Hin) as [g0 [Hin0 [E1 [E2 _]]]].
    destruct (C _ _ Hin0) as [F1 [_ [_ [_ [_ [_ [_ F2]]]]]]].
    split; [congruence|]. unfold eventId_or in *. now rewrite E2. }
  split; [rewrite Hk; now apply NoDup_filter|]. split.
  { rewrite B, <- (length_map fst (gameHistoricalData s')), Hk, <- (length_map fst (tracked st)).
    apply filter_length_le. }
  split; [exact Hid|]. split.
  { eapply store_step_valid; [apply (reaches_evolves cfg _ _ R)|].
    now apply fresh_store_valid. }
  unfold openMarketIds_of. apply openMarketIds_keys. intros k g Hin. now apply Hid.
Qed.

(** The sample catalogue, obtained at the second request: markets 1.1 and
    1.3 are tracked, the second entry for 1.1 and the market with one
    runner are not.  After market 1.1 has closed the store holds 1.3. *)
Lemma store_stays_wellformed_witness :
  exists s,
    runBot Catalogue.answers Catalogue.Date_parse Catalogue.clock true = Some (s, 2)
    /\ map fst (gameHistoricalData s) = ["1.1"; "1.3"]%string
    /\ option_map selectionIdA (Dict.get "1.1" (gameHistoricalData s)) = Some 11%Z
    /\ option_map playerA (Dict.get "1.3" (gameHistoricalData s)) = Some "Player A"%string
    /\ option_map status (Dict.get "1.3" (gameHistoricalData s)) = Some "IN_PLAY"%string
    /\ let s' := deliver bot_config [Scenario.mcm [Scenario.closed_delta "1.1" None]] s in
       NoDup (map fst (gameHistoricalData s'))
       /\ openMarketIds_of s' = ["1.3"%string].
Proof.
  eexists. split; [vm_compute; reflexivity|].
  split; [reflexivity|]. split; [reflexivity|]. split; [reflexivity|].
  split; [reflexivity|]. intros s'.
  match goal with
  | s' := deliver _ _ ?s |- _ =>
      destruct (store_stays_wellformed Catalogue.answers Catalogue.Date_parse Catalogue.clock
                  bot_config s 2 s' eq_refl (reaches_deliver _ _ _)) as [A [_ [_ [_ B]]]]
  end.
  split; [exact A|]. rewrite B. vm_compute. reflexivity.
Defined.

(** *** Simulation never talks to the gateway (lines 223-257, 332, 641) *)

Lemma sim_refl s : stays_simulated s s.
Proof. intros H. exact H. Qed.

Lemma sim_then s s' s'' :
  stays_simulated s' s'' -> stays_simulated s s' -> stays_simulated s s''.
Proof. unfold stays_simulated. auto. Qed.

Lemma sim_same s s' :
  pending s' = pending s -> orderIds s' = orderIds s -> stays_simulated s s'.
Proof. intros E1 E2 [P O]. split; [now rewrite E1 | now rewrite E2]. Qed.

Lemma sim_set_simulated_order k s :
  stays_simulated s (set_orderIds (Dict.set k ("sim_" ++ k)%string (orderIds s)) s).
Proof.
  intros [P O]. split; [exact P|]. proj. intros k' betId Hin.
  apply In_set in Hin. destruct Hin as [Hin|[-> ->]]; [now apply O | reflexivity].
Qed.

Lemma sim_delete_order k s :
  stays_simulated s (set_orderIds (Dict.delete k (orderIds s)) s).
Proof.
  intros [P O]. split; [exact P|]. proj. intros k' betId Hin.
  apply In_delete in Hin. now apply O.
Qed.

Lemma sim_set_hasOpenBet v s : stays_simulated s (set_hasOpenBet v s).
Proof. now apply sim_same. Qed.

Lemma sim_set_testBetPlaced v s : stays_simulated s (set_testBetPlaced v s).
Proof. now apply sim_same. Qed.

Lemma sim_set_hasPlacedBet v s : stays_simulated s (set_hasPlacedBet v s).
Proof. now apply sim_same. Qed.

Lemma sim_set_simBalance v s : stays_simulated s (set_simBalance v s).
Proof. now apply sim_same. Qed.

Lemma sim_set_multiplier v s : stays_simulated s (set_multiplier v s).
Proof. now apply sim_same. Qed.

Lemma sim_set_ws v s : stays_simulated s (set_ws v s).
Proof. now apply sim_same. Qed.

Lemma sim_set_isSubscribed v s : stays_simulated s (set_isSubscribed v s).
Proof. now apply sim_same. Qed.

Lemma sim_set_isAuthenticated v s : stays_simulated s (set_isAuthenticated v s).
Proof. now apply sim_same. Qed.

Lemma sim_set_buffer v s : stays_simulated s (set_buffer v s).
Proof. now apply sim_same. Qed.

Lemma sim_set_totalSetsCompleted v s : stays_simulated s (set_totalSetsCompleted v s).
Proof. now apply sim_same. Qed.

Lemma sim_set_totalConditionsMet v s : stays_simulated s (set_totalConditionsMet v s).
Proof. now apply sim_same. Qed.

Lemma sim_set_totalBetsPlaced v s : stays_simulated s (set_totalBetsPlaced v s).
Proof. now apply sim_same. Qed.

Lemma sim_set_sockets v s : stays_simulated s (set_sockets v s).
Proof. now apply sim_same. Qed.

Lemma sim_set_timers v s : stays_simulated s (set_timers v s).
Proof. now apply sim_same. Qed.

Lemma sim_set_written v s : stays_simulated s (set_written v s).
Proof. now apply sim_same. Qed.

Lemma sim_set_ndjson v s : stays_simulated s (set_ndjson v s).
Proof. now apply sim_same. Qed.

Lemma sim_set_placeBetCalls v s : stays_simulated s (set_placeBetCalls v s).
Proof. now apply sim_same. Qed.

Lemma sim_set_gameHistoricalData v s : stays_simulated s (set_gameHistoricalData v s).
Proof. now apply sim_same. Qed.

Lemma sim_incr_totalSetsCompleted s : stays_simulated s (incr_totalSetsCompleted s).
Proof. now apply sim_same. Qed.

Lemma sim_incr_totalConditionsMet s : stays_simulated s (incr_totalConditionsMet s).
Proof. now apply sim_same. Qed.

Lemma sim_incr_totalBetsPlaced s : stays_simulated s (incr_totalBetsPlaced s).
Proof. now apply sim_same. Qed.

Lemma sim_appendToNdjson e r s : stays_simulated s (appendToNdjson e r s).
Proof. now apply sim_same. Qed.

Lemma sim_modify_game k f s : stays_simulated s (modify_game k f s).
Proof. now apply sim_same. Qed.

Create HintDb sim.

#[global] Hint Extern 1 (stays_simulated _ (set_hasOpenBet _ _)) => apply sim_set_hasOpenBet : sim.
#[global] Hint Extern 1 (stays_simulated _ (set_testBetPlaced _ _)) => apply sim_set_testBetPlaced : sim.
#[global] Hint Extern 1 (stays_simulated _ (set_hasPlacedBet _ _)) => apply sim_set_hasPlacedBet : sim.
#[global] Hint Extern 1 (stays_simulated _ (set_simBalance _ _)) => apply sim_set_simBalance : sim.
#[global] Hint Extern 1 (stays_simulated _ (set_multiplier _ _)) => apply sim_set_multiplier : sim.
#[global] Hint Extern 1 (stays_simulated _ (set_ws _ _)) => apply sim_set_ws : sim.
#[global] Hint Extern 1 (stays_simulated _ (set_isSubscribed _ _)) => apply sim_set_isSubscribed : sim.
#[global] Hint Extern 1 (stays_simulated _ (set_isAuthenticated _ _)) => apply sim_set_isAuthenticated : sim.
#[global] Hint Extern 1 (stays_simulated _ (set_buffer _ _)) => apply sim_set_buffer : sim.
#[global] Hint Extern 1 (stays_simulated _ (set_totalSetsCompleted _ _)) => apply sim_set_totalSetsCompleted : sim.
#[global] Hint Extern 1 (stays_simulated _ (set_totalConditionsMet _ _)) => apply sim_set_totalConditionsMet : sim.
#[global] Hint Extern 1 (stays_simulated _ (set_totalBetsPlaced _ _)) => apply sim_set_totalBetsPlaced : sim.
#[global] Hint Extern 1 (stays_simulated _ (set_sockets _ _)) => apply sim_set_sockets : sim.
#[global] Hint Extern 1 (stays_simulated _ (set_timers _ _)) => apply sim_set_timers : sim.
#[global] Hint Extern 1 (stays_simulated _ (set_written _ _)) => apply sim_set_written : sim.
#[global] Hint Extern 1 (stays_simulated _ (set_ndjson _ _)) => apply sim_set_ndjson : sim.
#[global] Hint Extern 1 (stays_simulated _ (set_placeBetCalls _ _)) => apply sim_set_placeBetCalls : sim.
#[global] Hint Extern 1 (stays_simulated _ (set_gameHistoricalData _ _)) => apply sim_set_gameHistoricalData : sim.
#[global] Hint Extern 1 (stays_simulated _ (incr_totalSetsCompleted _)) => apply sim_incr_totalSetsCompleted : sim.
#[global] Hint Extern 1 (stays_simulated _ (incr_totalConditionsMet _)) => apply sim_incr_totalConditionsMet : sim.
#[global] Hint Extern 1 (stays_simulated _ (incr_totalBetsPlaced _)) => apply sim_incr_totalBetsPlaced : sim.
#[global] Hint Extern 1 (stays_simulated _ (appendToNdjson _ _ _)) => apply sim_appendToNdjson : sim.
#[global] Hint Extern 1 (stays_simulated _ (modify_game _ _ _)) => apply sim_modify_game : sim.

#[global] Hint Extern 1 (stays_simulated _ (set_orderIds (Dict.set _ _ _) _)) =>
  apply sim_set_simulated_order : sim.
#[global] Hint Extern 1 (stays_simulated _ (set_orderIds (Dict.delete _ _) _)) =>
  apply sim_delete_order : sim.

Ltac sim_chain := chain sim_refl sim_then ltac:(auto with sim nocore).

Lemma sim_ws_write m s : stays_simulated s (ws_write m s).
Proof. unfold ws_write. sim_chain. Qed.

Lemma sim_subscription_loop fuel i ids s :
  stays_simulated s (subscription_loop fuel i ids s).
Proof.
  revert i s. induction fuel as [|fuel IH]; intros i s; cbn [subscription_loop];
    [apply sim_refl|].
  destruct (i <? List.length ids); [|apply sim_refl].
  eapply sim_then; [apply IH | apply sim_ws_write].
Qed.

#[global] Hint Extern 1 (stays_simulated _ (ws_write _ _)) => apply sim_ws_write : sim.
#[global] Hint Extern 1 (stays_simulated _ (subscription_loop _ _ _ _)) =>
  apply sim_subscription_loop : sim.

Lemma sim_subscribeToOpenMarkets s : stays_simulated s (subscribeToOpenMarkets s).
Proof. unfold subscribeToOpenMarkets. sim_chain. Qed.

#[global] Hint Extern 1 (stays_simulated _ (subscribeToOpenMarkets _)) =>
  apply sim_subscribeToOpenMarkets : sim.

(** In simulation [placeBet] runs to its end without request. *)
Lemma sim_placeBet cfg k sel price t s :
  enableSimulation cfg = true -> stays_simulated s (placeBet cfg k sel price t s).
Proof. intros H. unfold placeBet. rewrite H. cbv beta iota zeta. sim_chain. Qed.

#[global] Hint Extern 1 (stays_simulated _ (placeBet _ _ _ _ _ _)) =>
  apply sim_placeBet; assumption : sim.

Lemma sim_update_runner k runner s : stays_simulated s (update_runner k runner s).
Proof. unfold update_runner. sim_chain. Qed.

Lemma sim_fold A (f : A -> State -> State) (l : list A) s :
  (forall a s, stays_simulated s (f a s)) ->
  stays_simulated s (fold_left (fun s a => f a s) l s).
Proof.
  intros Hf. revert s. induction l as [|a l IH]; intros s; cbn [fold_left].
  - apply sim_refl.
  - eapply sim_then; [apply IH | apply Hf].
Qed.

Lemma sim_test_bet cfg k inplay s :
  enableSimulation cfg = true -> stays_simulated s (test_bet cfg k inplay s).
Proof. intros H. unfold test_bet. cbv zeta. sim_chain. Qed.

Lemma sim_odds_phase cfg k rcs inplay s :
  enableSimulation cfg = true -> stays_simulated s (odds_phase cfg k rcs inplay s).
Proof.
  intros Hsim. unfold odds_phase. cbv zeta.
  assert (H : stays_simulated s (test_bet cfg k inplay
                (fold_left (fun s runner => update_runner k runner s) rcs s))).
  { eapply sim_then; [now apply sim_test_bet|].
    apply sim_fold. intros. apply sim_update_runner. }
  revert H. generalize (test_bet cfg k inplay
                (fold_left (fun s runner => update_runner k runner s) rcs s)).
  intros s' H. sim_chain.
Qed.

Lemma sim_score_phase cfg k mc s :
  enableSimulation cfg = true -> stays_simulated s (score_phase cfg k mc s).
Proof. intros H. unfold score_phase. sim_chain. Qed.

#[global] Hint Extern 1 (stays_simulated _ (odds_phase _ _ _ _ _)) =>
  apply sim_odds_phase; assumption : sim.
#[global] Hint Extern 1 (stays_simulated _ (score_phase _ _ _ _)) =>
  apply sim_score_phase; assumption : sim.

Lemma settle_pending cfg k game mc s :
  pending (snd (settle cfg k game mc s)) = pending s.
Proof.
  unfold settle.
  destruct (bet game) as [b|]; [|reflexivity].
  destruct (match marketDefinition mc with Some md => runners md | None => None end)
    as [rs|]; [|reflexivity].
  destruct (find _ rs) as [winner|]; [|reflexivity].
  destruct (enableSimulation cfg); destruct (Z.eqb _ _); reflexivity.
Qed.

Lemma sim_status_phase cfg k mc s : stays_simulated s (status_phase cfg k mc s).
Proof.
  unfold status_phase.
  destruct (is_closed mc); [|sim_chain]. cbv zeta.
  destruct (Dict.get k (gameHistoricalData (modify_game k _ s))) as [game|];
    [|now apply sim_same].
  pose proof (settle_pending cfg k game mc
                (modify_game k (fun g => set_status "ENDED" (set_isOpen false g)) s)) as H1.
  pose proof (settle_orderIds cfg k game mc
                (modify_game k (fun g => set_status "ENDED" (set_isOpen false g)) s)) as H2.
  destruct (settle cfg k game mc _) as [[outcome pnl] s1]. cbn [snd] in H1, H2.
  assert (H : stays_simulated s s1) by now apply sim_same.
  sim_chain.
Qed.

#[global] Hint Extern 1 (stays_simulated _ (status_phase _ _ _ _)) => apply sim_status_phase : sim.

Lemma sim_price_phase cfg mc s :
  enableSimulation cfg = true -> stays_simulated s (price_phase cfg mc s).
Proof. intros H. unfold price_phase. sim_chain. Qed.

#[global] Hint Extern 1 (stays_simulated _ (price_phase _ _ _)) =>
  apply sim_price_phase; assumption : sim.

Lemma sim_market_change cfg mc s :
  enableSimulation cfg = true -> stays_simulated s (market_change cfg mc s).
Proof. intros H. unfold market_change. sim_chain. Qed.

Lemma sim_handleStreamMessage cfg m s :
  enableSimulation cfg = true -> stays_simulated s (state_of (handleStreamMessage cfg m s)).
Proof.
  intros Hsim. unfold handleStreamMessage.
  destruct (_ && _).
  - cbn [state_of]. sim_chain.
  - destruct (String.eqb (op m) "mcm").
    + destruct (mc m); cbn [state_of]; [|apply sim_refl].
      apply sim_fold. intros. now apply sim_market_change.
    + destruct (String.eqb (op m) "ocm"); [|apply sim_refl].
      destruct (oc m) as [ocs|]; [|apply sim_refl].
      clear m. revert s. induction ocs as [|oc rest IH]; intros s; cbn [order_changes];
        [apply sim_refl|].
      now rewrite (order_change_simulated cfg oc s Hsim).
Qed.

Lemma sim_drain cfg parse fuel s :
  enableSimulation cfg = true -> stays_simulated s (snd (drain cfg parse fuel s)).
Proof.
  intros Hsim. revert s. induction fuel as [|fuel IH]; intros s; cbn [drain]; [apply sim_refl|].
  destruct (Js.indexOf_crlf (buffer s)) as [index|]; [|apply sim_refl].
  match goal with |- context [drain cfg parse fuel ?t] =>
    pose proof (IH t) as H; destruct (drain cfg parse fuel t) as [frames s'] end.
  cbn [snd] in *. eapply sim_then; [exact H|].
  eapply sim_then; [|apply sim_set_buffer].
  unfold dispatch. destruct (parse _); [now apply sim_handleStreamMessage | apply sim_refl].
Qed.

Lemma sim_connectStreamAPI s : stays_simulated s (connectStreamAPI s).
Proof. unfold connectStreamAPI. sim_chain. Qed.

#[global] Hint Extern 1 (stays_simulated _ (connectStreamAPI _)) => apply sim_connectStreamAPI : sim.

(** With nothing pending, an answer of the gateway finds no activation to
    resume. *)
Lemma gateway_reply_idle cfg n reply s : pending s = [] -> gateway_reply cfg n reply s = s.
Proof. intros H. unfold gateway_reply. rewrite H. now destruct n. Qed.

Lemma sim_step cfg parse e s :
  enableSimulation cfg = true -> stays_simulated s (step cfg parse e s).
Proof.
  intros Hsim. destruct e; cbn [step].
  - apply sim_ws_write.
  - unfold on_data. eapply sim_then; [now apply sim_drain | apply sim_set_buffer].
  - unfold on_error, schedule_reconnect. sim_chain.
  - unfold on_close, schedule_reconnect. sim_chain.
  - destruct (timers s); sim_chain.
  - intros H. now rewrite gateway_reply_idle by apply H.
Qed.

(** X19.  In simulation the bot never sends a request to the betting gateway:
    in every state reached no activation of [placeBet] or [editBet] is
    suspended on it, every bet was recorded inside the handler that
    triggered it, every order identifier recorded is the simulated one of
    its market, an answer of the gateway would find nothing to resume, and
    the order stream settles nothing. *)
Theorem simulation_never_calls_gateway cfg store s :
  enableSimulation cfg = true ->
  reaches cfg (started store) s ->
  pending s = []
  /\ (forall k betId, In (k, betId) (orderIds s) -> betId = ("sim_" ++ k)%string)
  /\ (forall n reply, gateway_reply cfg n reply s = s)
  /\ (forall oc, order_change cfg oc s = Normal s).
Proof.
  intros Hsim R.
  assert (H : stays_simulated (started store) s).
  { induction R as [|parse e s' _ IH|m s' _ IH].
    - apply sim_refl.
    - eapply sim_then; [now apply sim_step | exact IH].
    - eapply sim_then; [now apply sim_handleStreamMessage | exact IH]. }
  destruct H as [P O]; [split; [reflexivity | intros k betId []]|].
  split; [exact P|]. split; [exact O|]. split.
  - intros n reply. now apply gateway_reply_idle.
  - intros oc. now apply order_change_simulated.
Qed.

(** With the switches of the script, after a test bet on market 1.1:
    nothing is pending and the order identifier is sim_1.1. *)
Lemma simulation_never_calls_gateway_witness :
  let s := deliver bot_config
             [Scenario.mcm [Scenario.price_delta "1.1" 11 (Js.Number (Js.of_Z 2))]]
             (started Scenario.one_market) in
  pending s = [] /\ orderIds s = [("1.1", "sim_1.1")]%string
  /\ List.length (placeBetCalls s) = 1.
Proof.
  intros s.
  destruct (simulation_never_calls_gateway bot_config Scenario.one_market s eq_refl
              (reaches_deliver _ _ _)) as [A _].
  split; [exact A|]. vm_compute. split; reflexivity.
Defined.

(** *** One stake per market (lines 549-581) *)

Lemma acc_refl s : keeps_accounts s s.
Proof. intros H. exact H. Qed.

Lemma acc_then s s' s'' : keeps_accounts s' s'' -> keeps_accounts s s' -> keeps_accounts s s''.
Proof. unfold keeps_accounts. auto. Qed.

Lemma filter_none A (f : A -> bool) (l : list A) :
  Forall (fun x => f x = false) l -> filter f l = [].
Proof.
  induction 1 as [|x l Hx _ IH]; [reflexivity|]. cbn. now rewrite Hx.
Qed.

(** What the strategy leaves alone keeps its books. *)
Lemma acc_idle s s' : strategy_idle s s' -> keeps_accounts s s'.
Proof.
  intros [[l [Hc Hl]] [E1 [E2 [E3 Hg]]]] [Hk [Hb [H1 H2]]].
  assert (Es : strategy_calls s' = strategy_calls s).
  { unfold strategy_calls. rewrite Hc, filter_app, (filter_none _ _ l), app_nil_r;
      [reflexivity|].
    eapply Forall_impl; [|exact Hl]. intros c Hcall. cbn beta in *. now rewrite Hcall. }
  split.
  - intros k. unfold staked. rewrite Es. destruct (Hk k) as [H|[H F]]; [now left|].
    right. split; [exact H|]. intros g' Hin.
    destruct (Hg _ _ Hin) as [g [Hin' [_ E]]]. rewrite E. now apply F.
  - rewrite Es, E1, E2, E3. auto.
Qed.

Create HintDb acc.

#[global] Hint Extern 1 (keeps_accounts _ _) =>
  apply acc_idle; solve [auto with idle nocore] : acc.

Lemma first_set_over_advances k s s' :
  store_advances (gameHistoricalData s) (gameHistoricalData s') ->
  first_set_over k s -> first_set_over k s'.
Proof.
  intros Hs F g' Hin. destruct (Hs _ _ Hin) as [g [Hin' Hg]].
  apply Hg. now apply F.
Qed.

Lemma placeBet_counters cfg k sel price t s :
  totalSetsCompleted (placeBet cfg k sel price t s) = totalSetsCompleted s
  /\ totalConditionsMet (placeBet cfg k sel price t s) = totalConditionsMet s
  /\ totalBetsPlaced (placeBet cfg k sel price t s) = totalBetsPlaced s.
Proof.
  unfold placeBet. cbv zeta. proj.
  destruct (Dict.get k (gameHistoricalData s)); [|now repeat split].
  destruct (enableSimulation cfg); [|now repeat split].
  destruct t; now repeat split.
Qed.

(** A state that differs from one with good books by more marks, and by
    counters that stay ordered, has good books. *)
Lemma acc_marks s s' :
  strategy_accounts s ->
  placeBetCalls s' = placeBetCalls s ->
  (forall k, first_set_over k s -> first_set_over k s') ->
  totalBetsPlaced s' = totalBetsPlaced s ->
  totalBetsPlaced s' <= totalConditionsMet s' ->
  totalConditionsMet s' <= totalSetsCompleted s' ->
  strategy_accounts s'.
Proof.
  intros [Hk [Hb _]] Ec Hf Eb H1 H2.
  assert (Es : strategy_calls s' = strategy_calls s) by (unfold strategy_calls; now rewrite Ec).
  split; [|split; [rewrite Es, Eb; exact Hb | split; assumption]].
  intros k. unfold staked. rewrite Es. destruct (Hk k) as [H|[H F]]; [now left|].
  right. split; [exact H | now apply Hf].
Qed.

Lemma acc_score_phase cfg k mc s : keeps_accounts s (score_phase cfg k mc s).
Proof.
  intros Acc. unfold score_phase.
  destruct (score_of mc) as [sc|]; [|exact Acc].
  destruct (testBetEnabled cfg); [exact Acc|]. cbv zeta.
  set (s1 := modify_game k (set_sets match score_sets sc with Some l => l | None => [] end) s).
  assert (F1 : forall k', first_set_over k' s -> first_set_over k' s1).
  { intros k' F g' Hin. unfold s1, modify_game in Hin. proj.
    apply In_alter in Hin. destruct Hin as [g [Hin [->|[_ ->]]]]; [|cbn]; now apply F. }
  assert (A1 : strategy_accounts s1).
  { apply (acc_marks s); [exact Acc | reflexivity | exact F1 | reflexivity | apply Acc | apply Acc]. }
  destruct (Dict.get k (gameHistoricalData s1)) as [game|] eqn:G; [|exact A1].
  destruct (sets game) as [|set1 rest]; [exact A1|].
  destruct (negb (hasFirstSetEnded game) && completed set1) eqn:T; [|exact A1].
  apply andb_prop in T. destruct T as [T _]. apply negb_true_iff in T.
  (* no stake on [k] so far *)
  assert (Z0 : staked k s = 0).
  { destruct Acc as [Hk _]. destruct (Hk k) as [H|[_ F]]; [exact H|].
    apply get_In in G. rewrite (F1 k F game G) in T. discriminate T. }
  set (s2 := incr_totalSetsCompleted (modify_game k (set_hasFirstSetEnded true) s1)).
  assert (Fk : first_set_over k s2).
  { intros g' Hin. unfold s2, incr_totalSetsCompleted, modify_game in Hin. proj.
    apply In_alter_same in Hin. destruct Hin as [g [_ ->]]. reflexivity. }
  assert (F2 : forall k', first_set_over k' s -> first_set_over k' s2).
  { intros k' F g' Hin. unfold s2, incr_totalSetsCompleted, modify_game in Hin. proj.
    apply In_alter in Hin. destruct Hin as [g [Hin [->|[_ ->]]]];
      [now apply (F1 k' F) | reflexivity]. }
  assert (A2 : strategy_accounts s2).
  { apply (acc_marks s); [exact Acc | reflexivity | exact F2 | reflexivity | apply Acc |].
    unfold s2, s1, incr_totalSetsCompleted, modify_game. proj.
    destruct Acc as [_ [_ [_ H]]]. lia. }
  fold s2.
  destruct (if Js.gt _ _ then pB (currentOdds game) else pA (currentOdds game))
    as [odds|]; [|exact A2].
  destruct (Js.le _ _ && Js.ge odds (Js.of_Z 2)); [|exact A2].
  assert (A3 : strategy_accounts (incr_totalConditionsMet s2)).
  { apply (acc_marks s); [exact Acc | reflexivity | exact F2 | reflexivity | |].
    - unfold s2, s1, incr_totalConditionsMet, incr_totalSetsCompleted, modify_game. proj.
      destruct Acc as [_ [_ [H _]]]. lia.
    - unfold s2, s1, incr_totalConditionsMet, incr_totalSetsCompleted, modify_game. proj.
      destruct Acc as [_ [_ [_ H]]]. lia. }
  destruct (negb (hasOpenBet (incr_totalConditionsMet s2))); [|exact A3].
  match goal with |- strategy_accounts (incr_totalBetsPlaced (placeBet cfg k ?sel odds false ?t)) =>
    pose proof (placeBet_calls cfg k sel odds false t) as Ec;
    pose proof (placeBet_counters cfg k sel odds false t) as [C1 [C2 C3]];
    pose proof (advances_placeBet cfg k sel odds false t) as [Adv _];
    set (s3 := placeBet cfg k sel odds false t) in *;
    set (selection := sel) in *
  end.
  assert (Es : strategy_calls (incr_totalBetsPlaced s3)
               = strategy_calls s ++ [{| call_market := k; call_selectionId := selection;
                                         call_price := odds; call_isTestBet := false |}]).
  { unfold strategy_calls, incr_totalBetsPlaced. proj. rewrite Ec, filter_app. reflexivity. }
  assert (Eb : totalBetsPlaced s2 = totalBetsPlaced s) by reflexivity.
  assert (Ec2 : totalConditionsMet s2 = totalConditionsMet s) by reflexivity.
  assert (Et : totalSetsCompleted s2 = S (totalSetsCompleted s)) by reflexivity.
  destruct Acc as [Hk [Hb [H1 H2]]].
  split; [|split; [|split]].
  - intros k'. unfold staked. rewrite Es, filter_app, length_app. cbn [filter call_market].
    fold (staked k' s). destruct (String.eqb k k') eqn:E.
    + apply String.eqb_eq in E. subst k'. right. split; [cbn; lia|].
      exact (first_set_over_advances k (incr_totalConditionsMet s2) s3 Adv Fk).
    + cbn [List.length]. rewrite Nat.add_0_r. destruct (Hk k') as [H|[H F]]; [now left|].
      right. split; [exact H|].
      exact (first_set_over_advances k' (incr_totalConditionsMet s2) s3 Adv (F2 k' F)).
  - rewrite Es, length_app. unfold incr_totalBetsPlaced. proj. cbn [List.length]. lia.
  - unfold incr_totalBetsPlaced. proj. lia.
  - unfold incr_totalBetsPlaced. proj. lia.
Qed.

#[global] Hint Extern 1 (keeps_accounts _ (score_phase _ _ _ _)) => apply acc_score_phase : acc.
#[global] Hint Extern 1 (keeps_accounts _ (price_phase _ _ _)) =>
  apply acc_idle; apply idle_price_phase : acc.
#[global] Hint Extern 1 (keeps_accounts _ (status_phase _ _ _ _)) =>
  apply acc_idle; apply idle_status_phase : acc.

Ltac acc_chain := chain acc_refl acc_then ltac:(auto with acc nocore).

Lemma acc_market_change cfg mc s : keeps_accounts s (market_change cfg mc s).
Proof. unfold market_change. acc_chain. Qed.

Lemma acc_fold A (f : A -> State -> State) (l : list A) s :
  (forall a s, keeps_accounts s (f a s)) ->
  keeps_accounts s (fold_left (fun s a => f a s) l s).
Proof.
  intros Hf. revert s. induction l as [|a l IH]; intros s; cbn [fold_left].
  - apply acc_refl.
  - eapply acc_then; [apply IH | apply Hf].
Qed.

Lemma acc_handleStreamMessage cfg m s :
  keeps_accounts s (state_of (handleStreamMessage cfg m s)).
Proof.
  unfold handleStreamMessage.
  destruct (_ && _).
  - cbn [state_of]. acc_chain.
  - destruct (String.eqb (op m) "mcm").
    + destruct (mc m); cbn [state_of]; [|apply acc_refl].
      apply acc_fold. intros. apply acc_market_change.
    + destruct (String.eqb (op m) "ocm"); [|apply acc_refl].
      destruct (oc m); [apply acc_idle, idle_order_changes | apply acc_refl].
Qed.

Lemma acc_drain cfg parse fuel s : keeps_accounts s (snd (drain cfg parse fuel s)).
Proof.
  revert s. induction fuel as [|fuel IH]; intros s; cbn [drain]; [apply acc_refl|].
  destruct (Js.indexOf_crlf (buffer s)) as [index|]; [|apply acc_refl].
  match goal with |- context [drain cfg parse fuel ?t] =>
    pose proof (IH t) as H; destruct (drain cfg parse fuel t) as [frames s'] end.
  cbn [snd] in *. eapply acc_then; [exact H|].
  eapply acc_then; [|apply acc_idle, idle_set_buffer].
  unfold dispatch. destruct (parse _); [apply acc_handleStreamMessage | apply acc_refl].
Qed.

Lemma acc_step cfg parse e s : keeps_accounts s (step cfg parse e s).
Proof.
  destruct e; cbn [step].
  - apply acc_idle, idle_ws_write.
  - unfold on_data. eapply acc_then; [apply acc_drain | apply acc_idle, idle_set_buffer].
  - unfold on_error, schedule_reconnect. acc_chain.
  - unfold on_close, schedule_reconnect. acc_chain.
  - destruct (timers s); acc_chain.
  - apply acc_idle. unfold gateway_reply.
    destruct (take_task task (pending s)) as [[t rest]|]; [|apply idle_refl].
    eapply idle_then; [|apply idle_set_pending].
    destruct t; cbn [resume]; [apply idle_placeBet_resume | apply idle_editBet_resume].
Qed.

(** X12.  The first-set strategy stakes at most once on a market, whatever
    the configuration and however often the score of a completed first set
    is delivered; the counter of bets placed is the number of these calls
    of [placeBet], and it never exceeds the counter of conditions met,
    which never exceeds the counter of first sets completed. *)
Theorem one_stake_per_market cfg store s :
  reaches cfg (started store) s ->
  (forall k, staked k s <= 1)
  /\ totalBetsPlaced s = List.length (strategy_calls s)
  /\ totalBetsPlaced s <= totalConditionsMet s
  /\ totalConditionsMet s <= totalSetsCompleted s.
Proof.
  intros R.
  assert (H : keeps_accounts (started store) s).
  { induction R as [|parse e s' _ IH|m s' _ IH].
    - apply acc_refl.
    - eapply acc_then; [apply acc_step | exact IH].
    - eapply acc_then; [apply acc_handleStreamMessage | exact IH]. }
  destruct H as [Hk Hc].
  { split; [intros k; now left|]. cbn. repeat split; lia. }
  split; [|exact Hc].
  intros k. destruct (Hk k) as [E|[E _]]; rewrite E; lia.
Qed.

(** Simulated staking on market 1.1: the first set is reported as ended
    6-4 three times, with the underdog at 3; one stake is placed. *)
Lemma one_stake_per_market_witness :
  let delta := Scenario.first_set_delta "1.1" 6 4 12 (Js.of_Z 3) in
  let s := deliver Scenario.staking_config
             [Scenario.mcm [delta]; Scenario.mcm [delta]; Scenario.mcm [delta]]
             (started Scenario.one_market) in
  staked "1.1" s = 1
  /\ totalSetsCompleted s = 1
  /\ forall k, staked k s <= 1.
Proof.
  intros delta s.
  destruct (one_stake_per_market Scenario.staking_config Scenario.one_market s
              (reaches_deliver _ _ _)) as [A _].
  split; [vm_compute; reflexivity|]. split; [vm_compute; reflexivity | exact A].
Defined.

(** *** The data handler over a whole stream (lines 400-417) *)

(** X1.  The data handler over a whole stream.  However the bytes are chunked
    and wherever the stream stops, the frames cut off are the terminated
    frames of the text received so far (what the buffer held, followed by
    the decoded chunks), the buffer is the unterminated tail, and the rest
    of the state is that of handing the frames that parse to the router,
    in order: a frame that is not JSON is skipped and the frames after it
    are still handled. *)
Theorem stream_delivers cfg parse chunks s frames rest :
  no_crlf (buffer s) ->
  Forall no_crlf frames ->
  no_crlf rest ->
  buffer s ++ List.concat (map Js.toString chunks) = framed frames ++ rest ->
  fst (ingest cfg parse chunks s) = frames
  /\ snd (ingest cfg parse chunks s)
     = set_buffer rest (deliver cfg (parsed parse frames) s).
Proof.
  intros Hs Hf Hr E.
  destruct (ingest_spec cfg parse chunks s Hs) as [A [B C]].
  rewrite E in A.
  destruct (framed_decomposition_unique _ _ _ _ B C Hf Hr A) as [E1 E2].
  split; [exact E1|]. rewrite ingest_delivers, E1, E2. reflexivity.
Qed.

(** A text that is no JSON, the authentication success split over two
    chunks, and the beginning of a third frame: the success is handled
    (the bot subscribes) although the frame before it was skipped, and
    the two characters after it stay in the buffer. *)
Lemma stream_delivers_witness :
  let s := run bot_config reads_status [SocketConnect] (started Scenario.one_market) in
  let chunks := [Scenario.json "oops" ++ Scenario.CRLF ++ Scenario.json "{'op':'status',";
                 Scenario.json "'statusCode':'SUCCESS'}" ++ Scenario.CRLF
                   ++ Scenario.json "{'"] in
  let s' := snd (ingest bot_config reads_status chunks s) in
  List.length (fst (ingest bot_config reads_status chunks s)) = 2
  /\ buffer s' = Js.toString (Scenario.json "{'")
  /\ isSubscribed s' = true
  /\ map Scenario.shape (written s')
     = [("authentication", 0, 0); ("marketSubscription", 1, 1);
        ("orderSubscription", 999, 0)]%string.
Proof.
  intros s chunks s'.
  destruct (stream_delivers bot_config reads_status chunks s
              [Js.toString (Scenario.json "oops");
               Js.toString (Scenario.json "{'op':'status','statusCode':'SUCCESS'}")]
              (Js.toString (Scenario.json "{'")))
    as [A B].
  - vm_compute. reflexivity.
  - repeat (constructor; [vm_compute; reflexivity|]). constructor.
  - vm_compute. reflexivity.
  - vm_compute. reflexivity.
  - unfold s'. rewrite A, B. vm_compute. repeat split.
Defined.

(** *** Reconnection (lines 376-428) *)

(** Writing to the socket changes what was written, and nothing else the
    strategy looks at. *)
Lemma ws_write_frame m s :
  ws (ws_write m s) = ws s
  /\ gameHistoricalData (ws_write m s) = gameHistoricalData s
  /\ orderIds (ws_write m s) = orderIds s
  /\ hasOpenBet (ws_write m s) = hasOpenBet s
  /\ simBalance (ws_write m s) = simBalance s.
Proof. unfold ws_write. destruct (ws s) eqn:W; proj; now repeat split. Qed.

Lemma subscription_loop_frame fuel i ids s :
  ws (subscription_loop fuel i ids s) = ws s
  /\ gameHistoricalData (subscription_loop fuel i ids s) = gameHistoricalData s
  /\ orderIds (subscription_loop fuel i ids s) = orderIds s
  /\ hasOpenBet (subscription_loop fuel i ids s) = hasOpenBet s
  /\ simBalance (subscription_loop fuel i ids s) = simBalance s.
Proof.
  revert i s. induction fuel as [|fuel IH]; intros i s; cbn [subscription_loop];
    [now repeat split|].
  destruct (i <? List.length ids); [|now repeat split]. cbv zeta.
  match goal with |- context [subscription_loop fuel ?j ids (ws_write ?m s)] =>
    destruct (IH j (ws_write m s)) as [A [B [C [D E]]]];
    destruct (ws_write_frame m s) as [A' [B' [C' [D' E']]]] end.
  rewrite A, B, C, D, E. now repeat split.
Qed.

Lemma subscribe_frame s :
  ws (subscribeToOpenMarkets s) = ws s
  /\ gameHistoricalData (subscribeToOpenMarkets s) = gameHistoricalData s
  /\ orderIds (subscribeToOpenMarkets s) = orderIds s
  /\ hasOpenBet (subscribeToOpenMarkets s) = hasOpenBet s
  /\ simBalance (subscribeToOpenMarkets s) = simBalance s.
Proof.
  unfold subscribeToOpenMarkets.
  destruct (isSubscribed s); [now repeat split|]. cbv zeta.
  destruct (ws s) as [socket|] eqn:W; [|now repeat split].
  destruct (openMarketIds_of s) as [|id ids]; [now repeat split|].
  set (s1 := subscription_loop _ _ _ s).
  destruct (subscription_loop_frame (List.length (id :: ids)) 0 (id :: ids) s)
    as [A [B [C [D E]]]]. fold s1 in A, B, C, D, E.
  destruct (ws_write_frame (OrderSubscription 999) s1) as [A' [B' [C' [D' E']]]].
  proj. rewrite A', B', C', D', E', A, B, C, D, E, W. now repeat split.
Qed.

(** The router, the gateway answers and the writes to the socket leave the
    timers, the socket counter and the current socket alone. *)

Lemma link_refl s : keeps_link s s.
Proof. now repeat split. Qed.

Lemma link_then s s' s'' : keeps_link s' s'' -> keeps_link s s' -> keeps_link s s''.
Proof. intros [A2 [B2 C2]] [A1 [B1 C1]]. repeat split; congruence. Qed.

Lemma link_set_gameHistoricalData v s : keeps_link s (set_gameHistoricalData v s).
Proof. now repeat split. Qed.

Lemma link_set_orderIds v s : keeps_link s (set_orderIds v s).
Proof. now repeat split. Qed.

Lemma link_set_hasOpenBet v s : keeps_link s (set_hasOpenBet v s).
Proof. now repeat split. Qed.

Lemma link_set_testBetPlaced v s : keeps_link s (set_testBetPlaced v s).
Proof. now repeat split. Qed.

Lemma link_set_hasPlacedBet v s : keeps_link s (set_hasPlacedBet v s).
Proof. now repeat split. Qed.

Lemma link_set_simBalance v s : keeps_link s (set_simBalance v s).
Proof. now repeat split. Qed.

Lemma link_set_multiplier v s : keeps_link s (set_multiplier v s).
Proof. now repeat split. Qed.

Lemma link_set_isSubscribed v s : keeps_link s (set_isSubscribed v s).
Proof. now repeat split. Qed.

Lemma link_set_isAuthenticated v s : keeps_link s (set_isAuthenticated v s).
Proof. now repeat split. Qed.

Lemma link_set_buffer v s : keeps_link s (set_buffer v s).
Proof. now repeat split. Qed.

Lemma link_set_totalSetsCompleted v s : keeps_link s (set_totalSetsCompleted v s).
Proof. now repeat split. Qed.

Lemma link_set_totalConditionsMet v s : keeps_link s (set_totalConditionsMet v s).
Proof. now repeat split. Qed.

Lemma link_set_totalBetsPlaced v s : keeps_link s (set_totalBetsPlaced v s).
Proof. now repeat split. Qed.

Lemma link_set_written v s : keeps_link s (set_written v s).
Proof. now repeat split. Qed.

Lemma link_set_ndjson v s : keeps_link s (set_ndjson v s).
Proof. now repeat split. Qed.

Lemma link_set_pending v s : keeps_link s (set_pending v s).
Proof. now repeat split. Qed.

Lemma link_set_placeBetCalls v s : keeps_link s (set_placeBetCalls v s).
Proof. now repeat split. Qed.

Lemma link_incr_totalSetsCompleted s : keeps_link s (incr_totalSetsCompleted s).
Proof. now repeat split. Qed.

Lemma link_incr_totalConditionsMet s : keeps_link s (incr_totalConditionsMet s).
Proof. now repeat split. Qed.

Lemma link_incr_totalBetsPlaced s : keeps_link s (incr_totalBetsPlaced s).
Proof. now repeat split. Qed.

Lemma link_appendToNdjson e r s : keeps_link s (appendToNdjson e r s).
Proof. now repeat split. Qed.

Lemma link_modify_game k f s : keeps_link s (modify_game k f s).
Proof. now repeat split. Qed.

Create HintDb link.

#[global] Hint Extern 1 (keeps_link _ (set_gameHistoricalData _ _)) => apply link_set_gameHistoricalData : link.
#[global] Hint Extern 1 (keeps_link _ (set_orderIds _ _)) => apply link_set_orderIds : link.
#[global] Hint Extern 1 (keeps_link _ (set_hasOpenBet _ _)) => apply link_set_hasOpenBet : link.
#[global] Hint Extern 1 (keeps_link _ (set_testBetPlaced _ _)) => apply link_set_testBetPlaced : link.
#[global] Hint Extern 1 (keeps_link _ (set_hasPlacedBet _ _)) => apply link_set_hasPlacedBet : link.
#[global] Hint Extern 1 (keeps_link _ (set_simBalance _ _)) => apply link_set_simBalance : link.
#[global] Hint Extern 1 (keeps_link _ (set_multiplier _ _)) => apply link_set_multiplier : link.
#[global] Hint Extern 1 (keeps_link _ (set_isSubscribed _ _)) => apply link_set_isSubscribed : link.
#[global] Hint Extern 1 (keeps_link _ (set_isAuthenticated _ _)) => apply link_set_isAuthenticated : link.
#[global] Hint Extern 1 (keeps_link _ (set_buffer _ _)) => apply link_set_buffer : link.
#[global] Hint Extern 1 (keeps_link _ (set_totalSetsCompleted _ _)) => apply link_set_totalSetsCompleted : link.
#[global] Hint Extern 1 (keeps_link _ (set_totalConditionsMet _ _)) => apply link_set_totalConditionsMet : link.
#[global] Hint Extern 1 (keeps_link _ (set_totalBetsPlaced _ _)) => apply link_set_totalBetsPlaced : link.
#[global] Hint Extern 1 (keeps_link _ (set_written _ _)) => apply link_set_written : link.
#[global] Hint Extern 1 (keeps_link _ (set_ndjson _ _)) => apply link_set_ndjson : link.
#[global] Hint Extern 1 (keeps_link _ (set_pending _ _)) => apply link_set_pending : link.
#[global] Hint Extern 1 (keeps_link _ (set_placeBetCalls _ _)) => apply link_set_placeBetCalls : link.
#[global] Hint Extern 1 (keeps_link _ (incr_totalSetsCompleted _)) => apply link_incr_totalSetsCompleted : link.
#[global] Hint Extern 1 (keeps_link _ (incr_totalConditionsMet _)) => apply link_incr_totalConditionsMet : link.
#[global] Hint Extern 1 (keeps_link _ (incr_totalBetsPlaced _)) => apply link_incr_totalBetsPlaced : link.
#[global] Hint Extern 1 (keeps_link _ (appendToNdjson _ _ _)) => apply link_appendToNdjson : link.
#[global] Hint Extern 1 (keeps_link _ (modify_game _ _ _)) => apply link_modify_game : link.

Ltac link_chain := chain link_refl link_then ltac:(auto with link nocore).

Lemma link_ws_write m s : keeps_link s (ws_write m s).
Proof. unfold ws_write. link_chain. Qed.

Lemma link_subscription_loop fuel i ids s : keeps_link s (subscription_loop fuel i ids s).
Proof.
  revert i s. induction fuel as [|fuel IH]; intros i s; cbn [subscription_loop];
    [apply link_refl|].
  destruct (i <? List.length ids); [|apply link_refl].
  eapply link_then; [apply IH | apply link_ws_write].
Qed.

#[global] Hint Extern 1 (keeps_link _ (ws_write _ _)) => apply link_ws_write : link.
#[global] Hint Extern 1 (keeps_link _ (subscription_loop _ _ _ _)) =>
  apply link_subscription_loop : link.

Lemma link_subscribeToOpenMarkets s : keeps_link s (subscribeToOpenMarkets s).
Proof. unfold subscribeToOpenMarkets. link_chain. Qed.

Lemma link_placeBet cfg k sel price t s : keeps_link s (placeBet cfg k sel price t s).
Proof. unfold placeBet. cbv zeta. link_chain. Qed.

Lemma link_placeBet_end t s : keeps_link s (placeBet_end t s).
Proof. unfold placeBet_end. cbv zeta. link_chain. Qed.

#[global] Hint Extern 1 (keeps_link _ (subscribeToOpenMarkets _)) =>
  apply link_subscribeToOpenMarkets : link.
#[global] Hint Extern 1 (keeps_link _ (placeBet _ _ _ _ _ _)) => apply link_placeBet : link.
#[global] Hint Extern 1 (keeps_link _ (placeBet_end _ _)) => apply link_placeBet_end : link.

Lemma link_editBet cfg k b n p t s : keeps_link s (editBet cfg k b n p t s).
Proof. unfold editBet. link_chain. Qed.

#[global] Hint Extern 1 (keeps_link _ (editBet _ _ _ _ _ _ _)) => apply link_editBet : link.

Lemma link_placeBet_resume cfg e k sel price size t r s :
  keeps_link s (placeBet_resume cfg e k sel price size t r s).
Proof. unfold placeBet_resume. cbv zeta. link_chain. Qed.

Lemma link_editBet_resume k b n p t r s : keeps_link s (editBet_resume k b n p t r s).
Proof. unfold editBet_resume. cbv zeta. link_chain. Qed.

Lemma link_update_runner k runner s : keeps_link s (update_runner k runner s).
Proof. unfold update_runner. link_chain. Qed.

Lemma link_fold A (f : A -> State -> State) (l : list A) s :
  (forall a s, keeps_link s (f a s)) ->
  keeps_link s (fold_left (fun s a => f a s) l s).
Proof.
  intros Hf. revert s. induction l as [|a l IH]; intros s; cbn [fold_left].
  - apply link_refl.
  - eapply link_then; [apply IH | apply Hf].
Qed.

Lemma link_test_bet cfg k inplay s : keeps_link s (test_bet cfg k inplay s).
Proof. unfold test_bet. cbv zeta. link_chain. Qed.

Lemma link_odds_phase cfg k rcs inplay s : keeps_link s (odds_phase cfg k rcs inplay s).
Proof.
  unfold odds_phase. cbv zeta.
  assert (H : keeps_link s (test_bet cfg k inplay
                (fold_left (fun s runner => update_runner k runner s) rcs s))).
  { eapply link_then; [apply link_test_bet|].
    apply link_fold. intros. apply link_update_runner. }
  revert H. generalize (test_bet cfg k inplay
                (fold_left (fun s runner => update_runner k runner s) rcs s)).
  intros s' H. link_chain.
Qed.

Lemma link_score_phase cfg k mc s : keeps_link s (score_phase cfg k mc s).
Proof. unfold score_phase. link_chain. Qed.

Lemma link_settle cfg k game mc s : keeps_link s (snd (settle cfg k game mc s)).
Proof.
  unfold settle.
  destruct (bet game) as [b|]; [|apply link_refl].
  destruct (match marketDefinition mc with Some md => runners md | None => None end)
    as [rs|]; [|apply link_refl].
  destruct (find _ rs) as [winner|]; [|apply link_refl].
  destruct (enableSimulation cfg); destruct (Z.eqb _ _); cbn [snd]; now repeat split.
Qed.

Lemma link_status_phase cfg k mc s : keeps_link s (status_phase cfg k mc s).
Proof.
  unfold status_phase.
  destruct (is_closed mc); [|link_chain]. cbv zeta.
  assert (H : keeps_link s
                (modify_game k (fun g => set_status "ENDED" (set_isOpen false g)) s))
    by link_chain.
  revert H. generalize (modify_game k (fun g => set_status "ENDED" (set_isOpen false g)) s).
  intros s0 H.
  destruct (Dict.get k (gameHistoricalData s0)) as [game|]; [|assumption].
  pose proof (link_settle cfg k game mc s0) as Hs.
  destruct (settle cfg k game mc s0) as [[outcome pnl] s1]. cbn [snd] in Hs.
  assert (H1 : keeps_link s s1) by (eapply link_then; eassumption).
  clear Hs H. link_chain.
Qed.

#[global] Hint Extern 1 (keeps_link _ (odds_phase _ _ _ _ _)) => apply link_odds_phase : link.
#[global] Hint Extern 1 (keeps_link _ (score_phase _ _ _ _)) => apply link_score_phase : link.
#[global] Hint Extern 1 (keeps_link _ (status_phase _ _ _ _)) => apply link_status_phase : link.

Lemma link_price_phase cfg mc s : keeps_link s (price_phase cfg mc s).
Proof. unfold price_phase. link_chain. Qed.

#[global] Hint Extern 1 (keeps_link _ (price_phase _ _ _)) => apply link_price_phase : link.

Lemma link_market_change cfg mc s : keeps_link s (market_change cfg mc s).
Proof. unfold market_change. link_chain. Qed.

Lemma link_order_reports k game orders s :
  keeps_link s (state_of (order_reports k game orders s)).
Proof.
  revert s. induction orders as [|order rest IH]; intros s; cbn [order_reports];
    [apply link_refl|].
  destruct (or_profit order) as [profit|]; [|apply IH].
  destruct (_ && _); [|apply IH].
  destruct (bet game) as [b|]; [|apply link_refl].
  eapply link_then; [apply IH|]. link_chain.
Qed.

Lemma link_order_change cfg oc s : keeps_link s (state_of (order_change cfg oc s)).
Proof.
  unfold order_change.
  destruct (Dict.get _ _) as [game|]; [|apply link_refl].
  destruct (_ && _); [|apply link_refl].
  destruct (oc_or oc); [apply link_order_reports | apply link_refl].
Qed.

Lemma link_order_changes cfg ocs s : keeps_link s (state_of (order_changes cfg ocs s)).
Proof.
  revert s. induction ocs as [|oc rest IH]; intros s; cbn [order_changes];
    [apply link_refl|].
  pose proof (link_order_change cfg oc s) as H.
  destruct (order_change cfg oc s) as [s'|s']; cbn [state_of] in *.
  - eapply link_then; [apply IH | exact H].
  - exact H.
Qed.

Lemma link_handleStreamMessage cfg m s :
  keeps_link s (state_of (handleStreamMessage cfg m s)).
Proof.
  unfold handleStreamMessage.
  destruct (_ && _).
  - cbn [state_of]. link_chain.
  - destruct (String.eqb (op m) "mcm").
    + destruct (mc m); cbn [state_of]; [|apply link_refl].
      apply link_fold. intros. apply link_market_change.
    + destruct (String.eqb (op m) "ocm"); [|apply link_refl].
      destruct (oc m); [apply link_order_changes | apply link_refl].
Qed.

Lemma link_drain cfg parse fuel s : keeps_link s (snd (drain cfg parse fuel s)).
Proof.
  revert s. induction fuel as [|fuel IH]; intros s; cbn [drain]; [apply link_refl|].
  destruct (Js.indexOf_crlf (buffer s)) as [index|]; [|apply link_refl].
  match goal with |- context [drain cfg parse fuel ?t] =>
    pose proof (IH t) as H; destruct (drain cfg parse fuel t) as [frames s'] end.
  cbn [snd] in *. eapply link_then; [exact H|].
  eapply link_then; [|apply link_set_buffer].
  unfold dispatch. destruct (parse _); [apply link_handleStreamMessage | apply link_refl].
Qed.

Lemma link_traffic cfg parse e s :
  is_traffic e = true -> keeps_link s (step cfg parse e s).
Proof.
  destruct e; try discriminate; intros _; cbn [step].
  - apply link_ws_write.
  - unfold on_data. eapply link_then; [apply link_drain | apply link_set_buffer].
  - unfold gateway_reply.
    destruct (take_task task (pending s)) as [[t rest]|]; [|apply link_refl].
    eapply link_then; [|apply link_set_pending].
    destruct t; cbn [resume]; [apply link_placeBet_resume | apply link_editBet_resume].
Qed.

Lemma link_run cfg parse events s :
  forallb is_traffic events = true -> keeps_link s (run cfg parse events s).
Proof.
  revert s. induction events as [|e events IH]; intros s H; [apply link_refl|].
  cbn [forallb] in H. apply andb_prop in H. destruct H as [He H].
  unfold run in *. cbn [fold_left]. eapply link_then; [now apply IH | now apply link_traffic].
Qed.

Lemma run_app cfg parse a b s :
  run cfg parse (a ++ b) s = run cfg parse b (run cfg parse a s).
Proof. unfold run. apply fold_left_app. Qed.

(** A timer fires while the current socket is open, and the close of the
    socket it destroys follows. *)
Lemma replace_round cfg parse s delay rest :
  timers s = delay :: rest ->
  let s' := run cfg parse [ReconnectTimer; SocketClose] s in
  timers s' = rest ++ [reconnectDelay]
  /\ sockets s' = S (sockets s)
  /\ ws s' = Some (sockets s)
  /\ isSubscribed s' = false.
Proof.
  intros Ht. unfold run. cbn [fold_left step]. rewrite Ht.
  unfold on_close, schedule_reconnect, connectStreamAPI. cbv zeta.
  destruct (ws (set_timers rest s)); now repeat split.
Qed.

(** The reconnect after a failure, up to the authentication success. *)
Lemma reconnect_then_success cfg parse message s :
  timers s = [] ->
  op message = "status"%string ->
  statusCode message = "SUCCESS"%string ->
  openMarketIds_of s <> [] ->
  let s1 := run cfg parse [SocketClose; ReconnectTimer; SocketConnect] s in
  let s2 := state_of (handleStreamMessage cfg message s1) in
  buffer s1 = buffer s
  /\ ws s2 = Some (sockets s)
  /\ written s2 = written s ++ (sockets s, Authentication)
                   :: map (pair (sockets s)) (subscription_requests (openMarketIds_of s))
  /\ isSubscribed s2 = true
  /\ gameHistoricalData s2 = gameHistoricalData s
  /\ orderIds s2 = orderIds s
  /\ hasOpenBet s2 = hasOpenBet s
  /\ simBalance s2 = simBalance s.
Proof.
  intros Ht Hop Hcode Hids s1 s2.
  assert (H1 : ws s1 = Some (sockets s) /\ isSubscribed s1 = false
               /\ written s1 = written s ++ [(sockets s, Authentication)]
               /\ gameHistoricalData s1 = gameHistoricalData s
               /\ orderIds s1 = orderIds s /\ hasOpenBet s1 = hasOpenBet s
               /\ simBalance s1 = simBalance s /\ buffer s1 = buffer s).
  { subst s1. unfold run. cbn [fold_left step].
    unfold on_close, schedule_reconnect. cbv zeta. proj. rewrite Ht.
    cbn [app]. unfold on_connect, ws_write, connectStreamAPI. cbv zeta. proj.
    destruct (ws s); proj; now repeat split. }
  destruct H1 as [W [S1 [Wr [G [O [B [M Bf]]]]]]].
  split; [exact Bf|].
  assert (E : s2 = subscribeToOpenMarkets
                     (if negb (isAuthenticated s1) then set_isAuthenticated true s1 else s1)).
  { subst s2. unfold handleStreamMessage. rewrite Hop, Hcode. reflexivity. }
  set (s0 := if negb (isAuthenticated s1) then set_isAuthenticated true s1 else s1) in E.
  assert (H0 : ws s0 = Some (sockets s) /\ isSubscribed s0 = false
               /\ written s0 = written s1 /\ gameHistoricalData s0 = gameHistoricalData s).
  { subst s0. destruct (negb (isAuthenticated s1)); now repeat split. }
  destruct H0 as [W0 [S0 [Wr0 G0]]].
  assert (I0 : openMarketIds_of s0 = openMarketIds_of s)
    by (unfold openMarketIds_of; now rewrite G0).
  destruct (subscribe_written s0 (sockets s) W0 S0) as [A1 A2]; [now rewrite I0|].
  destruct (subscribe_frame s0) as [F1 [F2 [F3 [F4 F5]]]].
  assert (H0 : orderIds s0 = orderIds s /\ hasOpenBet s0 = hasOpenBet s
               /\ simBalance s0 = simBalance s).
  { subst s0. destruct (negb (isAuthenticated s1)); now repeat split. }
  destruct H0 as [O0 [B0 M0]].
  rewrite E, A1, A2, Wr0, Wr, I0, <- app_assoc, F1, F2, F3, F4, F5, W0, G0, O0, B0, M0.
  now repeat split.
Qed.

(** X4.  The current socket closes with nothing retained in the buffer
    and no other reconnect pending; the timer fires, the new socket
    connects, and its first data is the authentication success, one whole
    frame.  Then the bot subscribes again: the new socket has received the
    authentication and then the subscriptions for the markets still open,
    nothing is retained, and the store, the order identifiers,
    [hasOpenBet] and the balance are those from before the close.  (With a
    partial frame retained from the old connection the success is not
    parsed: that is C3.) *)
Theorem reconnection_resubscribes cfg parse data frame message s :
  timers s = [] ->
  buffer s = [] ->
  Js.toString data = frame ++ [Js.CR; Js.LF] ->
  no_crlf frame ->
  parse frame = Some message ->
  op message = "status"%string ->
  statusCode message = "SUCCESS"%string ->
  openMarketIds_of s <> [] ->
  let s2 := run cfg parse [SocketClose; ReconnectTimer; SocketConnect; SocketData data] s in
  ws s2 = Some (sockets s)
  /\ written s2 = written s ++ (sockets s, Authentication)
                   :: map (pair (sockets s)) (subscription_requests (openMarketIds_of s))
  /\ isSubscribed s2 = true
  /\ buffer s2 = []
  /\ gameHistoricalData s2 = gameHistoricalData s
  /\ orderIds s2 = orderIds s
  /\ hasOpenBet s2 = hasOpenBet s
  /\ simBalance s2 = simBalance s.
Proof.
  intros Ht Hb Hd Hn Hp Hop Hcode Hids s2.
  destruct (reconnect_then_success cfg parse message s Ht Hop Hcode Hids)
    as [Bf [A [B [C [D [E [F G]]]]]]].
  cbv zeta in Bf, A, B, C, D, E, F, G.
  set (s1 := run cfg parse [SocketClose; ReconnectTimer; SocketConnect] s) in *.
  assert (E2 : s2 = snd (on_data cfg parse data s1)).
  { subst s2 s1. change [SocketClose; ReconnectTimer; SocketConnect; SocketData data]
      with ([SocketClose; ReconnectTimer; SocketConnect] ++ [SocketData data]).
    now rewrite run_app. }
  destruct (on_data_spec cfg parse data s1) as [P [Q R]].
  rewrite Bf, Hb, Hd in P. cbn [app] in P.
  assert (U : fst (on_data cfg parse data s1) = [frame]
              /\ buffer (snd (on_data cfg parse data s1)) = []).
  { apply (framed_decomposition_unique _ _ [frame] []); try assumption.
    - now constructor.
    - reflexivity.
    - rewrite P. unfold framed. cbn [map List.concat]. now rewrite !app_nil_r. }
  destruct U as [U1 U2].
  assert (E3 : s2 = set_buffer [] (state_of (handleStreamMessage cfg message s1))).
  { rewrite E2, on_data_delivers, U1, U2. unfold parsed. cbn [flat_map]. rewrite Hp.
    reflexivity. }
  rewrite E3. proj. now repeat split.
Qed.

(** Market 1.1 is open when the socket closes: socket 1 is opened and
    receives the authentication, the market subscription and the order
    subscription. *)
Lemma reconnection_resubscribes_witness :
  let s := started Scenario.one_market in
  let status := Scenario.json "{'op':'status','statusCode':'SUCCESS'}" in
  let s2 := run bot_config reads_status
              [SocketClose; ReconnectTimer; SocketConnect;
               SocketData (status ++ Scenario.CRLF)] s in
  ws s2 = Some 1
  /\ map Scenario.shape (written s2)
     = [("authentication", 0, 0); ("marketSubscription", 1, 1);
        ("orderSubscription", 999, 0)]%string
  /\ map fst (written s2) = [1; 1; 1]
  /\ isSubscribed s2 = true.
Proof.
  intros s status s2.
  destruct (reconnection_resubscribes bot_config reads_status (status ++ Scenario.CRLF)
              (Js.toString status) Scenario.status_success s)
    as [A [B [C _]]]; try (vm_compute; reflexivity); [discriminate|].
  fold s2 in A, B, C. split; [exact A|]. rewrite B.
  split; [vm_compute; reflexivity|]. split; [vm_compute; reflexivity | exact C].
Defined.

(** X5.  Nothing merges or cancels reconnects, and one error is enough to
    make the bot reconnect for ever.  An error is followed by the close of
    the same socket, and each of the two handlers schedules its own
    [connectStreamAPI] 20 seconds later.  The first timer opens a socket;
    the second destroys that socket, which is open, and opens another; the
    close of the destroyed socket schedules a third reconnect, which
    destroys the socket in use in its turn; and so on.  Whatever traffic
    there is in between, after every round a reconnect is pending again,
    one more socket has been opened, and the connection is unsubscribed.
    (Node emits [close] after [error], and for a socket destroyed while
    open: these are the [SocketClose] events of the run.) *)
Theorem error_reconnects_forever cfg parse s rounds :
  timers s = [] ->
  Forall (fun traffic => forallb is_traffic traffic = true) rounds ->
  let s1 := run cfg parse [SocketError; SocketClose] s in
  let s2 := run cfg parse [ReconnectTimer; ReconnectTimer; SocketClose] s1 in
  let s3 := run cfg parse
              (List.concat (map (fun traffic => traffic ++ [ReconnectTimer; SocketClose])
                              rounds)) s2 in
  (timers s1 = [reconnectDelay; reconnectDelay] /\ ws s1 = ws s /\ sockets s1 = sockets s)
  /\ (timers s2 = [reconnectDelay] /\ sockets s2 = sockets s + 2
      /\ ws s2 = Some (sockets s + 1))
  /\ (timers s3 = [reconnectDelay]
      /\ sockets s3 = sockets s + 2 + List.length rounds
      /\ ws s3 = Some (sockets s + 1 + List.length rounds)
      /\ isSubscribed s3 = false).
Proof.
  intros Ht Hr s1 s2 s3.
  assert (H1 : timers s1 = [reconnectDelay; reconnectDelay] /\ ws s1 = ws s
               /\ sockets s1 = sockets s).
  { subst s1. unfold run. cbn [fold_left step].
    unfold on_close, on_error, schedule_reconnect. cbv zeta. proj. rewrite Ht.
    now repeat split. }
  destruct H1 as [T1 [W1 S1]].
  assert (H2 : timers s2 = [reconnectDelay] /\ sockets s2 = sockets s + 2
               /\ ws s2 = Some (sockets s + 1) /\ isSubscribed s2 = false).
  { subst s2. change [ReconnectTimer; ReconnectTimer; SocketClose]
      with ([ReconnectTimer] ++ [ReconnectTimer; SocketClose]).
    rewrite run_app.
    assert (H0 : timers (run cfg parse [ReconnectTimer] s1) = [reconnectDelay]
                 /\ sockets (run cfg parse [ReconnectTimer] s1) = S (sockets s)).
    { unfold run. cbn [fold_left step]. rewrite T1. unfold connectStreamAPI. cbv zeta.
      destruct (ws (set_timers [reconnectDelay] s1)); proj; rewrite S1; now split. }
    destruct H0 as [T0 S0].
    destruct (replace_round cfg parse _ _ _ T0) as [A [B [C D]]].
    cbv zeta in A, B, C, D. rewrite A, B, C, D, S0. cbn [app].
    repeat split; first [reflexivity | lia | f_equal; lia]. }
  destruct H2 as [T2 [S2 [W2 I2]]].
  split; [now repeat split|]. split; [now repeat split|].
  subst s3. clearbody s2. clear s1 T1 W1 S1 Ht.
  revert s2 T2 S2 W2 I2.
  assert (G : forall n s2,
            timers s2 = [reconnectDelay] -> sockets s2 = n -> ws s2 = Some (n - 1) ->
            n >= 1 -> isSubscribed s2 = false ->
            let s3 := run cfg parse
                        (List.concat (map (fun traffic => traffic ++ [ReconnectTimer; SocketClose])
                                        rounds)) s2 in
            timers s3 = [reconnectDelay] /\ sockets s3 = n + List.length rounds
            /\ ws s3 = Some (n - 1 + List.length rounds) /\ isSubscribed s3 = false).
  { induction Hr as [|traffic rounds Htr _ IH]; intros n s2 T2 S2 W2 Hn I2.
    - cbn [map List.concat List.length]. unfold run. cbn [fold_left].
      rewrite !Nat.add_0_r. now repeat split.
    - cbn [map List.concat List.length]. cbv zeta. rewrite <- app_assoc, !run_app.
      destruct (link_run cfg parse traffic s2 Htr) as [L1 [L2 L3]].
      rewrite T2 in L1.
      destruct (replace_round cfg parse _ _ _ L1) as [A [B [C D]]].
      cbv zeta in A, B, C, D. cbn [app] in A.
      destruct (IH (S n) _ A) as [E1 [E2 [E3 E4]]].
      + rewrite B, L2, S2. reflexivity.
      + rewrite C, L2, S2. f_equal. lia.
      + lia.
      + exact D.
      + cbv zeta in E1, E2, E3, E4. rewrite E1, E2, E3, E4.
        repeat split; first [reflexivity | lia | f_equal; lia]. }
  intros s2 T2 S2 W2 I2.
  destruct (G (sockets s + 2) s2 T2 S2) as [E1 [E2 [E3 E4]]].
  - rewrite W2. f_equal. lia.
  - lia.
  - exact I2.
  - cbv zeta in E1, E2, E3, E4. rewrite E1, E2, E3, E4. repeat split; first [reflexivity | lia | f_equal; lia].
Qed.

(** From the start of the script: an error and the close of socket 0, both
    timers, the close of socket 1, then two rounds in which the new socket
    connects and is replaced: sockets 1 to 4 have been opened, socket 4 is
    in use, and the next reconnect is pending. *)
Lemma error_reconnects_forever_witness :
  let s := started Scenario.one_market in
  let s3 := run bot_config Scenario.not_json
              [SocketError; SocketClose; ReconnectTimer; ReconnectTimer; SocketClose;
               SocketConnect; ReconnectTimer; SocketClose;
               SocketConnect; ReconnectTimer; SocketClose] s in
  sockets s = 1
  /\ timers s3 = [reconnectDelay]
  /\ sockets s3 = 5
  /\ ws s3 = Some 4.
Proof.
  intros s s3.
  destruct (error_reconnects_forever bot_config Scenario.not_json s
              [[SocketConnect]; [SocketConnect]] eq_refl) as [_ [_ [A [B [C _]]]]].
  - repeat constructor.
  - cbv zeta in A, B, C. rewrite <- !run_app in A, B, C.
    split; [reflexivity|]. split; [exact A|]. split; [exact B | exact C].
Defined.
